(** * Restart recovery of the storage manager (src/sm/restart.cpp)

    A shallow embedding of [restart_m]: the recovery coordinator
    [recover], the Log Analysis pass, the log driven REDO pass, the
    reverse chronological UNDO pass and the transaction driven UNDO pass.

    Stateful code is written in a small state-and-error monad over the part
    of the storage manager state that restart.cpp reads and writes.  A
    [W_FATAL_MSG] (and a failed [W_COERCE] or [w_assert0]) is the [Fatal]
    result; loops whose termination the code does not establish take fuel
    and give [Diverge] when it runs out.  Debug-only assertions
    ([w_assert1], [w_assert2], [w_assert9]) and [DBGOUT] output are not
    part of the model. *)

From stdpp Require Import gmap list strings.

Open Scope N_scope.

(** ** Log sequence numbers, transaction and page identifiers *)

(** [lsn_t]: a 64-bit identifier, totally ordered; [lsn_t::null] is zero.
    The type names of the source are kept as notations for [N]. *)
Abbreviation lsn_t := N (only parsing).
Definition lsn_null : lsn_t := 0.
Definition lsn_modulus : N := 2 ^ 64.

(** [lsn_t::advance(n)] and [lsn + n]: 64-bit unsigned addition. *)
Definition lsn_advance (l : lsn_t) (n : N) : lsn_t := (l + n) mod lsn_modulus.

Abbreviation tid_t := N (only parsing).
Definition tid_null : tid_t := 0.

Abbreviation bf_idx := N (only parsing).

(** [lpid_t]: volume, store and page number. *)
Record lpid_t := Lpid { pid_vol : N; pid_store : N; pid_page : N }.

(** [bf_key(vol, page)]: the 64-bit hash table key of a page, the volume in
    the upper half. *)
Definition bf_key (vol page : N) : N := N.shiftl vol 32 + page.

(** [uint32_t] counters ([in_doubt_count], [dirty_count]). *)
Definition uint32_modulus : N := 2 ^ 32.
Definition u32_incr (c : N) : N := (c + 1) mod uint32_modulus.
Definition u32_decr (c : N) : N := (c + uint32_modulus - 1) mod uint32_modulus.

(** ** Log records *)

(** The record kinds restart.cpp names; [t_other] stands for every other
    value of [logrec_t::kind_t]. *)
Inductive kind_t :=
| t_comment | t_compensate | t_skip
| t_chkpt_begin | t_chkpt_bf_tab | t_chkpt_xct_tab | t_chkpt_dev_tab
| t_chkpt_end
| t_mount_vol | t_dismount_vol
| t_xct_abort | t_xct_freeing_space | t_xct_end | t_xct_end_group
| t_alloc_a_page | t_alloc_consecutive_pages | t_dealloc_a_page
| t_store_operation | t_page_set_to_be_deleted | t_page_img_format
| t_btree_norec_alloc | t_btree_insert | t_btree_insert_nonghost
| t_btree_update | t_btree_overwrite | t_btree_ghost_mark
| t_btree_ghost_reclaim | t_btree_ghost_reserve
| t_btree_foster_adopt | t_btree_foster_merge | t_btree_foster_rebalance
| t_btree_foster_rebalance_norec | t_btree_foster_deadopt
| t_max_logrec
| t_other (code : N).

Global Instance kind_t_eq_dec : EqDecision kind_t.
Proof. solve_decision. Defined.

Definition kind_eqb (a b : kind_t) : bool := bool_decide (a = b).

Inductive xct_state_t :=
| xct_active | xct_freeing_space | xct_aborting | xct_ended.

Global Instance xct_state_t_eq_dec : EqDecision xct_state_t.
Proof. solve_decision. Defined.

(** One entry of [chkpt_xct_tab_t::xrec]. *)
Record xrec_t := Xrec {
  xrec_tid : tid_t;
  xrec_state : xct_state_t;
  xrec_last_lsn : lsn_t;
  xrec_undo_nxt : lsn_t;
  xrec_first_lsn : lsn_t }.

(** [logrec_t].  The header fields and flags are the ones restart.cpp
    reads.  [r.data()] is raw memory that each record kind reads through its
    own struct; the model keeps one field per view. *)
Record logrec_t := Logrec {
  r_type : kind_t;
  r_tid : tid_t;
  r_lsn_ck : lsn_t;
  r_xid_prev : lsn_t;
  r_length : N;
  r_header_ok : bool;               (* length and kind within bounds *)
  r_is_single_sys_xct : bool;
  r_is_redo : bool;
  r_is_undo : bool;
  r_is_cpsn : bool;
  r_is_multi_page : bool;
  r_vol : N;
  r_snum : N;
  r_shpid : N;                       (* r.shpid() *)
  r_shpid2 : N;                      (* page number of the second page *)
  r_last_mount : lsn_t;              (* chkpt_begin: the LSN at r.data() *)
  r_bf_tab : list (lpid_t * lsn_t)%type;  (* chkpt_bf_tab_t::brec *)
  r_xct_youngest : tid_t;            (* chkpt_xct_tab_t::youngest *)
  r_xct_tab : list xrec_t;           (* chkpt_xct_tab_t::xrec *)
  r_dev_tab : list (string * N)%type;     (* chkpt_dev_tab_t::devrec *)
  r_chkpt_end : (lsn_t * lsn_t * lsn_t)%type; (* begin_chkpt, min_rec, min_xct *)
  r_xct_list : list tid_t }.         (* xct_list_t::xrec[i].tid *)

Definition construct_pid (r : logrec_t) : lpid_t :=
  Lpid (r_vol r) (r_snum r) (r_shpid r).
Definition construct_pid2 (r : logrec_t) : lpid_t :=
  Lpid (r_vol r) (r_snum r) (r_shpid2 r).

(** Modelled from the spec: the predicates of logrec_t that logrec.h (not
    under src/) defines inline.  restart.cpp documents each at its use:
    [null_pid] checks the page number recorded in the record; [is_skip] is
    the t_skip partition marker; a page allocation is t_alloc_a_page or
    t_alloc_consecutive_pages; a page deallocation is t_dealloc_a_page or
    t_page_set_to_be_deleted; a page update is redoable, has a pid and is
    not a compensation. *)
Definition null_pid (r : logrec_t) : bool := N.eqb (r_shpid r) 0.
Definition is_skip (r : logrec_t) : bool := kind_eqb (r_type r) t_skip.
Definition is_page_allocate (r : logrec_t) : bool :=
  kind_eqb (r_type r) t_alloc_a_page
  || kind_eqb (r_type r) t_alloc_consecutive_pages.
Definition is_page_deallocate (r : logrec_t) : bool :=
  kind_eqb (r_type r) t_dealloc_a_page
  || kind_eqb (r_type r) t_page_set_to_be_deleted.
Definition is_page_update (r : logrec_t) : bool :=
  r_is_redo r && negb (r_is_cpsn r) && negb (null_pid r).
Definition valid_header (r : logrec_t) (lsn : lsn_t) : bool :=
  r_header_ok r && N.eqb lsn (r_lsn_ck r).

(** ** Storage manager state *)

Inductive operating_mode_t :=
| t_before_recovery | t_in_analysis | t_in_redo | t_in_undo
| t_forward_processing.

Global Instance operating_mode_t_eq_dec : EqDecision operating_mode_t.
Proof. solve_decision. Defined.

(** [xct_t]: the fields of a transaction descriptor that recovery uses. *)
Record xct_t := Xct {
  x_tid : tid_t;
  x_state : xct_state_t;
  x_last_lsn : lsn_t;
  x_first_lsn : lsn_t;
  x_undo_nxt : lsn_t;
  x_is_sys_xct : bool;
  x_is_single_log_sys_xct : bool;
  x_is_doomed_xct : bool }.

(** [bf_tree_cb_t] together with the LSN in the header of the page held in
    the frame of the same index ([generic_page::lsn]). *)
Record bf_tree_cb_t := Cb {
  cb_pid_vol : N;
  cb_store_num : N;
  cb_pid_shpid : N;
  cb_in_doubt : bool;
  cb_dirty : bool;
  cb_used : bool;
  cb_rec_lsn : lsn_t;
  cb_page_lsn : lsn_t }.

Inductive func_t :=
| f_recover | f_analysis_pass | f_redo_pass | f_undo_pass.

(** What the storage manager does to the world outside this state, in
    program order. *)
Inductive event :=
| EvFunc (f : func_t)                       (* FUNC(...) on entry *)
| EvMode (m : operating_mode_t)             (* operating_mode = m *)
| EvSwizzling (b : bool)                    (* bf->set_swizzling_enabled(b) *)
| EvSynchTake                               (* chkpt->synch_take() *)
| EvForceAll                                (* bf->force_all() *)
| EvFlushAll                                (* log->flush_all() *)
| EvLogComment                              (* log_comment(...) *)
| EvMount (dev : string) (vid : N)          (* io_m::mount *)
| EvDismount (vid : N)                      (* io_m::dismount *)
| EvRedo (lsn : lsn_t) (page : option bf_idx) (* r.redo(page) *)
| EvLoad (idx : bf_idx)                     (* bf->load_for_redo *)
| EvFix (idx : bf_idx)                      (* page.fix_recovery_redo *)
| EvSPR (idx : bf_idx) (emlsn : lsn_t)      (* log->recover_single_page *)
| EvInDoubtToDirty (idx : bf_idx)           (* bf->in_doubt_to_dirty *)
| EvUnlock (tid : tid_t)                    (* lm->unlock_duration() *)
| EvRollback (tid : tid_t) (save_pt : lsn_t) (* xd->rollback(save_pt) *)
| EvUndo (lsn : lsn_t)                      (* undo of one record *)
| EvAbort (tid : tid_t)                     (* xd->abort() *)
| EvDestroy (tid : tid_t).                  (* xct_t::destroy_xct *)

Record sm := Sm {
  operating_mode : operating_mode_t;
  swizzling_enabled : bool;
  hashtable : gmap N bf_idx;
  cbs : gmap N bf_tree_cb_t;
  xct_tab : list xct_t;
  nxt_tid : tid_t;
  curr_lsn : lsn_t;
  last_mount_lsn : lsn_t;
  commit_lsn_global : lsn_t;
  trace : list event }.

(** Where a failed run stopped. *)
Inductive fatal :=
| F_not_before_recovery
| F_first_not_chkpt_begin
| F_bad_lsn
| F_page_zero
| F_register_failed
| F_ssx_without_page
| F_master_mismatch
| F_undoable_compensation
| F_unexpected_type
| F_missing_redo_lsn
| F_missing_undo_lsn
| F_xct_not_doomed
| F_not_implemented
| F_not_log_driven
| F_invalid_header
| F_no_page_xct_not_active
| F_dirty_count
| F_latch
| F_page_not_on_disk
| F_load_failed
| F_wal_violation
| F_dealloc_in_hashtable
| F_bad_flags
| F_page_not_in_hashtable
| F_assert0
| F_null_xct                       (* dereference of a null xct_t* *)
| F_coerce.                        (* W_COERCE / W_DO of a failed call *)

Inductive result (A : Type) :=
| Ok (a : A)
| Fatal (e : fatal)
| Diverge.
Arguments Ok {A} a.
Arguments Fatal {A} e.
Arguments Diverge {A}.

(** ** The monad *)

Definition M (A : Type) : Type := sm -> result (A * sm)%type.

Definition ret {A} (a : A) : M A := fun s => Ok (a, s).
Definition bind {A B} (c : M A) (k : A -> M B) : M B :=
  fun s => match c s with
           | Ok (a, s') => k a s'
           | Fatal e => Fatal e
           | Diverge => Diverge
           end.
Definition W_FATAL {A} (e : fatal) : M A := fun _ => Fatal e.
Definition out_of_fuel {A} : M A := fun _ => Diverge.
Definition gets {A} (f : sm -> A) : M A := fun s => Ok (f s, s).
Definition modify (f : sm -> sm) : M unit := fun s => Ok (tt, f s).

Declare Scope sm_scope.
Delimit Scope sm_scope with sm.
Notation "x <- c ;; k" := (bind c (fun x => k))
  (at level 100, c at next level, right associativity) : sm_scope.
Notation "c ;;; k" := (bind c (fun _ => k))
  (at level 100, right associativity) : sm_scope.
Open Scope sm_scope.

Definition when (b : bool) (c : M unit) : M unit := if b then c else ret tt.

Fixpoint forM_ {A} (l : list A) (f : A -> M unit) : M unit :=
  match l with
  | [] => ret tt
  | a :: l' => f a ;;; forM_ l' f
  end.

(** ** Field updates *)

Definition set_operating_mode (m : operating_mode_t) (s : sm) : sm :=
  Sm m (swizzling_enabled s) (hashtable s) (cbs s) (xct_tab s) (nxt_tid s)
     (curr_lsn s) (last_mount_lsn s) (commit_lsn_global s) (trace s).
Definition set_swizzling (b : bool) (s : sm) : sm :=
  Sm (operating_mode s) b (hashtable s) (cbs s) (xct_tab s) (nxt_tid s)
     (curr_lsn s) (last_mount_lsn s) (commit_lsn_global s) (trace s).
Definition set_hashtable (h : gmap N bf_idx) (s : sm) : sm :=
  Sm (operating_mode s) (swizzling_enabled s) h (cbs s) (xct_tab s)
     (nxt_tid s) (curr_lsn s) (last_mount_lsn s) (commit_lsn_global s)
     (trace s).
Definition set_cbs (c : gmap N bf_tree_cb_t) (s : sm) : sm :=
  Sm (operating_mode s) (swizzling_enabled s) (hashtable s) c (xct_tab s)
     (nxt_tid s) (curr_lsn s) (last_mount_lsn s) (commit_lsn_global s)
     (trace s).
Definition set_xct_tab (t : list xct_t) (s : sm) : sm :=
  Sm (operating_mode s) (swizzling_enabled s) (hashtable s) (cbs s) t
     (nxt_tid s) (curr_lsn s) (last_mount_lsn s) (commit_lsn_global s)
     (trace s).
Definition set_nxt_tid (t : tid_t) (s : sm) : sm :=
  Sm (operating_mode s) (swizzling_enabled s) (hashtable s) (cbs s)
     (xct_tab s) t (curr_lsn s) (last_mount_lsn s) (commit_lsn_global s)
     (trace s).
Definition set_curr_lsn (l : lsn_t) (s : sm) : sm :=
  Sm (operating_mode s) (swizzling_enabled s) (hashtable s) (cbs s)
     (xct_tab s) (nxt_tid s) l (last_mount_lsn s) (commit_lsn_global s)
     (trace s).
Definition set_last_mount_lsn (l : lsn_t) (s : sm) : sm :=
  Sm (operating_mode s) (swizzling_enabled s) (hashtable s) (cbs s)
     (xct_tab s) (nxt_tid s) (curr_lsn s) l (commit_lsn_global s) (trace s).
Definition set_commit_lsn_global (l : lsn_t) (s : sm) : sm :=
  Sm (operating_mode s) (swizzling_enabled s) (hashtable s) (cbs s)
     (xct_tab s) (nxt_tid s) (curr_lsn s) (last_mount_lsn s) l (trace s).
Definition add_event (e : event) (s : sm) : sm :=
  Sm (operating_mode s) (swizzling_enabled s) (hashtable s) (cbs s)
     (xct_tab s) (nxt_tid s) (curr_lsn s) (last_mount_lsn s)
     (commit_lsn_global s) (trace s ++ [e]).

Definition emit (e : event) : M unit := modify (add_event e).

(** ** The environment of a recovery run *)

(** What [bf_tree_m::load_for_redo] finds on disk. *)
Inductive load_t :=
| LoadOk (page_lsn : lsn_t)           (* page read, with this LSN on it *)
| LoadPastEnd                         (* past end of file: frame zeroed *)
| LoadBadChecksum (page_lsn : lsn_t)  (* eBADCHECKSUM *)
| LoadError.                          (* any other error *)

(** The configuration and the collaborators that restart.cpp calls and that
    live outside it: the mode predicates of restart.h, the recovery log,
    the disk, and the return codes of calls the code wraps in [W_COERCE]. *)
Record env := Env {
  use_serial_recovery : bool;
  use_concurrent_log_recovery : bool;
  use_concurrent_lock_recovery : bool;
  use_redo_log_recovery : bool;
  use_undo_reverse_recovery : bool;
  use_undo_txn_recovery : bool;
  use_undo_delay_recovery : bool;
  the_log : list (lsn_t * logrec_t);   (* the recovery log, in LSN order *)
  block_cnt : N;                       (* bf->get_block_cnt() *)
  latch_ok : bf_idx -> bool;           (* latch_acquire(LATCH_EX, WAIT_IMMEDIATE) *)
  disk_read : N -> N -> load_t;        (* volume, page number *)
  spr_result : bf_idx -> lsn_t -> option lsn_t;
                                       (* page LSN after single page repair *)
  rc_ok : event -> bool;               (* does this outside call succeed *)
  log_bytes : event -> N }.            (* log space the call consumes *)

(** ** The recovery log *)

(** Modelled from the spec: the Log Cursor ([log_i::xct_next], implemented in
    log.cpp, not under src/).  A forward scan opened at [start] yields the
    records at or after [start] in log order; [log->fetch] returns the
    record stored at an LSN. *)
Fixpoint log_scan (log : list (lsn_t * logrec_t)) (start : lsn_t)
  : list (lsn_t * logrec_t) :=
  match log with
  | [] => []
  | (lsn, r) :: log' =>
      if N.ltb lsn start then log_scan log' start else log
  end.

Fixpoint log_fetch (log : list (lsn_t * logrec_t)) (lsn : lsn_t)
  : option logrec_t :=
  match log with
  | [] => None
  | (l, r) :: log' => if N.eqb l lsn then Some r else log_fetch log' lsn
  end.

(** ** The transaction table *)

(** Modelled from the spec: the transaction table interface of xct.h and
    xct.cpp (not under src/): [new_xct], [look_up], [update_youngest_tid],
    [destroy_xct] and the per-transaction setters.  The table is kept in
    iteration order ([xct_i]); new transactions are inserted at the head. *)
Definition look_up (tid : tid_t) (t : list xct_t) : option xct_t :=
  List.find (fun x => N.eqb (x_tid x) tid) t.

Fixpoint xct_alter (f : xct_t -> xct_t) (tid : tid_t) (t : list xct_t)
  : list xct_t :=
  match t with
  | [] => []
  | x :: t' =>
      if N.eqb (x_tid x) tid then f x :: t' else x :: xct_alter f tid t'
  end.

Fixpoint xct_remove (tid : tid_t) (t : list xct_t) : list xct_t :=
  match t with
  | [] => []
  | x :: t' => if N.eqb (x_tid x) tid then t' else x :: xct_remove tid t'
  end.

Definition with_state (st : xct_state_t) (x : xct_t) : xct_t :=
  Xct (x_tid x) st (x_last_lsn x) (x_first_lsn x) (x_undo_nxt x)
      (x_is_sys_xct x) (x_is_single_log_sys_xct x) (x_is_doomed_xct x).
Definition with_last_lsn (l : lsn_t) (x : xct_t) : xct_t :=
  Xct (x_tid x) (x_state x) l (x_first_lsn x) (x_undo_nxt x)
      (x_is_sys_xct x) (x_is_single_log_sys_xct x) (x_is_doomed_xct x).
Definition with_first_lsn (l : lsn_t) (x : xct_t) : xct_t :=
  Xct (x_tid x) (x_state x) (x_last_lsn x) l (x_undo_nxt x)
      (x_is_sys_xct x) (x_is_single_log_sys_xct x) (x_is_doomed_xct x).
Definition with_undo_nxt (l : lsn_t) (x : xct_t) : xct_t :=
  Xct (x_tid x) (x_state x) (x_last_lsn x) (x_first_lsn x) l
      (x_is_sys_xct x) (x_is_single_log_sys_xct x) (x_is_doomed_xct x).

Definition xct_look_up (tid : tid_t) : M (option xct_t) :=
  gets (fun s => look_up tid (xct_tab s)).

Definition new_xct (tid : tid_t) (st : xct_state_t) (last_lsn undo_nxt : lsn_t)
    (sys_xct single_log_sys_xct doomed : bool) : M unit :=
  modify (fun s =>
    set_xct_tab
      (Xct tid st last_lsn lsn_null undo_nxt sys_xct single_log_sys_xct doomed
         :: xct_tab s) s).

Definition xct_modify (f : xct_t -> xct_t) (tid : tid_t) : M unit :=
  modify (fun s => set_xct_tab (xct_alter f tid (xct_tab s)) s).

Definition change_state (tid : tid_t) (st : xct_state_t) : M unit :=
  xct_modify (with_state st) tid.
Definition set_last_lsn (tid : tid_t) (l : lsn_t) : M unit :=
  xct_modify (with_last_lsn l) tid.
Definition set_first_lsn (tid : tid_t) (l : lsn_t) : M unit :=
  xct_modify (with_first_lsn l) tid.
Definition set_undo_nxt (tid : tid_t) (l : lsn_t) : M unit :=
  xct_modify (with_undo_nxt l) tid.

Definition destroy_xct (tid : tid_t) : M unit :=
  modify (fun s => set_xct_tab (xct_remove tid (xct_tab s)) s) ;;;
  emit (EvDestroy tid).

(** [xct_t::_nxt_tid.atomic_incr()]. *)
Definition nxt_tid_atomic_incr : M tid_t :=
  modify (fun s => set_nxt_tid (nxt_tid s + 1) s) ;;;
  gets nxt_tid.

Definition update_youngest_tid (tid : tid_t) : M unit :=
  modify (fun s => set_nxt_tid (N.max (nxt_tid s) tid) s).

(** [xct_t::num_active_xcts()]: the number of transaction objects. *)
Definition num_active_xcts : M N :=
  gets (fun s => N.of_nat (length (xct_tab s))).

(** ** The buffer pool *)

(** Modelled from the spec: the buffer pool interface of bf_tree.h (not
    under src/): [lookup_in_doubt], [is_in_doubt], [is_dirty], [is_used],
    [clear_in_doubt], [register_and_mark] (which lowers [rec_lsn] when the
    page is already registered and fails when no free block is left),
    [in_doubt_to_dirty] and [load_for_redo].  Index 0 is never used. *)
Definition lookup_in_doubt (key : N) : M bf_idx :=
  gets (fun s => default 0 (hashtable s !! key)).

Definition cb_flag (f : bf_tree_cb_t -> bool) (idx : bf_idx) : M bool :=
  gets (fun s => match cbs s !! idx with Some cb => f cb | None => false end).
Definition is_in_doubt := cb_flag cb_in_doubt.
Definition is_dirty := cb_flag cb_dirty.
Definition is_used := cb_flag cb_used.

Definition cb_modify (f : bf_tree_cb_t -> bf_tree_cb_t) (idx : bf_idx)
  : M unit :=
  modify (fun s => set_cbs (alter f idx (cbs s)) s).

Definition with_flags (in_doubt dirty used : bool) (cb : bf_tree_cb_t)
  : bf_tree_cb_t :=
  Cb (cb_pid_vol cb) (cb_store_num cb) (cb_pid_shpid cb) in_doubt dirty used
     (cb_rec_lsn cb) (cb_page_lsn cb).
Definition with_rec_lsn (l : lsn_t) (cb : bf_tree_cb_t) : bf_tree_cb_t :=
  Cb (cb_pid_vol cb) (cb_store_num cb) (cb_pid_shpid cb) (cb_in_doubt cb)
     (cb_dirty cb) (cb_used cb) l (cb_page_lsn cb).
Definition with_page_lsn (l : lsn_t) (cb : bf_tree_cb_t) : bf_tree_cb_t :=
  Cb (cb_pid_vol cb) (cb_store_num cb) (cb_pid_shpid cb) (cb_in_doubt cb)
     (cb_dirty cb) (cb_used cb) (cb_rec_lsn cb) l.
Definition with_pid (pid : lpid_t) (cb : bf_tree_cb_t) : bf_tree_cb_t :=
  Cb (pid_vol pid) (pid_store pid) (pid_page pid) (cb_in_doubt cb)
     (cb_dirty cb) (cb_used cb) (cb_rec_lsn cb) (cb_page_lsn cb).

Definition clear_in_doubt (idx : bf_idx) (still_used : bool) (key : N)
  : M unit :=
  cb_modify (fun cb => with_flags false (cb_dirty cb)
                         (still_used && cb_used cb) cb) idx ;;;
  when (negb still_used)
       (modify (fun s => set_hashtable (delete key (hashtable s)) s)).

Definition in_doubt_to_dirty (idx : bf_idx) : M unit :=
  cb_modify (with_flags false true true) idx ;;;
  emit (EvInDoubtToDirty idx).

(** The first block from index 1 that holds no page in use. *)
Fixpoint grab_free_block (c : gmap N bf_tree_cb_t) (from : N) (n : nat)
  : option bf_idx :=
  match n with
  | O => None
  | S n' =>
      match c !! from with
      | Some cb => if cb_used cb then grab_free_block c (from + 1) n'
                   else Some from
      | None => Some from
      end
  end.

(** Returns the index (0 on failure) and the new [in_doubt_count]. *)
Definition register_and_mark (e : env) (pid : lpid_t) (lsn : lsn_t)
    (in_doubt_count : N) : M (option bf_idx * N) :=
  let key := bf_key (pid_vol pid) (pid_page pid) in
  idx <- lookup_in_doubt key ;;
  if negb (N.eqb idx 0) then
    d <- is_in_doubt idx ;;
    cb_modify (fun cb =>
      with_rec_lsn (if N.ltb lsn (cb_rec_lsn cb) then lsn else cb_rec_lsn cb)
        (with_flags true (cb_dirty cb) true cb)) idx ;;;
    ret (Some idx, if d then in_doubt_count else u32_incr in_doubt_count)
  else
    c <- gets cbs ;;
    match grab_free_block c 1 (N.to_nat (block_cnt e - 1)) with
    | None => ret (None, in_doubt_count)
    | Some idx =>
        modify (fun s =>
          set_hashtable (<[key := idx]> (hashtable s))
            (set_cbs (<[idx := Cb (pid_vol pid) (pid_store pid) (pid_page pid)
                                  true false true lsn lsn_null]> (cbs s)) s)) ;;;
        ret (Some idx, u32_incr in_doubt_count)
    end.

(** Reads the page into frame [idx]; returns the load result. *)
Definition load_for_redo (e : env) (idx : bf_idx) (vol page : N) : M load_t :=
  emit (EvLoad idx) ;;;
  let res := disk_read e vol page in
  cb_modify (with_page_lsn
               match res with
               | LoadOk l => l
               | LoadBadChecksum l => l
               | LoadPastEnd => lsn_null
               | LoadError => lsn_null
               end) idx ;;;
  ret res.

(** ** Calls to collaborators *)

(** A call whose return code the caller wraps in [W_COERCE]: a failure is
    fatal. *)
Definition coerce (e : env) (ev : event) : M unit :=
  emit ev ;;;
  modify (fun s => set_curr_lsn (lsn_advance (curr_lsn s) (log_bytes e ev)) s) ;;;
  if rc_ok e ev then ret tt else W_FATAL F_coerce.

(** A call whose return code is ignored ([W_IGNORE], or a void call). *)
Definition call (e : env) (ev : event) : M unit :=
  emit ev ;;;
  modify (fun s => set_curr_lsn (lsn_advance (curr_lsn s) (log_bytes e ev)) s).

Definition set_mode (m : operating_mode_t) : M unit :=
  modify (set_operating_mode m) ;;; emit (EvMode m).

(** ** The UNDO heap *)

(** Modelled from the spec: [Heap<xct_t*, CmpXctUndoLsns>] (w_heap.h and
    restart.h, not under src/), a max-heap of transaction references keyed
    by each transaction's [undo_nxt].  The heap holds handles (tids) of
    entries of the transaction table; it is kept as the list of its
    elements in descending key order, so [First] is the head and [Second]
    the element after it. *)
Definition undo_nxt_of (t : list xct_t) (tid : tid_t) : lsn_t :=
  match look_up tid t with
  | Some x => x_undo_nxt x
  | None => lsn_null
  end.

Fixpoint heap_insert (t : list xct_t) (x : tid_t) (h : list tid_t)
  : list tid_t :=
  match h with
  | [] => [x]
  | y :: h' =>
      if N.ltb (undo_nxt_of t y) (undo_nxt_of t x) then x :: y :: h'
      else y :: heap_insert t x h'
  end.

Definition Heapify (t : list xct_t) (h : list tid_t) : list tid_t :=
  foldr (heap_insert t) [] h.

Definition ReplacedFirst (t : list xct_t) (h : list tid_t) : list tid_t :=
  match h with
  | [] => []
  | x :: h' => heap_insert t x h'
  end.

(** ** Log Analysis *)

(** The out-parameters and the locals of [analysis_pass] that live across
    the scan. *)
Record avars := Avars {
  redo_lsn : lsn_t;
  undo_lsn : lsn_t;
  last_lsn : lsn_t;
  in_doubt_count : N;
  commit_lsn : lsn_t;
  heap : list tid_t;
  begin_chkpt : lsn_t;
  mount : bool;
  num_chkpt_end_handled : N }.

Definition set_redo_undo (b r u : lsn_t) (v : avars) : avars :=
  Avars r u (last_lsn v) (in_doubt_count v) (commit_lsn v) (heap v) b
        (mount v) (num_chkpt_end_handled v).
Definition set_redo_lsn (r : lsn_t) (v : avars) : avars :=
  Avars r (undo_lsn v) (last_lsn v) (in_doubt_count v) (commit_lsn v)
        (heap v) (begin_chkpt v) (mount v) (num_chkpt_end_handled v).
Definition set_undo_lsn (u : lsn_t) (v : avars) : avars :=
  Avars (redo_lsn v) u (last_lsn v) (in_doubt_count v) (commit_lsn v)
        (heap v) (begin_chkpt v) (mount v) (num_chkpt_end_handled v).
Definition set_last (l : lsn_t) (v : avars) : avars :=
  Avars (redo_lsn v) (undo_lsn v) l (in_doubt_count v) (commit_lsn v)
        (heap v) (begin_chkpt v) (mount v) (num_chkpt_end_handled v).
Definition set_in_doubt_count (c : N) (v : avars) : avars :=
  Avars (redo_lsn v) (undo_lsn v) (last_lsn v) c (commit_lsn v) (heap v)
        (begin_chkpt v) (mount v) (num_chkpt_end_handled v).
Definition set_commit_lsn (c : lsn_t) (v : avars) : avars :=
  Avars (redo_lsn v) (undo_lsn v) (last_lsn v) (in_doubt_count v) c (heap v)
        (begin_chkpt v) (mount v) (num_chkpt_end_handled v).
Definition set_heap (h : list tid_t) (v : avars) : avars :=
  Avars (redo_lsn v) (undo_lsn v) (last_lsn v) (in_doubt_count v)
        (commit_lsn v) h (begin_chkpt v) (mount v) (num_chkpt_end_handled v).
Definition set_mount (m : bool) (v : avars) : avars :=
  Avars (redo_lsn v) (undo_lsn v) (last_lsn v) (in_doubt_count v)
        (commit_lsn v) (heap v) (begin_chkpt v) m (num_chkpt_end_handled v).
Definition incr_chkpt_end (v : avars) : avars :=
  Avars (redo_lsn v) (undo_lsn v) (last_lsn v) (in_doubt_count v)
        (commit_lsn v) (heap v) (begin_chkpt v) (mount v)
        (num_chkpt_end_handled v + 1).

Section Restart.

Variable e : env.

(** The idiom that registers an in_doubt page: a page number of zero is
    fatal, so is a failed [register_and_mark]. *)
Definition mark_in_doubt (pid : lpid_t) (lsn : lsn_t) (v : avars) : M avars :=
  if N.eqb (pid_page pid) 0 then W_FATAL F_page_zero
  else
    res <- register_and_mark e pid lsn (in_doubt_count v) ;;
    match fst res with
    | None => W_FATAL F_register_failed
    | Some _ => ret (set_in_doubt_count (snd res) v)
    end.

(** The idiom for a page allocation or deallocation record: the in_doubt
    flag of the page, if any, is cleared. *)
Definition clear_page_in_doubt (r : logrec_t) (v : avars) : M avars :=
  let key := bf_key (r_vol r) (r_shpid r) in
  idx <- lookup_in_doubt key ;;
  if negb (N.eqb idx 0) then
    d <- is_in_doubt idx ;;
    if d then
      clear_in_doubt idx (is_page_allocate r) key ;;;
      ret (set_in_doubt_count (u32_decr (in_doubt_count v)) v)
    else ret v
  else ret v.

(** A log record of a system transaction fused into a single log entry. *)
Definition analysis_ssx (lsn : lsn_t) (r : logrec_t) (v : avars) : M avars :=
  tid <- nxt_tid_atomic_incr ;;
  new_xct tid xct_active lsn lsn_null true true true ;;;
  set_last_lsn tid lsn ;;;
  (if r_is_redo r then ret tt else W_FATAL F_assert0) ;;;
  v' <- (if is_page_allocate r || is_page_deallocate r then
           clear_page_in_doubt r v
         else if negb (is_skip r) then
           if negb (null_pid r) then
             v1 <- mark_in_doubt (construct_pid r) lsn v ;;
             if r_is_multi_page r then
               mark_in_doubt (construct_pid2 r) lsn v1
             else ret v1
           else W_FATAL F_ssx_without_page
         else ret v) ;;
  change_state tid xct_ended ;;;
  ret v'.

(** Before the switch: the transaction of the record is inserted into the
    transaction table if it is not there.  The result stands for [xd]. *)
Definition analysis_attach (max_lsn lsn : lsn_t) (r : logrec_t)
  : M (option tid_t) :=
  if negb (N.eqb (r_tid r) tid_null) then
    o <- xct_look_up (r_tid r) ;;
    match o with
    | None =>
        if negb (kind_eqb (r_type r) t_comment)
           && negb (kind_eqb (r_type r) t_skip)
           && negb (kind_eqb (r_type r) t_max_logrec) then
          new_xct (r_tid r) xct_active lsn (r_xid_prev r) false false true ;;;
          update_youngest_tid (r_tid r) ;;;
          set_last_lsn (r_tid r) lsn ;;;
          set_first_lsn (r_tid r) max_lsn ;;;
          ret (Some (r_tid r))
        else ret None
    | Some _ =>
        set_last_lsn (r_tid r) lsn ;;;
        ret (Some (r_tid r))
    end
  else ret None.

(** [xd->state()], through a pointer that may be null. *)
Definition xd_state (xd : option tid_t) : M xct_state_t :=
  match xd with
  | None => W_FATAL F_null_xct
  | Some tid =>
      o <- xct_look_up tid ;;
      match o with
      | Some x => ret (x_state x)
      | None => W_FATAL F_null_xct
      end
  end.

Definition xd_set_undo_nxt (xd : option tid_t) (l : lsn_t) : M unit :=
  match xd with
  | None => W_FATAL F_null_xct
  | Some tid => set_undo_nxt tid l
  end.

(** The end of a transaction seen in the log (t_xct_end, t_xct_abort and
    each transaction of t_xct_end_group). *)
Definition analysis_end_xct (tid : tid_t) (st : xct_state_t) : M unit :=
  when (bool_decide (st = xct_freeing_space) || bool_decide (st = xct_aborting))
       (coerce e (EvUnlock tid)) ;;;
  when (negb (bool_decide (st = xct_ended))) (change_state tid xct_ended).

Definition chkpt_xct_entry (x : xrec_t) : M unit :=
  o <- xct_look_up (xrec_tid x) ;;
  match o with
  | None =>
      if negb (bool_decide (xrec_state x = xct_ended)) then
        new_xct (xrec_tid x) xct_active (xrec_last_lsn x) (xrec_undo_nxt x)
                false false true ;;;
        set_first_lsn (xrec_tid x) (xrec_first_lsn x)
      else ret tt
  | Some _ => ret tt
  end.

Fixpoint chkpt_bf_entries (l : list (lpid_t * lsn_t)) (v : avars) : M avars :=
  match l with
  | [] => ret v
  | (pid, rec_lsn) :: l' =>
      v' <- mark_in_doubt pid rec_lsn v ;;
      chkpt_bf_entries l' v'
  end.

(** The records of the update group of the switch. *)
Definition analysis_update (lsn : lsn_t) (r : logrec_t) (xd : option tid_t)
    (v : avars) : M avars :=
  v' <- (if is_page_update r then
           when (r_is_undo r) (xd_set_undo_nxt xd lsn) ;;;
           (if r_is_redo r then ret tt else W_FATAL F_assert0) ;;;
           if is_page_allocate r || is_page_deallocate r then
             clear_page_in_doubt r v
           else mark_in_doubt (construct_pid r) lsn v
         else if r_is_cpsn r then
           (if r_is_undo r then W_FATAL F_undoable_compensation
            else xd_set_undo_nxt xd lsn_null) ;;;
           if r_is_redo r then mark_in_doubt (construct_pid r) lsn v
           else ret v
         else if negb (kind_eqb (r_type r) t_store_operation) then
           W_FATAL F_unexpected_type
         else ret v) ;;
  (if negb (N.eqb (r_tid r) tid_null) then
     o <- xct_look_up (r_tid r) ;;
     match o with
     | Some x => when (N.ltb lsn (x_first_lsn x)) (set_first_lsn (r_tid r) lsn)
     | None => ret tt
     end
   else ret tt) ;;;
  ret v'.

(** The switch on the type of the log record. *)
Definition analysis_dispatch (master lsn : lsn_t) (r : logrec_t)
    (xd : option tid_t) (v : avars) : M avars :=
  match r_type r with
  | t_chkpt_begin => ret v
  | t_chkpt_bf_tab =>
      if N.eqb (num_chkpt_end_handled v) 0 then chkpt_bf_entries (r_bf_tab r) v
      else ret v
  | t_chkpt_xct_tab =>
      if N.eqb (num_chkpt_end_handled v) 0 then
        update_youngest_tid (r_xct_youngest r) ;;;
        forM_ (r_xct_tab r) chkpt_xct_entry ;;;
        ret v
      else ret v
  | t_chkpt_dev_tab =>
      if N.eqb (num_chkpt_end_handled v) 0 then
        forM_ (r_dev_tab r) (fun d => coerce e (EvMount (fst d) (snd d))) ;;;
        ret (if r_dev_tab r is [] then v else set_mount true v)
      else ret v
  | t_dismount_vol | t_mount_vol =>
      if N.ltb lsn (redo_lsn v) then
        call e (EvRedo lsn None) ;;;
        ret (if kind_eqb (r_type r) t_mount_vol then set_mount true v else v)
      else ret v
  | t_chkpt_end =>
      v' <- (if N.eqb (num_chkpt_end_handled v) 0 then
               let '(b, rl, ul) := r_chkpt_end r in
               if negb (N.eqb master b) then W_FATAL F_master_mismatch
               else ret (set_redo_undo b rl ul v)
             else ret v) ;;
      ret (incr_chkpt_end v')
  | t_xct_freeing_space =>
      st <- xd_state xd ;;
      when (negb (bool_decide (st = xct_ended)))
           (change_state (default tid_null xd) xct_ended) ;;;
      ret v
  | t_xct_end_group =>
      forM_ (r_xct_list r) (fun tid =>
        o <- xct_look_up tid ;;
        match o with
        | None => W_FATAL F_assert0
        | Some x => analysis_end_xct tid (x_state x)
        end) ;;;
      ret v
  | t_xct_abort | t_xct_end =>
      st <- xd_state xd ;;
      analysis_end_xct (default tid_null xd) st ;;;
      ret v
  | t_compensate | t_alloc_a_page | t_alloc_consecutive_pages
  | t_dealloc_a_page | t_store_operation | t_page_set_to_be_deleted
  | t_page_img_format | t_btree_norec_alloc | t_btree_insert
  | t_btree_insert_nonghost | t_btree_update | t_btree_overwrite
  | t_btree_ghost_mark | t_btree_ghost_reclaim | t_btree_ghost_reserve
  | t_btree_foster_adopt | t_btree_foster_merge | t_btree_foster_rebalance
  | t_btree_foster_rebalance_norec | t_btree_foster_deadopt =>
      analysis_update lsn r xd v
  | t_comment | t_skip | t_max_logrec => ret v
  | t_other _ => W_FATAL F_unexpected_type
  end.

(** One iteration of the forward scan of [analysis_pass]. *)
Definition analysis_step (master max_lsn : lsn_t) (lsn : lsn_t) (r : logrec_t)
    (v : avars) : M avars :=
  if negb (N.eqb lsn (r_lsn_ck r)) then W_FATAL F_bad_lsn
  else
    let v := set_last lsn v in
    if r_is_single_sys_xct r then analysis_ssx lsn r v
    else
      xd <- analysis_attach max_lsn lsn r ;;
      analysis_dispatch master lsn r xd v.

Fixpoint analysis_scan (master max_lsn : lsn_t) (l : list (lsn_t * logrec_t))
    (v : avars) : M avars :=
  match l with
  | [] => ret v
  | (lsn, r) :: l' =>
      v' <- analysis_step master max_lsn lsn r v ;;
      analysis_scan master max_lsn l' v'
  end.

(** After the scan: mounts and dismounts between [redo_lsn] and the begin
    checkpoint are undone, following the chain of [xid_prev] from the last
    mount LSN the begin checkpoint recorded. *)
Fixpoint mount_chase (fuel : nat) (theLastMountLSNBeforeChkpt : lsn_t)
    (v : avars) : M (lsn_t * avars) :=
  if negb (N.eqb theLastMountLSNBeforeChkpt lsn_null)
     && N.ltb (redo_lsn v) theLastMountLSNBeforeChkpt then
    match fuel with
    | O => out_of_fuel
    | S fuel' =>
        match log_fetch (the_log e) theLastMountLSNBeforeChkpt with
        | None => W_FATAL F_coerce
        | Some copy =>
            let dev := List.hd (EmptyString, 0) (r_dev_tab copy) in
            v' <- (if kind_eqb (r_type copy) t_dismount_vol then
                     call e (EvMount (fst dev) (snd dev)) ;;;
                     ret (set_mount true v)
                   else
                     call e (EvDismount (snd dev)) ;;;
                     ret v) ;;
            mount_chase fuel' (r_xid_prev copy) v'
        end
    end
  else ret (theLastMountLSNBeforeChkpt, v).

(** The walk over the transaction table at the end of Log Analysis.  The
    result is the table that is left: ended transactions are destroyed,
    active ones give their [first_lsn] to [commit_lsn] and lose it. *)
Fixpoint analysis_sweep (t : list xct_t) (v : avars)
  : M (list xct_t * avars) :=
  match t with
  | [] => ret ([], v)
  | xd :: t' =>
      if bool_decide (x_state xd = xct_active) then
        let v1 := if N.ltb (x_first_lsn xd) (commit_lsn v)
                  then set_commit_lsn (x_first_lsn xd) v else v in
        let v2 := if use_serial_recovery e
                  then set_heap (heap v1 ++ [x_tid xd]) v1 else v1 in
        res <- analysis_sweep t' v2 ;;
        ret (with_first_lsn lsn_null xd :: fst res, snd res)
      else if bool_decide (x_state xd = xct_ended) then
        emit (EvDestroy (x_tid xd)) ;;;
        analysis_sweep t' v
      else W_FATAL F_xct_not_doomed
  end.

(** The end of [analysis_pass], from the walk over the transaction table:
    the heap is built in serial mode, and a [commit_lsn] still at its
    initial value [max_lsn] becomes null. *)
Definition analysis_finish (max_lsn : lsn_t) (v : avars) : M avars :=
  t <- gets xct_tab ;;
  tv <- analysis_sweep t v ;;
  modify (set_xct_tab (fst tv)) ;;;
  let v := snd tv in
  let v := if use_serial_recovery e
           then set_heap (Heapify (fst tv) (heap v)) v else v in
  let v := if N.eqb (commit_lsn v) max_lsn
           then set_commit_lsn lsn_null v else v in
  if use_concurrent_lock_recovery e then W_FATAL F_not_implemented
  else ret v.

(** [restart_m::analysis_pass].  [v0] carries the out-parameters as the
    caller passes them; [commit_lsn] and [heap] are the two the function
    does not reset on entry. *)
Definition analysis_pass (fuel : nat) (master : lsn_t) (v0 : avars)
  : M avars :=
  emit (EvFunc f_analysis_pass) ;;;
  let v := Avars lsn_null lsn_null lsn_null 0 (commit_lsn v0) (heap v0)
                 lsn_null false 0 in
  set_mode t_in_analysis ;;;
  if N.eqb master lsn_null then ret v
  else
    c <- gets curr_lsn ;;
    let max_lsn := lsn_advance c 1 in
    let v := set_commit_lsn max_lsn v in
    match log_scan (the_log e) master with
    | [] => W_FATAL F_coerce
    | (lsn, r) :: rest =>
        if negb (kind_eqb (r_type r) t_chkpt_begin) then
          W_FATAL F_first_not_chkpt_begin
        else
          v <- analysis_scan master max_lsn rest v ;;
          if N.eqb lsn_null (redo_lsn v) then W_FATAL F_missing_redo_lsn
          else if N.eqb lsn_null (undo_lsn v) then W_FATAL F_missing_undo_lsn
          else
            let v := if N.ltb master (redo_lsn v)
                     then set_redo_lsn master v else v in
            let v := if N.ltb master (undo_lsn v)
                     then set_undo_lsn master v else v in
            lv <- (if negb (N.eqb 0 (in_doubt_count v)) then
                     mount_chase fuel (r_last_mount r) v
                   else ret (r_last_mount r, v)) ;;
            modify (set_last_mount_lsn (fst lv)) ;;;
            analysis_finish max_lsn (snd lv)
    end.

(** ** Log driven REDO *)

Definition page_lsn_of (idx : bf_idx) : M lsn_t :=
  gets (fun s => match cbs s !! idx with
                 | Some cb => cb_page_lsn cb
                 | None => lsn_null
                 end).

(** A record that produces the page it is about: a page format, or the new
    page (the second one) of t_btree_norec_alloc. *)
Definition virgin_page (r : logrec_t) (page_updated : lpid_t) : bool :=
  kind_eqb (r_type r) t_page_img_format
  || (kind_eqb (r_type r) t_btree_norec_alloc
      && negb (N.eqb (pid_page page_updated) (r_shpid r))).

(** The second half of [_redo_log_with_pid]: the page is in memory, and the
    LSN of its last write is compared with the LSN of the record. *)
Definition redo_page_compare (r : logrec_t) (lsn end_logscan_lsn : lsn_t)
    (idx : bf_idx) (virgin : bool) (dirty_count : N) : M (bool * N) :=
  page_lsn <- page_lsn_of idx ;;
  redone <-
    (if N.ltb page_lsn lsn then
       call e (EvRedo lsn (Some idx)) ;;;
       cb_modify (fun cb => with_flags (cb_in_doubt cb) true
                                       (cb_used cb) cb) idx ;;;
       cb_modify (with_page_lsn lsn) idx ;;;
       d <- is_in_doubt idx ;;
       when (d || virgin)
         (cb_modify (fun cb => if N.ltb lsn (cb_rec_lsn cb)
                               then with_rec_lsn lsn cb else cb) idx) ;;;
       ret true
     else if virgin then
       cb_modify (with_rec_lsn lsn) idx ;;;
       ret true
     else if N.leb end_logscan_lsn page_lsn
             && negb (N.eqb lsn_null page_lsn) then
       W_FATAL F_wal_violation
     else
       when (negb (N.eqb lsn_null page_lsn))
         (cb_modify (with_page_lsn (lsn_advance page_lsn 1)) idx) ;;;
       ret false) ;;
  d <- is_in_doubt idx ;;
  if redone && d then
    in_doubt_to_dirty idx ;;;
    ret (redone, u32_incr dirty_count)
  else ret (redone, dirty_count).

(** [restart_m::_redo_log_with_pid].  Returns [redone] and the new
    [dirty_count]. *)
Definition _redo_log_with_pid (r : logrec_t) (lsn end_logscan_lsn : lsn_t)
    (page_updated : lpid_t) (dirty_count : N) : M (bool * N) :=
  let key := bf_key (pid_vol page_updated) (pid_page page_updated) in
  idx <- lookup_in_doubt key ;;
  if negb (N.eqb 0 idx) then
    if negb (latch_ok e idx) then W_FATAL F_latch
    else
      in_doubt <- is_in_doubt idx ;;
      dirty <- is_dirty idx ;;
      if in_doubt || dirty then
        let virgin := virgin_page r page_updated in
        corrupted_page <-
          (if in_doubt && negb virgin then
             res <- load_for_redo e idx (pid_vol page_updated)
                                  (pid_page page_updated) ;;
             match res with
             | LoadPastEnd => W_FATAL F_page_not_on_disk
             | LoadError => W_FATAL F_load_failed
             | LoadBadChecksum _ =>
                 cb_modify (with_pid page_updated) idx ;;; ret true
             | LoadOk _ =>
                 cb_modify (with_pid page_updated) idx ;;; ret false
             end
           else if in_doubt && virgin then
             cb_modify (with_pid page_updated) idx ;;; ret false
           else ret false) ;;
        coerce e (EvFix idx) ;;;
        when virgin (cb_modify (with_page_lsn lsn_null) idx) ;;;
        when corrupted_page
          (emit (EvSPR idx lsn) ;;;
           match spr_result e idx lsn with
           | None => W_FATAL F_coerce
           | Some l => cb_modify (with_page_lsn l) idx
           end) ;;;
        redo_page_compare r lsn end_logscan_lsn idx virgin dirty_count
      else if is_page_allocate r then ret (false, dirty_count)
      else if is_page_deallocate r then W_FATAL F_dealloc_in_hashtable
      else
        u <- is_used idx ;;
        if u then W_FATAL F_bad_flags else ret (false, dirty_count)
  else if negb (is_page_deallocate r) then W_FATAL F_page_not_in_hashtable
  else ret (false, dirty_count).

(** Modelled from the spec: [sys_xct_section_t] (xct.h, not under src/), the
    section that begins a single-log system transaction when it is
    constructed and commits it in [end_sys_xct].  No transaction is attached
    to the thread in REDO, so the section creates a transaction object of
    its own, a system transaction with a fresh id as the one Log Analysis
    synthesizes; the commit ends it and destroys the object.  The result of
    [sys_xct_section] stands for [sxs]. *)
Definition sys_xct_section : M tid_t :=
  tid <- nxt_tid_atomic_incr ;;
  new_xct tid xct_active lsn_null lsn_null true true false ;;;
  ret tid.

Definition end_sys_xct (sxs : tid_t) : M unit :=
  change_state sxs xct_ended ;;;
  destroy_xct sxs.

(** A redoable record without a page number. *)
Definition redo_no_page (lsn : lsn_t) (r : logrec_t) : M unit :=
  if negb (r_is_single_sys_xct r) && negb (N.eqb (r_tid r) tid_null) then
    o <- xct_look_up (r_tid r) ;;
    match o with
    | Some xd =>
        if bool_decide (x_state xd = xct_active) then
          call e (EvRedo lsn None)
        else W_FATAL F_no_page_xct_not_active
    | None => ret tt
    end
  else if negb (r_is_single_sys_xct r) then
    call e (EvRedo lsn None) ;;;
    modify (set_last_mount_lsn lsn)
  else if negb (is_page_allocate r) && negb (is_page_deallocate r) then
    sxs <- sys_xct_section ;;
    call e (EvRedo lsn None) ;;;
    modify (set_last_mount_lsn lsn) ;;;
    end_sys_xct sxs
  else ret tt.

(** The forward scan of [redo_log_pass]; the result is [dirty_count]. *)
Fixpoint redo_scan (serial_recovery : bool) (end_logscan_lsn : lsn_t)
    (l : list (lsn_t * logrec_t)) (dirty_count : N) : M N :=
  match l with
  | [] => ret dirty_count
  | (lsn, r) :: l' =>
      if negb serial_recovery && N.ltb end_logscan_lsn lsn then
        ret dirty_count
      else if negb (valid_header r lsn) then W_FATAL F_invalid_header
      else
        dc <- (if r_is_redo r then
                 if null_pid r then
                   redo_no_page lsn r ;;; ret dirty_count
                 else
                   res <- _redo_log_with_pid r lsn end_logscan_lsn
                                             (construct_pid r) dirty_count ;;
                   if r_is_multi_page r then
                     res2 <- _redo_log_with_pid r lsn end_logscan_lsn
                                                (construct_pid2 r) (snd res) ;;
                     ret (snd res2)
                   else ret (snd res)
               else ret dirty_count) ;;
        redo_scan serial_recovery end_logscan_lsn l' dc
  end.

(** [restart_m::redo_log_pass]. *)
Definition redo_log_pass (redo_lsn end_logscan_lsn : lsn_t)
    (in_doubt_count : N) : M unit :=
  emit (EvFunc f_redo_pass) ;;;
  if N.eqb 0 in_doubt_count then ret tt
  else if negb (use_redo_log_recovery e) then W_FATAL F_not_log_driven
  else
    dirty_count <- redo_scan (use_serial_recovery e) end_logscan_lsn
                             (log_scan (the_log e) redo_lsn) 0 ;;
    if negb (N.eqb in_doubt_count dirty_count) then W_FATAL F_dirty_count
    else ret tt.

(** ** UNDO *)

(** Modelled from the spec: [xct_t::rollback(save_pt)] and [xct_t::abort()]
    (xct.cpp, not under src/).  Rollback follows [undo_nxt] backward through
    the log, undoing each record (which writes a compensation record) and
    moving [undo_nxt] to the prior record of the transaction; it stops when
    [undo_nxt] is at or below the save point or is null.  Abort rolls the
    transaction back completely, releases its locks, writes the end record
    and leaves the transaction ended. *)
Fixpoint rollback_loop (fuel : nat) (tid : tid_t) (save_pt : lsn_t) : M unit :=
  u <- gets (fun s => undo_nxt_of (xct_tab s) tid) ;;
  if N.eqb u lsn_null || N.leb u save_pt then ret tt
  else
    match fuel with
    | O => out_of_fuel
    | S fuel' =>
        match log_fetch (the_log e) u with
        | None => W_FATAL F_coerce
        | Some r =>
            call e (EvUndo u) ;;;
            set_undo_nxt tid (r_xid_prev r) ;;;
            rollback_loop fuel' tid save_pt
        end
    end.

Definition rollback (fuel : nat) (tid : tid_t) (save_pt : lsn_t) : M unit :=
  coerce e (EvRollback tid save_pt) ;;;
  rollback_loop fuel tid save_pt.

Definition abort (fuel : nat) (tid : tid_t) : M unit :=
  coerce e (EvAbort tid) ;;;
  rollback_loop fuel tid lsn_null ;;;
  call e (EvUnlock tid) ;;;
  change_state tid xct_ended.

Definition doomed_active (x : xct_t) : bool :=
  x_is_doomed_xct x && bool_decide (x_state x = xct_active).

(** The first loop of [undo_reverse_pass], entered with more than one
    transaction in the heap: the transaction with the largest [undo_nxt] is
    rolled back to the [undo_nxt] of the second. *)
Fixpoint undo_loop (fuel : nat) (h : list tid_t) : M (list tid_t) :=
  t <- gets xct_tab ;;
  match h with
  | [] => W_FATAL F_null_xct
  | xd :: _ =>
      if negb (N.eqb (undo_nxt_of t xd) lsn_null) then
        match fuel with
        | O => out_of_fuel
        | S fuel' =>
            let x := look_up xd t in
            if from_option x_is_sys_xct false x
               && from_option x_is_single_log_sys_xct false x then
              set_undo_nxt xd lsn_null ;;;
              t' <- gets xct_tab ;;
              undo_loop fuel' (ReplacedFirst t' h)
            else
              rollback fuel xd (undo_nxt_of t (List.nth 1 h tid_null)) ;;;
              t' <- gets xct_tab ;;
              undo_loop fuel' (ReplacedFirst t' h)
        end
      else ret h
  end.

(** The second loop: every transaction left in the heap is aborted and
    destroyed. *)
Fixpoint undo_drain (fuel : nat) (h : list tid_t) : M unit :=
  match h with
  | [] => ret tt
  | xd :: h' =>
      abort fuel xd ;;;
      destroy_xct xd ;;;
      undo_drain fuel h'
  end.

(** [restart_m::undo_reverse_pass]; [curr_lsn] and [undo_lsn] are not
    used by the code. *)
Definition undo_reverse_pass (fuel : nat) (heap : list tid_t)
    (curr_lsn undo_lsn : lsn_t) : M unit :=
  emit (EvFunc f_undo_pass) ;;;
  h <- (if negb (use_serial_recovery e) && use_undo_reverse_recovery e then
          t <- gets xct_tab ;;
          ret (Heapify t (heap ++ List.map x_tid (List.filter doomed_active t)))
        else ret heap) ;;
  if Nat.eqb (length h) 0 then ret tt
  else
    call e EvLogComment ;;;
    h' <- (if Nat.ltb 1 (length h) then undo_loop fuel h else ret h) ;;
    undo_drain fuel h' ;;;
    coerce e EvFlushAll.

(** The walk of [_undo_txn_pass] over the transaction table. *)
Fixpoint undo_txn_walk (fuel : nat) (t : list xct_t) : M unit :=
  match t with
  | [] => ret tt
  | curr :: t' =>
      (if doomed_active curr then
         if negb (N.eqb lsn_null (x_undo_nxt curr)) then
           if x_is_sys_xct curr then set_undo_nxt (x_tid curr) lsn_null
           else
             abort fuel (x_tid curr) ;;;
             destroy_xct (x_tid curr)
         else ret tt
       else ret tt) ;;;
      undo_txn_walk fuel t'
  end.

(** [restart_m::_undo_txn_pass]. *)
Definition _undo_txn_pass (fuel : nat) : M unit :=
  n <- num_active_xcts ;;
  if N.eqb 0 n then ret tt
  else
    call e EvLogComment ;;;
    t <- gets xct_tab ;;
    undo_txn_walk fuel t ;;;
    coerce e EvFlushAll ;;;
    modify (set_commit_lsn_global lsn_null).

(** ** The recovery coordinator *)

Definition set_swizzling_enabled (b : bool) : M unit :=
  coerce e (EvSwizzling b) ;;;
  modify (set_swizzling b).

(** [restart_m::recover].  The result carries the out-parameters
    [commit_lsn], [redo_lsn], [last_lsn] and [in_doubt_count]. *)
Definition recover (fuel : nat) (master : lsn_t) : M avars :=
  emit (EvFunc f_recover) ;;;
  m <- gets operating_mode ;;
  if negb (bool_decide (m = t_before_recovery)) then
    W_FATAL F_not_before_recovery
  else
    org_swizzling_enabled <- gets swizzling_enabled ;;
    when org_swizzling_enabled (set_swizzling_enabled false) ;;;
    v <- analysis_pass fuel master
           (Avars lsn_null lsn_null lsn_null 0 lsn_null [] lsn_null false 0) ;;
    xct_count <- num_active_xcts ;;
    call e EvSynchTake ;;;
    if negb (use_serial_recovery e) then ret v
    else
      curr <- gets curr_lsn ;;
      set_mode t_in_redo ;;;
      when (negb (N.eqb 0 (in_doubt_count v)))
        (redo_log_pass (redo_lsn v) curr (in_doubt_count v) ;;;
         coerce e EvForceAll) ;;;
      set_mode t_in_undo ;;;
      when (negb (N.eqb 0 xct_count))
        (undo_reverse_pass fuel (heap v) (last_lsn v) (undo_lsn v) ;;;
         call e EvSynchTake) ;;;
      when org_swizzling_enabled (set_swizzling_enabled true) ;;;
      ret v.

End Restart.

(** ** Concrete logs and environments *)

(** A record with the given header and no payload. *)
Definition mk_logrec (ty : kind_t) (tid : tid_t) (lsn prev : lsn_t)
    (redo undo cpsn : bool) (page : N) : logrec_t :=
  Logrec ty tid lsn prev 64 true false redo undo cpsn false 1 1 page 0
         lsn_null [] 0 [] [] (lsn_null, lsn_null, lsn_null) [].

Definition mk_chkpt_begin (lsn : lsn_t) : logrec_t :=
  mk_logrec t_chkpt_begin tid_null lsn lsn_null false false false 0.

Definition mk_chkpt_end (lsn begin_chkpt min_rec min_xct : lsn_t) : logrec_t :=
  Logrec t_chkpt_end tid_null lsn lsn_null 64 true false false false false
         false 0 0 0 0 lsn_null [] 0 [] [] (begin_chkpt, min_rec, min_xct) [].

Definition mk_chkpt_xct_tab (lsn : lsn_t) (youngest : tid_t)
    (xs : list xrec_t) : logrec_t :=
  Logrec t_chkpt_xct_tab tid_null lsn lsn_null 64 true false false false false
         false 0 0 0 0 lsn_null [] youngest xs []
         (lsn_null, lsn_null, lsn_null) [].

Definition mk_xct_end_group (tid : tid_t) (lsn prev : lsn_t)
    (tids : list tid_t) : logrec_t :=
  Logrec t_xct_end_group tid lsn prev 64 true false false false false false
         0 0 0 0 lsn_null [] 0 [] [] (lsn_null, lsn_null, lsn_null) tids.

(** A system where every outside call succeeds, every page is on disk with
    a null LSN, and no call writes to the log. *)
Definition mk_env (serial : bool) (log : list (lsn_t * logrec_t)) : env :=
  Env serial (negb serial) false true true (negb serial) false log 16
      (fun _ => true) (fun _ _ => LoadOk lsn_null) (fun _ l => Some l)
      (fun _ => true) (fun _ => 0).

(** The storage manager before recovery, with the log ending at [curr]. *)
Definition sm_start (swizzling : bool) (curr : lsn_t) : sm :=
  Sm t_before_recovery swizzling ∅ ∅ [] 0 curr lsn_null lsn_null [].

(** The state of a run, when it returns. *)
Definition state_of {A} (res : result (A * sm)) : option sm :=
  match res with
  | Ok (_, s) => Some s
  | _ => None
  end.
Definition value_of {A} (res : result (A * sm)) : option A :=
  match res with
  | Ok (a, _) => Some a
  | _ => None
  end.
Definition is_fatal {A} (res : result A) : bool :=
  match res with
  | Fatal _ => true
  | _ => false
  end.

(** A two-record log for the REDO scan: an update of page 42 at LSN 600 and
    an update of page 43 at LSN 800. *)
Definition log_two_updates : list (lsn_t * logrec_t) :=
  [ (600, mk_logrec t_btree_insert 7 600 0 true true false 42);
    (800, mk_logrec t_btree_insert 8 800 0 true true false 43) ].

(** A log in which a single-log system transaction that touches no page
    (a store operation) lies before the update of page 42 by transaction
    7. *)
Definition log_ssx_no_page : list (lsn_t * logrec_t) :=
  [ (450, Logrec t_store_operation tid_null 450 lsn_null 64 true true true
                 false false false 1 1 0 0 lsn_null [] 0 [] []
                 (lsn_null, lsn_null, lsn_null) []);
    (600, mk_logrec t_btree_insert 7 600 0 true true false 42) ].

(** The LSN that [_redo_log_with_pid] reads from the page before it
    compares it with the LSN of the record: null for a virgin page, the LSN
    of the page read from disk (or repaired) for a page still in_doubt, and
    the LSN of the frame for a page already dirty.  There is none when the
    page cannot be brought into memory. *)
Definition redo_read_page_lsn (e : env) (r : logrec_t) (lsn : lsn_t)
    (page_updated : lpid_t) (idx : bf_idx) (cb : bf_tree_cb_t)
  : option lsn_t :=
  if virgin_page r page_updated then Some lsn_null
  else if cb_in_doubt cb then
    match disk_read e (pid_vol page_updated) (pid_page page_updated) with
    | LoadOk l => Some l
    | LoadBadChecksum _ => spr_result e idx lsn
    | LoadPastEnd => None
    | LoadError => None
    end
  else Some (cb_page_lsn cb).

(** The LSN of the page in frame [idx]. *)
Definition frame_lsn (s : sm) (idx : bf_idx) : option lsn_t :=
  cb_page_lsn <$> cbs s !! idx.

(** A buffer pool that holds one page, page [page] of volume 1, in frame 1. *)
Definition sm_one_page (page : N) (in_doubt dirty : bool)
    (rec_lsn page_lsn curr : lsn_t) : sm :=
  Sm t_in_redo false {[ bf_key 1 page := 1 ]}
     {[ 1 := Cb 1 1 page in_doubt dirty true rec_lsn page_lsn ]}
     [] 0 curr lsn_null lsn_null [].

(** The record kinds that carry the payload of a checkpoint. *)
Definition is_chkpt_payload_kind (k : kind_t) : bool :=
  match k with
  | t_chkpt_bf_tab | t_chkpt_xct_tab | t_chkpt_dev_tab | t_chkpt_end => true
  | _ => false
  end.

(** The variables of [analysis_pass] once the end of the master checkpoint
    at LSN 500 has been handled. *)
Definition avars_after_master : avars :=
  Avars 500 500 520 0 701 [] 500 false 1.
Definition avars_before_master : avars :=
  Avars lsn_null lsn_null 510 0 701 [] lsn_null false 0.

(** The record kinds of the update group of the switch of
    [analysis_pass]. *)
Definition in_update_group (k : kind_t) : bool :=
  match k with
  | t_compensate | t_alloc_a_page | t_alloc_consecutive_pages
  | t_dealloc_a_page | t_store_operation | t_page_set_to_be_deleted
  | t_page_img_format | t_btree_norec_alloc | t_btree_insert
  | t_btree_insert_nonghost | t_btree_update | t_btree_overwrite
  | t_btree_ghost_mark | t_btree_ghost_reclaim | t_btree_ghost_reserve
  | t_btree_foster_adopt | t_btree_foster_merge | t_btree_foster_rebalance
  | t_btree_foster_rebalance_norec | t_btree_foster_deadopt => true
  | _ => false
  end.

(** The buffer pool is consistent when every hash table entry names a
    control block. *)
Definition bf_consistentb (s : sm) : bool :=
  forallb (fun p : N * N =>
             N.eqb (snd p) 0 || bool_decide (is_Some (cbs s !! snd p)))
          (map_to_list (hashtable s)).

(** [register_and_mark] can succeed for the page: it is registered, or a
    free block is left. *)
Definition bf_has_room (e : env) (s : sm) (pid : lpid_t) : bool :=
  negb (N.eqb (default 0 (hashtable s !! bf_key (pid_vol pid) (pid_page pid))) 0)
  || bool_decide (is_Some (grab_free_block (cbs s) 1
                                           (N.to_nat (block_cnt e - 1)))).

(** The page is registered and its control block has the in_doubt flag. *)
Definition page_in_doubt (s : sm) (pid : lpid_t) : bool :=
  match hashtable s !! bf_key (pid_vol pid) (pid_page pid) with
  | Some idx =>
      negb (N.eqb idx 0)
      && match cbs s !! idx with
         | Some cb => cb_in_doubt cb
         | None => false
         end
  | None => false
  end.

(** The doomed transactions of a transaction table: the active ones. *)
Definition doomed (t : list xct_t) : list xct_t :=
  List.filter (fun x => bool_decide (x_state x = xct_active)) t.

(** The minimum [first_lsn] of a list of transactions, null when there is
    none. *)
Definition min_first_lsn (l : list xct_t) : lsn_t :=
  match l with
  | [] => lsn_null
  | x :: l' => fold_left (fun m y => N.min m (x_first_lsn y)) l' (x_first_lsn x)
  end.

(** The out-parameters as [recover] initialises them. *)
Definition avars_init : avars :=
  Avars lsn_null lsn_null lsn_null 0 lsn_null [] lsn_null false 0.

(** A log in which transaction 7 updates page 42 at LSN 600 and
    transaction 9 then writes, at LSN 650, a group end record that lists
    transaction 7. *)
Definition log_group_end : list (lsn_t * logrec_t) :=
  [ (500, mk_chkpt_begin 500);
    (510, mk_chkpt_xct_tab 510 0 []);
    (520, mk_chkpt_end 520 500 500 500);
    (600, mk_logrec t_btree_insert 7 600 0 true true false 42);
    (650, mk_xct_end_group 9 650 0 [7]) ].

(** The state at the end of the scan of a log in which transaction 7 wrote
    one update at LSN 600 and did not end. *)
Definition sm_one_doomed : sm :=
  Sm t_in_analysis false ∅ ∅ [Xct 7 xct_active 600 600 600 false false true]
     7 700 lsn_null lsn_null [].
Definition avars_one_doomed : avars :=
  Avars 500 500 600 0 701 [] 500 false 1.

(** What a step of the scan may do to the variables of [analysis_pass]:
    [commit_lsn] and [heap] stay, the count of handled checkpoint ends does
    not decrease. *)
Definition scan_frame (v v' : avars) : Prop :=
  commit_lsn v' = commit_lsn v /\ heap v' = heap v
  /\ num_chkpt_end_handled v <= num_chkpt_end_handled v'.

(** ** Frames and the coordinator's trace *)

(** True of the events a pass writes while it works; false of those of the
    recovery coordinator: the entry of a function, a change of the operating
    mode or of pointer swizzling, a synchronous checkpoint and the flush of
    the buffer pool. *)
Definition pass_event (ev : event) : bool :=
  match ev with
  | EvFunc _ | EvMode _ | EvSwizzling _ | EvSynchTake | EvForceAll => false
  | _ => true
  end.

(** The trace as [recover] and the entries of the passes write it. *)
Definition coordinator_trace (s : sm) : list event :=
  List.filter (fun ev => negb (pass_event ev)) (trace s).

(** [c] leaves the projection [proj] of the state as it found it. *)
Definition pres {T A} (proj : sm -> T) (c : M A) : Prop :=
  forall s a s', c s = Ok (a, s') -> proj s' = proj s.

(** [c] adds exactly [l] to the coordinator's trace. *)
Definition emits {A} (l : list event) (c : M A) : Prop :=
  forall s a s', c s = Ok (a, s') ->
                 coordinator_trace s' = coordinator_trace s ++ l.

(** A log in which transaction 7 wrote one update of page 42 after the
    master checkpoint and did not end, and the same log with the end record
    of the transaction. *)
Definition log_in_flight : list (lsn_t * logrec_t) :=
  [ (500, mk_chkpt_begin 500);
    (510, mk_chkpt_xct_tab 510 0 []);
    (520, mk_chkpt_end 520 500 500 500);
    (600, mk_logrec t_btree_insert 7 600 0 true true false 42) ].
Definition log_committed : list (lsn_t * logrec_t) :=
  log_in_flight ++ [ (650, mk_logrec t_xct_end 7 650 600 false false false 0) ].

(** Did reverse UNDO run, and how many synchronous checkpoints were taken. *)
Definition runs_undo_pass (s : sm) : bool :=
  existsb (fun ev => match ev with EvFunc f_undo_pass => true | _ => false end)
          (trace s).
Definition synch_takes (s : sm) : nat :=
  length (List.filter
            (fun ev => match ev with EvSynchTake => true | _ => false end)
            (trace s)).

(** A log in which transaction 7 updated page 42 at LSN 600 and then wrote
    a compensation record at LSN 650, and did not end. *)
Definition log_compensated : list (lsn_t * logrec_t) :=
  [ (500, mk_chkpt_begin 500);
    (510, mk_chkpt_xct_tab 510 0 []);
    (520, mk_chkpt_end 520 500 500 500);
    (600, mk_logrec t_btree_insert 7 600 0 true true false 42);
    (650, mk_logrec t_compensate 7 650 600 true false true 42) ].

(** ** Well-formed logs and UNDO heaps *)

(** Every record points back, through [xid_prev], to an earlier record of
    the same transaction, or to nothing. *)
Definition log_wf (log : list (lsn_t * logrec_t)) : bool :=
  forallb (fun p =>
             N.ltb (r_xid_prev (snd p)) (fst p)
             && (N.eqb (r_xid_prev (snd p)) lsn_null
                 || match log_fetch log (r_xid_prev (snd p)) with
                    | Some r' => N.eqb (r_tid r') (r_tid (snd p))
                    | None => false
                    end)) log.

(** The [undo_nxt] of a transaction is null or the LSN of one of its own
    records. *)
Definition owns (log : list (lsn_t * logrec_t)) (t : list xct_t)
    (tid : tid_t) : bool :=
  N.eqb (undo_nxt_of t tid) lsn_null
  || match log_fetch log (undo_nxt_of t tid) with
     | Some r => N.eqb (r_tid r) tid
     | None => false
     end.

Fixpoint heap_sorted (t : list xct_t) (h : list tid_t) : bool :=
  match h with
  | [] => true
  | x :: h' =>
      match h' with
      | [] => true
      | y :: _ => N.leb (undo_nxt_of t y) (undo_nxt_of t x) && heap_sorted t h'
      end
  end.

(** The log records the transactions of the heap still have to undo are
    at most this many. *)
Definition heap_weight (t : list xct_t) (h : list tid_t) : nat :=
  foldr (fun x n => (N.to_nat (undo_nxt_of t x) + n)%nat) 0%nat h.

Definition undo_wf (log : list (lsn_t * logrec_t)) (t : list xct_t)
    (h : list tid_t) : bool :=
  bool_decide (NoDup h) && bool_decide (NoDup (List.map x_tid t))
  && heap_sorted t h && forallb (owns log t) h.

(** The heap [undo_reverse_pass] works on. *)
Definition undo_heap (e : env) (heap : list tid_t) (t : list xct_t)
  : list tid_t :=
  if negb (use_serial_recovery e) && use_undo_reverse_recovery e
  then Heapify t (heap ++ List.map x_tid (List.filter doomed_active t))
  else heap.

(** What a change to the transaction [tid] leaves of the table: the
    transactions are the same, and every other one is as it was. *)
Definition tab_step (tid : tid_t) (t t' : list xct_t) : Prop :=
  List.map x_tid t' = List.map x_tid t
  /\ forall tid', tid' <> tid -> look_up tid' t' = look_up tid' t.

(** A log in which transactions 7 and 8 wrote two updates each after the
    master checkpoint, interleaved, and did not end; and the storage manager
    as Log Analysis leaves it on that log in serial mode, with both
    transactions in the heap. *)
Definition log_interleaved : list (lsn_t * logrec_t) :=
  [ (500, mk_chkpt_begin 500);
    (510, mk_chkpt_xct_tab 510 0 []);
    (520, mk_chkpt_end 520 500 500 500);
    (600, mk_logrec t_btree_insert 7 600 0 true true false 42);
    (610, mk_logrec t_btree_insert 8 610 0 true true false 43);
    (620, mk_logrec t_btree_insert 7 620 600 true true false 42);
    (630, mk_logrec t_btree_insert 8 630 610 true true false 43) ].
Definition sm_two_doomed : sm :=
  default (sm_start false 700)
    (state_of (analysis_pass (mk_env true log_interleaved) 100 500 avars_init
                 (sm_start false 700))).

(** ** The buffer pool, counted *)

(** The number of in_doubt frames of a buffer pool. *)
Definition count_in_doubt (c : gmap N bf_tree_cb_t) : nat :=
  size (filter (fun p : N * bf_tree_cb_t => cb_in_doubt p.2 = true) c).

Definition in_doubt_frames (s : sm) : nat := count_in_doubt (cbs s).

(** What a frame with this in_doubt flag adds to the count. *)
Definition flag_weight (b : bool) : nat := if b then 1%nat else 0%nat.

(** The key of the page a control block holds. *)
Definition cb_key (cb : bf_tree_cb_t) : N :=
  bf_key (cb_pid_vol cb) (cb_pid_shpid cb).

(** The hash table and the control blocks agree: an entry of the hash table
    points to a frame other than frame 0, in use, that holds the page of
    that key; and an in_doubt frame is the one the hash table gives for its
    page. *)
Definition bf_wf (s : sm) : Prop :=
  (forall key idx, hashtable s !! key = Some idx ->
                   idx <> 0
                   /\ exists cb, cbs s !! idx = Some cb
                                 /\ cb_used cb = true /\ cb_key cb = key)
  /\ (forall idx cb, cbs s !! idx = Some cb -> cb_in_doubt cb = true ->
                     hashtable s !! cb_key cb = Some idx).

(** [c] is the number of in_doubt frames, as a 32-bit counter. *)
Definition bf_counted (c : N) (s : sm) : Prop :=
  bf_wf s /\ c = N.of_nat (in_doubt_frames s) mod uint32_modulus.

(** Partial correctness triples over the monad. *)
Definition hoare {A} (P : sm -> Prop) (c : M A) (Q : A -> sm -> Prop) : Prop :=
  forall s a s', c s = Ok (a, s') -> P s -> Q a s'.

(** The buffer pool: the hash table and the control blocks. *)
Definition pool (s : sm) : gmap N bf_idx * gmap N bf_tree_cb_t :=
  (hashtable s, cbs s).

(** A step of Log Analysis keeps [in_doubt_count] equal to the number of
    in_doubt frames. *)
Definition counted_step (c : avars -> M avars) : Prop :=
  forall v, hoare (bf_counted (in_doubt_count v)) (c v)
                  (fun v' => bf_counted (in_doubt_count v')).

(** In the REDO scan, [n] in_doubt frames were there at the start: those
    still in_doubt and those counted in [dirty_count]. *)
Definition redo_inv (n : nat) (dc : N) (s : sm) : Prop :=
  (in_doubt_frames s + N.to_nat dc = n)%nat.

(** What [_redo_page_pass] does to one frame. *)
Definition frame_redone (o o' : option bf_tree_cb_t) : Prop :=
  match o with
  | Some cb =>
      if cb_in_doubt cb then
        exists cb', o' = Some cb'
                    /\ cb_in_doubt cb' = false /\ cb_dirty cb' = true
                    /\ cb_used cb' = true
                    /\ cb_rec_lsn cb' <= cb_page_lsn cb'
                    /\ cb_rec_lsn cb' <= cb_rec_lsn cb
                    /\ cb_pid_vol cb' = cb_pid_vol cb
                    /\ cb_store_num cb' = cb_store_num cb
                    /\ cb_pid_shpid cb' = cb_pid_shpid cb
      else o' = o
  | None => o' = None
  end.

(** The fields of the state the page driven pass does not write. *)
Definition beside_frames (s : sm) :=
  (hashtable s, xct_tab s, nxt_tid s, commit_lsn_global s, operating_mode s,
   swizzling_enabled s, last_mount_lsn s).

(** [bf_wf] as a check that runs. *)
Definition bf_wfb (s : sm) : bool :=
  forallb (fun p : N * bf_idx =>
             negb (N.eqb p.2 0)
             && match cbs s !! p.2 with
                | Some cb => cb_used cb && N.eqb (cb_key cb) p.1
                | None => false
                end)
          (map_to_list (hashtable s))
  && forallb (fun p : N * bf_tree_cb_t =>
                negb (cb_in_doubt p.2)
                || bool_decide (hashtable s !! cb_key p.2 = Some p.1))
             (map_to_list (cbs s)).

(** Every in_doubt frame is one of the frames 1 to [n - 1]. *)
Definition in_doubt_within (n : N) (s : sm) : bool :=
  forallb (fun p : N * bf_tree_cb_t =>
             negb (cb_in_doubt p.2) || (N.leb 1 p.1 && N.ltb p.1 n))
          (map_to_list (cbs s)).

(** The storage manager as Log Analysis leaves it on [log_interleaved] when
    the system opens after Log Analysis: pages 42 and 43 are in_doubt in
    frames 1 and 2, transactions 7 and 8 are doomed. *)
Definition sm_open : sm :=
  default (sm_start false 700)
    (state_of (analysis_pass (mk_env false log_interleaved) 100 500 avars_init
                 (sm_start false 700))).

(** ** Frames and transaction ids *)

(** The frames of the buffer pool that hold a control block. *)
Definition frames_of (s : sm) : gset N := dom (cbs s).

(** The ids of the transactions in the table. *)
Definition tids (s : sm) : list tid_t := List.map x_tid (xct_tab s).

(** The ids in the table are distinct and none is above the youngest id
    handed out so far. *)
Definition tids_ok (s : sm) : Prop :=
  NoDup (tids s) /\ Forall (fun t => t <= nxt_tid s) (tids s).

(** No transaction of a checkpoint's transaction table is younger than the
    youngest transaction the checkpoint recorded. *)
Definition chkpt_youngest_ok (log : list (lsn_t * logrec_t)) : bool :=
  forallb (fun p : lsn_t * logrec_t =>
             negb (kind_eqb (r_type p.2) t_chkpt_xct_tab)
             || forallb (fun x => N.leb (xrec_tid x) (r_xct_youngest p.2))
                        (r_xct_tab p.2))
          log.

(** What Log Analysis reads and writes of the transactions. *)
Definition tab_proj (s : sm) : list xct_t * tid_t := (xct_tab s, nxt_tid s).

(** Between two states the transaction table is the same and the next
    transaction id has not gone down; [keeps_table c] says so of a run of
    [c]. *)
Definition tab_kept (s s' : sm) : Prop :=
  xct_tab s' = xct_tab s /\ nxt_tid s <= nxt_tid s'.
Definition keeps_table {A} (c : M A) : Prop :=
  forall s a s', c s = Ok (a, s') -> tab_kept s s'.

(** ** Concurrent recovery: REDO and UNDO while the system is open *)

(** What [redo_concurrent], [_redo_page_pass] and [undo_concurrent] read
    besides the environment of [recover]: the other REDO policies of
    restart.h, the globals the caller of [recover] stored its results in,
    and two parts of the buffer pool this state does not hold. *)
Record cenv := CEnv {
  c_env : env;
  use_redo_page_recovery : bool;
  use_redo_spr_recovery : bool;
  use_redo_mix_recovery : bool;
  use_redo_delay_recovery : bool;
  g_in_doubt_count : N;                  (* smlevel_0::in_doubt_count *)
  g_redo_lsn : lsn_t;                    (* smlevel_0::redo_lsn *)
  dependency_lsn : bf_idx -> lsn_t;      (* cb._dependency_lsn: the last
                                            write Log Analysis recorded *)
  get_root_page_idx : N -> N -> bf_idx   (* bf->get_root_page_idx *) }.

Section Concurrent.

Variable ce : cenv.
Abbreviation e := (c_env ce) (only parsing).

(** The body of the loop of [_redo_page_pass] for frame [i]; the result is
    [root_idx].  The sleep that follows the root page is not modelled. *)
Definition redo_page_frame (i root_idx : bf_idx) : M bf_idx :=
  if negb (latch_ok e i) then W_FATAL F_latch
  else
    o <- gets (fun s => cbs s !! i) ;;
    match o with
    | Some cb =>
        if cb_in_doubt cb then
          let key := bf_key (cb_pid_vol cb) (cb_pid_shpid cb) in
          idx <- lookup_in_doubt key ;;
          if N.eqb 0 idx then W_FATAL F_page_not_in_hashtable
          else
            let vol := cb_pid_vol cb in
            let shpid := cb_pid_shpid cb in
            let store := cb_store_num cb in
            let emlsn := dependency_lsn ce i in
            res <- load_for_redo e idx vol shpid ;;
            flags <- match res with
                     | LoadPastEnd => ret (true, false)
                     | LoadBadChecksum _ => ret (false, true)
                     | LoadError => W_FATAL F_load_failed
                     | LoadOk _ => ret (false, false)
                     end ;;
            let virgin_page := fst flags in
            let corrupted_page := snd flags in
            coerce e (EvFix idx) ;;;
            when virgin_page (cb_modify (with_pid (Lpid vol store shpid)) i) ;;;
            when (virgin_page || corrupted_page)
                 (cb_modify (with_page_lsn lsn_null) idx) ;;;
            page_lsn <- page_lsn_of idx ;;
            when (negb (N.eqb emlsn page_lsn))
                 (cb_modify (with_page_lsn lsn_null) idx) ;;;
            emit (EvSPR idx emlsn) ;;;
            match spr_result e idx emlsn with
            | None => W_FATAL F_coerce
            | Some l => cb_modify (with_page_lsn l) idx
            end ;;;
            page_lsn <- page_lsn_of idx ;;
            cb_modify (fun cb => if N.ltb page_lsn (cb_rec_lsn cb)
                                 then with_rec_lsn page_lsn cb else cb) i ;;;
            in_doubt_to_dirty idx ;;;
            ret (if N.eqb 0 root_idx && use_redo_delay_recovery ce
                 then get_root_page_idx ce vol store else root_idx)
        else ret root_idx
    | None => ret root_idx
    end.

(** The loop of [_redo_page_pass]: [n] frames from frame [i] on. *)
Fixpoint redo_page_loop (n : nat) (i root_idx : bf_idx) : M unit :=
  match n with
  | O => ret tt
  | S n' =>
      root_idx' <- redo_page_frame i root_idx ;;
      redo_page_loop n' (i + 1) root_idx'
  end.

(** [restart_m::_redo_page_pass]: the frames 1 to [block_cnt - 1]. *)
Definition _redo_page_pass : M unit :=
  if N.eqb 0 (g_in_doubt_count ce) then ret tt
  else
    call e EvLogComment ;;;
    redo_page_loop (N.to_nat (block_cnt e - 1)) 1 0.

End Concurrent.

(** Where [redo_concurrent] and [undo_concurrent] stop on their own
    account; [F_in_pass] is a fatal error of the pass they call. *)
Inductive concurrent_fatal :=
| F_redo_serial
| F_redo_no_mode
| F_undo_serial
| F_undo_no_mode
| F_undo_not_concurrent
| F_in_pass (f : fatal).

(** How a run of [redo_concurrent], [undo_concurrent] or the restart
    thread ends. *)
Inductive cresult (A : Type) :=
| COk (a : A)
| CFatal (f : concurrent_fatal)
| CDiverge.
Arguments COk {A} a.
Arguments CFatal {A} f.
Arguments CDiverge {A}.

(** The monad of the drivers: [M] with their own fatal errors. *)
Definition CM (A : Type) : Type := sm -> cresult (A * sm)%type.

Definition lift {A} (c : M A) : CM A :=
  fun s => match c s with
           | Ok x => COk x
           | Fatal f => CFatal (F_in_pass f)
           | Diverge => CDiverge
           end.

Definition cbind {A B} (c : CM A) (k : A -> CM B) : CM B :=
  fun s => match c s with
           | COk (a, s') => k a s'
           | CFatal f => CFatal f
           | CDiverge => CDiverge
           end.

Definition cfatal {A} (f : concurrent_fatal) : CM A := fun _ => CFatal f.

Section ConcurrentDrivers.

Variable ce : cenv.
Abbreviation e := (c_env ce) (only parsing).

(** [restart_m::redo_concurrent].  The SPR driven and the mixed policy are
    not implemented (the code holds a debug assertion there) and do
    nothing.  The entry of the function is not traced. *)
Definition redo_concurrent : CM unit :=
  if use_serial_recovery e then cfatal F_redo_serial
  else
    cbind
      (if use_redo_log_recovery e then
         lift (when (negb (N.eqb 0 (g_in_doubt_count ce)))
                 (curr <- gets curr_lsn ;;
                  redo_log_pass e (g_redo_lsn ce) curr (g_in_doubt_count ce)))
       else if use_redo_page_recovery ce then lift (_redo_page_pass ce)
       else if use_redo_spr_recovery ce then lift (ret tt)
       else if use_redo_mix_recovery ce then lift (ret tt)
       else cfatal F_redo_no_mode)
      (fun _ => lift (call e EvSynchTake)).

(** [restart_m::undo_concurrent]; the callee of the reverse driven pass
    builds the heap itself. *)
Definition undo_concurrent (fuel : nat) : CM unit :=
  if use_serial_recovery e then cfatal F_undo_serial
  else
    cbind
      (if use_concurrent_log_recovery e || use_concurrent_lock_recovery e then
         if use_undo_reverse_recovery e then
           lift (curr <- gets curr_lsn ;;
                 undo_reverse_pass e fuel [] curr (g_redo_lsn ce))
         else if use_undo_txn_recovery e then lift (_undo_txn_pass e fuel)
         else cfatal F_undo_no_mode
       else cfatal F_undo_not_concurrent)
      (fun _ => lift (call e EvSynchTake)).

(** [restart_thread_t::run]: the result is the flag [working] of the
    thread, which is true while the two calls run. *)
Definition run (fuel : nat) : CM bool :=
  let working := true in
  cbind redo_concurrent (fun _ =>
  cbind (undo_concurrent fuel) (fun _ =>
  let working := false in
  fun s => COk (working, s))).

End ConcurrentDrivers.

(** The concurrent part of a recovery on [e] that stored [idc] and [redo],
    page driven or not, with no delay and no last write recorded. *)
Definition mk_cenv (e : env) (page_driven : bool) (idc : N) (redo : lsn_t)
  : cenv :=
  CEnv e page_driven false false false idc redo (fun _ => lsn_null)
       (fun _ _ => 0).

Open Scope Z_scope.

(** ** Block arithmetic of the log buffer (log.h) *)

(** A C [long] is a 64-bit two's complement integer.  An operation whose
    result is not a [long], and a division by zero, have no defined
    result. *)
Definition long_min : Z := - 2 ^ 63.
Definition long_max : Z := 2 ^ 63 - 1.

Definition long_of (z : Z) : option Z :=
  if (long_min <=? z) && (z <=? long_max) then Some z else None.

(** [logbuf_core::_floor]: [(offset/block_size)*block_size]; the division
    of C truncates towards zero. *)
Definition _floor (offset block_size : Z) : option Z :=
  if block_size =? 0 then None
  else
    match long_of (Z.quot offset block_size) with
    | Some q => long_of (q * block_size)
    | None => None
    end.

(** [logbuf_core::_ceil]: [_floor(offset + block_size - 1, block_size)]. *)
Definition _ceil (offset block_size : Z) : option Z :=
  match long_of (offset + block_size) with
  | Some a =>
      match long_of (a - 1) with
      | Some b => _floor b block_size
      | None => None
      end
  | None => None
  end.

Close Scope Z_scope.

(** ** The order of UNDO *)

(** The LSNs of the log records undone, in the order of the trace. *)
Fixpoint undo_lsns (evs : list event) : list lsn_t :=
  match evs with
  | [] => []
  | EvUndo l :: evs' => l :: undo_lsns evs'
  | _ :: evs' => undo_lsns evs'
  end.

(** [l] is strictly descending, above [lo] and below [hi]. *)
Fixpoint descends (lo hi : lsn_t) (l : list lsn_t) : bool :=
  match l with
  | [] => true
  | a :: l' => N.ltb lo a && N.ltb a hi && descends lo a l'
  end.

(** The events of a rollback: its start and the records it undoes. *)
Definition rollback_event (ev : event) : bool :=
  match ev with
  | EvRollback _ _ | EvUndo _ => true
  | _ => false
  end.

(** * Properties *)

(** ** The monad *)

Section MonadFacts.
Context {A B : Type}.
Implicit Types (c : M A) (k : A -> M B) (s : sm).

Lemma bind_Ok c k s a s1 : c s = Ok (a, s1) -> bind c k s = k a s1.
Proof. unfold bind. intros ->. reflexivity. Qed.

Lemma bind_Fatal c k s x : c s = Fatal x -> bind c k s = Fatal x.
Proof. unfold bind. intros ->. reflexivity. Qed.

Lemma bind_inv_Ok c k s b s2 :
  bind c k s = Ok (b, s2) ->
  exists a s1, c s = Ok (a, s1) /\ k a s1 = Ok (b, s2).
Proof.
  unfold bind. destruct (c s) as [[a s1]| |]; try discriminate.
  intros H. exists a, s1. split; [reflexivity | exact H].
Qed.

Lemma bind_ext c k k' s :
  (forall a s1, k a s1 = k' a s1) -> bind c k s = bind c k' s.
Proof. intros H. unfold bind. destruct (c s) as [[a s1]| |]; auto. Qed.

End MonadFacts.

(** ** Running monadic code on a state *)

Section Run.
Context {A B : Type}.
Lemma run_ret (a : A) s : ret a s = Ok (a, s).
Proof. reflexivity. Qed.
Lemma run_gets (f : sm -> A) s : gets f s = Ok (f s, s).
Proof. reflexivity. Qed.
Lemma run_modify f s : modify f s = Ok (tt, f s).
Proof. reflexivity. Qed.
Lemma run_fatal x s : @W_FATAL A x s = Fatal x.
Proof. reflexivity. Qed.
Lemma run_bind_ret (a : A) (k : A -> M B) s : bind (ret a) k s = k a s.
Proof. reflexivity. Qed.
Lemma run_bind_gets (f : sm -> A) (k : A -> M B) s :
  bind (gets f) k s = k (f s) s.
Proof. reflexivity. Qed.
Lemma run_bind_modify f (k : unit -> M B) s :
  bind (modify f) k s = k tt (f s).
Proof. reflexivity. Qed.
Lemma run_bind_fatal x (k : A -> M B) s : bind (W_FATAL x) k s = Fatal x.
Proof. reflexivity. Qed.
Lemma run_bind_bind {C} (c : M C) (k1 : C -> M A) (k2 : A -> M B) s :
  bind (bind c k1) k2 s = bind c (fun x => bind (k1 x) k2) s.
Proof. unfold bind. destruct (c s) as [[x s1]| |]; reflexivity. Qed.
End Run.

Ltac sm_proj :=
  cbn [operating_mode swizzling_enabled hashtable cbs xct_tab nxt_tid
       curr_lsn last_mount_lsn commit_lsn_global trace
       set_operating_mode set_swizzling set_hashtable set_cbs set_xct_tab
       set_nxt_tid set_curr_lsn set_last_mount_lsn set_commit_lsn_global
       add_event fst snd negb andb orb].

Ltac mrun :=
  repeat (progress
    (rewrite ?run_bind_bind, ?run_bind_ret, ?run_bind_gets, ?run_bind_modify,
       ?run_bind_fatal, ?run_ret, ?run_gets, ?run_modify, ?run_fatal;
     sm_proj)).

Ltac sm_proj_in H :=
  cbn [operating_mode swizzling_enabled hashtable cbs xct_tab nxt_tid
       curr_lsn last_mount_lsn commit_lsn_global trace
       set_operating_mode set_swizzling set_hashtable set_cbs set_xct_tab
       set_nxt_tid set_curr_lsn set_last_mount_lsn set_commit_lsn_global
       add_event fst snd negb andb orb] in H.

Ltac mrun_in H :=
  repeat (progress
    (rewrite ?run_bind_bind, ?run_bind_ret, ?run_bind_gets, ?run_bind_modify,
       ?run_bind_fatal, ?run_ret, ?run_gets, ?run_modify, ?run_fatal in H;
     sm_proj_in H)).

Ltac prim_unfold :=
  unfold load_for_redo, in_doubt_to_dirty, lookup_in_doubt, is_in_doubt,
    is_dirty, is_used, cb_flag, page_lsn_of, call, coerce, cb_modify, emit,
    when.

Ltac cb_simpl :=
  cbn [fmap option_fmap option_map cb_page_lsn cb_in_doubt cb_dirty cb_used
       cb_rec_lsn cb_pid_vol cb_store_num cb_pid_shpid
       with_page_lsn with_pid with_flags with_rec_lsn
       negb andb orb default from_option id].

Ltac mrun_cb Hcb :=
  repeat (progress
    (prim_unfold; mrun; rewrite ?lookup_alter_eq, ?Hcb; cb_simpl)).

Lemma not_in_app {A} (x : A) l1 l2 : ~ In x l1 -> ~ In x l2 -> ~ In x (l1 ++ l2).
Proof. intros H1 H2 H. apply in_app_or in H. tauto. Qed.

(** ** The page LSN comparison of log driven REDO *)

Section RedoPageCompare.
Variables (e : env) (r : logrec_t) (lsn end_lsn : lsn_t) (idx : bf_idx)
          (virgin : bool) (dc : N) (s : sm) (cb : bf_tree_cb_t).
Hypothesis Hcb : cbs s !! idx = Some cb.

Lemma redo_page_compare_older :
  cb_page_lsn cb < lsn ->
  exists dc' s' evs,
    redo_page_compare e r lsn end_lsn idx virgin dc s = Ok ((true, dc'), s')
    /\ trace s' = trace s ++ evs
    /\ In (EvRedo lsn (Some idx)) evs
    /\ frame_lsn s' idx = Some lsn.
Proof.
  intros Hlt. apply N.ltb_lt in Hlt.
  unfold redo_page_compare, frame_lsn.
  mrun_cb Hcb. rewrite Hlt. mrun_cb Hcb.
  destruct (cb_in_doubt cb) eqn:Hd, virgin; mrun_cb Hcb; rewrite ?Hd; mrun_cb Hcb.
  all: try (destruct (N.ltb lsn (cb_rec_lsn cb)); mrun_cb Hcb; rewrite ?Hd;
            mrun_cb Hcb).
  all: do 3 eexists; split; [reflexivity|]; sm_proj; rewrite <- ?app_assoc;
       split; [reflexivity|]; split; [simpl; auto|];
       rewrite ?lookup_alter_eq, ?Hcb; simpl;
       try destruct (N.ltb lsn (cb_rec_lsn cb)); reflexivity.
Qed.

Lemma redo_page_compare_virgin :
  lsn <= cb_page_lsn cb -> virgin = true ->
  exists dc' s' evs,
    redo_page_compare e r lsn end_lsn idx virgin dc s = Ok ((true, dc'), s')
    /\ trace s' = trace s ++ evs
    /\ ~ In (EvRedo lsn (Some idx)) evs
    /\ frame_lsn s' idx = Some (cb_page_lsn cb).
Proof.
  intros Hle ->. apply N.ltb_ge in Hle.
  unfold redo_page_compare, frame_lsn.
  mrun_cb Hcb. rewrite Hle. mrun_cb Hcb.
  destruct (cb_in_doubt cb) eqn:Hd; mrun_cb Hcb; rewrite ?Hd; mrun_cb Hcb.
  all: do 3 eexists; split; [reflexivity|]; sm_proj; rewrite <- ?app_assoc;
       split; [try reflexivity; symmetry; apply app_nil_r|];
       split; [simpl; intuition discriminate|];
       rewrite ?lookup_alter_eq, ?Hcb; reflexivity.
Qed.

Lemma redo_page_compare_wal :
  lsn <= cb_page_lsn cb -> virgin = false ->
  end_lsn <= cb_page_lsn cb -> cb_page_lsn cb <> lsn_null ->
  redo_page_compare e r lsn end_lsn idx virgin dc s = Fatal F_wal_violation.
Proof.
  intros Hle -> Hend Hnz. apply N.ltb_ge in Hle. apply N.leb_le in Hend.
  unfold redo_page_compare.
  mrun_cb Hcb. rewrite Hle, Hend.
  destruct (N.eqb_spec lsn_null (cb_page_lsn cb)) as [E|_]; [congruence|].
  reflexivity.
Qed.

Lemma redo_page_compare_newer :
  lsn <= cb_page_lsn cb -> virgin = false ->
  cb_page_lsn cb < end_lsn \/ cb_page_lsn cb = lsn_null ->
  exists s' evs,
    redo_page_compare e r lsn end_lsn idx virgin dc s = Ok ((false, dc), s')
    /\ trace s' = trace s ++ evs
    /\ ~ In (EvRedo lsn (Some idx)) evs
    /\ frame_lsn s' idx
       = Some (if N.eqb lsn_null (cb_page_lsn cb) then lsn_null
               else lsn_advance (cb_page_lsn cb) 1).
Proof.
  intros Hle -> Hend. apply N.ltb_ge in Hle.
  unfold redo_page_compare, frame_lsn.
  mrun_cb Hcb. rewrite Hle.
  assert (Hc : N.leb end_lsn (cb_page_lsn cb)
               && negb (N.eqb lsn_null (cb_page_lsn cb)) = false).
  { destruct Hend as [H|H].
    - apply N.leb_gt in H. rewrite H. reflexivity.
    - rewrite H. simpl. apply andb_false_r. }
  rewrite Hc.
  destruct (N.eqb lsn_null (cb_page_lsn cb)) eqn:Hn; mrun_cb Hcb.
  all: do 2 eexists; split; [reflexivity|]; sm_proj; rewrite <- ?app_assoc;
       split; [try reflexivity; symmetry; apply app_nil_r|];
       split; [simpl; intuition discriminate|];
       rewrite ?lookup_alter_eq, ?Hcb; simpl.
  - apply N.eqb_eq in Hn. rewrite <- Hn. reflexivity.
  - reflexivity.
Qed.
End RedoPageCompare.

Section RedoWithPid.
Variables (e : env) (r : logrec_t) (lsn end_lsn : lsn_t)
          (page_updated : lpid_t) (s : sm) (idx : bf_idx)
          (cb : bf_tree_cb_t) (pl : lsn_t).
Hypothesis Hh :
  hashtable s !! bf_key (pid_vol page_updated) (pid_page page_updated)
  = Some idx.
Hypothesis Hidx : idx <> 0.
Hypothesis Hcb : cbs s !! idx = Some cb.
Hypothesis Hfl : cb_in_doubt cb || cb_dirty cb = true.
Hypothesis Hlatch : latch_ok e idx = true.
Hypothesis Hfix : rc_ok e (EvFix idx) = true.
Hypothesis Hpl : redo_read_page_lsn e r lsn page_updated idx cb = Some pl.

Lemma redo_with_pid_enter :
  exists s1 cb1 evs1,
    (forall dc,
        _redo_log_with_pid e r lsn end_lsn page_updated dc s
        = redo_page_compare e r lsn end_lsn idx
                            (virgin_page r page_updated) dc s1)
    /\ trace s1 = trace s ++ evs1
    /\ ~ In (EvRedo lsn (Some idx)) evs1
    /\ cbs s1 !! idx = Some cb1
    /\ cb_page_lsn cb1 = pl.
Proof.
  unfold redo_read_page_lsn in Hpl.
  assert (Hstart : forall dc,
    _redo_log_with_pid e r lsn end_lsn page_updated dc s
    = (let virgin := virgin_page r page_updated in
        corrupted_page <-
          (if cb_in_doubt cb && negb virgin then
             res <- load_for_redo e idx (pid_vol page_updated)
                                  (pid_page page_updated) ;;
             match res with
             | LoadPastEnd => W_FATAL F_page_not_on_disk
             | LoadError => W_FATAL F_load_failed
             | LoadBadChecksum _ =>
                 cb_modify (with_pid page_updated) idx ;;; ret true
             | LoadOk _ =>
                 cb_modify (with_pid page_updated) idx ;;; ret false
             end
           else if cb_in_doubt cb && virgin then
             cb_modify (with_pid page_updated) idx ;;; ret false
           else ret false) ;;
        coerce e (EvFix idx) ;;;
        when virgin (cb_modify (with_page_lsn lsn_null) idx) ;;;
        when corrupted_page
          (emit (EvSPR idx lsn) ;;;
           match spr_result e idx lsn with
           | None => W_FATAL F_coerce
           | Some l => cb_modify (with_page_lsn l) idx
           end) ;;;
        redo_page_compare e r lsn end_lsn idx virgin dc) s).
  { intros dc. unfold _redo_log_with_pid.
    unfold lookup_in_doubt, is_in_doubt, is_dirty, cb_flag. mrun.
    rewrite Hh. cbn [default from_option id].
    destruct (N.eqb_spec 0 idx) as [E|_]; [congruence|]. cbn [negb].
    rewrite Hlatch. cbn [negb]. mrun. rewrite Hcb, Hfl. reflexivity. }
  cbv zeta in Hstart.
  destruct (virgin_page r page_updated) eqn:Hv.
  - injection Hpl as <-.
    destruct (cb_in_doubt cb) eqn:Hd.
    all: eexists _, _, _; split;
      [intros dc; rewrite Hstart; mrun_cb Hcb; rewrite Hfix; mrun_cb Hcb;
       reflexivity|];
      sm_proj; rewrite <- ?app_assoc;
      (split; [reflexivity|]); (split; [simpl; intuition discriminate|]);
      rewrite ?lookup_alter_eq, ?Hcb; split; reflexivity.
  - destruct (cb_in_doubt cb) eqn:Hd.
    + destruct (disk_read e (pid_vol page_updated) (pid_page page_updated))
        as [l|  |l| ] eqn:Hdisk; try discriminate.
      * injection Hpl as <-.
        eexists _, _, _; split;
          [intros dc; rewrite Hstart; mrun_cb Hcb; rewrite Hdisk; mrun_cb Hcb;
           rewrite Hfix; mrun_cb Hcb; reflexivity|];
        sm_proj; rewrite <- ?app_assoc;
        (split; [reflexivity|]); (split; [simpl; intuition discriminate|]);
        rewrite ?lookup_alter_eq, ?Hcb; split; reflexivity.
      * eexists _, _, _; split;
          [intros dc; rewrite Hstart; mrun_cb Hcb; rewrite Hdisk; mrun_cb Hcb;
           rewrite Hfix; mrun_cb Hcb; rewrite Hpl; mrun_cb Hcb; reflexivity|];
        sm_proj; rewrite <- ?app_assoc;
        (split; [reflexivity|]); (split; [simpl; intuition discriminate|]);
        rewrite ?lookup_alter_eq, ?Hcb; split; reflexivity.
    + injection Hpl as <-.
      eexists _, _, _; split;
        [intros dc; rewrite Hstart; mrun_cb Hcb; rewrite Hfix; mrun_cb Hcb;
         reflexivity|];
      sm_proj; rewrite <- ?app_assoc;
      (split; [reflexivity|]); (split; [simpl; intuition discriminate|]);
      rewrite ?lookup_alter_eq, ?Hcb; split; reflexivity.
Qed.

End RedoWithPid.

(** The cases of the comparison, whatever the LSN of the record.  With [pl]
    the LSN read from the page: the redo function of the record is applied
    exactly when [pl] is below the LSN of the record, and the page LSN then
    becomes the LSN of the record.  Otherwise nothing is redone: for a
    virgin page the page counts as redone and keeps its LSN; for another
    page a non-null [pl] at or past [end_logscan_lsn] is fatal, and else the
    page LSN is advanced by one unless it is null.  When the LSN of the
    record is not null, a page whose LSN is not below it is neither virgin
    nor at a null LSN. *)
Lemma redo_with_pid_page_lsn_cases
    e r lsn end_logscan_lsn page_updated dc s idx cb pl :
  hashtable s !! bf_key (pid_vol page_updated) (pid_page page_updated)
  = Some idx ->
  idx <> 0 ->
  cbs s !! idx = Some cb ->
  cb_in_doubt cb || cb_dirty cb = true ->
  latch_ok e idx = true ->
  rc_ok e (EvFix idx) = true ->
  redo_read_page_lsn e r lsn page_updated idx cb = Some pl ->
  let res := _redo_log_with_pid e r lsn end_logscan_lsn page_updated dc s in
  (pl < lsn ->
   exists dc' s' evs,
     res = Ok ((true, dc'), s') /\ trace s' = trace s ++ evs
     /\ In (EvRedo lsn (Some idx)) evs /\ frame_lsn s' idx = Some lsn)
  /\ (lsn <= pl -> virgin_page r page_updated = true ->
      exists dc' s' evs,
        res = Ok ((true, dc'), s') /\ trace s' = trace s ++ evs
        /\ ~ In (EvRedo lsn (Some idx)) evs /\ frame_lsn s' idx = Some pl)
  /\ (lsn <= pl -> virgin_page r page_updated = false ->
      end_logscan_lsn <= pl -> pl <> lsn_null ->
      res = Fatal F_wal_violation)
  /\ (lsn <= pl -> virgin_page r page_updated = false ->
      pl < end_logscan_lsn \/ pl = lsn_null ->
      exists s' evs,
        res = Ok ((false, dc), s') /\ trace s' = trace s ++ evs
        /\ ~ In (EvRedo lsn (Some idx)) evs
        /\ frame_lsn s' idx
           = Some (if N.eqb lsn_null pl then lsn_null else lsn_advance pl 1))
  /\ (lsn <> lsn_null -> lsn <= pl ->
      virgin_page r page_updated = false /\ pl <> lsn_null).
Proof.
  intros Hh Hidx Hcb Hfl Hlatch Hfix Hpl res.
  destruct (redo_with_pid_enter e r lsn end_logscan_lsn page_updated s idx cb
              pl Hh Hidx Hcb Hfl Hlatch Hfix Hpl)
    as (s1 & cb1 & evs1 & Hrun & Htr & Hnin & Hcb1 & Hpl1).
  subst res. rewrite Hrun. subst pl.
  repeat split.
  - intros Hlt.
    destruct (redo_page_compare_older e r lsn end_logscan_lsn idx
                (virgin_page r page_updated) dc s1 cb1 Hcb1 Hlt)
      as (dc' & s' & evs & Hres & Htr' & Hin & Hfr).
    exists dc', s', (evs1 ++ evs). rewrite Hres, Htr', Htr, app_assoc.
    repeat split; auto. apply in_or_app. right. exact Hin.
  - intros Hle Hv.
    destruct (redo_page_compare_virgin e r lsn end_logscan_lsn idx
                (virgin_page r page_updated) dc s1 cb1 Hcb1 Hle Hv)
      as (dc' & s' & evs & Hres & Htr' & Hin & Hfr).
    exists dc', s', (evs1 ++ evs). rewrite Hres, Htr', Htr, app_assoc.
    repeat split; auto. apply not_in_app; assumption.
  - intros Hle Hv Hend Hnz.
    apply (redo_page_compare_wal e r lsn end_logscan_lsn idx
             (virgin_page r page_updated) dc s1 cb1 Hcb1 Hle Hv Hend Hnz).
  - intros Hle Hv Hend.
    destruct (redo_page_compare_newer e r lsn end_logscan_lsn idx
                (virgin_page r page_updated) dc s1 cb1 Hcb1 Hle Hv Hend)
      as (s' & evs & Hres & Htr' & Hin & Hfr).
    exists s', (evs1 ++ evs). rewrite Hres, Htr', Htr, app_assoc.
    repeat split; auto. apply not_in_app; assumption.
  - unfold redo_read_page_lsn in Hpl.
    destruct (virgin_page r page_updated); [|reflexivity].
    injection Hpl as Hpl. unfold lsn_null in *. lia.
  - intros Hnull. unfold lsn_null in *. lia.
Qed.

(** C1.  For a redoable record, at an LSN that is not null, whose page is
    found in_doubt or dirty in the buffer pool and is brought into memory,
    with [pl] the last-write LSN read from the page: if [pl] is below the LSN
    of the record the redo function of the record is applied and the page
    LSN becomes the LSN of the record; if not, nothing is redone, and a [pl]
    at or past [end_logscan_lsn] is fatal (WAL violation), while a [pl]
    below it is advanced by one. *)
Theorem redo_with_pid_compares_page_lsn
    e r lsn end_logscan_lsn page_updated dc s idx cb pl :
  hashtable s !! bf_key (pid_vol page_updated) (pid_page page_updated)
  = Some idx ->
  idx <> 0 ->
  cbs s !! idx = Some cb ->
  cb_in_doubt cb || cb_dirty cb = true ->
  latch_ok e idx = true ->
  rc_ok e (EvFix idx) = true ->
  redo_read_page_lsn e r lsn page_updated idx cb = Some pl ->
  lsn <> lsn_null ->
  let res := _redo_log_with_pid e r lsn end_logscan_lsn page_updated dc s in
  (pl < lsn ->
   exists dc' s' evs,
     res = Ok ((true, dc'), s') /\ trace s' = trace s ++ evs
     /\ In (EvRedo lsn (Some idx)) evs /\ frame_lsn s' idx = Some lsn)
  /\ (lsn <= pl -> end_logscan_lsn <= pl -> res = Fatal F_wal_violation)
  /\ (lsn <= pl -> pl < end_logscan_lsn ->
      exists s' evs,
        res = Ok ((false, dc), s') /\ trace s' = trace s ++ evs
        /\ ~ In (EvRedo lsn (Some idx)) evs
        /\ frame_lsn s' idx = Some (lsn_advance pl 1)).
Proof.
  intros Hh Hidx Hcb Hfl Hlatch Hfix Hpl Hlsn res.
  destruct (redo_with_pid_page_lsn_cases e r lsn end_logscan_lsn page_updated
              dc s idx cb pl Hh Hidx Hcb Hfl Hlatch Hfix Hpl)
    as (Hold & _ & Hwal & Hnew & Hnn).
  fold res in Hold, Hwal, Hnew.
  split; [exact Hold|]. split.
  - intros Hle Hend. destruct (Hnn Hlsn Hle) as [Hv Hnz].
    apply Hwal; assumption.
  - intros Hle Hend. destruct (Hnn Hlsn Hle) as [Hv Hnz].
    destruct (Hnew Hle Hv (or_introl Hend)) as (s' & evs & Hres & Htr & Hnin & Hfr).
    exists s', evs. repeat split; try assumption.
    rewrite Hfr. destruct (N.eqb_spec lsn_null pl) as [E|_]; [|reflexivity].
    exfalso. apply Hnz. symmetry. exact E.
Qed.

(** The three cases on page 42 and the record of transaction 7 at LSN 600:
    the page in_doubt with a null LSN on disk is redone; the page dirty at
    LSN 650 is advanced to 651 when the log ends at 900, and is a WAL
    violation when the log ends at 650. *)
Lemma redo_with_pid_compares_page_lsn_witness :
  let e := mk_env true [] in
  let r := mk_logrec t_btree_insert 7 600 0 true true false 42 in
  let s0 := sm_one_page 42 true false 500 0 900 in
  let s1 := sm_one_page 42 false true 500 650 900 in
  (exists dc' s' evs,
      _redo_log_with_pid e r 600 900 (construct_pid r) 0 s0
      = Ok ((true, dc'), s')
      /\ trace s' = trace s0 ++ evs
      /\ In (EvRedo 600 (Some 1)) evs /\ frame_lsn s' 1 = Some 600)
  /\ _redo_log_with_pid e r 600 650 (construct_pid r) 0 s1
     = Fatal F_wal_violation
  /\ (exists s' evs,
         _redo_log_with_pid e r 600 900 (construct_pid r) 0 s1
         = Ok ((false, 0), s')
         /\ trace s' = trace s1 ++ evs
         /\ ~ In (EvRedo 600 (Some 1)) evs
         /\ frame_lsn s' 1 = Some (lsn_advance 650 1)).
Proof.
  intros e r s0 s1.
  assert (Hlsn : (600 : N) <> lsn_null) by discriminate.
  split; [|split].
  - apply (redo_with_pid_compares_page_lsn e r 600 900 (construct_pid r) 0 s0
             1 (Cb 1 1 42 true false true 500 0) 0);
      [vm_compute; reflexivity | discriminate | vm_compute; reflexivity
      | reflexivity | reflexivity | reflexivity | reflexivity | exact Hlsn
      | reflexivity].
  - apply (redo_with_pid_compares_page_lsn e r 600 650 (construct_pid r) 0 s1
             1 (Cb 1 1 42 false true true 500 650) 650);
      [vm_compute; reflexivity | discriminate | vm_compute; reflexivity
      | reflexivity | reflexivity | reflexivity | reflexivity | exact Hlsn
      | discriminate | discriminate].
  - apply (redo_with_pid_compares_page_lsn e r 600 900 (construct_pid r) 0 s1
             1 (Cb 1 1 42 false true true 500 650) 650);
      [vm_compute; reflexivity | discriminate | vm_compute; reflexivity
      | reflexivity | reflexivity | reflexivity | reflexivity | exact Hlsn
      | discriminate | reflexivity].
Defined.

(** ** The forward scan of log driven REDO *)

Lemma redo_scan_stop e end_lsn l1 lsn r l2 dc s :
  end_lsn < lsn ->
  redo_scan e false end_lsn (l1 ++ (lsn, r) :: l2) dc s
  = redo_scan e false end_lsn l1 dc s.
Proof.
  intros Hlt. revert dc s.
  induction l1 as [|[lsn1 r1] l1 IH]; intros dc s; simpl.
  - apply N.ltb_lt in Hlt. rewrite Hlt. reflexivity.
  - destruct (N.ltb end_lsn lsn1); [reflexivity|].
    destruct (negb (valid_header r1 lsn1)); [reflexivity|].
    apply bind_ext. intros dc' s'. apply IH.
Qed.

(** C10.  In concurrent (non-serial) mode the forward scan of
    [redo_log_pass] stops at a log record whose LSN is beyond
    [end_logscan_lsn]: that record and every record after it are not
    processed, so the pass does exactly what it does on the records before
    it. *)
Theorem redo_log_pass_stops_at_end_logscan_lsn
    e redo_lsn end_logscan_lsn in_doubt_count l1 lsn r l2 s :
  use_serial_recovery e = false ->
  log_scan (the_log e) redo_lsn = l1 ++ (lsn, r) :: l2 ->
  end_logscan_lsn < lsn ->
  (forall dc s0,
      redo_scan e (use_serial_recovery e) end_logscan_lsn
                (l1 ++ (lsn, r) :: l2) dc s0
      = redo_scan e (use_serial_recovery e) end_logscan_lsn l1 dc s0)
  /\ redo_log_pass e redo_lsn end_logscan_lsn in_doubt_count s
     = (emit (EvFunc f_redo_pass) ;;;
        if N.eqb 0 in_doubt_count then ret tt
        else if negb (use_redo_log_recovery e) then W_FATAL F_not_log_driven
        else
          dirty_count <- redo_scan e false end_logscan_lsn l1 0 ;;
          if negb (N.eqb in_doubt_count dirty_count)
          then W_FATAL F_dirty_count else ret tt) s.
Proof.
  intros Hser Hlog Hlt. split.
  - intros dc s0. rewrite Hser. apply redo_scan_stop, Hlt.
  - unfold redo_log_pass. rewrite Hser, Hlog.
    apply bind_ext. intros _ s1.
    destruct (N.eqb 0 in_doubt_count); [reflexivity|].
    destruct (negb (use_redo_log_recovery e)); [reflexivity|].
    unfold bind. rewrite redo_scan_stop by exact Hlt. reflexivity.
Qed.

Lemma redo_log_pass_stops_at_end_logscan_lsn_witness :
  let e := mk_env false log_two_updates in
  let l1 := [ (600, mk_logrec t_btree_insert 7 600 0 true true false 42) ] in
  let r := mk_logrec t_btree_insert 8 800 0 true true false 43 in
  (forall dc s0,
      redo_scan e (use_serial_recovery e) 700 (l1 ++ (800, r) :: []) dc s0
      = redo_scan e (use_serial_recovery e) 700 l1 dc s0)
  /\ redo_log_pass e 600 700 1 (sm_start false 900)
     = (emit (EvFunc f_redo_pass) ;;;
        if N.eqb 0 1 then ret tt
        else if negb (use_redo_log_recovery e) then W_FATAL F_not_log_driven
        else
          dirty_count <- redo_scan e false 700 l1 0 ;;
          if negb (N.eqb 1 dirty_count)
          then W_FATAL F_dirty_count else ret tt) (sm_start false 900).
Proof.
  intros e l1 r.
  apply (redo_log_pass_stops_at_end_logscan_lsn e 600 700 1 l1 800 r []).
  - reflexivity.
  - reflexivity.
  - reflexivity.
Defined.

(** C8.  When [redo_log_pass] is entered with a nonzero [in_doubt_count],
    it returns only if the [dirty_count] of the scan equals
    [in_doubt_count]; a scan that ends with a different [dirty_count] makes
    the pass raise a fatal error, and nothing that follows the pass runs. *)
Theorem redo_log_pass_checks_dirty_count
    e redo_lsn end_logscan_lsn in_doubt_count s :
  in_doubt_count <> 0 ->
  (forall s',
      redo_log_pass e redo_lsn end_logscan_lsn in_doubt_count s = Ok (tt, s') ->
      redo_scan e (use_serial_recovery e) end_logscan_lsn
                (log_scan (the_log e) redo_lsn) 0
                (add_event (EvFunc f_redo_pass) s)
      = Ok (in_doubt_count, s'))
  /\ (forall dirty_count s1,
         use_redo_log_recovery e = true ->
         redo_scan e (use_serial_recovery e) end_logscan_lsn
                   (log_scan (the_log e) redo_lsn) 0
                   (add_event (EvFunc f_redo_pass) s)
         = Ok (dirty_count, s1) ->
         dirty_count <> in_doubt_count ->
         forall (B : Type) (k : unit -> M B),
           bind (redo_log_pass e redo_lsn end_logscan_lsn in_doubt_count) k s
           = Fatal F_dirty_count).
Proof.
  intros Hnz.
  assert (Hz : N.eqb 0 in_doubt_count = false)
    by (apply N.eqb_neq; intros H; apply Hnz; symmetry; exact H).
  split.
  - intros s'. unfold redo_log_pass, bind, emit, modify. rewrite Hz.
    destruct (negb (use_redo_log_recovery e)); [discriminate|].
    destruct (redo_scan _ _ _ _ _ _) as [[dc s1]| |]; try discriminate.
    destruct (N.eqb_spec in_doubt_count dc) as [->|Hne]; simpl.
    + unfold ret. intros H. inversion H. reflexivity.
    + discriminate.
  - intros dc s1 Hlog Hscan Hne B k.
    apply bind_Fatal.
    unfold redo_log_pass, bind, emit, modify. rewrite Hz, Hlog. simpl.
    rewrite Hscan.
    destruct (N.eqb_spec in_doubt_count dc) as [->|_]; [congruence|].
    reflexivity.
Qed.

(** On [log_interleaved], with pages 42 and 43 in_doubt after Log Analysis:
    the scan makes both dirty, so the pass returns when it is entered with
    an [in_doubt_count] of 2 and is fatal when it is entered with 3. *)
Lemma redo_log_pass_checks_dirty_count_witness :
  let e := mk_env true log_interleaved in
  let s := sm_two_doomed in
  exists s1,
    redo_log_pass e 500 700 2 s = Ok (tt, s1)
    /\ redo_scan e (use_serial_recovery e) 700 (log_scan (the_log e) 500) 0
                 (add_event (EvFunc f_redo_pass) s)
       = Ok (2, s1)
    /\ forall (B : Type) (k : unit -> M B),
         bind (redo_log_pass e 500 700 3) k s = Fatal F_dirty_count.
Proof.
  intros e s. eexists. split; [vm_compute; reflexivity|].
  assert (H2 : (2 : N) <> 0) by discriminate.
  assert (H3 : (3 : N) <> 0) by discriminate.
  pose proof (proj1 (redo_log_pass_checks_dirty_count e 500 700 2 s H2) _
                    ltac:(vm_compute; reflexivity)) as Hscan.
  split; [exact Hscan|].
  intros B k.
  apply (proj2 (redo_log_pass_checks_dirty_count e 500 700 3 s H3) 2 _
               eq_refl Hscan).
  discriminate.
Defined.

(** ** Log Analysis: checkpoint records *)

Lemma analysis_attach_total max_lsn lsn r s :
  exists xd s', analysis_attach max_lsn lsn r s = Ok (xd, s').
Proof.
  unfold analysis_attach, xct_look_up, new_xct, update_youngest_tid,
    set_last_lsn, set_first_lsn, xct_modify.
  destruct (negb (N.eqb (r_tid r) tid_null)); mrun; [|eauto].
  destruct (look_up (r_tid r) (xct_tab s)); mrun; [eauto|].
  destruct (_ && _); mrun; eauto.
Qed.

Lemma analysis_step_later_chkpt e master max_lsn lsn r v s :
  r_is_single_sys_xct r = false ->
  lsn = r_lsn_ck r ->
  0 < num_chkpt_end_handled v ->
  is_chkpt_payload_kind (r_type r) = true ->
  analysis_step e master max_lsn lsn r v s
  = (xd <- analysis_attach max_lsn lsn r ;;
     ret (if kind_eqb (r_type r) t_chkpt_end
          then incr_chkpt_end (set_last lsn v) else set_last lsn v)) s.
Proof.
  intros Hssx -> Hnum Hk.
  unfold analysis_step. rewrite N.eqb_refl, Hssx. cbn [negb].
  apply bind_ext. intros xd s1.
  unfold analysis_dispatch.
  assert (Hz : N.eqb (num_chkpt_end_handled (set_last (r_lsn_ck r) v)) 0 = false).
  { apply N.eqb_neq. simpl. lia. }
  destruct (r_type r); try discriminate Hk; rewrite Hz; reflexivity.
Qed.

Lemma analysis_step_chkpt_end_mismatch e master max_lsn lsn r v s :
  r_is_single_sys_xct r = false ->
  lsn = r_lsn_ck r ->
  num_chkpt_end_handled v = 0 ->
  r_type r = t_chkpt_end ->
  fst (fst (r_chkpt_end r)) <> master ->
  analysis_step e master max_lsn lsn r v s = Fatal F_master_mismatch.
Proof.
  intros Hssx -> Hnum Hk Hne.
  unfold analysis_step. rewrite N.eqb_refl, Hssx. cbn [negb].
  destruct (analysis_attach_total max_lsn (r_lsn_ck r) r s) as (xd & s1 & Ha).
  rewrite (bind_Ok _ _ _ _ _ Ha).
  unfold analysis_dispatch. rewrite Hk. simpl. rewrite Hnum. simpl.
  destruct (r_chkpt_end r) as [[b rl] ul]. simpl in Hne.
  destruct (N.eqb_spec master b) as [E|_]; [congruence|]. reflexivity.
Qed.

Lemma analysis_step_chkpt_end_master e master max_lsn lsn r v s :
  r_is_single_sys_xct r = false ->
  lsn = r_lsn_ck r ->
  num_chkpt_end_handled v = 0 ->
  r_type r = t_chkpt_end ->
  fst (fst (r_chkpt_end r)) = master ->
  exists v' s',
    analysis_step e master max_lsn lsn r v s = Ok (v', s')
    /\ redo_lsn v' = snd (fst (r_chkpt_end r))
    /\ undo_lsn v' = snd (r_chkpt_end r)
    /\ num_chkpt_end_handled v' = 1.
Proof.
  intros Hssx -> Hnum Hk He.
  unfold analysis_step. rewrite N.eqb_refl, Hssx. cbn [negb].
  destruct (analysis_attach_total max_lsn (r_lsn_ck r) r s) as (xd & s1 & Ha).
  rewrite (bind_Ok _ _ _ _ _ Ha).
  unfold analysis_dispatch. rewrite Hk. simpl. rewrite Hnum. simpl.
  destruct (r_chkpt_end r) as [[b rl] ul]. simpl in He. subst b.
  rewrite N.eqb_refl. simpl. mrun.
  eexists _, _. split; [reflexivity|]. simpl. rewrite Hnum. auto.
Qed.

Section Inversion.
Context {A : Type}.
Lemma ret_inv_Ok (a b : A) s s' : ret a s = Ok (b, s') -> b = a /\ s' = s.
Proof. unfold ret. intros H. inversion H. auto. Qed.
Lemma gets_inv_Ok (f : sm -> A) b s s' : gets f s = Ok (b, s') -> b = f s /\ s' = s.
Proof. unfold gets. intros H. inversion H. auto. Qed.
Lemma modify_inv_Ok f u s s' : modify f s = Ok (u, s') -> s' = f s.
Proof. unfold modify. intros H. inversion H. auto. Qed.
Lemma fatal_inv_Ok x (b : A) s s' : W_FATAL x s = Ok (b, s') -> False.
Proof. discriminate. Qed.
Lemma diverge_inv_Ok (b : A) s s' : out_of_fuel s = Ok (b, s') -> False.
Proof. discriminate. Qed.
End Inversion.

(** Decomposes a hypothesis [c s = Ok (a, s')] along the structure of [c]. *)
Ltac minv1 :=
  match goal with
  | H : bind _ _ _ = Ok _ |- _ =>
      apply bind_inv_Ok in H; destruct H as (? & ? & ? & H)
  | H : ret _ _ = Ok _ |- _ =>
      apply ret_inv_Ok in H; destruct H as [? ?]; subst
  | H : gets _ _ = Ok _ |- _ =>
      apply gets_inv_Ok in H; destruct H as [? ?]; subst
  | H : modify _ _ = Ok _ |- _ => apply modify_inv_Ok in H; subst
  | H : W_FATAL _ _ = Ok _ |- _ => destruct (fatal_inv_Ok _ _ _ _ H)
  | H : out_of_fuel _ = Ok _ |- _ => destruct (diverge_inv_Ok _ _ _ H)
  | H : when ?b _ _ = Ok _ |- _ => unfold when in H
  | H : (if ?b then _ else _) _ = Ok _ |- _ => destruct b eqn:?
  | H : (match ?x with _ => _ end) _ = Ok _ |- _ => destruct x eqn:?
  | H : (let '(_, _) := ?x in _) _ = Ok _ |- _ => destruct x eqn:?
  end.
Ltac minv := repeat minv1.


Lemma scan_frame_refl v : scan_frame v v.
Proof. unfold scan_frame. repeat split; reflexivity. Qed.

Lemma scan_frame_trans v1 v2 v3 :
  scan_frame v1 v2 -> scan_frame v2 v3 -> scan_frame v1 v3.
Proof.
  unfold scan_frame. intros (H1 & H2 & H3) (H4 & H5 & H6).
  repeat split; try congruence. lia.
Qed.

Lemma mark_in_doubt_frame e pid lsn v s v' s' :
  mark_in_doubt e pid lsn v s = Ok (v', s') -> scan_frame v v'.
Proof.
  unfold mark_in_doubt. intros H. minv.
  unfold scan_frame. simpl. repeat split; reflexivity.
Qed.

Lemma clear_page_in_doubt_frame r v s v' s' :
  clear_page_in_doubt r v s = Ok (v', s') -> scan_frame v v'.
Proof.
  unfold clear_page_in_doubt, lookup_in_doubt, is_in_doubt, cb_flag,
    clear_in_doubt.
  intros H. minv; unfold scan_frame; simpl; repeat split; reflexivity.
Qed.

Lemma chkpt_bf_entries_frame e l v s v' s' :
  chkpt_bf_entries e l v s = Ok (v', s') -> scan_frame v v'.
Proof.
  revert v s. induction l as [|[pid rl] l IH]; intros v s H; simpl in H.
  - minv. apply scan_frame_refl.
  - minv. apply IH in H. apply mark_in_doubt_frame in H0.
    eapply scan_frame_trans; eassumption.
Qed.

Ltac frame_sub :=
  repeat match goal with
  | H : mark_in_doubt _ _ _ _ _ = Ok _ |- _ => apply mark_in_doubt_frame in H
  | H : clear_page_in_doubt _ _ _ = Ok _ |- _ =>
      apply clear_page_in_doubt_frame in H
  | H : chkpt_bf_entries _ _ _ _ = Ok _ |- _ =>
      apply chkpt_bf_entries_frame in H
  end;
  try apply scan_frame_refl; try assumption;
  try (eapply scan_frame_trans; eassumption).

Lemma analysis_update_frame e lsn r xd v s v' s' :
  analysis_update e lsn r xd v s = Ok (v', s') -> scan_frame v v'.
Proof. unfold analysis_update. intros H. minv; frame_sub. Qed.

Lemma analysis_ssx_frame e lsn r v s v' s' :
  analysis_ssx e lsn r v s = Ok (v', s') -> scan_frame v v'.
Proof. unfold analysis_ssx. intros H. minv; frame_sub. Qed.

Lemma analysis_dispatch_frame e master lsn r xd v s v' s' :
  analysis_dispatch e master lsn r xd v s = Ok (v', s') -> scan_frame v v'.
Proof.
  unfold analysis_dispatch. intros H.
  destruct (r_type r); try (apply analysis_update_frame in H; exact H).
  all: minv; frame_sub.
  all: unfold scan_frame; simpl; repeat split; try lia.
  all: destruct (r_dev_tab r); simpl; reflexivity.
Qed.

Lemma analysis_step_frame e master max_lsn lsn r v s v' s' :
  analysis_step e master max_lsn lsn r v s = Ok (v', s') -> scan_frame v v'.
Proof.
  unfold analysis_step. intros H. minv.
  - apply analysis_ssx_frame in H. exact H.
  - apply analysis_dispatch_frame in H. exact H.
Qed.

Lemma analysis_scan_frame e master max_lsn l v s v' s' :
  analysis_scan e master max_lsn l v s = Ok (v', s') -> scan_frame v v'.
Proof.
  revert v s. induction l as [|[lsn r] l IH]; intros v s H; simpl in H.
  - minv. apply scan_frame_refl.
  - minv. apply IH in H. apply analysis_step_frame in H0.
    eapply scan_frame_trans; eassumption.
Qed.

(** C3.  In the forward scan of Log Analysis only the checkpoint records of
    the master checkpoint are consumed.  Once a chkpt-end record has been
    handled, a chkpt-buffer-table, chkpt-transaction-table,
    chkpt-device-table or chkpt-end record changes nothing but the
    bookkeeping every record gets (the transaction of the record, if it has
    one, and [last_lsn]) and, for chkpt-end, the count itself; the count
    never goes down in the rest of the scan.  The first chkpt-end record
    must name the master LSN as its begin checkpoint: otherwise the step is
    fatal, and if it does its two minimum LSNs become [redo_lsn] and
    [undo_lsn].  (The count is an [int] in the source; it is unbounded
    here.) *)
Theorem analysis_consumes_master_checkpoint_only
    e master max_lsn lsn r v s :
  r_is_single_sys_xct r = false ->
  lsn = r_lsn_ck r ->
  (0 < num_chkpt_end_handled v ->
   is_chkpt_payload_kind (r_type r) = true ->
   analysis_step e master max_lsn lsn r v s
   = (xd <- analysis_attach max_lsn lsn r ;;
      ret (if kind_eqb (r_type r) t_chkpt_end
           then incr_chkpt_end (set_last lsn v) else set_last lsn v)) s)
  /\ (num_chkpt_end_handled v = 0 -> r_type r = t_chkpt_end ->
      fst (fst (r_chkpt_end r)) <> master ->
      analysis_step e master max_lsn lsn r v s = Fatal F_master_mismatch)
  /\ (num_chkpt_end_handled v = 0 -> r_type r = t_chkpt_end ->
      fst (fst (r_chkpt_end r)) = master ->
      exists v' s',
        analysis_step e master max_lsn lsn r v s = Ok (v', s')
        /\ redo_lsn v' = snd (fst (r_chkpt_end r))
        /\ undo_lsn v' = snd (r_chkpt_end r)
        /\ num_chkpt_end_handled v' = 1)
  /\ (forall l v' s',
         analysis_scan e master max_lsn l v s = Ok (v', s') ->
         num_chkpt_end_handled v <= num_chkpt_end_handled v').
Proof.
  intros Hssx Hlsn. repeat split.
  - intros Hnum Hk. apply analysis_step_later_chkpt; assumption.
  - intros Hnum Hk Hne. apply analysis_step_chkpt_end_mismatch; assumption.
  - intros Hnum Hk He. apply analysis_step_chkpt_end_master; assumption.
  - intros l v' s' H. apply analysis_scan_frame in H. apply H.
Qed.

Lemma analysis_consumes_master_checkpoint_only_witness :
  let e := mk_env true [] in
  let r := mk_chkpt_end 920 900 900 900 in
  let s := sm_start false 1000 in
  (0 < num_chkpt_end_handled avars_after_master ->
   is_chkpt_payload_kind (r_type r) = true ->
   analysis_step e 500 1001 920 r avars_after_master s
   = (xd <- analysis_attach 1001 920 r ;;
      ret (if kind_eqb (r_type r) t_chkpt_end
           then incr_chkpt_end (set_last 920 avars_after_master)
           else set_last 920 avars_after_master)) s)
  /\ (num_chkpt_end_handled avars_after_master = 0 ->
      r_type r = t_chkpt_end ->
      fst (fst (r_chkpt_end r)) <> 500 ->
      analysis_step e 500 1001 920 r avars_after_master s
      = Fatal F_master_mismatch)
  /\ (num_chkpt_end_handled avars_after_master = 0 ->
      r_type r = t_chkpt_end ->
      fst (fst (r_chkpt_end r)) = 500 ->
      exists v' s',
        analysis_step e 500 1001 920 r avars_after_master s = Ok (v', s')
        /\ redo_lsn v' = snd (fst (r_chkpt_end r))
        /\ undo_lsn v' = snd (r_chkpt_end r)
        /\ num_chkpt_end_handled v' = 1)
  /\ (forall l v' s',
         analysis_scan e 500 1001 l avars_after_master s = Ok (v', s') ->
         num_chkpt_end_handled avars_after_master
         <= num_chkpt_end_handled v').
Proof.
  intros e r s.
  apply (analysis_consumes_master_checkpoint_only e 500 1001 920 r
           avars_after_master s).
  - reflexivity.
  - reflexivity.
Defined.

(** The second complete checkpoint of scenario S6 is ignored, and a first
    chkpt-end record that names another begin checkpoint is fatal. *)
Example later_chkpt_end_ignored :
  value_of (analysis_step (mk_env true []) 500 1001 920
              (mk_chkpt_end 920 900 900 900) avars_after_master
              (sm_start false 1000))
  = Some (Avars 500 500 920 0 701 [] 500 false 2).
Proof. reflexivity. Qed.

Example first_chkpt_end_must_name_master :
  analysis_step (mk_env true []) 500 1001 520
    (mk_chkpt_end 520 400 400 400) avars_before_master (sm_start false 1000)
  = Fatal F_master_mismatch.
Proof. reflexivity. Qed.

(** ** Log Analysis: compensation records *)

Lemma bf_consistentb_spec s key idx :
  bf_consistentb s = true -> hashtable s !! key = Some idx -> idx <> 0 ->
  is_Some (cbs s !! idx).
Proof.
  unfold bf_consistentb. intros H Hk Hnz.
  rewrite forallb_forall in H.
  specialize (H (key, idx)). simpl in H.
  assert (Hin : In (key, idx) (map_to_list (hashtable s))).
  { apply list_elem_of_In. apply elem_of_map_to_list. exact Hk. }
  apply H in Hin. apply orb_true_iff in Hin. destruct Hin as [Hz|Hs].
  - apply N.eqb_eq in Hz. contradiction.
  - apply bool_decide_eq_true in Hs. exact Hs.
Qed.

Lemma grab_free_block_ge c from n idx :
  grab_free_block c from n = Some idx -> from <= idx.
Proof.
  revert from. induction n as [|n IH]; intros from H; simpl in H.
  - discriminate.
  - destruct (c !! from) as [cb|].
    + destruct (cb_used cb).
      * apply IH in H. lia.
      * injection H as <-. lia.
    + injection H as <-. lia.
Qed.

Lemma register_and_mark_ok e pid lsn idc s :
  bf_consistentb s = true ->
  bf_has_room e s pid = true ->
  exists idx c s',
    register_and_mark e pid lsn idc s = Ok ((Some idx, c), s')
    /\ page_in_doubt s' pid = true
    /\ xct_tab s' = xct_tab s
    /\ trace s' = trace s.
Proof.
  intros Hcons Hroom.
  unfold register_and_mark, bf_has_room, page_in_doubt in *.
  unfold lookup_in_doubt, is_in_doubt, cb_flag, cb_modify. mrun.
  destruct (hashtable s !! bf_key (pid_vol pid) (pid_page pid)) as [idx|] eqn:Hk;
    cbn [default from_option id] in *.
  - destruct (N.eqb_spec idx 0) as [Hz|Hnz]; cbn [negb orb] in *.
    + subst idx. apply bool_decide_eq_true in Hroom. destruct Hroom as [i Hi].
      change (N.eqb 0 0) with true. cbn [negb]. mrun.
      rewrite Hi. mrun. eexists _, _, _. split; [reflexivity|]. sm_proj.
      rewrite lookup_insert_eq.
      apply grab_free_block_ge in Hi.
      destruct (N.eqb_spec i 0) as [E|_]; [lia|]. cbn [negb andb].
      rewrite lookup_insert_eq. simpl. auto.
    + destruct (bf_consistentb_spec s _ _ Hcons Hk Hnz) as [cb Hcb].
      destruct (N.eqb_spec idx 0) as [E|_]; [contradiction|]. cbn [negb].
      mrun. eexists _, _, _. split; [reflexivity|]. sm_proj.
      rewrite Hk. destruct (N.eqb_spec idx 0) as [E|_]; [contradiction|].
      rewrite lookup_alter_eq, Hcb. simpl. auto.
  - change (N.eqb 0 0) with true in *. cbn [negb orb] in *.
    apply bool_decide_eq_true in Hroom. destruct Hroom as [i Hi].
    mrun. rewrite Hi. mrun. eexists _, _, _. split; [reflexivity|]. sm_proj.
    rewrite lookup_insert_eq.
    apply grab_free_block_ge in Hi.
    destruct (N.eqb_spec i 0) as [E|_]; [lia|]. cbn [negb andb].
    rewrite lookup_insert_eq. simpl. auto.
Qed.

Lemma look_up_alter f tid t :
  (forall x, x_tid (f x) = x_tid x) ->
  look_up tid (xct_alter f tid t) = f <$> look_up tid t.
Proof.
  intros Hf. unfold look_up. induction t as [|x t IH]; simpl; [reflexivity|].
  destruct (N.eqb_spec (x_tid x) tid) as [E|E]; simpl.
  - rewrite Hf. destruct (N.eqb_spec (x_tid x) tid); [reflexivity|contradiction].
  - destruct (N.eqb_spec (x_tid x) tid); [contradiction|]. exact IH.
Qed.

Lemma undo_nxt_of_alter_first_lsn l tid t :
  undo_nxt_of (xct_alter (with_first_lsn l) tid t) tid = undo_nxt_of t tid.
Proof.
  unfold undo_nxt_of. rewrite look_up_alter by reflexivity.
  destruct (look_up tid t); reflexivity.
Qed.

Lemma undo_nxt_of_alter_undo_nxt l tid t :
  is_Some (look_up tid t) ->
  undo_nxt_of (xct_alter (with_undo_nxt l) tid t) tid = l.
Proof.
  intros [x Hx]. unfold undo_nxt_of. rewrite look_up_alter by reflexivity.
  rewrite Hx. reflexivity.
Qed.

Lemma analysis_attach_creates max_lsn lsn r s :
  r_tid r <> tid_null ->
  in_update_group (r_type r) = true ->
  exists s1,
    analysis_attach max_lsn lsn r s = Ok (Some (r_tid r), s1)
    /\ is_Some (look_up (r_tid r) (xct_tab s1))
    /\ hashtable s1 = hashtable s /\ cbs s1 = cbs s.
Proof.
  intros Htid Hk.
  unfold analysis_attach, xct_look_up, new_xct, update_youngest_tid,
    set_last_lsn, set_first_lsn, xct_modify.
  destruct (N.eqb_spec (r_tid r) tid_null) as [E|_]; [contradiction|].
  cbn [negb]. mrun.
  destruct (look_up (r_tid r) (xct_tab s)) as [x|] eqn:Hl; mrun.
  - eexists. split; [reflexivity|]. sm_proj.
    rewrite look_up_alter by reflexivity. rewrite Hl. simpl. eauto.
  - assert (Hty : negb (kind_eqb (r_type r) t_comment)
                  && negb (kind_eqb (r_type r) t_skip)
                  && negb (kind_eqb (r_type r) t_max_logrec) = true).
    { destruct (r_type r); try discriminate Hk; reflexivity. }
    rewrite Hty. mrun.
    eexists. split; [reflexivity|]. sm_proj.
    rewrite !look_up_alter by reflexivity.
    unfold look_up. simpl. rewrite N.eqb_refl. simpl. eauto.
Qed.

Lemma bf_consistentb_ext s s1 :
  hashtable s1 = hashtable s -> cbs s1 = cbs s ->
  bf_consistentb s1 = bf_consistentb s.
Proof. unfold bf_consistentb. intros -> ->. reflexivity. Qed.

Lemma bf_has_room_ext e s s1 pid :
  hashtable s1 = hashtable s -> cbs s1 = cbs s ->
  bf_has_room e s1 pid = bf_has_room e s pid.
Proof. unfold bf_has_room. intros -> ->. reflexivity. Qed.

Section Compensation.
Variables (e : env) (master max_lsn lsn : lsn_t) (r : logrec_t) (v : avars)
          (s : sm).
Hypothesis Hcpsn : r_is_cpsn r = true.
Hypothesis Hssx : r_is_single_sys_xct r = false.
Hypothesis Hkind : in_update_group (r_type r) = true.
Hypothesis Htid : r_tid r <> tid_null.
Hypothesis Hlsn : lsn = r_lsn_ck r.

Lemma analysis_step_cpsn :
  exists s1,
    is_Some (look_up (r_tid r) (xct_tab s1))
    /\ hashtable s1 = hashtable s /\ cbs s1 = cbs s
    /\ analysis_step e master max_lsn lsn r v s
       = analysis_update e lsn r (Some (r_tid r)) (set_last lsn v) s1.
Proof.
  destruct (analysis_attach_creates max_lsn lsn r s Htid Hkind)
    as (s1 & Ha & Hl & Hh & Hc).
  exists s1. repeat split; try assumption.
  unfold analysis_step. rewrite Hlsn, N.eqb_refl, Hssx. cbn [negb].
  rewrite <- Hlsn. rewrite (bind_Ok _ _ _ _ _ Ha).
  unfold analysis_dispatch.
  destruct (r_type r); try discriminate Hkind; reflexivity.
Qed.

Lemma is_page_update_cpsn : is_page_update r = false.
Proof. unfold is_page_update. rewrite Hcpsn. apply andb_false_iff. left.
  apply andb_false_r. Qed.

Lemma analysis_cpsn_undoable :
  r_is_undo r = true ->
  analysis_step e master max_lsn lsn r v s = Fatal F_undoable_compensation.
Proof.
  intros Hu. destruct analysis_step_cpsn as (s1 & _ & _ & _ & ->).
  unfold analysis_update. rewrite is_page_update_cpsn, Hcpsn, Hu. reflexivity.
Qed.

Lemma analysis_cpsn_page_zero :
  r_is_undo r = false -> r_is_redo r = true -> r_shpid r = 0 ->
  analysis_step e master max_lsn lsn r v s = Fatal F_page_zero.
Proof.
  intros Hu Hr Hp. destruct analysis_step_cpsn as (s1 & _ & _ & _ & ->).
  unfold analysis_update. rewrite is_page_update_cpsn, Hcpsn, Hu, Hr.
  unfold xd_set_undo_nxt, set_undo_nxt, xct_modify, mark_in_doubt. mrun.
  cbn [construct_pid pid_page]. rewrite Hp. reflexivity.
Qed.

Lemma analysis_cpsn_not_redo :
  r_is_undo r = false -> r_is_redo r = false ->
  exists s',
    analysis_step e master max_lsn lsn r v s = Ok (set_last lsn v, s')
    /\ is_Some (look_up (r_tid r) (xct_tab s'))
    /\ undo_nxt_of (xct_tab s') (r_tid r) = lsn_null
    /\ hashtable s' = hashtable s /\ cbs s' = cbs s.
Proof.
  intros Hu Hr. destruct analysis_step_cpsn as (s1 & [x Hx] & Hh & Hc & ->).
  unfold analysis_update. rewrite is_page_update_cpsn, Hcpsn, Hu, Hr.
  unfold xd_set_undo_nxt, set_undo_nxt, set_first_lsn, xct_modify,
    xct_look_up, when.
  destruct (N.eqb_spec (r_tid r) tid_null) as [E|_]; [contradiction|].
  cbn [negb]. mrun.
  rewrite look_up_alter by reflexivity. rewrite Hx. cbn [fmap option_fmap option_map].
  destruct (N.ltb lsn (x_first_lsn (with_undo_nxt lsn_null x))); mrun.
  all: eexists; split; [reflexivity|]; sm_proj.
  all: rewrite ?undo_nxt_of_alter_first_lsn.
  all: rewrite ?look_up_alter by reflexivity.
  all: rewrite undo_nxt_of_alter_undo_nxt by eauto.
  all: rewrite Hx; simpl; eauto.
Qed.

Lemma analysis_cpsn_redo :
  r_is_undo r = false -> r_is_redo r = true -> r_shpid r <> 0 ->
  bf_consistentb s = true ->
  bf_has_room e s (construct_pid r) = true ->
  exists v' s',
    analysis_step e master max_lsn lsn r v s = Ok (v', s')
    /\ is_Some (look_up (r_tid r) (xct_tab s'))
    /\ undo_nxt_of (xct_tab s') (r_tid r) = lsn_null
    /\ page_in_doubt s' (construct_pid r) = true.
Proof.
  intros Hu Hr Hp Hcons Hroom.
  destruct analysis_step_cpsn as (s1 & [x Hx] & Hh & Hc & ->).
  unfold analysis_update. rewrite is_page_update_cpsn, Hcpsn, Hu, Hr.
  unfold xd_set_undo_nxt, set_undo_nxt, set_first_lsn, xct_modify,
    xct_look_up, when, mark_in_doubt.
  destruct (N.eqb_spec (r_tid r) tid_null) as [E|_]; [contradiction|].
  cbn [negb]. mrun.
  cbn [construct_pid pid_page].
  destruct (N.eqb_spec (r_shpid r) 0) as [E|_]; [contradiction|].
  fold (construct_pid r).
  set (s2 := set_xct_tab _ s1).
  assert (Hcons2 : bf_consistentb s2 = true)
    by (rewrite <- Hcons; apply bf_consistentb_ext; subst s2; simpl; assumption).
  assert (Hroom2 : bf_has_room e s2 (construct_pid r) = true)
    by (rewrite <- Hroom; apply bf_has_room_ext; subst s2; simpl; assumption).
  destruct (register_and_mark_ok e (construct_pid r) lsn
              (in_doubt_count (set_last lsn v)) s2 Hcons2 Hroom2)
    as (idx & c & s3 & Hreg & Hpd & Hxt & Htr).
  rewrite !run_bind_bind. rewrite (bind_Ok _ _ _ _ _ Hreg). cbn [fst snd]. mrun.
  rewrite Hxt. subst s2. sm_proj.
  rewrite look_up_alter by reflexivity. rewrite Hx.
  cbn [fmap option_fmap option_map].
  destruct (N.ltb lsn (x_first_lsn (with_undo_nxt lsn_null x))); mrun.
  all: eexists _, _; split; [reflexivity|]; sm_proj.
  all: rewrite ?Hxt; sm_proj.
  all: rewrite ?undo_nxt_of_alter_first_lsn.
  all: rewrite ?look_up_alter by reflexivity.
  all: rewrite undo_nxt_of_alter_undo_nxt by eauto.
  all: rewrite Hx; simpl; repeat split; eauto.
  all: unfold page_in_doubt in *; sm_proj; exact Hpd.
Qed.

End Compensation.

(** C7.  In Log Analysis a compensation record (one that reaches the switch:
    not a single-log system transaction, of a kind of the update group,
    with a transaction id and an intact LSN) that is undoable is fatal.  One
    that is not undoable sets [undo_nxt] of its transaction to null; if it
    is redoable its page is registered in_doubt, provided the record has a
    page and the buffer pool can take it (a page number of zero is fatal);
    if it is not redoable the buffer pool is left as it is. *)
Theorem analysis_compensation_record e master max_lsn lsn r v s :
  r_is_cpsn r = true ->
  r_is_single_sys_xct r = false ->
  in_update_group (r_type r) = true ->
  r_tid r <> tid_null ->
  lsn = r_lsn_ck r ->
  (r_is_undo r = true ->
   analysis_step e master max_lsn lsn r v s = Fatal F_undoable_compensation)
  /\ (r_is_undo r = false -> r_is_redo r = false ->
      exists s',
        analysis_step e master max_lsn lsn r v s = Ok (set_last lsn v, s')
        /\ is_Some (look_up (r_tid r) (xct_tab s'))
        /\ undo_nxt_of (xct_tab s') (r_tid r) = lsn_null
        /\ hashtable s' = hashtable s /\ cbs s' = cbs s)
  /\ (r_is_undo r = false -> r_is_redo r = true -> r_shpid r <> 0 ->
      bf_consistentb s = true ->
      bf_has_room e s (construct_pid r) = true ->
      exists v' s',
        analysis_step e master max_lsn lsn r v s = Ok (v', s')
        /\ is_Some (look_up (r_tid r) (xct_tab s'))
        /\ undo_nxt_of (xct_tab s') (r_tid r) = lsn_null
        /\ page_in_doubt s' (construct_pid r) = true)
  /\ (r_is_undo r = false -> r_is_redo r = true -> r_shpid r = 0 ->
      analysis_step e master max_lsn lsn r v s = Fatal F_page_zero).
Proof.
  intros Hcpsn Hssx Hkind Htid Hlsn. repeat split.
  - apply analysis_cpsn_undoable; assumption.
  - intros Hu Hr.
    destruct (analysis_cpsn_not_redo e master max_lsn lsn r v s Hcpsn Hssx
                Hkind Htid Hlsn Hu Hr) as (s' & H).
    exists s'. exact H.
  - apply analysis_cpsn_redo; assumption.
  - apply analysis_cpsn_page_zero; assumption.
Qed.

Lemma analysis_compensation_record_witness :
  let e := mk_env true [] in
  let r := mk_logrec t_compensate 7 650 600 true false true 42 in
  let v := avars_after_master in
  let s := sm_one_doomed in
  (r_is_undo r = true ->
   analysis_step e 500 701 650 r v s = Fatal F_undoable_compensation)
  /\ (r_is_undo r = false -> r_is_redo r = false ->
      exists s',
        analysis_step e 500 701 650 r v s = Ok (set_last 650 v, s')
        /\ is_Some (look_up (r_tid r) (xct_tab s'))
        /\ undo_nxt_of (xct_tab s') (r_tid r) = lsn_null
        /\ hashtable s' = hashtable s /\ cbs s' = cbs s)
  /\ (r_is_undo r = false -> r_is_redo r = true -> r_shpid r <> 0 ->
      bf_consistentb s = true ->
      bf_has_room e s (construct_pid r) = true ->
      exists v' s',
        analysis_step e 500 701 650 r v s = Ok (v', s')
        /\ is_Some (look_up (r_tid r) (xct_tab s'))
        /\ undo_nxt_of (xct_tab s') (r_tid r) = lsn_null
        /\ page_in_doubt s' (construct_pid r) = true)
  /\ (r_is_undo r = false -> r_is_redo r = true -> r_shpid r = 0 ->
      analysis_step e 500 701 650 r v s = Fatal F_page_zero).
Proof.
  intros e r v s.
  apply (analysis_compensation_record e 500 701 650 r v s).
  - reflexivity.
  - reflexivity.
  - reflexivity.
  - discriminate.
  - reflexivity.
Defined.

(** A redoable compensation record of transaction 7 for page 42: after the
    step [undo_nxt] of the transaction is null and the page is in_doubt;
    the same record marked undoable is fatal. *)
Example compensation_record_analysed :
  let res := analysis_step (mk_env true []) 500 701 650
               (mk_logrec t_compensate 7 650 600 true false true 42)
               avars_after_master sm_one_doomed in
  (fun s' => (undo_nxt_of (xct_tab s') 7,
              page_in_doubt s' (Lpid 1 1 42))) <$> state_of res
  = Some (lsn_null, true)
  /\ in_doubt_count <$> value_of res = Some 1.
Proof. vm_compute. split; reflexivity. Qed.

Example undoable_compensation_fatal :
  analysis_step (mk_env true []) 500 701 650
    (mk_logrec t_compensate 7 650 600 true true true 42)
    avars_after_master sm_one_doomed
  = Fatal F_undoable_compensation.
Proof. reflexivity. Qed.

(** ** Log Analysis: the commit LSN *)

Lemma analysis_sweep_spec e t v s t' v' s' :
  analysis_sweep e t v s = Ok ((t', v'), s') ->
  t' = List.map (with_first_lsn lsn_null) (doomed t)
  /\ commit_lsn v'
     = fold_left (fun m y => N.min m (x_first_lsn y)) (doomed t) (commit_lsn v).
Proof.
  revert v s t' v' s'.
  induction t as [|xd t IH]; intros v s t' v' s' H; simpl in H.
  - minv. simplify_eq. split; reflexivity.
  - unfold doomed. simpl. fold (doomed t).
    destruct (bool_decide (x_state xd = xct_active)) eqn:Hact.
    + apply bind_inv_Ok in H. destruct H as ([t1 v1] & s1 & Hrec & H).
      apply ret_inv_Ok in H. destruct H as [H ->]. simplify_eq.
      apply IH in Hrec. destruct Hrec as [-> Hcm]. split; [reflexivity|].
      cbn [snd fold_left]. rewrite Hcm.
      f_equal.
      destruct (use_serial_recovery e);
        destruct (N.ltb_spec (x_first_lsn xd) (commit_lsn v)); simpl; lia.
    + destruct (bool_decide (x_state xd = xct_ended)); [|discriminate H].
      apply bind_inv_Ok in H. destruct H as (u & s1 & _ & H).
      apply IH in H. exact H.
Qed.

Lemma fold_min_le l c :
  fold_left (fun m y => N.min m (x_first_lsn y)) l c <= c.
Proof.
  revert c. induction l as [|x l IH]; intros c; simpl; [lia|].
  specialize (IH (N.min c (x_first_lsn x))). lia.
Qed.

Lemma fold_min_start l c a :
  a <= c ->
  (forall x, In x l -> x_first_lsn x <= c) ->
  fold_left (fun m y => N.min m (x_first_lsn y)) l (N.min c a)
  = fold_left (fun m y => N.min m (x_first_lsn y)) l a.
Proof. intros H _. replace (N.min c a) with a by lia. reflexivity. Qed.

Lemma fold_min_pos l a :
  a <> 0 -> (forall x, In x l -> x_first_lsn x <> 0) ->
  fold_left (fun m y => N.min m (x_first_lsn y)) l a <> 0.
Proof.
  revert a. induction l as [|x l IH]; intros a Ha Hl; simpl; [exact Ha|].
  apply IH.
  - specialize (Hl x (or_introl eq_refl)). lia.
  - intros y Hy. apply Hl. right. exact Hy.
Qed.

(** The walk at the end of Log Analysis computes the minimum: when
    [commit_lsn] still has its initial value [max_lsn] and every doomed
    (active) transaction has a [first_lsn] that is not null and is below
    [max_lsn], the doomed transactions are what is left in the table, the
    returned [commit_lsn] is the minimum of their [first_lsn]s, and it is
    null if and only if there is none. *)
Lemma analysis_finish_commit_lsn e max_lsn v1 s1 v s' :
  analysis_finish e max_lsn v1 s1 = Ok (v, s') ->
  commit_lsn v1 = max_lsn ->
  (forall x, In x (doomed (xct_tab s1)) ->
             x_first_lsn x <> lsn_null /\ x_first_lsn x < max_lsn) ->
  xct_tab s' = List.map (with_first_lsn lsn_null) (doomed (xct_tab s1))
  /\ commit_lsn v = min_first_lsn (doomed (xct_tab s1))
  /\ (commit_lsn v = lsn_null <-> doomed (xct_tab s1) = []).
Proof.
  unfold analysis_finish. intros H Hc Hd.
  apply bind_inv_Ok in H. destruct H as (t & s2 & Hg & H).
  apply gets_inv_Ok in Hg. destruct Hg as [-> ->].
  apply bind_inv_Ok in H. destruct H as ([t' v2] & s3 & Hsw & H).
  apply analysis_sweep_spec in Hsw. destruct Hsw as [-> Hcm].
  apply bind_inv_Ok in H. destruct H as (u & s4 & Hm & H).
  apply modify_inv_Ok in Hm. subst s4.
  destruct (use_concurrent_lock_recovery e); [discriminate H|].
  apply ret_inv_Ok in H. destruct H as [-> ->].
  cbn [fst snd]. split; [reflexivity|].
  set (l := doomed (xct_tab s1)) in *.
  rewrite Hc in Hcm.
  assert (Hfin : forall v3, commit_lsn v3 = commit_lsn v2 ->
            commit_lsn (if N.eqb (commit_lsn v3) max_lsn
                        then set_commit_lsn lsn_null v3 else v3)
            = min_first_lsn l
            /\ (commit_lsn (if N.eqb (commit_lsn v3) max_lsn
                            then set_commit_lsn lsn_null v3 else v3) = lsn_null
                <-> l = [])).
  { intros v3 Hc3.
    assert (Hif : commit_lsn (if N.eqb (commit_lsn v3) max_lsn
                              then set_commit_lsn lsn_null v3 else v3)
                  = if N.eqb (commit_lsn v2) max_lsn then lsn_null
                    else commit_lsn v2).
    { rewrite Hc3. destruct (N.eqb (commit_lsn v2) max_lsn);
        [reflexivity | exact Hc3]. }
    rewrite Hif, Hcm. clear Hif Hc3 v3.
    destruct l as [|x l].
    - simpl. rewrite N.eqb_refl. tauto.
    - simpl in *.
      assert (Hx := Hd x (or_introl eq_refl)). unfold lsn_null in *.
      replace (N.min max_lsn (x_first_lsn x)) with (x_first_lsn x) in * by lia.
      assert (Hle := fold_min_le l (x_first_lsn x)).
      assert (Hpos : fold_left (fun m y => N.min m (x_first_lsn y)) l
                               (x_first_lsn x) <> 0).
      { apply fold_min_pos; [tauto|]. intros y Hy. apply Hd. right. exact Hy. }
      destruct (N.eqb_spec (fold_left (fun m y => N.min m (x_first_lsn y)) l
                                      (x_first_lsn x)) max_lsn) as [E|_]; [lia|].
      split; [reflexivity|].
      split; [intros E; contradiction | discriminate]. }
  destruct (use_serial_recovery e); apply Hfin; reflexivity.
Qed.

Lemma mount_chase_frame e fuel l v s l' v' s' :
  mount_chase e fuel l v s = Ok ((l', v'), s') -> scan_frame v v'.
Proof.
  revert l v s. induction fuel as [|fuel IH]; intros l v s H; simpl in H.
  - minv; simplify_eq; apply scan_frame_refl.
  - destruct (_ && _).
    + destruct (log_fetch (the_log e) l) as [copy|]; [|discriminate H].
      apply bind_inv_Ok in H. destruct H as (v1 & s1 & Hv & H).
      apply IH in H. eapply scan_frame_trans; [|exact H].
      destruct (kind_eqb (r_type copy) t_dismount_vol);
        apply bind_inv_Ok in Hv; destruct Hv as (u & s2 & _ & Hv);
        apply ret_inv_Ok in Hv; destruct Hv as [-> _];
        unfold scan_frame; simpl; repeat split; reflexivity.
    + apply ret_inv_Ok in H. destruct H as [H _]. simplify_eq.
      apply scan_frame_refl.
Qed.

Lemma analysis_pass_reaches_finish e fuel master v0 s v s' :
  analysis_pass e fuel master v0 s = Ok (v, s') ->
  master <> lsn_null ->
  exists s1 v1,
    analysis_finish e (lsn_advance (curr_lsn s) 1) v1 s1 = Ok (v, s')
    /\ commit_lsn v1 = lsn_advance (curr_lsn s) 1.
Proof.
  unfold analysis_pass, set_mode, emit. intros H Hm.
  destruct (N.eqb_spec master lsn_null) as [E|_]; [contradiction|].
  minv; sm_proj.
  all: match goal with
       | H : analysis_finish _ _ ?v1 ?s1 = Ok _ |- _ =>
           exists s1, v1; split; [exact H|]
       end.
  all: match goal with
       | H : analysis_scan _ _ _ _ _ _ = Ok _ |- _ =>
           apply analysis_scan_frame in H; destruct H as (Hc & _ & _)
       end.
  all: try match goal with
       | H : mount_chase _ _ _ _ _ = Ok (?x, _) |- _ =>
           destruct x; apply mount_chase_frame in H; destruct H as (Hc' & _ & _);
           cbn [snd]; rewrite Hc'
       end.
  all: cbn [snd]; repeat destruct (N.ltb master _); exact Hc.
Qed.

(** ** Frames *)

Section Frame.
Context {T : Type}.
Variable proj : sm -> T.
Variable okev : event -> bool.
Hypothesis proj_event : forall ev s, okev ev = true -> proj (add_event ev s) = proj s.
Hypothesis proj_hashtable : forall h s, proj (set_hashtable h s) = proj s.
Hypothesis proj_cbs : forall c s, proj (set_cbs c s) = proj s.
Hypothesis proj_xct_tab : forall t s, proj (set_xct_tab t s) = proj s.
Hypothesis proj_nxt_tid : forall t s, proj (set_nxt_tid t s) = proj s.
Hypothesis proj_curr_lsn : forall l s, proj (set_curr_lsn l s) = proj s.
Hypothesis proj_last_mount_lsn : forall l s, proj (set_last_mount_lsn l s) = proj s.
Hypothesis proj_commit_lsn_global :
  forall l s, proj (set_commit_lsn_global l s) = proj s.
Hypothesis okev_pass : forall ev, pass_event ev = true -> okev ev = true.

Lemma pres_ret {A} (a : A) : pres proj (ret a).
Proof. intros s b s' H. apply ret_inv_Ok in H. destruct H as [_ ->]. reflexivity. Qed.

Lemma pres_gets {A} (f : sm -> A) : pres proj (gets f).
Proof. intros s b s' H. apply gets_inv_Ok in H. destruct H as [_ ->]. reflexivity. Qed.

Lemma pres_fatal {A} x : pres proj (@W_FATAL A x).
Proof. intros s b s' H. discriminate H. Qed.

Lemma pres_diverge {A} : pres proj (@out_of_fuel A).
Proof. intros s b s' H. discriminate H. Qed.

Lemma pres_modify f : (forall s, proj (f s) = proj s) -> pres proj (modify f).
Proof. intros Hf s b s' H. apply modify_inv_Ok in H. subst s'. apply Hf. Qed.

Lemma pres_bind {A B} (c : M A) (k : A -> M B) :
  pres proj c -> (forall a, pres proj (k a)) -> pres proj (bind c k).
Proof.
  intros Hc Hk s b s' H. apply bind_inv_Ok in H.
  destruct H as (a & s1 & H1 & H2).
  apply Hk in H2. apply Hc in H1. congruence.
Qed.

Lemma pres_emit ev : okev ev = true -> pres proj (emit ev).
Proof. intros H. apply pres_modify. intros s. apply proj_event, H. Qed.

Lemma pres_forM_ {A} (l : list A) (f : A -> M unit) :
  (forall a, pres proj (f a)) -> pres proj (forM_ l f).
Proof.
  intros Hf. induction l as [|a l IH]; simpl.
  - apply pres_ret.
  - apply pres_bind; [apply Hf | intros _; exact IH].
Qed.

Ltac pres_set :=
  intros;
  rewrite ?proj_hashtable, ?proj_cbs, ?proj_xct_tab, ?proj_nxt_tid,
    ?proj_curr_lsn, ?proj_last_mount_lsn, ?proj_commit_lsn_global;
  reflexivity.

Ltac pres1 :=
  match goal with
  | |- pres proj (ret _) => apply pres_ret
  | |- pres proj (gets _) => apply pres_gets
  | |- pres proj (W_FATAL _) => apply pres_fatal
  | |- pres proj out_of_fuel => apply pres_diverge
  | |- pres proj (bind _ _) => apply pres_bind; [|intros ?]
  | |- pres proj (modify _) => apply pres_modify; pres_set
  | |- pres proj (emit _) => apply pres_emit; apply okev_pass; reflexivity
  | |- pres proj (forM_ _ _) => apply pres_forM_; intros ?
  | |- pres proj (when ?b _) => destruct b; unfold when
  | |- pres proj (if ?b then _ else _) => destruct b
  | |- pres proj (match ?x with _ => _ end) => destruct x
  | |- pres proj (let '(_, _) := ?x in _) => destruct x
  | |- pres proj _ => assumption
  end.
Ltac pres_go := repeat pres1.

Ltac pres_prim :=
  unfold xd_state, xd_set_undo_nxt, analysis_end_xct, chkpt_xct_entry,
    set_mode;
  unfold xct_look_up, new_xct, xct_modify, change_state, set_last_lsn,
    set_first_lsn, set_undo_nxt, destroy_xct, nxt_tid_atomic_incr,
    update_youngest_tid, num_active_xcts, lookup_in_doubt, is_in_doubt,
    is_dirty, is_used, cb_flag, cb_modify, clear_in_doubt, in_doubt_to_dirty,
    load_for_redo, coerce, call, page_lsn_of, xd_state, xd_set_undo_nxt,
    xct_modify, cb_modify.

Lemma pres_register_and_mark e pid lsn c : pres proj (register_and_mark e pid lsn c).
Proof. unfold register_and_mark. pres_prim. pres_go. Qed.

Lemma pres_mark_in_doubt e pid lsn v : pres proj (mark_in_doubt e pid lsn v).
Proof.
  unfold mark_in_doubt. pres_go. apply pres_register_and_mark.
Qed.

Lemma pres_clear_page_in_doubt r v : pres proj (clear_page_in_doubt r v).
Proof. unfold clear_page_in_doubt. pres_prim. pres_go. Qed.

Lemma pres_analysis_ssx e lsn r v : pres proj (analysis_ssx e lsn r v).
Proof.
  unfold analysis_ssx. pres_prim.
  pose proof (pres_mark_in_doubt e) as Hm.
  pose proof pres_clear_page_in_doubt as Hc.
  pres_go; auto.
Qed.

Lemma pres_analysis_attach max_lsn lsn r : pres proj (analysis_attach max_lsn lsn r).
Proof. unfold analysis_attach. pres_prim. pres_go. Qed.

Lemma pres_chkpt_bf_entries e l v : pres proj (chkpt_bf_entries e l v).
Proof.
  revert v. induction l as [|[pid rl] l IH]; intros v; simpl.
  - apply pres_ret.
  - apply pres_bind; [apply pres_mark_in_doubt | intros v'; apply IH].
Qed.

Lemma pres_analysis_update e lsn r xd v : pres proj (analysis_update e lsn r xd v).
Proof.
  unfold analysis_update. pres_prim.
  pose proof (pres_mark_in_doubt e) as Hm.
  pose proof pres_clear_page_in_doubt as Hc.
  pres_go; auto.
Qed.

Lemma pres_analysis_dispatch e master lsn r xd v :
  pres proj (analysis_dispatch e master lsn r xd v).
Proof.
  unfold analysis_dispatch.
  destruct (r_type r); try apply pres_analysis_update.
  all: unfold chkpt_xct_entry, analysis_end_xct; pres_prim.
  all: pose proof (pres_chkpt_bf_entries e) as Hb.
  all: pres_go; auto.
Qed.

Lemma pres_analysis_step e master max_lsn lsn r v :
  pres proj (analysis_step e master max_lsn lsn r v).
Proof.
  unfold analysis_step.
  pose proof (pres_analysis_ssx e) as H1.
  pose proof pres_analysis_attach as H2.
  pose proof (pres_analysis_dispatch e) as H3.
  pres_go; auto.
Qed.

Lemma pres_analysis_scan e master max_lsn l v :
  pres proj (analysis_scan e master max_lsn l v).
Proof.
  revert v. induction l as [|[lsn r] l IH]; intros v; simpl.
  - apply pres_ret.
  - apply pres_bind; [apply pres_analysis_step | intros v'; apply IH].
Qed.

Lemma pres_mount_chase e fuel l v : pres proj (mount_chase e fuel l v).
Proof.
  revert l v. induction fuel as [|fuel IH]; intros l v; simpl.
  - pres_go.
  - pres_prim. pres_go; auto.
Qed.

Lemma pres_analysis_sweep e t v : pres proj (analysis_sweep e t v).
Proof.
  revert v. induction t as [|xd t IH]; intros v; simpl.
  - apply pres_ret.
  - pres_go; auto.
Qed.

Lemma pres_analysis_finish e max_lsn v : pres proj (analysis_finish e max_lsn v).
Proof.
  unfold analysis_finish. pose proof (pres_analysis_sweep e) as H.
  pres_go; auto.
Qed.

Lemma pres_redo_page_compare e r lsn end_lsn idx virgin dc :
  pres proj (redo_page_compare e r lsn end_lsn idx virgin dc).
Proof. unfold redo_page_compare. pres_prim. pres_go. Qed.

Lemma pres_redo_log_with_pid e r lsn end_lsn pid dc :
  pres proj (_redo_log_with_pid e r lsn end_lsn pid dc).
Proof.
  unfold _redo_log_with_pid.
  pose proof (pres_redo_page_compare e) as H.
  pres_prim. pres_go; auto.
Qed.

Lemma pres_redo_no_page e lsn r : pres proj (redo_no_page e lsn r).
Proof.
  unfold redo_no_page, sys_xct_section, end_sys_xct. pres_prim. pres_go.
Qed.

Lemma pres_redo_scan e serial end_lsn l dc :
  pres proj (redo_scan e serial end_lsn l dc).
Proof.
  revert dc. induction l as [|[lsn r] l IH]; intros dc; simpl.
  - apply pres_ret.
  - pose proof (pres_redo_log_with_pid e) as H1.
    pose proof (pres_redo_no_page e) as H2.
    pres_go; auto.
Qed.

Lemma pres_rollback_loop e fuel tid save_pt :
  pres proj (rollback_loop e fuel tid save_pt).
Proof.
  induction fuel as [|fuel IH]; simpl; pres_prim; pres_go; auto.
Qed.

Lemma pres_rollback e fuel tid save_pt : pres proj (rollback e fuel tid save_pt).
Proof.
  unfold rollback. pose proof (pres_rollback_loop e) as H.
  pres_prim. pres_go; auto.
Qed.

Lemma pres_abort e fuel tid : pres proj (abort e fuel tid).
Proof.
  unfold abort. pose proof (pres_rollback_loop e) as H.
  pres_prim. pres_go; auto.
Qed.

Lemma pres_undo_loop e fuel h : pres proj (undo_loop e fuel h).
Proof.
  revert h. induction fuel as [|fuel IH]; intros h; simpl.
  - pres_go.
  - pose proof (pres_rollback e) as H. pres_prim. pres_go; auto.
Qed.

Lemma pres_undo_drain e fuel h : pres proj (undo_drain e fuel h).
Proof.
  induction h as [|xd h IH]; simpl.
  - apply pres_ret.
  - pose proof (pres_abort e) as H. pres_prim. pres_go; auto.
Qed.

Lemma pres_undo_txn_walk e fuel t : pres proj (undo_txn_walk e fuel t).
Proof.
  induction t as [|xd t IH]; simpl.
  - apply pres_ret.
  - pose proof (pres_abort e) as H. pres_prim. pres_go; auto.
Qed.

End Frame.


(** *** Pointer swizzling is left alone by the passes *)

Ltac swz_frame lem :=
  eapply lem with (okev := fun _ => true); intros; reflexivity.

Lemma swizzling_analysis_pass e fuel master v0 :
  pres swizzling_enabled (analysis_pass e fuel master v0).
Proof.
  unfold analysis_pass, set_mode, emit.
  assert (H1 : forall l mx v,
             pres swizzling_enabled (analysis_scan e master mx l v))
    by (intros; swz_frame @pres_analysis_scan).
  assert (H2 : forall l v, pres swizzling_enabled (mount_chase e fuel l v))
    by (intros; swz_frame @pres_mount_chase).
  assert (H3 : forall mx v, pres swizzling_enabled (analysis_finish e mx v))
    by (intros; swz_frame @pres_analysis_finish).
  repeat first
    [ apply H1 | apply H2 | apply H3
    | apply pres_ret | apply pres_gets | apply pres_fatal
    | apply pres_bind; [|intros ?]
    | apply pres_modify; intros; reflexivity
    | match goal with
      | |- pres _ (if ?b then _ else _) => destruct b
      | |- pres _ (match ?x with _ => _ end) => destruct x
      end ].
Qed.

Lemma swizzling_redo_log_pass e redo_lsn end_lsn idc :
  pres swizzling_enabled (redo_log_pass e redo_lsn end_lsn idc).
Proof.
  unfold redo_log_pass, emit.
  assert (H1 : forall l ser dc,
             pres swizzling_enabled (redo_scan e ser end_lsn l dc))
    by (intros; swz_frame @pres_redo_scan).
  repeat first
    [ apply H1
    | apply pres_ret | apply pres_gets | apply pres_fatal
    | apply pres_bind; [|intros ?]
    | apply pres_modify; intros; reflexivity
    | match goal with
      | |- pres _ (if ?b then _ else _) => destruct b
      | |- pres _ (match ?x with _ => _ end) => destruct x
      end ].
Qed.

Lemma swizzling_undo_reverse_pass e fuel h c u :
  pres swizzling_enabled (undo_reverse_pass e fuel h c u).
Proof.
  unfold undo_reverse_pass, emit, call, coerce.
  assert (H1 : forall h, pres swizzling_enabled (undo_loop e fuel h))
    by (intros; swz_frame @pres_undo_loop).
  assert (H2 : forall h, pres swizzling_enabled (undo_drain e fuel h))
    by (intros; swz_frame @pres_undo_drain).
  repeat first
    [ apply H1 | apply H2
    | apply pres_ret | apply pres_gets | apply pres_fatal
    | apply pres_bind; [|intros ?]
    | apply pres_modify; intros; reflexivity
    | match goal with
      | |- pres _ (if ?b then _ else _) => destruct b
      | |- pres _ (match ?x with _ => _ end) => destruct x
      end ].
Qed.

(** *** What the passes add to the coordinator trace *)

Lemma coordinator_trace_add_event ev s :
  coordinator_trace (add_event ev s)
  = coordinator_trace s ++ (if pass_event ev then [] else [ev]).
Proof.
  unfold coordinator_trace. simpl. rewrite List.filter_app. simpl.
  destruct (pass_event ev); reflexivity.
Qed.

Lemma emits_nil {A} (c : M A) : pres coordinator_trace c -> emits [] c.
Proof. intros H s a s' Hc. rewrite app_nil_r. eapply H, Hc. Qed.

Lemma emits_bind {A B} l1 l2 (c : M A) (k : A -> M B) :
  emits l1 c -> (forall a, emits l2 (k a)) -> emits (l1 ++ l2) (bind c k).
Proof.
  intros Hc Hk s b s' H. apply bind_inv_Ok in H.
  destruct H as (a & s1 & H1 & H2).
  apply Hk in H2. apply Hc in H1. rewrite H2, H1, app_assoc. reflexivity.
Qed.

Lemma emits_emit ev : pass_event ev = false -> emits [ev] (emit ev).
Proof.
  intros Hev s a s' H. unfold emit in H. apply modify_inv_Ok in H. subst s'.
  rewrite coordinator_trace_add_event, Hev. reflexivity.
Qed.

Lemma emits_call e ev : pass_event ev = false -> emits [ev] (call e ev).
Proof.
  intros Hev. unfold call. change [ev] with ([ev] ++ []).
  apply emits_bind; [apply emits_emit, Hev|]. intros _.
  apply emits_nil, pres_modify. reflexivity.
Qed.

Lemma emits_coerce e ev : pass_event ev = false -> emits [ev] (coerce e ev).
Proof.
  intros Hev. unfold coerce. change [ev] with ([ev] ++ [] ++ []).
  apply emits_bind; [apply emits_emit, Hev|]. intros _.
  apply emits_bind; [apply emits_nil, pres_modify; reflexivity|]. intros _.
  apply emits_nil. destruct (rc_ok e ev); [apply pres_ret | apply pres_fatal].
Qed.

Lemma emits_set_mode m : emits [EvMode m] (set_mode m).
Proof.
  unfold set_mode. change [EvMode m] with ([] ++ [EvMode m]).
  apply emits_bind; [apply emits_nil, pres_modify; reflexivity|]. intros _.
  apply emits_emit. reflexivity.
Qed.

Lemma emits_set_swizzling_enabled e b :
  emits [EvSwizzling b] (set_swizzling_enabled e b).
Proof.
  unfold set_swizzling_enabled. change [EvSwizzling b] with ([EvSwizzling b] ++ []).
  apply emits_bind; [apply emits_coerce; reflexivity|]. intros _.
  apply emits_nil, pres_modify. reflexivity.
Qed.

Ltac ct_frame lem :=
  eapply lem with (okev := pass_event);
  intros; rewrite ?coordinator_trace_add_event;
  try match goal with H : pass_event _ = true |- _ => rewrite H end;
  rewrite ?app_nil_r; auto.

Ltac ct_go H1 H2 H3 :=
  repeat first
    [ apply H1 | apply H2 | apply H3
    | apply pres_ret | apply pres_gets | apply pres_fatal
    | apply pres_bind; [|intros ?]
    | apply pres_modify; intros; reflexivity
    | apply pres_modify; intros; rewrite coordinator_trace_add_event;
      apply app_nil_r
    | match goal with
      | |- pres _ (if ?b then _ else _) => destruct b
      | |- pres _ (match ?x with _ => _ end) => destruct x
      end ].

Lemma emits_analysis_pass e fuel master v0 :
  emits [EvFunc f_analysis_pass; EvMode t_in_analysis]
        (analysis_pass e fuel master v0).
Proof.
  unfold analysis_pass.
  assert (H1 : forall l mx v,
             pres coordinator_trace (analysis_scan e master mx l v))
    by (intros; ct_frame @pres_analysis_scan).
  assert (H2 : forall l v, pres coordinator_trace (mount_chase e fuel l v))
    by (intros; ct_frame @pres_mount_chase).
  assert (H3 : forall mx v, pres coordinator_trace (analysis_finish e mx v))
    by (intros; ct_frame @pres_analysis_finish).
  change [EvFunc f_analysis_pass; EvMode t_in_analysis]
    with ([EvFunc f_analysis_pass] ++ [EvMode t_in_analysis] ++ []).
  apply emits_bind; [apply emits_emit; reflexivity|]. intros _.
  apply emits_bind; [apply emits_set_mode|]. intros _.
  apply emits_nil. ct_go H1 H2 H3.
Qed.

Lemma emits_redo_log_pass e redo_lsn end_lsn idc :
  emits [EvFunc f_redo_pass] (redo_log_pass e redo_lsn end_lsn idc).
Proof.
  unfold redo_log_pass.
  assert (H1 : forall l ser dc,
             pres coordinator_trace (redo_scan e ser end_lsn l dc))
    by (intros; ct_frame @pres_redo_scan).
  change [EvFunc f_redo_pass] with ([EvFunc f_redo_pass] ++ []).
  apply emits_bind; [apply emits_emit; reflexivity|]. intros _.
  apply emits_nil. ct_go H1 H1 H1.
Qed.

Lemma emits_undo_reverse_pass e fuel h c u :
  emits [EvFunc f_undo_pass] (undo_reverse_pass e fuel h c u).
Proof.
  unfold undo_reverse_pass.
  assert (H1 : forall h, pres coordinator_trace (undo_loop e fuel h))
    by (intros; ct_frame @pres_undo_loop).
  assert (H2 : forall h, pres coordinator_trace (undo_drain e fuel h))
    by (intros; ct_frame @pres_undo_drain).
  change [EvFunc f_undo_pass] with ([EvFunc f_undo_pass] ++ []).
  apply emits_bind; [apply emits_emit; reflexivity|]. intros _.
  apply emits_nil. unfold call, coerce, emit. ct_go H1 H2 H2.
Qed.

Tactic Notation "binv" hyp(H) "as" ident(a) ident(s1) ident(H1) :=
  apply bind_inv_Ok in H; destruct H as (a & s1 & H1 & H).

Lemma when_inv (b : bool) (c : M unit) s u s' :
  when b c s = Ok (u, s') ->
  (b = true /\ c s = Ok (u, s')) \/ (b = false /\ s' = s).
Proof.
  destruct b; simpl; intros H; [left; auto|].
  right. apply ret_inv_Ok in H. tauto.
Qed.

(** C9.  In concurrent (non-serial) mode, whenever [recover] returns,
    pointer swizzling is disabled in the buffer pool, also when it was
    enabled before recovery started: the coordinator turns it off before
    Log Analysis (the only [EvSwizzling] event of the run, and only when it
    was on), runs Log Analysis and the checkpoint, and returns without
    turning it on again. *)
Theorem recover_concurrent_keeps_swizzling_off e fuel master s v s' :
  use_serial_recovery e = false ->
  recover e fuel master s = Ok (v, s') ->
  swizzling_enabled s' = false
  /\ coordinator_trace s'
     = coordinator_trace s
       ++ [EvFunc f_recover]
       ++ (if swizzling_enabled s then [EvSwizzling false] else [])
       ++ [EvFunc f_analysis_pass; EvMode t_in_analysis; EvSynchTake].
Proof.
  intros Hser H. unfold recover in H.
  binv H as u0 s0 H0. apply (emits_emit (EvFunc f_recover) eq_refl) in H0 as Ht0.
  unfold emit in H0. apply modify_inv_Ok in H0.
  binv H as m s0' Hm. apply gets_inv_Ok in Hm. destruct Hm as [-> ->].
  destruct (negb (bool_decide (operating_mode s0 = t_before_recovery)));
    [discriminate H|].
  binv H as org s0' Hm. apply gets_inv_Ok in Hm. destruct Hm as [-> ->].
  binv H as u1 s1 H1.
  binv H as v1 sa Ha.
  binv H as xc sa' Hx. apply gets_inv_Ok in Hx. destruct Hx as [-> ->].
  binv H as u2 s2 H2.
  rewrite Hser in H. simpl in H. apply ret_inv_Ok in H. destruct H as [-> ->].
  apply emits_analysis_pass in Ha as Hta.
  apply swizzling_analysis_pass in Ha as Hsa.
  apply (emits_call e EvSynchTake eq_refl) in H2 as Ht2.
  assert (Hs2 : swizzling_enabled s2 = swizzling_enabled sa).
  { unfold call, emit in H2. binv H2 as u3 s3 H3.
    apply modify_inv_Ok in H3. apply modify_inv_Ok in H2. subst. reflexivity. }
  assert (Hsw0 : swizzling_enabled s0 = swizzling_enabled s)
    by (subst s0; reflexivity).
  rewrite Hsw0 in *.
  apply when_inv in H1. destruct H1 as [[Hb H1]|[Hb ->]].
  - apply emits_set_swizzling_enabled in H1 as Ht1.
    unfold set_swizzling_enabled in H1. binv H1 as u4 s4 H4.
    apply modify_inv_Ok in H1.
    split.
    + rewrite Hs2, Hsa, H1. reflexivity.
    + rewrite Ht2, Hta, Ht1, Ht0, Hb. rewrite <- !app_assoc. reflexivity.
  - split.
    + rewrite Hs2, Hsa, Hsw0. exact Hb.
    + rewrite Ht2, Hta, Ht0, Hb. rewrite <- !app_assoc. reflexivity.
Qed.

Lemma recover_concurrent_keeps_swizzling_off_witness :
  exists v s',
    recover (mk_env false log_in_flight) 100 500 (sm_start true 700)
    = Ok (v, s')
    /\ swizzling_enabled s' = false
    /\ coordinator_trace s'
       = coordinator_trace (sm_start true 700) ++ [EvFunc f_recover]
         ++ (if swizzling_enabled (sm_start true 700)
             then [EvSwizzling false] else [])
         ++ [EvFunc f_analysis_pass; EvMode t_in_analysis; EvSynchTake].
Proof.
  eexists _, _. split; [vm_compute; reflexivity|].
  eapply (recover_concurrent_keeps_swizzling_off
            (mk_env false log_in_flight) 100 500 (sm_start true 700)).
  - reflexivity.
  - vm_compute. reflexivity.
Defined.

(** Swizzling was on before this run and is off after it; the transaction
    in flight is still in the table, to be undone while the system is
    open. *)
Example recover_concurrent_in_flight :
  let res := recover (mk_env false log_in_flight) 100 500 (sm_start true 700) in
  option_map swizzling_enabled (state_of res) = Some false
  /\ option_map (fun s => List.map x_tid (xct_tab s)) (state_of res)
     = Some [7]
  /\ option_map operating_mode (state_of res) = Some t_in_analysis.
Proof. vm_compute. repeat split. Qed.

Lemma swizzling_call e ev : pres swizzling_enabled (call e ev).
Proof.
  unfold call, emit.
  apply pres_bind; [|intros _]; apply pres_modify; reflexivity.
Qed.

Lemma swizzling_coerce e ev : pres swizzling_enabled (coerce e ev).
Proof.
  unfold coerce, emit.
  apply pres_bind; [apply pres_modify; reflexivity|intros _].
  apply pres_bind; [apply pres_modify; reflexivity|intros _].
  destruct (rc_ok e ev); [apply pres_ret | apply pres_fatal].
Qed.

Lemma swizzling_set_mode m : pres swizzling_enabled (set_mode m).
Proof.
  unfold set_mode, emit.
  apply pres_bind; [|intros _]; apply pres_modify; reflexivity.
Qed.

(** C5, amended.  In serial mode, whenever [recover] returns, the
    coordinator has run, after Log Analysis and its checkpoint: the
    operating mode set to in-redo; log-driven REDO followed by the flush of
    the buffer pool, when Log Analysis counted an in_doubt page, and neither
    otherwise; the operating mode set to in-undo; reverse UNDO followed by a
    synchronous checkpoint, when Log Analysis left a transaction in the
    table, and neither otherwise; pointer swizzling turned on again when it
    was on before recovery.  Swizzling is at its setting of before
    recovery. *)
Theorem recover_serial_sequence e fuel master s v s' :
  use_serial_recovery e = true ->
  recover e fuel master s = Ok (v, s') ->
  exists s1 sa,
    analysis_pass e fuel master avars_init s1 = Ok (v, sa)
    /\ coordinator_trace s'
       = coordinator_trace s
         ++ [EvFunc f_recover]
         ++ (if swizzling_enabled s then [EvSwizzling false] else [])
         ++ [EvFunc f_analysis_pass; EvMode t_in_analysis; EvSynchTake;
             EvMode t_in_redo]
         ++ (if N.eqb 0 (in_doubt_count v) then []
             else [EvFunc f_redo_pass; EvForceAll])
         ++ [EvMode t_in_undo]
         ++ (if N.eqb 0 (N.of_nat (length (xct_tab sa))) then []
             else [EvFunc f_undo_pass; EvSynchTake])
         ++ (if swizzling_enabled s then [EvSwizzling true] else [])
    /\ swizzling_enabled s' = swizzling_enabled s.
Proof.
  intros Hser H. unfold recover in H.
  binv H as u0 s0 H0. apply (emits_emit (EvFunc f_recover) eq_refl) in H0 as Ht0.
  unfold emit in H0. apply modify_inv_Ok in H0.
  binv H as m s0' Hm. apply gets_inv_Ok in Hm. destruct Hm as [-> ->].
  destruct (negb (bool_decide (operating_mode s0 = t_before_recovery)));
    [discriminate H|].
  binv H as org s0' Hm. apply gets_inv_Ok in Hm. destruct Hm as [-> ->].
  assert (Hsw0 : swizzling_enabled s0 = swizzling_enabled s)
    by (subst s0; reflexivity).
  rewrite Hsw0 in H.
  binv H as u1 s1 H1.
  binv H as v1 sa Ha.
  binv H as xc sa' Hx. apply gets_inv_Ok in Hx. destruct Hx as [-> ->].
  binv H as u2 s2 H2.
  rewrite Hser in H. cbn [negb] in H.
  binv H as cl s2' Hc. apply gets_inv_Ok in Hc. destruct Hc as [-> ->].
  binv H as u3 s3 H3.
  binv H as u4 s4 H4.
  binv H as u5 s5 H5.
  binv H as u6 s6 H6.
  binv H as u7 s7 H7.
  apply ret_inv_Ok in H. destruct H as [Hv Hs]. subst v1 s7.
  exists s1, sa. split; [exact Ha|].
  apply emits_analysis_pass in Ha as Hta.
  apply (emits_call e EvSynchTake eq_refl) in H2 as Ht2.
  apply swizzling_call in H2 as Hs2.
  apply emits_set_mode in H3 as Ht3. apply swizzling_set_mode in H3 as Hs3.
  apply emits_set_mode in H5 as Ht5. apply swizzling_set_mode in H5 as Hs5.
  assert (Ht4 : coordinator_trace s4
                = coordinator_trace s3
                  ++ (if N.eqb 0 (in_doubt_count v) then []
                      else [EvFunc f_redo_pass; EvForceAll])
                /\ swizzling_enabled s4 = swizzling_enabled s3).
  { apply when_inv in H4. destruct H4 as [[Hb H4]|[Hb ->]].
    - apply negb_true_iff in Hb. rewrite Hb.
      binv H4 as u8 s8 H8.
      apply emits_redo_log_pass in H8 as Ht8.
      apply swizzling_redo_log_pass in H8 as Hs8.
      apply (emits_coerce e EvForceAll eq_refl) in H4 as Ht4.
      apply swizzling_coerce in H4 as Hs4.
      split; [|congruence].
      rewrite Ht4, Ht8, <- app_assoc. reflexivity.
    - apply negb_false_iff in Hb. rewrite Hb, app_nil_r. auto. }
  assert (Ht6 : coordinator_trace s6
                = coordinator_trace s5
                  ++ (if N.eqb 0 (N.of_nat (length (xct_tab sa))) then []
                      else [EvFunc f_undo_pass; EvSynchTake])
                /\ swizzling_enabled s6 = swizzling_enabled s5).
  { apply when_inv in H6. destruct H6 as [[Hb H6]|[Hb ->]].
    - apply negb_true_iff in Hb. rewrite Hb.
      binv H6 as u8 s8 H8.
      apply emits_undo_reverse_pass in H8 as Ht8.
      apply swizzling_undo_reverse_pass in H8 as Hs8.
      apply (emits_call e EvSynchTake eq_refl) in H6 as Ht6.
      apply swizzling_call in H6 as Hs6.
      split; [|congruence].
      rewrite Ht6, Ht8, <- app_assoc. reflexivity.
    - apply negb_false_iff in Hb. rewrite Hb, app_nil_r. auto. }
  destruct Ht4 as [Ht4 Hs4]. destruct Ht6 as [Ht6 Hs6].
  apply swizzling_analysis_pass in Ha as Hsa.
  assert (Hchain : swizzling_enabled s6 = swizzling_enabled s1) by congruence.
  assert (Ht1 : coordinator_trace s1
                = coordinator_trace s0
                  ++ (if swizzling_enabled s then [EvSwizzling false] else [])
                /\ (swizzling_enabled s = false ->
                    swizzling_enabled s1 = false)).
  { apply when_inv in H1. destruct H1 as [[Hb H1]|[Hb ->]].
    - apply emits_set_swizzling_enabled in H1 as Ht1.
      rewrite Hb. split; [exact Ht1 | congruence].
    - rewrite Hb, app_nil_r. split; [reflexivity | congruence]. }
  destruct Ht1 as [Ht1 Hs1].
  apply when_inv in H7. destruct H7 as [[Hb H7]|[Hb ->]].
  - apply emits_set_swizzling_enabled in H7 as Ht7.
    unfold set_swizzling_enabled in H7. binv H7 as u9 s9 H9.
    apply modify_inv_Ok in H7.
    split.
    + rewrite Ht7, Ht6, Ht5, Ht4, Ht3, Ht2, Hta, Ht1, Ht0, Hb.
      rewrite <- !app_assoc. reflexivity.
    + rewrite H7, Hb. reflexivity.
  - split.
    + rewrite Ht6, Ht5, Ht4, Ht3, Ht2, Hta, Ht1, Ht0, Hb.
      rewrite <- !app_assoc. rewrite !app_nil_r. reflexivity.
    + rewrite Hchain, Hb. auto.
Qed.

Lemma recover_serial_sequence_witness :
  let e := mk_env true log_in_flight in
  let s := sm_start true 700 in
  exists v s',
    recover e 100 500 s = Ok (v, s')
    /\ exists s1 sa,
        analysis_pass e 100 500 avars_init s1 = Ok (v, sa)
        /\ coordinator_trace s'
           = coordinator_trace s
             ++ [EvFunc f_recover]
             ++ (if swizzling_enabled s then [EvSwizzling false] else [])
             ++ [EvFunc f_analysis_pass; EvMode t_in_analysis; EvSynchTake;
                 EvMode t_in_redo]
             ++ (if N.eqb 0 (in_doubt_count v) then []
                 else [EvFunc f_redo_pass; EvForceAll])
             ++ [EvMode t_in_undo]
             ++ (if N.eqb 0 (N.of_nat (length (xct_tab sa))) then []
                 else [EvFunc f_undo_pass; EvSynchTake])
             ++ (if swizzling_enabled s then [EvSwizzling true] else [])
        /\ swizzling_enabled s' = swizzling_enabled s.
Proof.
  intros e s. eexists _, _. split; [vm_compute; reflexivity|].
  eapply (recover_serial_sequence e 100 500 s).
  - reflexivity.
  - vm_compute. reflexivity.
Defined.

(** With a transaction in flight the run is the sequence of the claim. *)
Example recover_serial_in_flight :
  let res := recover (mk_env true log_in_flight) 100 500 (sm_start true 700) in
  option_map coordinator_trace (state_of res)
  = Some [EvFunc f_recover; EvSwizzling false;
          EvFunc f_analysis_pass; EvMode t_in_analysis; EvSynchTake;
          EvMode t_in_redo; EvFunc f_redo_pass; EvForceAll;
          EvMode t_in_undo; EvFunc f_undo_pass; EvSynchTake;
          EvSwizzling true]
  /\ option_map xct_tab (state_of res) = Some [].
Proof. vm_compute. split; reflexivity. Qed.

(** C5, as stated, fails on [log_committed]: the only transaction of the log
    ended before the crash, so Log Analysis leaves the transaction table
    empty (and one in_doubt page).  [recover] returns under the serial
    policy without running reverse UNDO, and the only synchronous checkpoint
    of the run is the one after Log Analysis. *)
Lemma recover_serial_skips_undo_and_checkpoint :
  exists v s',
    recover (mk_env true log_committed) 100 500 (sm_start true 700)
    = Ok (v, s')
    /\ use_serial_recovery (mk_env true log_committed) = true
    /\ in_doubt_count v = 1
    /\ coordinator_trace s'
       = [EvFunc f_recover; EvSwizzling false;
          EvFunc f_analysis_pass; EvMode t_in_analysis; EvSynchTake;
          EvMode t_in_redo; EvFunc f_redo_pass; EvForceAll;
          EvMode t_in_undo; EvSwizzling true]
    /\ runs_undo_pass s' = false
    /\ synch_takes s' = 1%nat.
Proof.
  eexists _, _. split; [vm_compute; reflexivity|].
  vm_compute. repeat split.
Qed.

(** ** Transaction-driven UNDO *)

(** The walk leaves alone a table in which every doomed active transaction
    has a null [undo_nxt]: nothing is aborted and nothing is destroyed. *)
Lemma undo_txn_walk_null_undo_nxt e fuel t s :
  (forall x, In x t -> doomed_active x = true -> x_undo_nxt x = lsn_null) ->
  undo_txn_walk e fuel t s = Ok (tt, s).
Proof.
  induction t as [|x t IH]; intros Hall; simpl.
  - reflexivity.
  - assert (Hx : doomed_active x = true -> x_undo_nxt x = lsn_null)
      by (apply Hall; left; reflexivity).
    assert (Hhd : (if doomed_active x then
                     if negb (N.eqb lsn_null (x_undo_nxt x)) then
                       if x_is_sys_xct x
                       then set_undo_nxt (x_tid x) lsn_null
                       else abort e fuel (x_tid x) ;;; destroy_xct (x_tid x)
                     else ret tt
                   else ret tt) s = Ok (tt, s)).
    { destruct (doomed_active x); [|reflexivity].
      rewrite Hx by reflexivity. reflexivity. }
    rewrite (bind_Ok _ _ _ _ _ Hhd).
    apply IH. intros y Hy. apply Hall. right. exact Hy.
Qed.

(** C4 at [log_compensated], under the concurrent policy.  Log Analysis
    leaves transaction 7 in the table, doomed and active, with a null
    [undo_nxt] (its last record is a compensation record).
    [_undo_txn_pass] then forces the log and sets the global [commit_lsn]
    to null, and the transaction is still in the table, neither aborted nor
    destroyed. *)
Theorem undo_txn_pass_leaves_compensated_xct :
  let e := mk_env false log_compensated in
  exists v sa s',
    recover e 100 500 (sm_start true 700) = Ok (v, sa)
    /\ List.map (fun x => (x_tid x, x_undo_nxt x, doomed_active x)) (xct_tab sa)
       = [(7, lsn_null, true)]
    /\ _undo_txn_pass e 100 sa = Ok (tt, s')
    /\ xct_tab s' = xct_tab sa
    /\ trace s' = trace sa ++ [EvLogComment; EvFlushAll]
    /\ commit_lsn_global s' = lsn_null.
Proof.
  intros e. eexists _, _, _.
  split; [vm_compute; reflexivity|].
  split; [vm_compute; reflexivity|].
  split; [vm_compute; reflexivity|].
  vm_compute. repeat split.
Qed.

(** On the same table the heap-driven pass aborts the transaction and
    destroys it. *)
Example undo_reverse_pass_destroys_compensated_xct :
  let e := mk_env false log_compensated in
  let sa := state_of (recover e 100 500 (sm_start true 700)) in
  let res := sa ≫= fun s => state_of (undo_reverse_pass e 100 [] 700 500 s) in
  xct_tab <$> res = Some []
  /\ (fun s => drop 5 (trace s)) <$> res
     = Some [EvFunc f_undo_pass; EvLogComment; EvAbort 7; EvUnlock 7;
             EvDestroy 7; EvFlushAll].
Proof. vm_compute. split; reflexivity. Qed.

(** ** Reverse UNDO *)

Lemma log_fetch_In log l r : log_fetch log l = Some r -> In (l, r) log.
Proof.
  induction log as [|[l' r'] log IH]; simpl; [discriminate|].
  destruct (N.eqb_spec l' l) as [->|_].
  - intros [= ->]. left. reflexivity.
  - intros H. right. apply IH, H.
Qed.

Lemma log_wf_prev log l r :
  log_wf log = true -> log_fetch log l = Some r ->
  r_xid_prev r < l
  /\ (r_xid_prev r = lsn_null
      \/ exists r', log_fetch log (r_xid_prev r) = Some r'
                    /\ r_tid r' = r_tid r).
Proof.
  intros Hwf Hf. apply log_fetch_In in Hf.
  unfold log_wf in Hwf. rewrite forallb_forall in Hwf.
  specialize (Hwf _ Hf). simpl in Hwf.
  apply andb_true_iff in Hwf. destruct Hwf as [Hlt Hp].
  apply N.ltb_lt in Hlt. split; [exact Hlt|].
  apply orb_true_iff in Hp. destruct Hp as [Hp|Hp].
  - left. apply N.eqb_eq, Hp.
  - right. destruct (log_fetch log (r_xid_prev r)) as [r'|]; [|discriminate].
    exists r'. split; [reflexivity|]. apply N.eqb_eq, Hp.
Qed.

Lemma owns_spec log t tid :
  owns log t tid = true <->
  (undo_nxt_of t tid = lsn_null
   \/ exists r, log_fetch log (undo_nxt_of t tid) = Some r /\ r_tid r = tid).
Proof.
  unfold owns. rewrite orb_true_iff, N.eqb_eq.
  destruct (log_fetch log (undo_nxt_of t tid)) as [r|].
  - rewrite N.eqb_eq. split; intros [H|H]; auto.
    + right. eauto.
    + destruct H as (r' & [= <-] & H). auto.
  - split; intros [H|H]; auto; [discriminate|].
    destruct H as (r' & H & _). discriminate.
Qed.

(** Two transactions that own the same record are the same. *)
Lemma owns_distinct log t x y :
  owns log t x = true -> owns log t y = true ->
  undo_nxt_of t x = undo_nxt_of t y -> undo_nxt_of t x <> lsn_null -> x = y.
Proof.
  rewrite !owns_spec. intros [Hx|(rx & Hx & <-)] [Hy|(ry & Hy & <-)] E Hn;
    try congruence.
Qed.

(** *** The table after a change to one transaction *)

Lemma tab_step_refl tid t : tab_step tid t t.
Proof. split; auto. Qed.

Lemma tab_step_trans tid t1 t2 t3 :
  tab_step tid t1 t2 -> tab_step tid t2 t3 -> tab_step tid t1 t3.
Proof.
  intros [H1 H2] [H3 H4]. split; [congruence|].
  intros tid' Hne. rewrite H4, H2; auto.
Qed.

Lemma tab_step_alter f tid t :
  (forall x, x_tid (f x) = x_tid x) -> tab_step tid t (xct_alter f tid t).
Proof.
  intros Hf. split.
  - induction t as [|x t IH]; simpl; [reflexivity|].
    destruct (N.eqb (x_tid x) tid); simpl; [rewrite Hf|rewrite IH]; reflexivity.
  - intros tid' Hne. unfold look_up.
    induction t as [|x t IH]; simpl; [reflexivity|].
    destruct (N.eqb_spec (x_tid x) tid) as [E|E]; simpl.
    + rewrite Hf. destruct (N.eqb_spec (x_tid x) tid'); [congruence|reflexivity].
    + destruct (N.eqb (x_tid x) tid'); [reflexivity|exact IH].
Qed.

Lemma tab_step_undo_nxt tid t t' tid' :
  tab_step tid t t' -> tid' <> tid -> undo_nxt_of t' tid' = undo_nxt_of t tid'.
Proof. intros [_ H] Hne. unfold undo_nxt_of. rewrite H; auto. Qed.

Lemma undo_nxt_of_set l tid t :
  undo_nxt_of t tid <> lsn_null ->
  undo_nxt_of (xct_alter (with_undo_nxt l) tid t) tid = l.
Proof.
  intros Hn. apply undo_nxt_of_alter_undo_nxt.
  unfold undo_nxt_of in Hn. destruct (look_up tid t); [eauto|congruence].
Qed.

(** *** Rollback to a save point *)

Lemma rollback_loop_spec e fuel tid save :
  log_wf (the_log e) = true ->
  forall s,
  owns (the_log e) (xct_tab s) tid = true ->
  (N.to_nat (undo_nxt_of (xct_tab s) tid) <= fuel)%nat ->
  exists s',
    rollback_loop e fuel tid save s = Ok (tt, s')
    /\ tab_step tid (xct_tab s) (xct_tab s')
    /\ owns (the_log e) (xct_tab s') tid = true
    /\ (undo_nxt_of (xct_tab s') tid = lsn_null
        \/ undo_nxt_of (xct_tab s') tid <= save)
    /\ undo_nxt_of (xct_tab s') tid <= undo_nxt_of (xct_tab s) tid
    /\ (undo_nxt_of (xct_tab s) tid <> lsn_null ->
        save < undo_nxt_of (xct_tab s) tid ->
        undo_nxt_of (xct_tab s') tid < undo_nxt_of (xct_tab s) tid).
Proof.
  intros Hlog. induction fuel as [|fuel IH]; intros s Hown Hfuel.
  - assert (Hu : undo_nxt_of (xct_tab s) tid = lsn_null)
      by (unfold lsn_null; lia).
    exists s. simpl. mrun. rewrite Hu. simpl.
    repeat split; auto using tab_step_refl; try lia; intros; congruence.
  - simpl. mrun.
    destruct (N.eqb_spec (undo_nxt_of (xct_tab s) tid) lsn_null) as [Hu|Hu];
      simpl.
    { exists s.
      repeat split; auto using tab_step_refl; try lia; intros; congruence. }
    destruct (N.leb_spec (undo_nxt_of (xct_tab s) tid) save) as [Hle|Hgt].
    { exists s. repeat split; auto using tab_step_refl; try lia. }
    apply owns_spec in Hown as Hown'. destruct Hown' as [Hn|(r & Hr & Htid)];
      [contradiction|].
    rewrite Hr. unfold call, emit, set_undo_nxt, xct_modify. mrun.
    destruct (log_wf_prev _ _ _ Hlog Hr) as [Hlt Hprev].
    match goal with
    | |- exists s', rollback_loop e fuel tid save ?st = _ /\ _ =>
        set (s1 := st)
    end.
    assert (Ht1 : xct_tab s1
                  = xct_alter (with_undo_nxt (r_xid_prev r)) tid (xct_tab s))
      by reflexivity.
    assert (Hu1 : undo_nxt_of (xct_tab s1) tid = r_xid_prev r)
      by (rewrite Ht1; apply undo_nxt_of_set, Hu).
    assert (Hstep : tab_step tid (xct_tab s) (xct_tab s1))
      by (rewrite Ht1; apply tab_step_alter; reflexivity).
    destruct (IH s1) as (s' & Hrun & Hts & Ho & Hstop & Hle' & _).
    { apply owns_spec. rewrite Hu1. destruct Hprev as [Hp|(r' & Hr' & Ht')].
      - left. exact Hp.
      - right. exists r'. split; [exact Hr'|congruence]. }
    { rewrite Hu1. lia. }
    exists s'. split; [exact Hrun|].
    split; [eapply tab_step_trans; eassumption|].
    split; [exact Ho|]. split; [exact Hstop|].
    rewrite Hu1 in Hle'. split; [lia|]. intros _ _. lia.
Qed.

(** *** The heap *)

Lemma heap_insert_perm t x h : heap_insert t x h ≡ₚ x :: h.
Proof.
  induction h as [|y h IH]; simpl; [reflexivity|].
  destruct (N.ltb (undo_nxt_of t y) (undo_nxt_of t x)); [reflexivity|].
  rewrite IH. apply Permutation_swap.
Qed.

Lemma heap_sorted_tail t x h : heap_sorted t (x :: h) = true -> heap_sorted t h = true.
Proof.
  simpl. destruct h as [|y h]; [reflexivity|].
  intros H. apply andb_true_iff in H. tauto.
Qed.

Lemma heap_sorted_ext t t' h :
  (forall x, In x h -> undo_nxt_of t' x = undo_nxt_of t x) ->
  heap_sorted t' h = heap_sorted t h.
Proof.
  induction h as [|x h IH]; intros Hext; [reflexivity|].
  destruct h as [|y h]; [reflexivity|].
  change (heap_sorted t' (x :: y :: h))
    with (N.leb (undo_nxt_of t' y) (undo_nxt_of t' x)
          && heap_sorted t' (y :: h)).
  change (heap_sorted t (x :: y :: h))
    with (N.leb (undo_nxt_of t y) (undo_nxt_of t x)
          && heap_sorted t (y :: h)).
  rewrite IH by (intros z Hz; apply Hext; right; exact Hz).
  rewrite !Hext by (simpl; auto). reflexivity.
Qed.

Lemma heap_insert_sorted t x h :
  heap_sorted t h = true -> heap_sorted t (heap_insert t x h) = true.
Proof.
  induction h as [|y h IH]; intros Hs; [reflexivity|].
  simpl heap_insert.
  destruct (N.ltb_spec (undo_nxt_of t y) (undo_nxt_of t x)) as [Hlt|Hge].
  - change (N.leb (undo_nxt_of t y) (undo_nxt_of t x)
            && heap_sorted t (y :: h) = true).
    rewrite Hs, andb_true_r. apply N.leb_le. lia.
  - specialize (IH (heap_sorted_tail _ _ _ Hs)).
    destruct h as [|z h].
    + simpl. rewrite andb_true_r. apply N.leb_le. exact Hge.
    + simpl heap_insert in *.
      change (heap_sorted t (y :: z :: h))
        with (N.leb (undo_nxt_of t z) (undo_nxt_of t y)
              && heap_sorted t (z :: h)) in Hs.
      apply andb_true_iff in Hs. destruct Hs as [Hzy Hs].
      destruct (N.ltb (undo_nxt_of t z) (undo_nxt_of t x)).
      * change (N.leb (undo_nxt_of t x) (undo_nxt_of t y)
                && heap_sorted t (x :: z :: h) = true).
        rewrite IH, andb_true_r. apply N.leb_le. exact Hge.
      * change (N.leb (undo_nxt_of t z) (undo_nxt_of t y)
                && heap_sorted t (z :: heap_insert t x h) = true).
        rewrite IH, andb_true_r. exact Hzy.
Qed.

Lemma heap_sorted_head t x h :
  heap_sorted t (x :: h) = true ->
  forall y, In y h -> undo_nxt_of t y <= undo_nxt_of t x.
Proof.
  revert x. induction h as [|z h IH]; intros x Hs y Hy; [destruct Hy|].
  change (heap_sorted t (x :: z :: h))
    with (N.leb (undo_nxt_of t z) (undo_nxt_of t x)
          && heap_sorted t (z :: h)) in Hs.
  apply andb_true_iff in Hs. destruct Hs as [Hzx Hs].
  apply N.leb_le in Hzx. destruct Hy as [<-|Hy]; [exact Hzx|].
  specialize (IH z Hs y Hy). lia.
Qed.

Lemma heap_weight_perm t h h' : h ≡ₚ h' -> heap_weight t h = heap_weight t h'.
Proof.
  unfold heap_weight. induction 1; simpl; lia.
Qed.

Lemma heap_weight_ext t t' h :
  (forall x, In x h -> undo_nxt_of t' x = undo_nxt_of t x) ->
  heap_weight t' h = heap_weight t h.
Proof.
  unfold heap_weight. induction h as [|x h IH]; intros Hext; [reflexivity|].
  simpl. rewrite IH by (intros z Hz; apply Hext; right; exact Hz).
  rewrite Hext by (left; reflexivity). reflexivity.
Qed.

Lemma heap_weight_In t h x :
  In x h -> (N.to_nat (undo_nxt_of t x) <= heap_weight t h)%nat.
Proof.
  unfold heap_weight. induction h as [|y h IH]; intros Hx; [destruct Hx|].
  simpl. destruct Hx as [->|Hx]; [lia|]. specialize (IH Hx). lia.
Qed.

Lemma owns_ext log t t' x :
  undo_nxt_of t' x = undo_nxt_of t x -> owns log t' x = owns log t x.
Proof. unfold owns. intros ->. reflexivity. Qed.

Lemma undo_wf_spec log t h :
  undo_wf log t h = true <->
  NoDup h /\ NoDup (List.map x_tid t) /\ heap_sorted t h = true
  /\ (forall x, In x h -> owns log t x = true).
Proof.
  unfold undo_wf. rewrite !andb_true_iff, !bool_decide_eq_true, forallb_forall.
  tauto.
Qed.

Lemma NoDup_cons_In (x : tid_t) h y : NoDup (x :: h) -> In y h -> y <> x.
Proof.
  intros Hnd Hy ->. apply NoDup_cons in Hnd. destruct Hnd as [Hx _].
  apply Hx, list_elem_of_In, Hy.
Qed.

(** The heap after its first transaction moved back. *)
Lemma replaced_first_wf log t t1 xd h :
  undo_wf log t (xd :: h) = true ->
  tab_step xd t t1 ->
  owns log t1 xd = true ->
  undo_nxt_of t1 xd < undo_nxt_of t xd ->
  undo_wf log t1 (ReplacedFirst t1 (xd :: h)) = true
  /\ (heap_weight t1 (ReplacedFirst t1 (xd :: h)) < heap_weight t (xd :: h))%nat.
Proof.
  intros Hwf Hstep Hown1 Hlt.
  apply undo_wf_spec in Hwf. destruct Hwf as (Hnd & Hndt & Hsort & Hown).
  assert (Hsame : forall x, In x h -> undo_nxt_of t1 x = undo_nxt_of t x).
  { intros x Hx. eapply tab_step_undo_nxt; [exact Hstep|].
    eapply NoDup_cons_In; eassumption. }
  change (ReplacedFirst t1 (xd :: h)) with (heap_insert t1 xd h).
  split.
  - apply undo_wf_spec. repeat split.
    + rewrite heap_insert_perm. exact Hnd.
    + destruct Hstep as [-> _]. exact Hndt.
    + apply heap_insert_sorted. rewrite (heap_sorted_ext t t1 h Hsame).
      eapply heap_sorted_tail, Hsort.
    + intros x Hx.
      apply (Permutation_in _ (heap_insert_perm t1 xd h)) in Hx.
      destruct Hx as [<-|Hx]; [exact Hown1|].
      rewrite (owns_ext log t t1 x (Hsame x Hx)). apply Hown. right. exact Hx.
  - rewrite (heap_weight_perm t1 _ _ (heap_insert_perm t1 xd h)).
    unfold heap_weight. simpl. fold (heap_weight t1 h). fold (heap_weight t h).
    rewrite (heap_weight_ext t t1 h Hsame). lia.
Qed.

(** *** The order in which a rollback undoes *)

Lemma undo_lsns_app evs1 evs2 :
  undo_lsns (evs1 ++ evs2) = undo_lsns evs1 ++ undo_lsns evs2.
Proof.
  induction evs1 as [|ev evs1 IH]; [reflexivity|].
  destruct ev; simpl; rewrite IH; reflexivity.
Qed.

Lemma descends_weaken lo lo' l :
  lo' <= lo ->
  forall hi hi', hi <= hi' ->
    descends lo hi l = true -> descends lo' hi' l = true.
Proof.
  intros Hlo. induction l as [|a l IH]; intros hi hi' Hhi H; [reflexivity|].
  simpl in *. apply andb_true_iff in H. destruct H as [H Hl].
  apply andb_true_iff in H. destruct H as [H1 H2].
  apply N.ltb_lt in H1, H2.
  rewrite (IH a a (N.le_refl a) Hl), andb_true_r.
  apply andb_true_iff. split; apply N.ltb_lt; lia.
Qed.

Lemma descends_app lo1 lo2 hi2 l2 l1 :
  descends lo2 hi2 l2 = true ->
  hi2 <= N.succ lo1 -> lo2 <= lo1 ->
  forall hi1, hi2 <= hi1 ->
    descends lo1 hi1 l1 = true -> descends lo2 hi1 (l1 ++ l2) = true.
Proof.
  intros H2 Hhi Hlo. induction l1 as [|a l1 IH]; intros hi1 Hle H1.
  - simpl. eapply descends_weaken; [| |exact H2]; lia.
  - simpl in *. apply andb_true_iff in H1. destruct H1 as [H1 Hl].
    apply andb_true_iff in H1. destruct H1 as [Ha1 Ha2].
    apply N.ltb_lt in Ha1, Ha2.
    rewrite (IH a) by (lia || exact Hl). rewrite andb_true_r.
    apply andb_true_iff. split; apply N.ltb_lt; lia.
Qed.

Lemma descends_empty lo l : descends lo (N.succ lo) l = true -> l = [].
Proof.
  destruct l as [|a l]; [reflexivity|]. simpl. intros H.
  apply andb_true_iff in H. destruct H as [H _].
  apply andb_true_iff in H. destruct H as [H1 H2].
  apply N.ltb_lt in H1, H2. lia.
Qed.

(** A rollback undoes the records of the transaction from its [undo_nxt]
    down, each above the save point and above the [undo_nxt] it ends
    with. *)
Lemma rollback_loop_undo e fuel tid save :
  log_wf (the_log e) = true ->
  forall s a s',
    rollback_loop e fuel tid save s = Ok (a, s') ->
    exists evs,
      trace s' = trace s ++ evs
      /\ forallb rollback_event evs = true
      /\ descends (N.max save (undo_nxt_of (xct_tab s') tid))
                  (N.succ (undo_nxt_of (xct_tab s) tid))
                  (undo_lsns evs) = true
      /\ undo_nxt_of (xct_tab s') tid <= undo_nxt_of (xct_tab s) tid
      /\ tab_step tid (xct_tab s) (xct_tab s').
Proof.
  intros Hlog. induction fuel as [|fuel IH]; intros s a s' H; simpl in H.
  - apply bind_inv_Ok in H. destruct H as (u & s0 & Hg & H).
    apply gets_inv_Ok in Hg. destruct Hg as [-> ->].
    destruct (_ || _); [|discriminate H].
    apply ret_inv_Ok in H. destruct H as [_ ->].
    exists []. rewrite app_nil_r.
    repeat split; auto using tab_step_refl; lia.
  - apply bind_inv_Ok in H. destruct H as (u & s0 & Hg & H).
    apply gets_inv_Ok in Hg. destruct Hg as [-> ->].
    destruct (N.eqb_spec (undo_nxt_of (xct_tab s) tid) lsn_null) as [Hu|Hu];
      cbn [orb] in H.
    { apply ret_inv_Ok in H. destruct H as [_ ->].
      exists []. rewrite app_nil_r.
      repeat split; auto using tab_step_refl; lia. }
    destruct (N.leb_spec (undo_nxt_of (xct_tab s) tid) save) as [Hle|Hgt].
    { apply ret_inv_Ok in H. destruct H as [_ ->].
      exists []. rewrite app_nil_r.
      repeat split; auto using tab_step_refl; lia. }
    destruct (log_fetch _ _) as [r|] eqn:Hr; [|discriminate H].
    destruct (log_wf_prev _ _ _ Hlog Hr) as [Hlt _].
    unfold call, emit, set_undo_nxt, xct_modify in H. mrun_in H.
    apply IH in H. destruct H as (evs & Htr & Hev & Hdesc & Hle' & Hstep).
    sm_proj_in Htr. sm_proj_in Hdesc. sm_proj_in Hle'. sm_proj_in Hstep.
    rewrite (undo_nxt_of_set _ _ _ Hu) in Hdesc, Hle'.
    exists (EvUndo (undo_nxt_of (xct_tab s) tid) :: evs).
    split; [rewrite Htr, <- app_assoc; reflexivity|].
    split; [exact Hev|]. split; [|split; [lia|]].
    + cbn [undo_lsns descends]. apply andb_true_iff. split.
      * apply andb_true_iff. split; apply N.ltb_lt; lia.
      * eapply descends_weaken; [| |exact Hdesc]; lia.
    + eapply tab_step_trans; [|exact Hstep].
      apply tab_step_alter. reflexivity.
Qed.

Lemma rollback_undo e fuel tid save s a s' :
  log_wf (the_log e) = true ->
  rollback e fuel tid save s = Ok (a, s') ->
  exists evs,
    trace s' = trace s ++ evs
    /\ forallb rollback_event evs = true
    /\ descends (N.max save (undo_nxt_of (xct_tab s') tid))
                (N.succ (undo_nxt_of (xct_tab s) tid))
                (undo_lsns evs) = true.
Proof.
  intros Hlog H. unfold rollback, coerce, emit in H. mrun_in H.
  destruct (rc_ok e (EvRollback tid save)); [|discriminate H].
  cbv iota in H. mrun_in H.
  apply (rollback_loop_undo e fuel tid save Hlog) in H.
  destruct H as (evs & Htr & Hev & Hdesc & _).
  sm_proj_in Htr. sm_proj_in Hdesc.
  exists (EvRollback tid save :: evs).
  split; [rewrite Htr, <- app_assoc; reflexivity|].
  split; [exact Hev|exact Hdesc].
Qed.

Lemma undo_loop_S e fuel h :
  undo_loop e (S fuel) h
  = (t <- gets xct_tab ;;
     match h with
     | [] => W_FATAL F_null_xct
     | xd :: _ =>
         if negb (N.eqb (undo_nxt_of t xd) lsn_null) then
           let x := look_up xd t in
           if from_option x_is_sys_xct false x
              && from_option x_is_single_log_sys_xct false x then
             set_undo_nxt xd lsn_null ;;;
             t' <- gets xct_tab ;;
             undo_loop e fuel (ReplacedFirst t' h)
           else
             rollback e (S fuel) xd (undo_nxt_of t (List.nth 1 h tid_null)) ;;;
             t' <- gets xct_tab ;;
             undo_loop e fuel (ReplacedFirst t' h)
         else ret h
     end).
Proof. reflexivity. Qed.

Lemma rollback_spec e fuel tid save s :
  rc_ok e (EvRollback tid save) = true ->
  log_wf (the_log e) = true ->
  owns (the_log e) (xct_tab s) tid = true ->
  (N.to_nat (undo_nxt_of (xct_tab s) tid) <= fuel)%nat ->
  exists s',
    rollback e fuel tid save s = Ok (tt, s')
    /\ tab_step tid (xct_tab s) (xct_tab s')
    /\ owns (the_log e) (xct_tab s') tid = true
    /\ (undo_nxt_of (xct_tab s') tid = lsn_null
        \/ undo_nxt_of (xct_tab s') tid <= save)
    /\ undo_nxt_of (xct_tab s') tid <= undo_nxt_of (xct_tab s) tid
    /\ (undo_nxt_of (xct_tab s) tid <> lsn_null ->
        save < undo_nxt_of (xct_tab s) tid ->
        undo_nxt_of (xct_tab s') tid < undo_nxt_of (xct_tab s) tid).
Proof.
  intros Hrc Hlog Hown Hfuel. unfold rollback, coerce, emit. mrun.
  rewrite Hrc. mrun.
  match goal with
  | |- exists s', rollback_loop e fuel tid save ?st = _ /\ _ =>
      apply (rollback_loop_spec e fuel tid save Hlog st); assumption
  end.
Qed.

(** One turn of the first loop of [undo_reverse_pass]. *)
Lemma undo_loop_iter e fuel xd y rest s :
  (forall ev, rc_ok e ev = true) ->
  log_wf (the_log e) = true ->
  undo_wf (the_log e) (xct_tab s) (xd :: y :: rest) = true ->
  undo_nxt_of (xct_tab s) xd <> lsn_null ->
  (heap_weight (xct_tab s) (xd :: y :: rest) <= S fuel)%nat ->
  exists s1,
    undo_loop e (S fuel) (xd :: y :: rest) s
    = undo_loop e fuel (ReplacedFirst (xct_tab s1) (xd :: y :: rest)) s1
    /\ (from_option x_is_sys_xct false (look_up xd (xct_tab s))
        && from_option x_is_single_log_sys_xct false (look_up xd (xct_tab s))
        = false ->
        rollback e (S fuel) xd (undo_nxt_of (xct_tab s) y) s = Ok (tt, s1))
    /\ tab_step xd (xct_tab s) (xct_tab s1)
    /\ owns (the_log e) (xct_tab s1) xd = true
    /\ undo_nxt_of (xct_tab s1) xd < undo_nxt_of (xct_tab s) xd
    /\ (undo_nxt_of (xct_tab s1) xd < undo_nxt_of (xct_tab s) y
        \/ undo_nxt_of (xct_tab s1) xd = lsn_null)
    /\ exists evs,
         trace s1 = trace s ++ evs
         /\ forallb rollback_event evs = true
         /\ descends (N.max (undo_nxt_of (xct_tab s) y)
                            (undo_nxt_of (xct_tab s1) xd))
                     (N.succ (undo_nxt_of (xct_tab s) xd))
                     (undo_lsns evs) = true.
Proof.
  intros Hrc Hlog Hwf Hu Hfuel.
  apply undo_wf_spec in Hwf. destruct Hwf as (Hnd & Hndt & Hsort & Hown).
  rewrite undo_loop_S. mrun.
  destruct (N.eqb_spec (undo_nxt_of (xct_tab s) xd) lsn_null) as [E|_];
    [contradiction|]. cbn [negb nth].
  destruct (from_option x_is_sys_xct false (look_up xd (xct_tab s))
            && from_option x_is_single_log_sys_xct false
                 (look_up xd (xct_tab s))) eqn:Hsys.
  - unfold set_undo_nxt, xct_modify. mrun.
    exists (set_xct_tab (xct_alter (with_undo_nxt lsn_null) xd (xct_tab s)) s).
    split; [reflexivity|]. sm_proj.
    assert (H0 : undo_nxt_of (xct_alter (with_undo_nxt lsn_null) xd (xct_tab s))
                   xd = lsn_null) by (apply undo_nxt_of_set, Hu).
    split; [discriminate|].
    split; [apply tab_step_alter; reflexivity|].
    split; [apply owns_spec; left; exact H0|].
    rewrite H0. unfold lsn_null in *. split; [lia|].
    split; [right; reflexivity|].
    exists []. rewrite app_nil_r. repeat split; reflexivity.
  - assert (Hxd : owns (the_log e) (xct_tab s) xd = true)
      by (apply Hown; left; reflexivity).
    assert (Hy : owns (the_log e) (xct_tab s) y = true)
      by (apply Hown; right; left; reflexivity).
    assert (Hne : y <> xd)
      by (eapply NoDup_cons_In; [exact Hnd | left; reflexivity]).
    assert (Hle : undo_nxt_of (xct_tab s) y <= undo_nxt_of (xct_tab s) xd)
      by (eapply heap_sorted_head; [exact Hsort | left; reflexivity]).
    assert (Hlt : undo_nxt_of (xct_tab s) y < undo_nxt_of (xct_tab s) xd).
    { destruct (N.eq_dec (undo_nxt_of (xct_tab s) y)
                         (undo_nxt_of (xct_tab s) xd)) as [E|E]; [|lia].
      exfalso. apply Hne. symmetry.
      eapply owns_distinct; eauto. }
    destruct (rollback_spec e (S fuel) xd (undo_nxt_of (xct_tab s) y) s)
      as (s1 & Hrun & Hstep & Hown1 & Hstop & _ & Hdec); auto.
    { pose proof (heap_weight_In (xct_tab s) (xd :: y :: rest) xd
                    (or_introl eq_refl)). lia. }
    specialize (Hdec Hu Hlt).
    exists s1. rewrite (bind_Ok _ _ _ _ _ Hrun). mrun.
    split; [reflexivity|]. split; [intros _; exact Hrun|].
    split; [exact Hstep|]. split; [exact Hown1|]. split; [exact Hdec|].
    split; [|exact (rollback_undo _ _ _ _ _ _ _ Hlog Hrun)].
    destruct Hstop as [Hn|Hs]; [right; exact Hn|].
    destruct (N.eq_dec (undo_nxt_of (xct_tab s1) xd) lsn_null) as [E0|E0];
      [right; exact E0|]. left.
    destruct (N.eq_dec (undo_nxt_of (xct_tab s1) xd)
                       (undo_nxt_of (xct_tab s) y)) as [E|E]; [|lia].
    exfalso. apply Hne. symmetry.
    assert (Hy1 : undo_nxt_of (xct_tab s1) y = undo_nxt_of (xct_tab s) y)
      by (eapply tab_step_undo_nxt; eassumption).
    eapply (owns_distinct (the_log e) (xct_tab s1)); eauto.
    + rewrite (owns_ext _ (xct_tab s)); assumption.
    + congruence.
Qed.

Lemma undo_loop_done e fuel xd h s :
  undo_nxt_of (xct_tab s) xd = lsn_null ->
  undo_loop e fuel (xd :: h) s = Ok (xd :: h, s).
Proof.
  intros Hu. destruct fuel; simpl; mrun; rewrite Hu; reflexivity.
Qed.

Lemma heap_weight_null t h :
  (heap_weight t h <= 0)%nat -> forall x, In x h -> undo_nxt_of t x = lsn_null.
Proof.
  intros Hw x Hx. pose proof (heap_weight_In t h x Hx). unfold lsn_null. lia.
Qed.

(** With enough fuel the first loop ends, with every transaction of the
    heap rolled back completely. *)
Lemma undo_loop_total e :
  (forall ev, rc_ok e ev = true) ->
  log_wf (the_log e) = true ->
  forall fuel h s,
    (2 <= length h)%nat ->
    undo_wf (the_log e) (xct_tab s) h = true ->
    (heap_weight (xct_tab s) h <= fuel)%nat ->
    exists h' s',
      undo_loop e fuel h s = Ok (h', s')
      /\ h' ≡ₚ h
      /\ undo_wf (the_log e) (xct_tab s') h' = true
      /\ (forall x, In x h' -> undo_nxt_of (xct_tab s') x = lsn_null)
      /\ List.map x_tid (xct_tab s') = List.map x_tid (xct_tab s)
      /\ (forall tid, ~ In tid h ->
                      look_up tid (xct_tab s') = look_up tid (xct_tab s)).
Proof.
  intros Hrc Hlog. induction fuel as [|fuel IH]; intros h s Hlen Hwf Hfuel.
  - destruct h as [|xd h]; [simpl in Hlen; lia|].
    pose proof (heap_weight_null _ _ Hfuel) as Hnull.
    exists (xd :: h), s.
    rewrite undo_loop_done by (apply Hnull; left; reflexivity).
    repeat split; auto.
  - destruct h as [|xd [|y rest]]; try (simpl in Hlen; lia).
    destruct (N.eq_dec (undo_nxt_of (xct_tab s) xd) lsn_null) as [Hu|Hu].
    + exists (xd :: y :: rest), s. rewrite undo_loop_done by exact Hu.
      repeat split; auto.
      intros x [<-|Hx]; [exact Hu|].
      apply undo_wf_spec in Hwf. destruct Hwf as (_ & _ & Hsort & _).
      pose proof (heap_sorted_head _ _ _ Hsort x Hx) as Hle.
      rewrite Hu in Hle. unfold lsn_null in *. lia.
    + destruct (undo_loop_iter e fuel xd y rest s Hrc Hlog Hwf Hu Hfuel)
        as (s1 & Hrun & _ & Hstep & Hown1 & Hdec & _).
      destruct (replaced_first_wf _ _ _ _ _ Hwf Hstep Hown1 Hdec)
        as [Hwf1 Hw1].
      pose proof (heap_insert_perm (xct_tab s1) xd (y :: rest)) as Hperm.
      change (heap_insert (xct_tab s1) xd (y :: rest))
        with (ReplacedFirst (xct_tab s1) (xd :: y :: rest)) in Hperm.
      destruct (IH (ReplacedFirst (xct_tab s1) (xd :: y :: rest)) s1)
        as (h' & s' & Hrun' & Hp' & Hwf' & Hnull' & Hmap' & Hframe').
      { rewrite (Permutation_length Hperm). exact Hlen. }
      { exact Hwf1. }
      { lia. }
      exists h', s'. rewrite Hrun. split; [exact Hrun'|].
      split; [rewrite Hp'; exact Hperm|].
      split; [exact Hwf'|]. split; [exact Hnull'|].
      destruct Hstep as [Hmap1 Hlook1].
      split; [congruence|].
      intros tid Hnin. rewrite Hframe'.
      * apply Hlook1. intros ->. apply Hnin. left. reflexivity.
      * intros Hin. apply Hnin.
        apply (Permutation_in _ Hperm) in Hin. exact Hin.
Qed.

(** *** Abort and removal *)

Lemma look_up_remove_ne tid tid' t :
  tid' <> tid -> look_up tid' (xct_remove tid t) = look_up tid' t.
Proof.
  intros Hne. unfold look_up. induction t as [|x t IH]; simpl; [reflexivity|].
  destruct (N.eqb_spec (x_tid x) tid) as [E|E]; simpl.
  - destruct (N.eqb_spec (x_tid x) tid'); [congruence|reflexivity].
  - destruct (N.eqb (x_tid x) tid'); [reflexivity|exact IH].
Qed.

Lemma look_up_None tid t : ~ In tid (List.map x_tid t) -> look_up tid t = None.
Proof.
  unfold look_up. induction t as [|x t IH]; simpl; [reflexivity|].
  intros Hnin. destruct (N.eqb_spec (x_tid x) tid) as [E|E]; [tauto|].
  apply IH. tauto.
Qed.

Lemma look_up_remove_eq tid t :
  NoDup (List.map x_tid t) -> look_up tid (xct_remove tid t) = None.
Proof.
  induction t as [|x t IH]; simpl; [reflexivity|].
  intros Hnd. apply NoDup_cons in Hnd. destruct Hnd as [Hx Hnd].
  destruct (N.eqb_spec (x_tid x) tid) as [E|E].
  - apply look_up_None. rewrite <- E, <- list_elem_of_In. exact Hx.
  - unfold look_up. simpl. destruct (N.eqb_spec (x_tid x) tid); [tauto|].
    apply IH, Hnd.
Qed.

Lemma xct_remove_incl tid t x :
  In x (List.map x_tid (xct_remove tid t)) -> In x (List.map x_tid t).
Proof.
  induction t as [|y t IH]; simpl; [tauto|].
  destruct (N.eqb (x_tid y) tid); simpl; tauto.
Qed.

Lemma NoDup_remove tid t :
  NoDup (List.map x_tid t) -> NoDup (List.map x_tid (xct_remove tid t)).
Proof.
  induction t as [|x t IH]; simpl; [auto|].
  intros Hnd. apply NoDup_cons in Hnd. destruct Hnd as [Hx Hnd].
  destruct (N.eqb (x_tid x) tid); [exact Hnd|]. simpl.
  apply NoDup_cons. split; [|apply IH, Hnd].
  rewrite list_elem_of_In. intros Hin. apply Hx, list_elem_of_In.
  eapply xct_remove_incl, Hin.
Qed.

Lemma undo_nxt_of_alter_state st tid t :
  undo_nxt_of (xct_alter (with_state st) tid t) tid = undo_nxt_of t tid.
Proof.
  unfold undo_nxt_of. rewrite look_up_alter by reflexivity.
  destruct (look_up tid t); reflexivity.
Qed.

Lemma abort_spec e fuel tid s :
  (forall ev, rc_ok e ev = true) ->
  log_wf (the_log e) = true ->
  owns (the_log e) (xct_tab s) tid = true ->
  (N.to_nat (undo_nxt_of (xct_tab s) tid) <= fuel)%nat ->
  exists s',
    abort e fuel tid s = Ok (tt, s')
    /\ tab_step tid (xct_tab s) (xct_tab s')
    /\ undo_nxt_of (xct_tab s') tid = lsn_null.
Proof.
  intros Hrc Hlog Hown Hfuel. unfold abort, coerce, emit. mrun.
  rewrite Hrc. mrun.
  match goal with
  | |- exists s', bind (rollback_loop e fuel tid lsn_null) _ ?st = _ /\ _ =>
      destruct (rollback_loop_spec e fuel tid lsn_null Hlog st)
        as (s1 & Hrun & Hstep & _ & Hstop & _); [assumption..|]
  end.
  rewrite (bind_Ok _ _ _ _ _ Hrun).
  unfold call, emit, change_state, xct_modify. mrun.
  eexists. split; [reflexivity|]. sm_proj. split.
  - eapply tab_step_trans; [exact Hstep|]. apply tab_step_alter. reflexivity.
  - rewrite undo_nxt_of_alter_state. unfold lsn_null in *. lia.
Qed.

(** The second loop aborts and destroys every transaction of the heap. *)
Lemma undo_drain_total e fuel :
  (forall ev, rc_ok e ev = true) ->
  log_wf (the_log e) = true ->
  forall h s,
    NoDup h ->
    NoDup (List.map x_tid (xct_tab s)) ->
    (forall x, In x h ->
               owns (the_log e) (xct_tab s) x = true
               /\ (N.to_nat (undo_nxt_of (xct_tab s) x) <= fuel)%nat) ->
    exists s',
      undo_drain e fuel h s = Ok (tt, s')
      /\ (forall x, In x h -> look_up x (xct_tab s') = None)
      /\ (forall x, ~ In x h -> look_up x (xct_tab s') = look_up x (xct_tab s)).
Proof.
  intros Hrc Hlog. induction h as [|xd h IH]; intros s Hnd Hndt Hall.
  - exists s. simpl. split; [reflexivity|]. split; [intros x []|auto].
  - destruct (Hall xd (or_introl eq_refl)) as [Hown Hfuel].
    destruct (abort_spec e fuel xd s Hrc Hlog Hown Hfuel)
      as (s1 & Hrun & [Hmap Hlook] & _).
    simpl. rewrite (bind_Ok _ _ _ _ _ Hrun).
    unfold destroy_xct, emit. mrun.
    match goal with
    | |- exists s', undo_drain e fuel h ?st = _ /\ _ => set (s2 := st)
    end.
    assert (Ht2 : xct_tab s2 = xct_remove xd (xct_tab s1)) by reflexivity.
    assert (Hother : forall x, x <> xd ->
                       look_up x (xct_tab s2) = look_up x (xct_tab s)).
    { intros x Hne. rewrite Ht2, look_up_remove_ne by exact Hne.
      apply Hlook, Hne. }
    apply NoDup_cons in Hnd. destruct Hnd as [Hxd Hnd].
    rewrite list_elem_of_In in Hxd.
    destruct (IH s2) as (s' & Hrun' & Hgone & Hframe).
    { exact Hnd. }
    { rewrite Ht2. apply NoDup_remove. rewrite Hmap. exact Hndt. }
    { intros x Hx.
      assert (Hne : x <> xd) by (intros ->; contradiction).
      assert (Hu : undo_nxt_of (xct_tab s2) x = undo_nxt_of (xct_tab s) x)
        by (unfold undo_nxt_of; rewrite Hother by exact Hne; reflexivity).
      rewrite (owns_ext _ _ _ _ Hu), Hu. apply Hall. right. exact Hx. }
    exists s'. split; [exact Hrun'|]. split.
    + intros x [<-|Hx]; [|apply Hgone, Hx].
      rewrite Hframe by exact Hxd. rewrite Ht2.
      apply look_up_remove_eq. rewrite Hmap. exact Hndt.
    + intros x Hnin. rewrite Hframe by tauto.
      apply Hother. intros ->. apply Hnin. left. reflexivity.
Qed.

(** *** What the second loop writes to the trace *)

Lemma rollback_loop_trace e fuel tid save :
  forall s a s',
    rollback_loop e fuel tid save s = Ok (a, s') ->
    exists evs, trace s' = trace s ++ evs.
Proof.
  induction fuel as [|fuel IH]; intros s a s' H; simpl in H.
  - apply bind_inv_Ok in H. destruct H as (u & s0 & Hg & H).
    apply gets_inv_Ok in Hg. destruct Hg as [-> ->].
    destruct (_ || _); [|discriminate H].
    apply ret_inv_Ok in H. destruct H as [_ ->].
    exists []. rewrite app_nil_r. reflexivity.
  - apply bind_inv_Ok in H. destruct H as (u & s0 & Hg & H).
    apply gets_inv_Ok in Hg. destruct Hg as [-> ->].
    destruct (_ || _).
    { apply ret_inv_Ok in H. destruct H as [_ ->].
      exists []. rewrite app_nil_r. reflexivity. }
    destruct (log_fetch _ _); [|discriminate H].
    unfold call, emit, set_undo_nxt, xct_modify in H. mrun_in H.
    apply IH in H. destruct H as (evs & ->). sm_proj.
    rewrite <- app_assoc. eauto.
Qed.

Lemma abort_trace e fuel tid s a s' :
  abort e fuel tid s = Ok (a, s') ->
  exists evs, trace s' = trace s ++ EvAbort tid :: evs.
Proof.
  unfold abort, coerce, call, emit, change_state, xct_modify. intros H.
  mrun_in H.
  destruct (rc_ok e (EvAbort tid)); [|discriminate H].
  cbv iota in H. mrun_in H.
  apply bind_inv_Ok in H. destruct H as (u & s1 & Hr & H).
  apply rollback_loop_trace in Hr. destruct Hr as (evs & Hr).
  mrun_in H. injection H as _ <-. sm_proj. sm_proj_in Hr.
  rewrite Hr. rewrite <- !app_assoc. simpl. eauto.
Qed.

Lemma undo_drain_trace e fuel h :
  forall s a s',
    undo_drain e fuel h s = Ok (a, s') ->
    exists evs,
      trace s' = trace s ++ evs
      /\ forall x, In x h -> In (EvAbort x) evs /\ In (EvDestroy x) evs.
Proof.
  induction h as [|xd h IH]; intros s a s' H; simpl in H.
  - apply ret_inv_Ok in H. destruct H as [_ ->].
    exists []. rewrite app_nil_r. split; [reflexivity|]. intros x [].
  - apply bind_inv_Ok in H. destruct H as (u & s1 & Ha & H).
    apply abort_trace in Ha. destruct Ha as (evs1 & Ha).
    unfold destroy_xct, emit in H. mrun_in H.
    apply IH in H. destruct H as (evs2 & H & Hin). sm_proj_in H.
    exists (EvAbort xd :: evs1 ++ EvDestroy xd :: evs2). split.
    + rewrite H, Ha. rewrite <- !app_assoc. reflexivity.
    + intros x [<-|Hx].
      * split; [left; reflexivity|]. right. apply in_or_app. right.
        left. reflexivity.
      * destruct (Hin x Hx) as [H1 H2].
        split; right; apply in_or_app; right; right; assumption.
Qed.

Lemma undo_reverse_pass_total e fuel heap c u s :
  (forall ev, rc_ok e ev = true) ->
  log_wf (the_log e) = true ->
  undo_wf (the_log e) (xct_tab s) (undo_heap e heap (xct_tab s)) = true ->
  (heap_weight (xct_tab s) (undo_heap e heap (xct_tab s)) <= fuel)%nat ->
  exists s',
    undo_reverse_pass e fuel heap c u s = Ok (tt, s')
    /\ (forall x, In x (undo_heap e heap (xct_tab s)) ->
                  look_up x (xct_tab s') = None)
    /\ (forall x, ~ In x (undo_heap e heap (xct_tab s)) ->
                  look_up x (xct_tab s') = look_up x (xct_tab s))
    /\ (forall x, In x (undo_heap e heap (xct_tab s)) ->
                  In (EvAbort x) (trace s') /\ In (EvDestroy x) (trace s'))
    /\ (undo_heap e heap (xct_tab s) <> [] ->
        last (trace s') = Some EvFlushAll).
Proof.
  intros Hrc Hlog Hwf Hfuel.
  assert (Hrun : undo_reverse_pass e fuel heap c u s
                 = (let h := undo_heap e heap (xct_tab s) in
                    if Nat.eqb (length h) 0 then ret tt
                    else
                      call e EvLogComment ;;;
                      h' <- (if Nat.ltb 1 (length h)
                             then undo_loop e fuel h else ret h) ;;
                      undo_drain e fuel h' ;;;
                      coerce e EvFlushAll)
                     (add_event (EvFunc f_undo_pass) s)).
  { unfold undo_reverse_pass, undo_heap, emit. mrun.
    destruct (negb (use_serial_recovery e) && use_undo_reverse_recovery e);
      mrun; reflexivity. }
  rewrite Hrun. clear Hrun. cbv zeta.
  set (h := undo_heap e heap (xct_tab s)) in *.
  destruct h as [|xd h0] eqn:Hh.
  { exists (add_event (EvFunc f_undo_pass) s). simpl.
    repeat split; auto; try tauto. }
  rewrite <- Hh in *. 
  assert (Hlen0 : Nat.eqb (length h) 0 = false) by (rewrite Hh; reflexivity).
  rewrite Hlen0. unfold call, emit. mrun.
  match goal with
  | |- exists s', bind _ _ ?st = _ /\ _ => set (s0 := st)
  end.
  assert (Ht0 : xct_tab s0 = xct_tab s) by reflexivity.
  assert (Hloop : exists h' s1,
             (if Nat.ltb 1 (length h) then undo_loop e fuel h else ret h) s0
             = Ok (h', s1)
             /\ h' ≡ₚ h
             /\ undo_wf (the_log e) (xct_tab s1) h' = true
             /\ (forall x, In x h' ->
                   (N.to_nat (undo_nxt_of (xct_tab s1) x) <= fuel)%nat)
             /\ List.map x_tid (xct_tab s1) = List.map x_tid (xct_tab s)
             /\ (forall tid, ~ In tid h ->
                   look_up tid (xct_tab s1) = look_up tid (xct_tab s))).
  { destruct (Nat.ltb_spec 1 (length h)) as [Hlen|Hlen].
    - destruct (undo_loop_total e Hrc Hlog fuel h s0)
        as (h' & s1 & Hr & Hp & Hw & Hnull & Hmap & Hframe);
        [lia | rewrite Ht0; exact Hwf | rewrite Ht0; exact Hfuel |].
      exists h', s1. split; [exact Hr|]. split; [exact Hp|].
      split; [exact Hw|]. rewrite Ht0 in *.
      split; [|split; assumption].
      intros x Hx. rewrite (Hnull x Hx). unfold lsn_null. simpl. lia.
    - exists h, s0. rewrite Ht0. split; [reflexivity|].
      split; [reflexivity|]. split; [exact Hwf|].
      split; [|split; auto].
      intros x Hx. pose proof (heap_weight_In (xct_tab s) h x Hx). lia. }
  destruct Hloop as (h' & s1 & Hr & Hp & Hw & Hbound & Hmap & Hframe).
  rewrite (bind_Ok _ _ _ _ _ Hr).
  apply undo_wf_spec in Hw. destruct Hw as (Hnd' & Hndt' & _ & Hown').
  destruct (undo_drain_total e fuel Hrc Hlog h' s1 Hnd' Hndt')
    as (s2 & Hr2 & Hgone & Hframe2).
  { intros x Hx. split; [apply Hown', Hx | apply Hbound, Hx]. }
  rewrite (bind_Ok _ _ _ _ _ Hr2). unfold coerce, emit. mrun.
  rewrite Hrc. mrun.
  apply undo_drain_trace in Hr2 as (evs & Htr & Hevs).
  eexists. split; [reflexivity|]. sm_proj.
  split; [|split; [|split]].
  - intros x Hx. apply Hgone.
    apply (Permutation_in _ (Permutation_sym Hp)), Hx.
  - intros x Hnin. rewrite Hframe2.
    + apply Hframe, Hnin.
    + intros Hin. apply Hnin. apply (Permutation_in _ Hp), Hin.
  - intros x Hx.
    apply (Permutation_in _ (Permutation_sym Hp)) in Hx.
    destruct (Hevs x Hx) as [H1 H2]. rewrite Htr.
    split; apply in_or_app; left; apply in_or_app; right; assumption.
  - intros _. apply last_snoc.
Qed.

(** *** The order in which the pass undoes *)

Lemma abort_undo e fuel tid s a s' :
  log_wf (the_log e) = true ->
  abort e fuel tid s = Ok (a, s') ->
  exists evs,
    trace s' = trace s ++ evs
    /\ descends lsn_null (N.succ (undo_nxt_of (xct_tab s) tid))
                (undo_lsns evs) = true
    /\ (forall x, x <> tid -> look_up x (xct_tab s') = look_up x (xct_tab s)).
Proof.
  intros Hlog H. unfold abort, coerce, call, emit, change_state, xct_modify in H.
  mrun_in H.
  destruct (rc_ok e (EvAbort tid)); [|discriminate H].
  cbv iota in H. mrun_in H.
  apply bind_inv_Ok in H. destruct H as (u & s1 & Hr & H).
  apply (rollback_loop_undo e fuel tid lsn_null Hlog) in Hr.
  destruct Hr as (evs & Htr & _ & Hdesc & _ & Hstep).
  sm_proj_in Htr. sm_proj_in Hdesc. sm_proj_in Hstep.
  mrun_in H. injection H as _ <-. sm_proj.
  exists (EvAbort tid :: evs ++ [EvUnlock tid]).
  split; [rewrite Htr, <- !app_assoc; reflexivity|]. split.
  - cbn [undo_lsns]. rewrite undo_lsns_app. cbn [undo_lsns].
    rewrite app_nil_r.
    eapply descends_weaken; [| |exact Hdesc]; unfold lsn_null; lia.
  - intros x Hne.
    destruct (tab_step_alter (with_state xct_ended) tid (xct_tab s1)
                (fun _ => eq_refl)) as [_ Hl].
    rewrite (Hl x Hne). destruct Hstep as [_ Hl']. apply Hl', Hne.
Qed.

(** The second loop on a heap whose transactions, but for the first, have
    nothing left to undo. *)
Lemma undo_drain_undo e fuel :
  log_wf (the_log e) = true ->
  forall h s a s',
    NoDup h ->
    (forall x, In x (List.tl h) -> undo_nxt_of (xct_tab s) x = lsn_null) ->
    undo_drain e fuel h s = Ok (a, s') ->
    exists evs,
      trace s' = trace s ++ evs
      /\ descends lsn_null
                  (N.succ (undo_nxt_of (xct_tab s) (List.hd tid_null h)))
                  (undo_lsns evs) = true.
Proof.
  intros Hlog. induction h as [|xd h IH]; intros s a s' Hnd Hnull H.
  - simpl in H. apply ret_inv_Ok in H. destruct H as [_ ->].
    exists []. rewrite app_nil_r. split; reflexivity.
  - simpl in H. apply bind_inv_Ok in H. destruct H as (u & s1 & Ha & H).
    apply (abort_undo e fuel xd s u s1 Hlog) in Ha.
    destruct Ha as (evs1 & Htr1 & Hd1 & Hl1).
    unfold destroy_xct, emit in H. mrun_in H.
    apply NoDup_cons in Hnd. destruct Hnd as [Hxd Hnd].
    rewrite list_elem_of_In in Hxd.
    assert (Hsame : forall x, In x h ->
              undo_nxt_of (xct_remove xd (xct_tab s1)) x = lsn_null).
    { intros x Hx. assert (Hne : x <> xd) by (intros ->; contradiction).
      unfold undo_nxt_of. rewrite look_up_remove_ne, Hl1 by exact Hne.
      apply (Hnull x Hx). }
    destruct h as [|y h].
    + simpl in H. apply ret_inv_Ok in H. destruct H as [_ ->]. sm_proj.
      exists (evs1 ++ [EvDestroy xd]).
      split; [rewrite Htr1, <- !app_assoc; reflexivity|].
      rewrite undo_lsns_app. cbn [undo_lsns hd]. rewrite app_nil_r.
      exact Hd1.
    + apply IH in H; [|exact Hnd|].
      2:{ sm_proj. intros x Hx. apply Hsame. right. exact Hx. }
      destruct H as (evs2 & Htr2 & Hd2). sm_proj_in Htr2. sm_proj_in Hd2.
      exists (evs1 ++ EvDestroy xd :: evs2).
      split; [rewrite Htr2, Htr1, <- !app_assoc; reflexivity|].
      rewrite undo_lsns_app. cbn [undo_lsns hd].
      cbn [hd] in Hd2. rewrite (Hsame y (or_introl eq_refl)) in Hd2.
      eapply (descends_app lsn_null); [exact Hd2| | | |exact Hd1];
        unfold lsn_null; lia.
Qed.

(** The first loop undoes in descending order of LSN, from the [undo_nxt]
    of the first transaction of the heap down. *)
Lemma undo_loop_order e :
  (forall ev, rc_ok e ev = true) ->
  log_wf (the_log e) = true ->
  forall fuel h s h' s',
    (2 <= length h)%nat ->
    undo_wf (the_log e) (xct_tab s) h = true ->
    (heap_weight (xct_tab s) h <= fuel)%nat ->
    undo_loop e fuel h s = Ok (h', s') ->
    exists evs,
      trace s' = trace s ++ evs
      /\ forallb rollback_event evs = true
      /\ descends lsn_null
                  (N.succ (undo_nxt_of (xct_tab s) (List.hd tid_null h)))
                  (undo_lsns evs) = true.
Proof.
  intros Hrc Hlog. induction fuel as [|fuel IH]; intros h s h' s' Hlen Hwf Hfuel H.
  - destruct h as [|xd h]; [simpl in Hlen; lia|].
    pose proof (heap_weight_null _ _ Hfuel) as Hnull.
    rewrite undo_loop_done in H by (apply Hnull; left; reflexivity).
    injection H as _ <-. exists []. rewrite app_nil_r.
    repeat split; reflexivity.
  - destruct h as [|xd [|y rest]]; try (simpl in Hlen; lia).
    destruct (N.eq_dec (undo_nxt_of (xct_tab s) xd) lsn_null) as [Hu|Hu].
    + rewrite undo_loop_done in H by exact Hu.
      injection H as _ <-. exists []. rewrite app_nil_r.
      repeat split; reflexivity.
    + destruct (undo_loop_iter e fuel xd y rest s Hrc Hlog Hwf Hu Hfuel)
        as (s1 & Hrun & _ & Hstep & Hown1 & Hdec & Hfloor
            & evs1 & Htr1 & Hev1 & Hd1).
      destruct (replaced_first_wf _ _ _ _ _ Hwf Hstep Hown1 Hdec)
        as [Hwf1 Hw1].
      pose proof (heap_insert_perm (xct_tab s1) xd (y :: rest)) as Hperm.
      change (heap_insert (xct_tab s1) xd (y :: rest))
        with (ReplacedFirst (xct_tab s1) (xd :: y :: rest)) in Hperm.
      rewrite Hrun in H.
      apply IH in H; [|rewrite (Permutation_length Hperm); exact Hlen
                      |exact Hwf1|lia].
      destruct H as (evs2 & Htr2 & Hev2 & Hd2).
      exists (evs1 ++ evs2).
      split; [rewrite Htr2, Htr1, <- app_assoc; reflexivity|].
      split; [rewrite forallb_app, Hev1, Hev2; reflexivity|].
      rewrite undo_lsns_app. cbn [hd].
      apply undo_wf_spec in Hwf. destruct Hwf as (Hnd & _ & Hsort & _).
      assert (Hle : undo_nxt_of (xct_tab s) y <= undo_nxt_of (xct_tab s) xd)
        by (eapply heap_sorted_head; [exact Hsort | left; reflexivity]).
      assert (Hy : undo_nxt_of (xct_tab s1) y = undo_nxt_of (xct_tab s) y).
      { eapply tab_step_undo_nxt; [exact Hstep|].
        eapply NoDup_cons_In; [exact Hnd|left; reflexivity]. }
      assert (Hhd : undo_nxt_of (xct_tab s1)
                      (List.hd tid_null
                         (ReplacedFirst (xct_tab s1) (xd :: y :: rest)))
                    <= N.max (undo_nxt_of (xct_tab s) y)
                             (undo_nxt_of (xct_tab s1) xd)).
      { cbn [ReplacedFirst heap_insert].
        destruct (N.ltb (undo_nxt_of (xct_tab s1) y)
                        (undo_nxt_of (xct_tab s1) xd)); cbn [hd]; lia. }
      eapply descends_app; [exact Hd2| | | |exact Hd1]; unfold lsn_null; lia.
Qed.

(** The pass as a whole: the records are undone in descending order of
    LSN; on a heap of two transactions or more all of them in the first
    loop, before the first transaction is aborted. *)
Lemma undo_reverse_pass_order e fuel heap c u s s' :
  (forall ev, rc_ok e ev = true) ->
  log_wf (the_log e) = true ->
  undo_wf (the_log e) (xct_tab s) (undo_heap e heap (xct_tab s)) = true ->
  (heap_weight (xct_tab s) (undo_heap e heap (xct_tab s)) <= fuel)%nat ->
  undo_reverse_pass e fuel heap c u s = Ok (tt, s') ->
  (exists evs,
      trace s' = trace s ++ evs
      /\ descends lsn_null
           (N.succ (undo_nxt_of (xct_tab s)
                      (List.hd tid_null (undo_heap e heap (xct_tab s)))))
           (undo_lsns evs) = true)
  /\ ((2 <= length (undo_heap e heap (xct_tab s)))%nat ->
      exists h' s1 evs1 evs2,
        (emit (EvFunc f_undo_pass) ;;; call e EvLogComment ;;;
         undo_loop e fuel (undo_heap e heap (xct_tab s))) s = Ok (h', s1)
        /\ (undo_drain e fuel h' ;;; coerce e EvFlushAll) s1 = Ok (tt, s')
        /\ h' ≡ₚ undo_heap e heap (xct_tab s)
        /\ (forall x, In x h' -> undo_nxt_of (xct_tab s1) x = lsn_null)
        /\ trace s1 = trace s ++ EvFunc f_undo_pass :: EvLogComment :: evs1
        /\ forallb rollback_event evs1 = true
        /\ trace s' = trace s1 ++ evs2
        /\ undo_lsns evs2 = []).
Proof.
  intros Hrc Hlog Hwf Hfuel H.
  assert (Hrun : undo_reverse_pass e fuel heap c u s
                 = (let h := undo_heap e heap (xct_tab s) in
                    if Nat.eqb (length h) 0 then ret tt
                    else
                      call e EvLogComment ;;;
                      h' <- (if Nat.ltb 1 (length h)
                             then undo_loop e fuel h else ret h) ;;
                      undo_drain e fuel h' ;;;
                      coerce e EvFlushAll)
                     (add_event (EvFunc f_undo_pass) s)).
  { unfold undo_reverse_pass, undo_heap, emit. mrun.
    destruct (negb (use_serial_recovery e) && use_undo_reverse_recovery e);
      mrun; reflexivity. }
  rewrite Hrun in H. clear Hrun. cbv zeta in H.
  set (h := undo_heap e heap (xct_tab s)) in *.
  destruct h as [|xd [|y rest]] eqn:Hh.
  - simpl in H. apply ret_inv_Ok in H. destruct H as [_ ->]. split.
    + exists [EvFunc f_undo_pass]. split; reflexivity.
    + simpl. lia.
  - cbn [length Nat.eqb Nat.ltb Nat.leb] in H.
    unfold call, emit in H. mrun_in H.
    apply bind_inv_Ok in H. destruct H as (u1 & s2 & Hd & H).
    apply (undo_drain_undo e fuel Hlog) in Hd;
      [|apply NoDup_singleton|intros x []].
    destruct Hd as (evs & Htr & Hdesc). sm_proj_in Htr. sm_proj_in Hdesc.
    unfold coerce, emit in H. mrun_in H. rewrite Hrc in H. mrun_in H.
    injection H as <-. sm_proj. split.
    + exists (EvFunc f_undo_pass :: EvLogComment :: evs ++ [EvFlushAll]).
      split; [rewrite Htr, <- !app_assoc; reflexivity|].
      cbn [undo_lsns]. rewrite undo_lsns_app. cbn [undo_lsns].
      rewrite app_nil_r. exact Hdesc.
    + simpl. lia.
  - rewrite <- Hh in *.
    assert (Hlen : (2 <= length h)%nat) by (rewrite Hh; simpl; lia).
    assert (E0 : Nat.eqb (length h) 0 = false)
      by (apply Nat.eqb_neq; lia).
    assert (E1 : Nat.ltb 1 (length h) = true)
      by (apply Nat.ltb_lt; lia).
    rewrite E0, E1 in H. unfold call, emit in H. mrun_in H.
    match type of H with
    | bind _ _ ?st = _ => set (s0 := st) in *
    end.
    assert (Ht0 : xct_tab s0 = xct_tab s) by reflexivity.
    destruct (undo_loop_total e Hrc Hlog fuel h s0)
      as (h' & s1 & Hr & Hp & Hw & Hnull & _);
      [exact Hlen | rewrite Ht0; exact Hwf | rewrite Ht0; exact Hfuel |].
    rewrite (bind_Ok _ _ _ _ _ Hr) in H.
    destruct (undo_loop_order e Hrc Hlog fuel h s0 h' s1)
      as (evs1 & Htr1 & Hev1 & Hd1);
      [exact Hlen | rewrite Ht0; exact Hwf | rewrite Ht0; exact Hfuel
       | exact Hr |].
    rewrite Ht0 in Hd1.
    assert (Hdrain := H).
    apply bind_inv_Ok in H. destruct H as (u1 & s2 & Hd & H).
    apply undo_wf_spec in Hw. destruct Hw as (Hnd' & _).
    apply (undo_drain_undo e fuel Hlog) in Hd;
      [|exact Hnd'
       |intros x Hx; apply Hnull; destruct h'; [destruct Hx|right; exact Hx]].
    destruct Hd as (evs2 & Htr2 & Hd2).
    assert (Hne : h' <> []).
    { intros ->. apply Permutation_length in Hp. simpl in Hp. lia. }
    assert (He2 : undo_lsns evs2 = []).
    { destruct h' as [|x h']; [contradiction|]. cbn [hd] in Hd2.
      rewrite (Hnull x (or_introl eq_refl)) in Hd2.
      apply (descends_empty lsn_null), Hd2. }
    unfold coerce, emit in H. mrun_in H. rewrite Hrc in H. mrun_in H.
    injection H as <-. sm_proj. split.
    + exists (EvFunc f_undo_pass :: EvLogComment
              :: evs1 ++ evs2 ++ [EvFlushAll]).
      split.
      * rewrite Htr2, Htr1. subst s0. sm_proj.
        rewrite <- !app_assoc. reflexivity.
      * cbn [undo_lsns]. rewrite !undo_lsns_app, He2. cbn [undo_lsns].
        rewrite app_nil_r. exact Hd1.
    + intros _. exists h', s1, evs1, (evs2 ++ [EvFlushAll]).
      split.
      { unfold call, emit. mrun. exact Hr. }
      split.
      { rewrite Hdrain. reflexivity. }
      split; [exact Hp|]. split; [exact Hnull|].
      split.
      { rewrite Htr1. subst s0. sm_proj. rewrite <- !app_assoc. reflexivity. }
      split; [exact Hev1|]. split.
      { sm_proj. rewrite Htr2, <- app_assoc. reflexivity. }
      rewrite undo_lsns_app, He2. reflexivity.
Qed.

(** C6.  Reverse UNDO on a well-formed log, when the outside calls succeed.
    The heap is well formed ([undo_wf]): its transactions are distinct, in
    descending order of [undo_nxt], and the [undo_nxt] of each is null or
    the LSN of one of its own records; in the log every record points back
    to an earlier record of the same transaction ([log_wf]).

    One turn of the first loop, on a heap of at least two transactions
    whose first has a non-null [undo_nxt]: the first transaction is rolled
    back to the [undo_nxt] of the second (a single-log system transaction
    has its [undo_nxt] set to null instead), its [undo_nxt] is then
    strictly smaller than before, and below the [undo_nxt] of the second or
    null; the loop goes on with the heap reordered, which is well formed
    again and strictly lighter.

    The pass: with fuel for the records still to undo, [undo_reverse_pass]
    returns; every transaction of the heap was aborted and destroyed and is
    no longer in the table, the other transactions are as they were, and
    the flush of the log is the last event.  The records the pass undoes,
    in the order of the trace, have strictly descending LSNs, from the
    [undo_nxt] of the first transaction of the heap down.  On a heap of two
    transactions or more the pass is the first loop on that heap followed
    by the second loop: the first loop only rolls back, as the turns above
    say, and leaves every transaction of the heap with a null [undo_nxt];
    the second loop, which aborts and destroys, undoes no record. *)
Theorem undo_reverse_pass_reverse_chronological e :
  (forall ev, rc_ok e ev = true) ->
  log_wf (the_log e) = true ->
  (forall fuel xd y rest s,
      undo_wf (the_log e) (xct_tab s) (xd :: y :: rest) = true ->
      undo_nxt_of (xct_tab s) xd <> lsn_null ->
      (heap_weight (xct_tab s) (xd :: y :: rest) <= S fuel)%nat ->
      exists s1,
        undo_loop e (S fuel) (xd :: y :: rest) s
        = undo_loop e fuel (ReplacedFirst (xct_tab s1) (xd :: y :: rest)) s1
        /\ (from_option x_is_sys_xct false (look_up xd (xct_tab s))
            && from_option x_is_single_log_sys_xct false
                 (look_up xd (xct_tab s)) = false ->
            rollback e (S fuel) xd (undo_nxt_of (xct_tab s) y) s
            = Ok (tt, s1))
        /\ undo_nxt_of (xct_tab s1) xd < undo_nxt_of (xct_tab s) xd
        /\ (undo_nxt_of (xct_tab s1) xd < undo_nxt_of (xct_tab s) y
            \/ undo_nxt_of (xct_tab s1) xd = lsn_null)
        /\ undo_wf (the_log e) (xct_tab s1)
             (ReplacedFirst (xct_tab s1) (xd :: y :: rest)) = true
        /\ (heap_weight (xct_tab s1)
              (ReplacedFirst (xct_tab s1) (xd :: y :: rest))
            < heap_weight (xct_tab s) (xd :: y :: rest))%nat)
  /\ (forall fuel heap c u s,
        undo_wf (the_log e) (xct_tab s) (undo_heap e heap (xct_tab s)) = true ->
        (heap_weight (xct_tab s) (undo_heap e heap (xct_tab s)) <= fuel)%nat ->
        exists s',
          undo_reverse_pass e fuel heap c u s = Ok (tt, s')
          /\ (forall x, In x (undo_heap e heap (xct_tab s)) ->
                        look_up x (xct_tab s') = None)
          /\ (forall x, ~ In x (undo_heap e heap (xct_tab s)) ->
                        look_up x (xct_tab s') = look_up x (xct_tab s))
          /\ (forall x, In x (undo_heap e heap (xct_tab s)) ->
                        In (EvAbort x) (trace s')
                        /\ In (EvDestroy x) (trace s'))
          /\ (undo_heap e heap (xct_tab s) <> [] ->
              last (trace s') = Some EvFlushAll)
          /\ (exists evs,
                trace s' = trace s ++ evs
                /\ descends lsn_null
                     (N.succ (undo_nxt_of (xct_tab s)
                                (List.hd tid_null
                                   (undo_heap e heap (xct_tab s)))))
                     (undo_lsns evs) = true)
          /\ ((2 <= length (undo_heap e heap (xct_tab s)))%nat ->
              exists h' s1 evs1 evs2,
                (emit (EvFunc f_undo_pass) ;;; call e EvLogComment ;;;
                 undo_loop e fuel (undo_heap e heap (xct_tab s))) s
                = Ok (h', s1)
                /\ (undo_drain e fuel h' ;;; coerce e EvFlushAll) s1
                   = Ok (tt, s')
                /\ h' ≡ₚ undo_heap e heap (xct_tab s)
                /\ (forall x, In x h' ->
                              undo_nxt_of (xct_tab s1) x = lsn_null)
                /\ trace s1
                   = trace s ++ EvFunc f_undo_pass :: EvLogComment :: evs1
                /\ forallb rollback_event evs1 = true
                /\ trace s' = trace s1 ++ evs2
                /\ undo_lsns evs2 = [])).
Proof.
  intros Hrc Hlog. split.
  - intros fuel xd y rest s Hwf Hu Hfuel.
    destruct (undo_loop_iter e fuel xd y rest s Hrc Hlog Hwf Hu Hfuel)
      as (s1 & Hrun & Hroll & Hstep & Hown1 & Hdec & Hfloor & _).
    destruct (replaced_first_wf _ _ _ _ _ Hwf Hstep Hown1 Hdec) as [Hwf1 Hw1].
    exists s1. repeat split; assumption.
  - intros fuel heap c u s Hwf Hfuel.
    destruct (undo_reverse_pass_total e fuel heap c u s Hrc Hlog Hwf Hfuel)
      as (s' & Hrun & Hgone & Hframe & Hev & Hlast).
    destruct (undo_reverse_pass_order e fuel heap c u s s' Hrc Hlog Hwf
                Hfuel Hrun) as [Hord Hloop].
    exists s'. repeat split; try assumption; apply Hev; assumption.
Qed.

Lemma undo_reverse_pass_reverse_chronological_witness :
  let e := mk_env true log_interleaved in
  let s := sm_two_doomed in
  let h : list tid_t := [8; 7] in
  (exists s1,
      undo_loop e 2000 h s
      = undo_loop e 1999 (ReplacedFirst (xct_tab s1) h) s1
      /\ (from_option x_is_sys_xct false (look_up 8 (xct_tab s))
          && from_option x_is_single_log_sys_xct false
               (look_up 8 (xct_tab s)) = false ->
          rollback e 2000 8 (undo_nxt_of (xct_tab s) 7) s = Ok (tt, s1))
      /\ undo_nxt_of (xct_tab s1) 8 < undo_nxt_of (xct_tab s) 8
      /\ (undo_nxt_of (xct_tab s1) 8 < undo_nxt_of (xct_tab s) 7
          \/ undo_nxt_of (xct_tab s1) 8 = lsn_null)
      /\ undo_wf (the_log e) (xct_tab s1)
           (ReplacedFirst (xct_tab s1) h) = true
      /\ (heap_weight (xct_tab s1) (ReplacedFirst (xct_tab s1) h)
          < heap_weight (xct_tab s) h)%nat)
  /\ (exists s',
        undo_reverse_pass e 2000 h 700 500 s = Ok (tt, s')
        /\ (forall x, In x (undo_heap e h (xct_tab s)) ->
                      look_up x (xct_tab s') = None)
        /\ (forall x, ~ In x (undo_heap e h (xct_tab s)) ->
                      look_up x (xct_tab s') = look_up x (xct_tab s))
        /\ (forall x, In x (undo_heap e h (xct_tab s)) ->
                      In (EvAbort x) (trace s') /\ In (EvDestroy x) (trace s'))
        /\ (undo_heap e h (xct_tab s) <> [] ->
            last (trace s') = Some EvFlushAll)
        /\ (exists evs,
              trace s' = trace s ++ evs
              /\ descends lsn_null
                   (N.succ (undo_nxt_of (xct_tab s)
                              (List.hd tid_null
                                 (undo_heap e h (xct_tab s)))))
                   (undo_lsns evs) = true)
        /\ ((2 <= length (undo_heap e h (xct_tab s)))%nat ->
            exists h' s1 evs1 evs2,
              (emit (EvFunc f_undo_pass) ;;; call e EvLogComment ;;;
               undo_loop e 2000 (undo_heap e h (xct_tab s))) s
              = Ok (h', s1)
              /\ (undo_drain e 2000 h' ;;; coerce e EvFlushAll) s1
                 = Ok (tt, s')
              /\ h' ≡ₚ undo_heap e h (xct_tab s)
              /\ (forall x, In x h' ->
                            undo_nxt_of (xct_tab s1) x = lsn_null)
              /\ trace s1
                 = trace s ++ EvFunc f_undo_pass :: EvLogComment :: evs1
              /\ forallb rollback_event evs1 = true
              /\ trace s' = trace s1 ++ evs2
              /\ undo_lsns evs2 = [])).
Proof.
  intros e s h.
  destruct (undo_reverse_pass_reverse_chronological e) as [Hstep Htotal].
  - intros ev. reflexivity.
  - vm_compute. reflexivity.
  - split.
    + apply (Hstep 1999%nat 8 7 [] s).
      * vm_compute. reflexivity.
      * vm_compute. discriminate.
      * apply Nat.leb_le. vm_compute. reflexivity.
    + apply (Htotal 2000%nat h 700 500 s).
      * vm_compute. reflexivity.
      * apply Nat.leb_le. vm_compute. reflexivity.
Defined.

(** Log Analysis leaves both transactions of [log_interleaved] in the heap,
    and reverse UNDO undoes their records from the youngest to the oldest:
    630, 620, 610, 600. *)
Example undo_reverse_pass_interleaved :
  let e := mk_env true log_interleaved in
  heap <$> value_of (analysis_pass e 100 500 avars_init (sm_start false 700))
  = Some [8; 7]
  /\ (fun s => (drop 2 (trace s), xct_tab s))
     <$> state_of (undo_reverse_pass e 2000 [8; 7] 700 500 sm_two_doomed)
     = Some ([EvFunc f_undo_pass; EvLogComment;
              EvRollback 8 620; EvUndo 630; EvRollback 7 610; EvUndo 620;
              EvRollback 8 600; EvUndo 610; EvRollback 7 0; EvUndo 600;
              EvAbort 8; EvUnlock 8; EvDestroy 8;
              EvAbort 7; EvUnlock 7; EvDestroy 7; EvFlushAll], []).
Proof. vm_compute. split; reflexivity. Qed.

(** The order [descends] asks for: the records of [log_interleaved] from
    the youngest to the oldest, and not transaction by transaction. *)
Example descends_interleaved :
  descends lsn_null 631 [630; 620; 610; 600] = true
  /\ descends lsn_null 631 [630; 610; 620; 600] = false.
Proof. split; reflexivity. Qed.

(** *** The group end record *)

Lemma look_up_alter_other f tid tid' t :
  (forall x, x_tid (f x) = x_tid x) -> tid' <> tid ->
  look_up tid' (xct_alter f tid t) = look_up tid' t.
Proof.
  intros Hf Hne. unfold look_up. induction t as [|x t IH]; simpl; [reflexivity|].
  destruct (N.eqb_spec (x_tid x) tid) as [E|E]; simpl.
  - rewrite Hf. destruct (N.eqb_spec (x_tid x) tid'); [congruence|reflexivity].
  - destruct (N.eqb (x_tid x) tid'); [reflexivity|exact IH].
Qed.

Lemma analysis_end_xct_other e tid st tid' s u s' :
  analysis_end_xct e tid st s = Ok (u, s') -> tid' <> tid ->
  look_up tid' (xct_tab s') = look_up tid' (xct_tab s).
Proof.
  unfold analysis_end_xct, coerce, change_state, xct_modify, emit.
  intros H Hne.
  apply bind_inv_Ok in H. destruct H as (u1 & s1 & H1 & H).
  assert (Ht1 : xct_tab s1 = xct_tab s).
  { apply when_inv in H1. destruct H1 as [[_ H1]|[_ ->]]; [|reflexivity].
    mrun_in H1. destruct (rc_ok e (EvUnlock tid)); [|discriminate H1].
    apply ret_inv_Ok in H1. destruct H1 as [_ ->]. reflexivity. }
  apply when_inv in H. destruct H as [[_ H]|[_ ->]]; [|congruence].
  apply modify_inv_Ok in H. subst s'. sm_proj. rewrite Ht1.
  apply look_up_alter_other; [reflexivity|exact Hne].
Qed.

(** A group end record ends the transactions of its list and leaves the
    transaction that wrote it, the one attached to the record, as it is:
    the case of the switch does not go on to the case of t_xct_end.  A
    writer that the scan sees for the first time in this record stays in
    the table, active, with the initial [first_lsn]. *)
Lemma analysis_step_end_group_attached e master max_lsn lsn r v s v' s' :
  analysis_step e master max_lsn lsn r v s = Ok (v', s') ->
  r_type r = t_xct_end_group ->
  r_is_single_sys_xct r = false ->
  r_tid r <> tid_null ->
  ~ In (r_tid r) (r_xct_list r) ->
  look_up (r_tid r) (xct_tab s) = None ->
  look_up (r_tid r) (xct_tab s')
  = Some (Xct (r_tid r) xct_active lsn max_lsn (r_xid_prev r)
              false false true).
Proof.
  intros H Hty Hssx Htid Hnin Hnone. unfold analysis_step in H.
  destruct (negb (N.eqb lsn (r_lsn_ck r))); [discriminate H|].
  rewrite Hssx in H.
  apply bind_inv_Ok in H. destruct H as (xd & s1 & Hat & H).
  assert (H1 : look_up (r_tid r) (xct_tab s1)
               = Some (Xct (r_tid r) xct_active lsn max_lsn (r_xid_prev r)
                           false false true)).
  { unfold analysis_attach, xct_look_up, new_xct, update_youngest_tid,
      set_last_lsn, set_first_lsn, xct_modify in Hat.
    destruct (N.eqb_spec (r_tid r) tid_null) as [E|_]; [contradiction|].
    cbn [negb] in Hat. mrun_in Hat. rewrite Hnone, Hty in Hat.
    cbn [kind_eqb negb andb] in Hat. mrun_in Hat.
    injection Hat as _ <-. sm_proj.
    cbn [xct_alter x_tid]. rewrite N.eqb_refl.
    cbn [xct_alter x_tid with_last_lsn]. rewrite N.eqb_refl.
    unfold look_up. cbn [find x_tid with_first_lsn with_last_lsn].
    rewrite N.eqb_refl. reflexivity. }
  unfold analysis_dispatch in H. rewrite Hty in H.
  apply bind_inv_Ok in H. destruct H as (u & s2 & Hloop & H).
  apply ret_inv_Ok in H. destruct H as [_ ->].
  rewrite <- H1. clear H1 Hat Hnone.
  revert s1 Hloop. induction (r_xct_list r) as [|tid l IH]; intros s1 Hloop.
  - simpl in Hloop. apply ret_inv_Ok in Hloop. destruct Hloop as [_ ->].
    reflexivity.
  - simpl in Hloop.
    apply bind_inv_Ok in Hloop. destruct Hloop as (u1 & s3 & Hone & Hloop).
    rewrite (IH (fun Hin => Hnin (or_intror Hin)) _ Hloop).
    unfold xct_look_up in Hone. mrun_in Hone.
    destruct (look_up tid (xct_tab s1)) as [x|]; [|discriminate Hone].
    eapply analysis_end_xct_other; [exact Hone|].
    intros E. apply Hnin. left. symmetry. exact E.
Qed.

(** C2 at [log_group_end], under the concurrent policy.  Transaction 7
    updates page 42 at LSN 600; at LSN 650 transaction 9 writes a group end
    record that lists transaction 7.  Log Analysis ends transaction 7 and
    destroys it, but leaves transaction 9, the writer of the record, in the
    table: active and doomed, with the [first_lsn] it was created with (the
    initial [max_lsn] = 701) at the walk.  The set of doomed transactions
    is not empty and the returned [commit_lsn] is null, where it should be
    the minimum [first_lsn] of the doomed transactions. *)
Theorem analysis_end_group_leaves_writer_doomed :
  let e := mk_env false log_group_end in
  let scan := analysis_scan e 500 701 (List.tl (log_scan (the_log e) 500))
                            (set_commit_lsn 701 avars_init)
                            (add_event (EvMode t_in_analysis)
                               (set_operating_mode t_in_analysis
                                  (add_event (EvFunc f_analysis_pass)
                                     (sm_start false 700)))) in
  exists v s' v1 s1,
    analysis_pass e 0 500 avars_init (sm_start false 700) = Ok (v, s')
    /\ scan = Ok (v1, s1)
    /\ List.map (fun x => (x_tid x, x_state x, x_first_lsn x)) (xct_tab s1)
       = [(9, xct_active, 701); (7, xct_ended, 600)]
    /\ List.map (fun x => (x_tid x, x_state x, x_is_doomed_xct x))
                (xct_tab s')
       = [(9, xct_active, true)]
    /\ doomed (xct_tab s') <> []
    /\ commit_lsn v = lsn_null.
Proof.
  intros e scan. eexists _, _, _, _.
  split; [vm_compute; reflexivity|].
  split; [vm_compute; reflexivity|].
  split; [reflexivity|].
  split; [reflexivity|].
  split; [discriminate|reflexivity].
Qed.

(** With the end record of transaction 7 in place of the group end record,
    Log Analysis leaves no transaction and the null [commit_lsn] is
    right. *)
Example analysis_end_record_leaves_no_xct :
  let e := mk_env false log_committed in
  let res := analysis_pass e 0 500 avars_init (sm_start false 700) in
  xct_tab <$> state_of res = Some []
  /\ commit_lsn <$> value_of res = Some lsn_null.
Proof. vm_compute. split; reflexivity. Qed.

(** * Further properties of the recovery code *)

(** ** Checks that run *)

Lemma bf_wfb_spec s : bf_wfb s = true -> bf_wf s.
Proof.
  unfold bf_wfb. intros H. apply andb_prop in H. destruct H as [H1 H2].
  rewrite forallb_forall in H1, H2. split.
  - intros key idx Hk.
    specialize (H1 (key, idx)). cbn [fst snd] in H1.
    assert (Hin : In (key, idx) (map_to_list (hashtable s))).
    { apply list_elem_of_In, elem_of_map_to_list, Hk. }
    apply H1 in Hin. apply andb_prop in Hin. destruct Hin as [Hz Hcb].
    split; [intros ->; discriminate Hz|].
    destruct (cbs s !! idx) as [cb|]; [|discriminate Hcb].
    apply andb_prop in Hcb. destruct Hcb as [Hu Hkey].
    exists cb. split; [reflexivity|]. split; [exact Hu|].
    apply N.eqb_eq, Hkey.
  - intros idx cb Hcb Hd.
    specialize (H2 (idx, cb)). cbn [fst snd] in H2.
    assert (Hin : In (idx, cb) (map_to_list (cbs s))).
    { apply list_elem_of_In, elem_of_map_to_list, Hcb. }
    apply H2 in Hin. rewrite Hd in Hin. cbn [negb orb] in Hin.
    apply bool_decide_eq_true in Hin. exact Hin.
Qed.

Lemma in_doubt_within_spec n s :
  in_doubt_within n s = true ->
  forall j cb, cbs s !! j = Some cb -> cb_in_doubt cb = true -> 1 <= j < n.
Proof.
  unfold in_doubt_within. intros H j cb Hcb Hd.
  rewrite forallb_forall in H. specialize (H (j, cb)). cbn [fst snd] in H.
  assert (Hin : In (j, cb) (map_to_list (cbs s))).
  { apply list_elem_of_In, elem_of_map_to_list, Hcb. }
  apply H in Hin. rewrite Hd in Hin. cbn [negb orb] in Hin.
  apply andb_prop in Hin. destruct Hin as [H1 H2].
  apply N.leb_le in H1. apply N.ltb_lt in H2. lia.
Qed.

(** ** What Log Analysis hands over *)

Lemma Heapify_perm t h : Heapify t h ≡ₚ h.
Proof.
  unfold Heapify. induction h as [|x h IH]; simpl; [reflexivity|].
  rewrite heap_insert_perm, IH. reflexivity.
Qed.

Lemma Heapify_sorted t h : heap_sorted t (Heapify t h) = true.
Proof.
  unfold Heapify. induction h as [|x h IH]; simpl; [reflexivity|].
  apply heap_insert_sorted, IH.
Qed.

Lemma analysis_sweep_heap e t v s t' v' s' :
  analysis_sweep e t v s = Ok ((t', v'), s') ->
  heap v' = if use_serial_recovery e
            then heap v ++ List.map x_tid (doomed t) else heap v.
Proof.
  revert v s t' v' s'.
  induction t as [|xd t IH]; intros v s t' v' s' H; simpl in H.
  - minv. simplify_eq. destruct (use_serial_recovery e);
      simpl; rewrite ?app_nil_r; reflexivity.
  - unfold doomed. simpl. fold (doomed t).
    destruct (bool_decide (x_state xd = xct_active)) eqn:Hact.
    + apply bind_inv_Ok in H. destruct H as ([t1 v1] & s1 & Hrec & H).
      apply ret_inv_Ok in H. destruct H as [H ->]. simplify_eq.
      apply IH in Hrec. cbn [snd]. rewrite Hrec.
      destruct (use_serial_recovery e);
        destruct (N.ltb (x_first_lsn xd) (commit_lsn v)); simpl;
        rewrite <- ?app_assoc; reflexivity.
    + destruct (bool_decide (x_state xd = xct_ended)); [|discriminate H].
      apply bind_inv_Ok in H. destruct H as (u & s1 & _ & H).
      apply IH in H. exact H.
Qed.

Lemma analysis_pass_scan_heap e fuel master v0 s v s' :
  analysis_pass e fuel master v0 s = Ok (v, s') ->
  master <> lsn_null ->
  exists s1 v1,
    analysis_finish e (lsn_advance (curr_lsn s) 1) v1 s1 = Ok (v, s')
    /\ heap v1 = heap v0.
Proof.
  unfold analysis_pass, set_mode, emit. intros H Hm.
  destruct (N.eqb_spec master lsn_null) as [E|_]; [contradiction|].
  minv; sm_proj.
  all: match goal with
       | H : analysis_finish _ _ ?v1 ?s1 = Ok _ |- _ =>
           exists s1, v1; split; [exact H|]
       end.
  all: match goal with
       | H : analysis_scan _ _ _ _ _ _ = Ok _ |- _ =>
           apply analysis_scan_frame in H; destruct H as (_ & Hc & _)
       end.
  all: try match goal with
       | H : mount_chase _ _ _ _ _ = Ok (?x, _) |- _ =>
           destruct x; apply mount_chase_frame in H; destruct H as (_ & Hc' & _);
           cbn [snd]; rewrite Hc'
       end.
  all: cbn [snd]; repeat destruct (N.ltb master _); exact Hc.
Qed.

Lemma doomed_all_active t :
  Forall (fun x => x_state x = xct_active) (doomed t).
Proof.
  unfold doomed. apply Forall_forall. intros x Hx.
  apply list_elem_of_In, filter_In in Hx. destruct Hx as [_ Hx].
  apply bool_decide_eq_true in Hx. exact Hx.
Qed.

Lemma analysis_pass_heap e fuel master v0 s v s' :
  analysis_pass e fuel master v0 s = Ok (v, s') ->
  master <> lsn_null ->
  Forall (fun x => x_state x = xct_active /\ x_first_lsn x = lsn_null)
         (xct_tab s')
  /\ (if use_serial_recovery e
      then heap v ≡ₚ heap v0 ++ List.map x_tid (xct_tab s')
           /\ heap_sorted (xct_tab s') (heap v) = true
      else heap v = heap v0).
Proof.
  intros H Hm.
  destruct (analysis_pass_scan_heap _ _ _ _ _ _ _ H Hm) as (s1 & v1 & Hfin & Hh).
  unfold analysis_finish in Hfin.
  apply bind_inv_Ok in Hfin. destruct Hfin as (t & s2 & Hg & Hfin).
  apply gets_inv_Ok in Hg. destruct Hg as [-> ->].
  apply bind_inv_Ok in Hfin. destruct Hfin as ([t' v2] & s2 & Hsw & Hfin).
  apply bind_inv_Ok in Hfin. destruct Hfin as (u & s3 & Hmod & Hfin).
  apply modify_inv_Ok in Hmod. cbn [fst snd] in *.
  destruct (use_concurrent_lock_recovery e); [discriminate Hfin|].
  apply ret_inv_Ok in Hfin. destruct Hfin as [Hv ->].
  apply analysis_sweep_heap in Hsw as Hheap.
  apply analysis_sweep_spec in Hsw. destruct Hsw as [Ht' _].
  assert (Htab : xct_tab s3 = t') by (subst s3; reflexivity).
  rewrite Htab. split.
  - subst t'. apply Forall_forall. intros x Hx.
    apply list_elem_of_In, in_map_iff in Hx. destruct Hx as (y & <- & Hy).
    split; [|reflexivity]. simpl.
    pose proof (doomed_all_active (xct_tab s1)) as Hall.
    rewrite Forall_forall in Hall. apply Hall, list_elem_of_In, Hy.
  - assert (Htid : List.map x_tid t' = List.map x_tid (doomed (xct_tab s1))).
    { subst t'. rewrite List.map_map. reflexivity. }
    destruct (use_serial_recovery e).
    + subst v. destruct (N.eqb _ _); cbn [heap set_commit_lsn set_heap].
      all: split; [rewrite Heapify_perm, Hheap, Hh, Htid; reflexivity
                  | apply Heapify_sorted].
    + subst v. destruct (N.eqb _ _); cbn [heap set_commit_lsn];
        congruence.
Qed.

(** X1. When Log Analysis returns for a master checkpoint that is not null,
    every transaction left in the table is active with a null [first_lsn];
    in serial mode the heap holds the transactions the caller passed in it
    and each transaction of the table, in descending order of [undo_nxt];
    otherwise the heap is as the caller passed it. *)
Theorem analysis_pass_hands_over_active_xcts e fuel master v0 s v s' :
  analysis_pass e fuel master v0 s = Ok (v, s') ->
  master <> lsn_null ->
  Forall (fun x => x_state x = xct_active /\ x_first_lsn x = lsn_null)
         (xct_tab s')
  /\ (if use_serial_recovery e
      then heap v ≡ₚ heap v0 ++ List.map x_tid (xct_tab s')
           /\ heap_sorted (xct_tab s') (heap v) = true
      else heap v = heap v0).
Proof. apply analysis_pass_heap. Qed.

Lemma analysis_pass_hands_over_active_xcts_witness :
  let e := mk_env true log_interleaved in
  exists v s',
    analysis_pass e 100 500 avars_init (sm_start false 700) = Ok (v, s')
    /\ heap v = [8; 7]
    /\ Forall (fun x => x_state x = xct_active /\ x_first_lsn x = lsn_null)
              (xct_tab s')
    /\ (if use_serial_recovery e
        then heap v ≡ₚ heap avars_init ++ List.map x_tid (xct_tab s')
             /\ heap_sorted (xct_tab s') (heap v) = true
        else heap v = heap avars_init).
Proof.
  intros e. eexists _, _. split; [vm_compute; reflexivity|].
  split; [reflexivity|].
  apply (analysis_pass_hands_over_active_xcts e 100 500 avars_init
           (sm_start false 700)).
  - vm_compute. reflexivity.
  - discriminate.
Defined.

(** ** What the passes leave alone *)

Section PassFrames.

Context {T : Type}.

Variable proj : sm -> T.

Hypothesis proj_event : forall ev s, proj (add_event ev s) = proj s.

Hypothesis proj_curr_lsn : forall l s, proj (set_curr_lsn l s) = proj s.

Ltac pf_go :=
  repeat first
    [ assumption
    | apply pres_ret | apply pres_gets | apply pres_fatal
    | apply pres_bind; [|intros ?]
    | apply pres_modify; intros; rewrite ?proj_event, ?proj_curr_lsn; reflexivity
    | match goal with
      | |- pres _ (if ?b then _ else _) => destruct b
      | |- pres _ (match ?x with _ => _ end) => destruct x
      end ].

Lemma pres_call e ev : pres proj (call e ev).
Proof. unfold call, emit. pf_go. Qed.

Lemma pres_coerce e ev : pres proj (coerce e ev).
Proof. unfold coerce, emit. pf_go. Qed.

Lemma pres_redo_log_pass_gen e redo_lsn end_lsn idc :
  (forall c s, proj (set_cbs c s) = proj s) ->
  (forall l s, proj (set_last_mount_lsn l s) = proj s) ->
  (forall t s, proj (set_xct_tab t s) = proj s) ->
  (forall t s, proj (set_nxt_tid t s) = proj s) ->
  pres proj (redo_log_pass e redo_lsn end_lsn idc).
Proof.
  intros Hcbs Hmount Hxct Hnxt. unfold redo_log_pass, emit.
  assert (H1 : forall l ser dc, pres proj (redo_scan e ser end_lsn l dc))
    by (intros; eapply pres_redo_scan with (okev := fun _ => true); auto).
  repeat first
    [ apply H1 | apply pres_ret | apply pres_fatal
    | apply pres_bind; [|intros ?]
    | apply pres_modify; intros; apply proj_event
    | match goal with
      | |- pres _ (if ?b then _ else _) => destruct b
      end ].
Qed.

Lemma pres_undo_reverse_pass_gen e fuel h c u :
  (forall t s, proj (set_xct_tab t s) = proj s) ->
  pres proj (undo_reverse_pass e fuel h c u).
Proof.
  intros Hxct. unfold undo_reverse_pass, emit.
  assert (H1 : forall h, pres proj (undo_loop e fuel h))
    by (intros; eapply pres_undo_loop with (okev := fun _ => true); auto).
  assert (H2 : forall h, pres proj (undo_drain e fuel h))
    by (intros; eapply pres_undo_drain with (okev := fun _ => true); auto).
  pose proof (pres_call e) as H3. pose proof (pres_coerce e) as H4.
  repeat first
    [ apply H1 | apply H2 | apply H3 | apply H4
    | apply pres_ret | apply pres_gets | apply pres_fatal
    | apply pres_bind; [|intros ?]
    | apply pres_modify; intros; apply proj_event
    | match goal with
      | |- pres _ (if ?b then _ else _) => destruct b
      end ].
Qed.

Lemma pres_undo_txn_pass_gen e fuel :
  (forall t s, proj (set_xct_tab t s) = proj s) ->
  (forall l s, proj (set_commit_lsn_global l s) = proj s) ->
  pres proj (_undo_txn_pass e fuel).
Proof.
  intros Hxct Hcommit. unfold _undo_txn_pass, num_active_xcts.
  assert (H1 : forall t, pres proj (undo_txn_walk e fuel t))
    by (intros; eapply pres_undo_txn_walk with (okev := fun _ => true); auto).
  pose proof (pres_call e) as H3. pose proof (pres_coerce e) as H4.
  repeat first
    [ apply H1 | apply H3 | apply H4
    | apply pres_ret | apply pres_gets | apply pres_fatal
    | apply pres_bind; [|intros ?]
    | apply pres_modify; intros; apply Hcommit
    | match goal with
      | |- pres _ (if ?b then _ else _) => destruct b
      end ].
Qed.

End PassFrames.

(** The transaction table is as it was and the next transaction id is not
    below what it was. *)
Lemma keeps_table_refl s : tab_kept s s.
Proof. split; [reflexivity|lia]. Qed.

Lemma keeps_table_trans s1 s2 s3 :
  tab_kept s1 s2 -> tab_kept s2 s3 -> tab_kept s1 s3.
Proof. unfold tab_kept. intros [H1 H2] [H3 H4]. split; [congruence|lia]. Qed.

Lemma keeps_ret {A} (a : A) : keeps_table (ret a).
Proof.
  intros s b s' H. apply ret_inv_Ok in H. destruct H as [_ ->].
  apply keeps_table_refl.
Qed.

Lemma keeps_fatal {A} x : keeps_table (@W_FATAL A x).
Proof. intros s b s' H. discriminate H. Qed.

Lemma keeps_bind {A B} (c : M A) (k : A -> M B) :
  keeps_table c -> (forall a, keeps_table (k a)) -> keeps_table (bind c k).
Proof.
  intros Hc Hk s b s' H. apply bind_inv_Ok in H.
  destruct H as (a & s1 & H1 & H2).
  eapply keeps_table_trans; [eapply Hc, H1|eapply Hk, H2].
Qed.

Lemma keeps_pres {A} (c : M A) : pres tab_proj c -> keeps_table c.
Proof.
  intros Hc s a s' H. specialize (Hc s a s' H). unfold tab_proj in Hc.
  injection Hc as Ht Hn. split; [exact Ht|lia].
Qed.

Lemma xct_remove_head x t : xct_remove (x_tid x) (x :: t) = t.
Proof. simpl. rewrite N.eqb_refl. reflexivity. Qed.

(** The system transaction of a record without a page comes and goes: the
    table is as it was, one transaction id is used up. *)
Lemma redo_no_page_keeps_table e lsn r : keeps_table (redo_no_page e lsn r).
Proof.
  unfold redo_no_page.
  destruct (_ && _).
  { apply keeps_pres. unfold xct_look_up, call, emit.
    apply pres_bind; [apply pres_gets|intros [xd|]; [|apply pres_ret]].
    destruct (bool_decide _); [|apply pres_fatal].
    apply pres_bind; [|intros ?]; apply pres_modify; reflexivity. }
  destruct (negb (r_is_single_sys_xct r)).
  { apply keeps_pres. unfold call, emit.
    repeat (apply pres_bind; [|intros ?]); apply pres_modify; reflexivity. }
  destruct (_ && _); [|apply keeps_ret].
  intros s u s' H.
  unfold sys_xct_section, end_sys_xct, nxt_tid_atomic_incr, new_xct,
    change_state, xct_modify, destroy_xct, call, emit in H.
  mrun_in H. cbn [xct_alter x_tid] in H. rewrite N.eqb_refl in H.
  cbn [xct_remove x_tid with_state] in H. rewrite N.eqb_refl in H.
  injection H as _ <-. split; sm_proj; [reflexivity|lia].
Qed.

Lemma redo_scan_keeps_table e serial end_lsn l :
  forall dc, keeps_table (redo_scan e serial end_lsn l dc).
Proof.
  induction l as [|[lsn r] l IH]; intros dc; simpl.
  - apply keeps_ret.
  - destruct (_ && _); [apply keeps_ret|].
    destruct (negb (valid_header r lsn)); [apply keeps_fatal|].
    apply keeps_bind; [|intros dc'; apply IH].
    assert (Hpid : forall pid dc0,
               keeps_table (_redo_log_with_pid e r lsn end_lsn pid dc0)).
    { intros pid dc0. apply keeps_pres.
      apply pres_redo_log_with_pid with (okev := fun _ => true);
        intros; reflexivity. }
    destruct (r_is_redo r); [|apply keeps_ret].
    destruct (null_pid r).
    + apply keeps_bind; [apply redo_no_page_keeps_table|intros ?].
      apply keeps_ret.
    + apply keeps_bind; [apply Hpid|intros res].
      destruct (r_is_multi_page r); [|apply keeps_ret].
      apply keeps_bind; [apply Hpid|intros res2]. apply keeps_ret.
Qed.

Lemma redo_log_pass_keeps_table e redo_lsn end_lsn idc :
  keeps_table (redo_log_pass e redo_lsn end_lsn idc).
Proof.
  unfold redo_log_pass.
  apply keeps_bind; [apply keeps_pres, pres_modify; reflexivity|intros ?].
  destruct (N.eqb 0 idc); [apply keeps_ret|].
  destruct (negb (use_redo_log_recovery e)); [apply keeps_fatal|].
  apply keeps_bind; [apply redo_scan_keeps_table|intros dc].
  destruct (negb _); [apply keeps_fatal|apply keeps_ret].
Qed.

(** X2. When log driven REDO returns, the transaction table is as it was on
    entry, although the pass creates a system transaction for each
    single-log system transaction record without a page that it redoes: the
    transaction is ended and destroyed before the scan goes on.  The next
    transaction id is not below what it was.  The hash table of the buffer
    pool, the global [commit_lsn], the operating mode and pointer swizzling
    are as they were. *)
Theorem redo_log_pass_leaves_transactions e redo_lsn end_logscan_lsn idc s u s' :
  redo_log_pass e redo_lsn end_logscan_lsn idc s = Ok (u, s') ->
  xct_tab s' = xct_tab s
  /\ nxt_tid s <= nxt_tid s'
  /\ hashtable s' = hashtable s
  /\ commit_lsn_global s' = commit_lsn_global s
  /\ operating_mode s' = operating_mode s
  /\ swizzling_enabled s' = swizzling_enabled s.
Proof.
  intros H.
  destruct (redo_log_pass_keeps_table e redo_lsn end_logscan_lsn idc s u s' H)
    as [Ht Hn].
  assert (Hpres : pres (fun s => (hashtable s, commit_lsn_global s,
                                  operating_mode s, swizzling_enabled s))
                       (redo_log_pass e redo_lsn end_logscan_lsn idc))
    by (apply pres_redo_log_pass_gen; intros; reflexivity).
  specialize (Hpres s u s' H). injection Hpres.
  intros; repeat split; assumption.
Qed.

Lemma redo_log_pass_leaves_transactions_witness :
  let e := mk_env true log_ssx_no_page in
  let s := sm_one_page 42 true false 600 0 900 in
  exists s',
    redo_log_pass e 450 900 1 s = Ok (tt, s')
    /\ trace s' = [EvFunc f_redo_pass; EvRedo 450 None; EvDestroy 1;
                   EvLoad 1; EvFix 1; EvRedo 600 (Some 1);
                   EvInDoubtToDirty 1]
    /\ nxt_tid s = 0 /\ nxt_tid s' = 1
    /\ xct_tab s' = xct_tab s
    /\ nxt_tid s <= nxt_tid s'
    /\ hashtable s' = hashtable s
    /\ commit_lsn_global s' = commit_lsn_global s
    /\ operating_mode s' = operating_mode s
    /\ swizzling_enabled s' = swizzling_enabled s.
Proof.
  intros e s. eexists. split; [vm_compute; reflexivity|].
  split; [reflexivity|].
  split; [reflexivity|]. split; [reflexivity|].
  apply (redo_log_pass_leaves_transactions e 450 900 1 s tt).
  vm_compute. reflexivity.
Defined.

(** ** The operating mode [recover] leaves *)

Lemma analysis_pass_mode e fuel master v0 s v s' :
  analysis_pass e fuel master v0 s = Ok (v, s') ->
  operating_mode s' = t_in_analysis.
Proof.
  intros H. unfold analysis_pass in H.
  binv H as u0 s0 H0. binv H as u1 s1 H1.
  assert (Hm : operating_mode s1 = t_in_analysis).
  { unfold set_mode, emit in H1. binv H1 as u2 s2 H2.
    apply modify_inv_Ok in H2. apply modify_inv_Ok in H1. subst. reflexivity. }
  rewrite <- Hm.
  match type of H with
  | ?c s1 = _ => assert (Hp : pres operating_mode c)
  end.
  { assert (H1' : forall l mx v,
               pres operating_mode (analysis_scan e master mx l v))
      by (intros; eapply pres_analysis_scan with (okev := fun _ => true);
          intros; reflexivity).
    assert (H2' : forall l v, pres operating_mode (mount_chase e fuel l v))
      by (intros; eapply pres_mount_chase with (okev := fun _ => true);
          intros; reflexivity).
    assert (H3' : forall mx v, pres operating_mode (analysis_finish e mx v))
      by (intros; eapply pres_analysis_finish with (okev := fun _ => true);
          intros; reflexivity).
    repeat first
      [ apply H1' | apply H2' | apply H3'
      | apply pres_ret | apply pres_gets | apply pres_fatal
      | apply pres_bind; [|intros ?]
      | apply pres_modify; intros; reflexivity
      | match goal with
        | |- pres _ (if ?b then _ else _) => destruct b
        | |- pres _ (match ?x with _ => _ end) => destruct x
        end ]. }
  eapply Hp, H.
Qed.

Lemma set_mode_mode m s u s' :
  set_mode m s = Ok (u, s') -> operating_mode s' = m.
Proof.
  unfold set_mode, emit. intros H. binv H as u2 s2 H2.
  apply modify_inv_Ok in H2. apply modify_inv_Ok in H. subst. reflexivity.
Qed.

Lemma set_swizzling_enabled_mode e b :
  pres operating_mode (set_swizzling_enabled e b).
Proof.
  unfold set_swizzling_enabled.
  apply pres_bind; [apply pres_coerce; intros; reflexivity|intros _].
  apply pres_modify. reflexivity.
Qed.

Lemma recover_returns_mode e fuel master s v s' :
  recover e fuel master s = Ok (v, s') ->
  operating_mode s = t_before_recovery
  /\ operating_mode s'
     = (if use_serial_recovery e then t_in_undo else t_in_analysis).
Proof.
  intros H. unfold recover in H.
  binv H as u0 s0 H0. unfold emit in H0. apply modify_inv_Ok in H0.
  binv H as m s0' Hm. apply gets_inv_Ok in Hm. destruct Hm as [-> ->].
  destruct (bool_decide (operating_mode s0 = t_before_recovery)) eqn:Hbr;
    [|discriminate H].
  apply bool_decide_eq_true in Hbr. cbn [negb] in H.
  split; [subst s0; exact Hbr|].
  binv H as org s0' Hm. apply gets_inv_Ok in Hm. destruct Hm as [-> ->].
  binv H as u1 s1 H1.
  binv H as v1 sa Ha.
  binv H as xc sa' Hx. apply gets_inv_Ok in Hx. destruct Hx as [-> ->].
  binv H as u2 s2 H2.
  apply analysis_pass_mode in Ha.
  apply (pres_call operating_mode) in H2;
    [|intros; reflexivity|intros; reflexivity].
  destruct (use_serial_recovery e); cbn [negb] in H.
  - binv H as cl s2' Hc. apply gets_inv_Ok in Hc. destruct Hc as [-> ->].
    binv H as u3 s3 H3.
    binv H as u4 s4 H4.
    binv H as u5 s5 H5.
    binv H as u6 s6 H6.
    binv H as u7 s7 H7.
    apply ret_inv_Ok in H. destruct H as [_ Hs]. subst s7.
    apply set_mode_mode in H5.
    assert (H6' : operating_mode s6 = operating_mode s5).
    { apply when_inv in H6. destruct H6 as [[_ H6]|[_ ->]]; [|reflexivity].
      binv H6 as u8 s8 H8.
      apply (pres_undo_reverse_pass_gen operating_mode) in H8;
        [|intros; reflexivity..].
      apply (pres_call operating_mode) in H6; [|intros; reflexivity..].
      congruence. }
    assert (H7' : operating_mode s' = operating_mode s6).
    { apply when_inv in H7. destruct H7 as [[_ H7]|[_ ->]]; [|reflexivity].
      apply set_swizzling_enabled_mode in H7. exact H7. }
    congruence.
  - apply ret_inv_Ok in H. destruct H as [_ Hs]. subst s2. congruence.
Qed.

(** The first check of [recover]. *)
Lemma recover_not_before_recovery e fuel master s :
  operating_mode s <> t_before_recovery ->
  recover e fuel master s = Fatal F_not_before_recovery.
Proof.
  intros Hm. unfold recover, emit. mrun.
  destruct (bool_decide_reflect (operating_mode s = t_before_recovery))
    as [E|_]; [contradiction|].
  reflexivity.
Qed.

(** X3. [recover] is fatal, with the error of its first check, unless the
    operating mode is the one before recovery; and when it returns the
    operating mode is in-undo under the serial policy and in-analysis
    otherwise: it never opens the system for forward processing itself. *)
Theorem recover_operating_mode e fuel master s :
  (operating_mode s <> t_before_recovery ->
   recover e fuel master s = Fatal F_not_before_recovery)
  /\ (forall v s',
         recover e fuel master s = Ok (v, s') ->
         operating_mode s = t_before_recovery
         /\ operating_mode s'
            = (if use_serial_recovery e then t_in_undo else t_in_analysis)).
Proof.
  split.
  - apply recover_not_before_recovery.
  - intros v s'. apply recover_returns_mode.
Qed.

Lemma recover_operating_mode_witness :
  let e := mk_env true log_in_flight in
  let s := sm_start true 700 in
  recover e 100 500 (set_operating_mode t_forward_processing s)
  = Fatal F_not_before_recovery
  /\ exists v s',
       recover e 100 500 s = Ok (v, s')
       /\ operating_mode s = t_before_recovery
       /\ operating_mode s'
          = (if use_serial_recovery e then t_in_undo else t_in_analysis).
Proof.
  intros e s. split.
  - apply (recover_operating_mode e 100 500
             (set_operating_mode t_forward_processing s)).
    discriminate.
  - eexists _, _. split; [vm_compute; reflexivity|].
    eapply (recover_operating_mode e 100 500 s).
    vm_compute. reflexivity.
Defined.

(** ** The count of in_doubt pages *)

Lemma count_in_doubt_insert_None c i x :
  c !! i = None ->
  count_in_doubt (<[i:=x]> c) = (count_in_doubt c + flag_weight (cb_in_doubt x))%nat.
Proof.
  intros Hi. unfold count_in_doubt. destruct (cb_in_doubt x) eqn:Hx; simpl.
  - rewrite map_filter_insert_True by exact Hx.
    rewrite map_size_insert_None; [lia|].
    apply map_lookup_filter_None. left. exact Hi.
  - rewrite map_filter_insert_not'; [lia| |].
    + simpl. congruence.
    + intros y Hy. congruence.
Qed.

Lemma count_in_doubt_insert_Some c i x y :
  c !! i = Some y ->
  (count_in_doubt (<[i:=x]> c) + flag_weight (cb_in_doubt y)
   = count_in_doubt c + flag_weight (cb_in_doubt x))%nat.
Proof.
  intros Hi.
  rewrite <- (insert_delete_eq c i x).
  rewrite <- (insert_delete_id c i y Hi) at 2.
  rewrite !count_in_doubt_insert_None by apply lookup_delete_eq. lia.
Qed.

Lemma alter_Some_insert (f : bf_tree_cb_t -> bf_tree_cb_t)
    (c : gmap N bf_tree_cb_t) (i : N) y :
  c !! i = Some y -> alter f i c = <[i := f y]> c.
Proof.
  intros Hi. apply map_eq. intros j. destruct (decide (i = j)) as [<-|Hne].
  - rewrite lookup_alter_eq, lookup_insert_eq, Hi. reflexivity.
  - rewrite lookup_alter_ne, lookup_insert_ne by exact Hne. reflexivity.
Qed.

Lemma count_in_doubt_alter f (c : gmap N bf_tree_cb_t) (i : N) :
  (count_in_doubt (alter f i c)
   + flag_weight (from_option cb_in_doubt false (c !! i))
   = count_in_doubt c
     + flag_weight (from_option cb_in_doubt false (f <$> c !! i)))%nat.
Proof.
  destruct (c !! i) as [y|] eqn:Hi; simpl.
  - rewrite (alter_Some_insert f c i y Hi).
    apply count_in_doubt_insert_Some, Hi.
  - rewrite alter_id' by exact Hi. lia.
Qed.

Lemma count_in_doubt_alter_same f (c : gmap N bf_tree_cb_t) (i : N) :
  (forall cb, cb_in_doubt (f cb) = cb_in_doubt cb) ->
  count_in_doubt (alter f i c) = count_in_doubt c.
Proof.
  intros Hf. pose proof (count_in_doubt_alter f c i) as H.
  destruct (c !! i) as [y|]; simpl in H; rewrite ?Hf in H; lia.
Qed.

(** *** Rules *)

Section Hoare.

Context {A B : Type}.

Lemma hoare_ret (P : sm -> Prop) (a : A) (Q : A -> sm -> Prop) :
  (forall s, P s -> Q a s) -> hoare P (ret a) Q.
Proof. intros H s b s' Hr Hp. apply ret_inv_Ok in Hr. destruct Hr as [-> ->]. auto. Qed.

Lemma hoare_gets (P : sm -> Prop) (f : sm -> A) (Q : A -> sm -> Prop) :
  (forall s, P s -> Q (f s) s) -> hoare P (gets f) Q.
Proof. intros H s b s' Hr Hp. apply gets_inv_Ok in Hr. destruct Hr as [-> ->]. auto. Qed.

Lemma hoare_fatal (P : sm -> Prop) x (Q : A -> sm -> Prop) :
  hoare P (W_FATAL x) Q.
Proof. intros s b s' Hr. discriminate Hr. Qed.

Lemma hoare_diverge (P : sm -> Prop) (Q : A -> sm -> Prop) :
  hoare P out_of_fuel Q.
Proof. intros s b s' Hr. discriminate Hr. Qed.

Lemma hoare_bind (P : sm -> Prop) (R : A -> sm -> Prop) (Q : B -> sm -> Prop)
    (c : M A) (k : A -> M B) :
  hoare P c R -> (forall a, hoare (R a) (k a) Q) -> hoare P (bind c k) Q.
Proof.
  intros Hc Hk s b s' Hr Hp. apply bind_inv_Ok in Hr.
  destruct Hr as (a & s1 & H1 & H2). eapply Hk; [exact H2|]. eapply Hc; eauto.
Qed.

Lemma hoare_weaken (P P' : sm -> Prop) (Q Q' : A -> sm -> Prop) (c : M A) :
  hoare P' c Q' -> (forall s, P s -> P' s) -> (forall a s, Q' a s -> Q a s) ->
  hoare P c Q.
Proof. intros Hc Hp Hq s a s' Hr H. eapply Hq, Hc; eauto. Qed.

End Hoare.

Lemma hoare_modify (P : sm -> Prop) f (Q : unit -> sm -> Prop) :
  (forall s, P s -> Q tt (f s)) -> hoare P (modify f) Q.
Proof.
  intros H s b s' Hr Hp. destruct b. apply modify_inv_Ok in Hr. subst s'. auto.
Qed.

Lemma hoare_pres {A T} (proj : sm -> T) (I : T -> Prop) (c : M A) :
  pres proj c -> hoare (fun s => I (proj s)) c (fun _ s => I (proj s)).
Proof. intros Hc s a s' Hr Hp. rewrite (Hc s a s' Hr). exact Hp. Qed.

Lemma hoare_forM_ {A} (I : sm -> Prop) (l : list A) (f : A -> M unit) :
  (forall a, hoare I (f a) (fun _ => I)) -> hoare I (forM_ l f) (fun _ => I).
Proof.
  intros Hf. induction l as [|a l IH]; simpl.
  - apply hoare_ret. auto.
  - apply (hoare_bind I (fun _ => I)); [apply Hf|]. intros _. exact IH.
Qed.

(** *** The counter *)

Lemma u32_incr_count n :
  u32_incr (N.of_nat n mod uint32_modulus) = N.of_nat (S n) mod uint32_modulus.
Proof.
  unfold u32_incr. rewrite Nat2N.inj_succ, <- N.add_1_r.
  rewrite N.Div0.add_mod_idemp_l. reflexivity.
Qed.

Lemma u32_decr_count n :
  u32_decr (N.of_nat (S n) mod uint32_modulus) = N.of_nat n mod uint32_modulus.
Proof.
  unfold u32_decr. rewrite Nat2N.inj_succ, <- N.add_1_r.
  assert (Hm : 0 < uint32_modulus) by (unfold uint32_modulus; lia).
  rewrite <- N.add_sub_assoc by lia.
  rewrite N.Div0.add_mod_idemp_l.
  replace (N.of_nat n + 1 + (uint32_modulus - 1))
    with (N.of_nat n + 1 * uint32_modulus) by lia.
  rewrite N.Div0.mod_add. reflexivity.
Qed.

Lemma bf_counted_pool c s s' :
  hashtable s' = hashtable s -> cbs s' = cbs s ->
  bf_counted c s -> bf_counted c s'.
Proof.
  unfold bf_counted, bf_wf, in_doubt_frames. intros -> ->. auto.
Qed.

Lemma grab_free_block_free c from n idx :
  grab_free_block c from n = Some idx ->
  match c !! idx with Some cb => cb_used cb = false | None => True end.
Proof.
  revert from. induction n as [|n IH]; intros from; simpl; [discriminate|].
  destruct (c !! from) as [cb|] eqn:Hc.
  - destruct (cb_used cb) eqn:Hu.
    + apply IH.
    + intros [= <-]. rewrite Hc. exact Hu.
  - intros [= <-]. rewrite Hc. exact I.
Qed.

Lemma hashtable_default_Some (s : sm) key :
  default 0 (hashtable s !! key) <> 0 ->
  hashtable s !! key = Some (default 0 (hashtable s !! key)).
Proof. destruct (hashtable s !! key); simpl; congruence. Qed.

Lemma bf_wf_in_doubt_used s idx cb :
  bf_wf s -> cbs s !! idx = Some cb -> cb_in_doubt cb = true ->
  cb_used cb = true.
Proof.
  intros [Hwf1 Hwf2] Hcb Hd. specialize (Hwf2 idx cb Hcb Hd).
  destruct (Hwf1 _ _ Hwf2) as (_ & cb' & Hcb' & Hu & _). congruence.
Qed.

Lemma bf_wf_default_zero s key :
  bf_wf s -> default 0 (hashtable s !! key) = 0 -> hashtable s !! key = None.
Proof.
  intros [Hwf1 _] H0. destruct (hashtable s !! key) as [i|] eqn:Hk; [|reflexivity].
  simpl in H0. destruct (Hwf1 _ _ Hk) as [Hne _]. contradiction.
Qed.

Lemma register_and_mark_counted e pid lsn c :
  hoare (bf_counted c) (register_and_mark e pid lsn c)
        (fun res s' => bf_counted (snd res) s').
Proof.
  intros s res s' H [Hwf Hc]. pose proof Hwf as [Hwf1 Hwf2].
  unfold register_and_mark in H.
  unfold lookup_in_doubt, is_in_doubt, cb_flag, cb_modify in H.
  mrun_in H.
  set (key := bf_key (pid_vol pid) (pid_page pid)) in *.
  set (idx := default 0 (hashtable s !! key)) in *.
  destruct (N.eqb_spec idx 0) as [E|E]; cbn [negb] in H.
  - mrun_in H.
    pose proof (bf_wf_default_zero s key Hwf E) as Hnone.
    destruct (grab_free_block (cbs s) 1 (N.to_nat (block_cnt e - 1)))
      as [i|] eqn:Hg.
    + mrun_in H. injection H as <- <-. cbn [snd].
      pose proof (grab_free_block_free _ _ _ _ Hg) as Hfree.
      assert (Hi0 : 1 <= i) by (eapply grab_free_block_ge; eassumption).
      set (new := Cb (pid_vol pid) (pid_store pid) (pid_page pid)
                     true false true lsn lsn_null) in *.
      assert (Hfresh : forall k, hashtable s !! k = Some i -> False).
      { intros k Hk. destruct (Hwf1 _ _ Hk) as (_ & cb & Hcb & Hu & _).
        rewrite Hcb in Hfree. congruence. }
      split; [split|].
      * intros k j Hk. sm_proj_in Hk. sm_proj.
        destruct (decide (key = k)) as [<-|Hne].
        -- rewrite lookup_insert_eq in Hk. injection Hk as <-.
           split; [lia|]. exists new. rewrite lookup_insert_eq.
           repeat split; reflexivity.
        -- rewrite lookup_insert_ne in Hk by exact Hne.
           destruct (Hwf1 _ _ Hk) as (Hj0 & cb & Hcb & Hu & Hkey).
           split; [exact Hj0|]. exists cb.
           rewrite lookup_insert_ne; [auto|].
           intros <-. eapply Hfresh, Hk.
      * intros j cb Hj Hd. sm_proj_in Hj. sm_proj.
        destruct (decide (i = j)) as [<-|Hij].
        -- rewrite lookup_insert_eq in Hj. injection Hj as <-.
           apply lookup_insert_eq.
        -- rewrite lookup_insert_ne in Hj by exact Hij.
           specialize (Hwf2 _ _ Hj Hd).
           rewrite lookup_insert_ne; [exact Hwf2|].
           intros Hk. rewrite <- Hk in Hwf2. congruence.
      * unfold in_doubt_frames. sm_proj. rewrite Hc, u32_incr_count.
        f_equal. f_equal.
        destruct (cbs s !! i) as [y|] eqn:Hy.
        -- pose proof (count_in_doubt_insert_Some (cbs s) i new y Hy) as Hcnt.
           assert (Hyd : cb_in_doubt y = false).
           { destruct (cb_in_doubt y) eqn:Hd; [|reflexivity].
             rewrite (bf_wf_in_doubt_used s i y Hwf Hy Hd) in Hfree.
             discriminate. }
           rewrite Hyd in Hcnt. simpl in Hcnt. unfold in_doubt_frames. lia.
        -- rewrite count_in_doubt_insert_None by exact Hy. simpl.
           unfold in_doubt_frames. lia.
    + mrun_in H. injection H as <- <-. cbn [snd]. split; assumption.
  - mrun_in H. injection H as <- <-. cbn [snd].
    pose proof (hashtable_default_Some s key E) as Hk. fold idx in Hk.
    destruct (Hwf1 key idx Hk) as (_ & cb & Hcb & Hu & Hkey).
    set (g := fun cb : bf_tree_cb_t =>
                with_rec_lsn (if N.ltb lsn (cb_rec_lsn cb) then lsn
                              else cb_rec_lsn cb)
                  (with_flags true (cb_dirty cb) true cb)).
    assert (Hgkey : forall cb, cb_key (g cb) = cb_key cb) by reflexivity.
    split; [split|].
    + intros k j Hkj. sm_proj_in Hkj. sm_proj.
      destruct (Hwf1 _ _ Hkj) as (Hj0 & cb' & Hcb' & Hu' & Hkey').
      split; [exact Hj0|].
      destruct (decide (idx = j)) as [<-|Hij].
      * exists (g cb). rewrite lookup_alter_eq, Hcb.
        repeat split. rewrite Hgkey. congruence.
      * exists cb'. rewrite lookup_alter_ne by exact Hij. auto.
    + intros j cb' Hj Hd. sm_proj_in Hj. sm_proj.
      destruct (decide (idx = j)) as [<-|Hij].
      * rewrite lookup_alter_eq, Hcb in Hj. injection Hj as <-.
        rewrite Hgkey, Hkey. exact Hk.
      * rewrite lookup_alter_ne in Hj by exact Hij. eapply Hwf2; eauto.
    + unfold in_doubt_frames. sm_proj.
      pose proof (count_in_doubt_alter g (cbs s) idx) as Hcnt.
      rewrite Hcb in Hcnt. simpl in Hcnt. rewrite Hcb.
      destruct (cb_in_doubt cb) eqn:Hd; simpl in Hcnt.
      * rewrite Hc. f_equal. f_equal. unfold in_doubt_frames. lia.
      * rewrite Hc, u32_incr_count. f_equal. f_equal.
        unfold in_doubt_frames. lia.
Qed.

Lemma hoare_pool {A} n (c : M A) :
  pres pool c -> hoare (bf_counted n) c (fun _ => bf_counted n).
Proof.
  intros Hc s a s' Hr Hp. specialize (Hc s a s' Hr). unfold pool in Hc.
  injection Hc as Hh Hcb. eapply bf_counted_pool; eassumption.
Qed.

Ltac pool_go :=
  repeat first
    [ assumption
    | apply pres_ret | apply pres_gets | apply pres_fatal | apply pres_diverge
    | apply pres_bind; [|intros ?]
    | apply pres_modify; intros; reflexivity
    | apply pres_forM_; intros ?
    | match goal with
      | |- pres _ (when ?b _) => destruct b; unfold when
      | |- pres _ (if ?b then _ else _) => destruct b
      | |- pres _ (match ?x with _ => _ end) => destruct x
      end ].

Ltac pool_prim :=
  unfold xd_state, xd_set_undo_nxt, analysis_end_xct, chkpt_xct_entry;
  unfold xct_look_up, new_xct, change_state, set_last_lsn, set_first_lsn,
    set_undo_nxt, nxt_tid_atomic_incr, update_youngest_tid, coerce, call,
    emit;
  unfold xct_modify.

Lemma mark_in_doubt_counted e pid lsn : counted_step (mark_in_doubt e pid lsn).
Proof.
  intros v. unfold mark_in_doubt.
  destruct (N.eqb (pid_page pid) 0); [apply hoare_fatal|].
  eapply hoare_bind; [apply register_and_mark_counted|].
  intros [[idx|] c]; cbn [fst snd]; [|apply hoare_fatal].
  apply hoare_ret. intros s Hs. exact Hs.
Qed.

Lemma clear_page_in_doubt_counted r : counted_step (clear_page_in_doubt r).
Proof.
  intros v s v' s' H [Hwf Hc]. pose proof Hwf as [Hwf1 Hwf2].
  unfold clear_page_in_doubt in H.
  unfold lookup_in_doubt, is_in_doubt, cb_flag, clear_in_doubt, cb_modify in H.
  mrun_in H.
  set (key := bf_key (r_vol r) (r_shpid r)) in *.
  set (idx := default 0 (hashtable s !! key)) in *.
  destruct (N.eqb_spec idx 0) as [E|E]; cbn [negb] in H.
  { mrun_in H. injection H as <- <-. split; assumption. }
  mrun_in H.
  destruct (cbs s !! idx) as [cb|] eqn:Hcb;
    [|mrun_in H; injection H as <- <-; split; assumption].
  destruct (cb_in_doubt cb) eqn:Hd;
    [|mrun_in H; injection H as <- <-; split; assumption].
  pose proof (hashtable_default_Some s key E) as Hk. fold idx in Hk.
  destruct (Hwf1 key idx Hk) as (_ & cb0 & Hcb0 & Hu & Hkey).
  assert (cb0 = cb) by congruence. subst cb0.
  set (g := fun cb : bf_tree_cb_t =>
              with_flags false (cb_dirty cb) (is_page_allocate r && cb_used cb)
                         cb) in *.
  assert (Hgkey : forall cb, cb_key (g cb) = cb_key cb) by reflexivity.
  assert (Hcnt : in_doubt_frames s = S (count_in_doubt (alter g idx (cbs s)))).
  { pose proof (count_in_doubt_alter g (cbs s) idx) as Hcnt.
    rewrite Hcb in Hcnt. simpl in Hcnt. rewrite Hd in Hcnt. simpl in Hcnt.
    unfold in_doubt_frames. lia. }
  unfold when in H. destruct (is_page_allocate r) eqn:Halloc; cbn [negb] in H;
    mrun_in H; injection H as <- <-.
  - split; [split|].
    + intros k j Hkj. sm_proj_in Hkj. sm_proj.
      destruct (Hwf1 _ _ Hkj) as (Hj0 & cb' & Hcb' & Hu' & Hkey').
      split; [exact Hj0|].
      destruct (decide (idx = j)) as [<-|Hij].
      * exists (g cb). rewrite lookup_alter_eq, Hcb.
        split; [reflexivity|]. split.
        -- unfold g. simpl. rewrite ?Halloc. simpl. congruence.
        -- rewrite Hgkey. congruence.
      * exists cb'. rewrite lookup_alter_ne by exact Hij. auto.
    + intros j cb' Hj Hd'. sm_proj_in Hj. sm_proj.
      destruct (decide (idx = j)) as [<-|Hij].
      * rewrite lookup_alter_eq, Hcb in Hj. injection Hj as <-.
        discriminate Hd'.
      * rewrite lookup_alter_ne in Hj by exact Hij. eapply Hwf2; eauto.
    + cbn [in_doubt_count set_in_doubt_count]. rewrite Hc, Hcnt.
      apply u32_decr_count.
  - split; [split|].
    + intros k j Hkj. sm_proj_in Hkj. sm_proj.
      apply lookup_delete_Some in Hkj. destruct Hkj as [Hne Hkj].
      destruct (Hwf1 _ _ Hkj) as (Hj0 & cb' & Hcb' & Hu' & Hkey').
      split; [exact Hj0|]. exists cb'.
      rewrite lookup_alter_ne; [auto|].
      intros <-. apply Hne. congruence.
    + intros j cb' Hj Hd'. sm_proj_in Hj. sm_proj.
      destruct (decide (idx = j)) as [<-|Hij].
      * rewrite lookup_alter_eq, Hcb in Hj. injection Hj as <-.
        discriminate Hd'.
      * rewrite lookup_alter_ne in Hj by exact Hij.
        specialize (Hwf2 _ _ Hj Hd').
        rewrite lookup_delete_ne; [exact Hwf2|].
        intros Hkk. rewrite <- Hkk in Hwf2. congruence.
    + cbn [in_doubt_count set_in_doubt_count]. rewrite Hc, Hcnt.
      apply u32_decr_count.
Qed.

Lemma chkpt_bf_entries_counted e l : counted_step (chkpt_bf_entries e l).
Proof.
  induction l as [|[pid rl] l IH]; intros v; simpl.
  - apply hoare_ret. auto.
  - eapply hoare_bind; [apply mark_in_doubt_counted|]. intros v'. apply IH.
Qed.

Ltac cnt_pool :=
  match goal with
  | |- hoare (bf_counted ?n) _ _ =>
      apply (hoare_pool n); pool_prim; pool_go
  end.

Ltac cnt_ret := apply hoare_ret; intros ? Hs; exact Hs.

Lemma analysis_ssx_counted e lsn r : counted_step (analysis_ssx e lsn r).
Proof.
  intros v. unfold analysis_ssx.
  eapply hoare_bind; [cnt_pool|intros tid; cbv beta].
  eapply hoare_bind; [cnt_pool|intros ?; cbv beta].
  eapply hoare_bind; [cnt_pool|intros ?; cbv beta].
  eapply hoare_bind; [cnt_pool|intros ?; cbv beta].
  apply (hoare_bind _ (fun v' => bf_counted (in_doubt_count v'))).
  - destruct (is_page_allocate r || is_page_deallocate r);
      [apply clear_page_in_doubt_counted|].
    destruct (negb (is_skip r)); [|cnt_ret].
    destruct (negb (null_pid r)); [|apply hoare_fatal].
    eapply hoare_bind; [apply mark_in_doubt_counted|intros v1].
    destruct (r_is_multi_page r); [apply mark_in_doubt_counted|cnt_ret].
  - intros v'. eapply hoare_bind; [cnt_pool|intros ?; cbv beta]. cnt_ret.
Qed.

Lemma analysis_update_counted e lsn r xd :
  counted_step (analysis_update e lsn r xd).
Proof.
  intros v. unfold analysis_update.
  apply (hoare_bind _ (fun v' => bf_counted (in_doubt_count v'))).
  - destruct (is_page_update r).
    + eapply hoare_bind; [cnt_pool|intros ?; cbv beta].
      eapply hoare_bind; [cnt_pool|intros ?; cbv beta].
      destruct (is_page_allocate r || is_page_deallocate r);
        [apply clear_page_in_doubt_counted|apply mark_in_doubt_counted].
    + destruct (r_is_cpsn r).
      * eapply hoare_bind; [cnt_pool|intros ?; cbv beta].
        destruct (r_is_redo r); [apply mark_in_doubt_counted|cnt_ret].
      * destruct (negb (kind_eqb (r_type r) t_store_operation));
          [apply hoare_fatal|cnt_ret].
  - intros v'. eapply hoare_bind; [cnt_pool|intros ?; cbv beta]. cnt_ret.
Qed.

Lemma analysis_dispatch_counted e master lsn r xd :
  counted_step (analysis_dispatch e master lsn r xd).
Proof.
  intros v. unfold analysis_dispatch.
  destruct (r_type r); try apply analysis_update_counted;
    try cnt_ret; try apply hoare_fatal.
  - destruct (N.eqb (num_chkpt_end_handled v) 0);
      [apply chkpt_bf_entries_counted|cnt_ret].
  - destruct (N.eqb (num_chkpt_end_handled v) 0); [|cnt_ret].
    eapply hoare_bind; [cnt_pool|intros ?; cbv beta].
    eapply hoare_bind; [cnt_pool|intros ?; cbv beta]. cnt_ret.
  - destruct (N.eqb (num_chkpt_end_handled v) 0); [|cnt_ret].
    eapply hoare_bind; [cnt_pool|intros ?; cbv beta].
    apply hoare_ret. intros s Hs. destruct (r_dev_tab r); exact Hs.
  - apply (hoare_bind _ (fun v' => bf_counted (in_doubt_count v'))).
    + destruct (N.eqb (num_chkpt_end_handled v) 0); [|cnt_ret].
      destruct (r_chkpt_end r) as [[b rl] ul].
      destruct (negb (N.eqb master b)); [apply hoare_fatal|cnt_ret].
    + intros v'. cnt_ret.
  - destruct (N.ltb lsn (redo_lsn v)); [|cnt_ret].
    eapply hoare_bind; [cnt_pool|intros ?; cbv beta].
    apply hoare_ret. intros s Hs.
    destruct (kind_eqb _ _); exact Hs.
  - destruct (N.ltb lsn (redo_lsn v)); [|cnt_ret].
    eapply hoare_bind; [cnt_pool|intros ?; cbv beta].
    apply hoare_ret. intros s Hs.
    destruct (kind_eqb _ _); exact Hs.
  - eapply hoare_bind; [cnt_pool|intros st; cbv beta].
    eapply hoare_bind; [cnt_pool|intros ?; cbv beta]. cnt_ret.
  - eapply hoare_bind; [cnt_pool|intros st; cbv beta].
    eapply hoare_bind; [cnt_pool|intros ?; cbv beta]. cnt_ret.
  - eapply hoare_bind; [cnt_pool|intros st; cbv beta].
    eapply hoare_bind; [cnt_pool|intros ?; cbv beta]. cnt_ret.
  - eapply hoare_bind; [cnt_pool|intros ?; cbv beta]. cnt_ret.
Qed.

Lemma analysis_step_counted e master max_lsn lsn r :
  counted_step (analysis_step e master max_lsn lsn r).
Proof.
  intros v. unfold analysis_step.
  destruct (negb (N.eqb lsn (r_lsn_ck r))); [apply hoare_fatal|].
  destruct (r_is_single_sys_xct r).
  - apply (analysis_ssx_counted e lsn r (set_last lsn v)).
  - eapply hoare_bind.
    + apply (hoare_pool (in_doubt_count v)).
      apply pres_analysis_attach; intros; reflexivity.
    + intros xd. cbv beta.
      apply (analysis_dispatch_counted e master lsn r xd (set_last lsn v)).
Qed.

Lemma analysis_scan_counted e master max_lsn l :
  counted_step (analysis_scan e master max_lsn l).
Proof.
  induction l as [|[lsn r] l IH]; intros v; simpl.
  - cnt_ret.
  - eapply hoare_bind; [apply analysis_step_counted|]. intros v'. apply IH.
Qed.

Lemma mount_chase_counted e fuel l v :
  hoare (bf_counted (in_doubt_count v)) (mount_chase e fuel l v)
        (fun lv => bf_counted (in_doubt_count (snd lv))).
Proof.
  revert l v. induction fuel as [|fuel IH]; intros l v; simpl.
  - destruct (_ && _); [apply hoare_diverge|]. cnt_ret.
  - destruct (_ && _); [|cnt_ret].
    destruct (log_fetch (the_log e) l) as [copy|]; [|apply hoare_fatal].
    apply (hoare_bind _ (fun v' => bf_counted (in_doubt_count v'))).
    + destruct (kind_eqb (r_type copy) t_dismount_vol).
      * eapply hoare_bind; [cnt_pool|intros ?; cbv beta]. cnt_ret.
      * eapply hoare_bind; [cnt_pool|intros ?; cbv beta]. cnt_ret.
    + intros v'. apply IH.
Qed.

Lemma analysis_sweep_in_doubt_count e t v s t' v' s' :
  analysis_sweep e t v s = Ok ((t', v'), s') ->
  in_doubt_count v' = in_doubt_count v /\ pool s' = pool s.
Proof.
  revert v s t' v' s'.
  induction t as [|xd t IH]; intros v s t' v' s' H; simpl in H.
  - minv. simplify_eq. split; reflexivity.
  - destruct (bool_decide (x_state xd = xct_active)).
    + apply bind_inv_Ok in H. destruct H as ([t1 v1] & s1 & Hrec & H).
      apply ret_inv_Ok in H. destruct H as [H ->]. simplify_eq.
      apply IH in Hrec. destruct Hrec as [Hc Hp]. cbn [snd].
      split; [rewrite Hc|exact Hp].
      destruct (use_serial_recovery e);
        destruct (N.ltb (x_first_lsn xd) (commit_lsn v)); reflexivity.
    + destruct (bool_decide (x_state xd = xct_ended)); [|discriminate H].
      apply bind_inv_Ok in H. destruct H as (u & s1 & Hu & H).
      unfold emit in Hu. apply modify_inv_Ok in Hu. subst s1.
      apply IH in H. exact H.
Qed.

Lemma analysis_finish_counted e max_lsn :
  counted_step (analysis_finish e max_lsn).
Proof.
  intros v s v' s' H Hp. unfold analysis_finish in H.
  apply bind_inv_Ok in H. destruct H as (t & s2 & Hg & H).
  apply gets_inv_Ok in Hg. destruct Hg as [-> ->].
  apply bind_inv_Ok in H. destruct H as ([t' v2] & s2 & Hsw & H).
  apply bind_inv_Ok in H. destruct H as (u & s3 & Hmod & H).
  apply modify_inv_Ok in Hmod. cbn [fst snd] in *.
  destruct (use_concurrent_lock_recovery e); [discriminate H|].
  apply ret_inv_Ok in H. destruct H as [Hv ->].
  apply analysis_sweep_in_doubt_count in Hsw. destruct Hsw as [Hc Hpool].
  unfold pool in Hpool. injection Hpool as Hh Hcb.
  assert (Hc' : in_doubt_count v' = in_doubt_count v).
  { subst v'. destruct (use_serial_recovery e); destruct (N.eqb _ _);
      cbn [in_doubt_count set_commit_lsn set_heap]; exact Hc. }
  rewrite Hc'. eapply bf_counted_pool; [| |exact Hp]; subst s3; assumption.
Qed.

Lemma analysis_pass_counted e fuel master v0 s v s' :
  analysis_pass e fuel master v0 s = Ok (v, s') ->
  bf_wf s ->
  in_doubt_frames s = 0%nat ->
  bf_wf s'
  /\ in_doubt_count v = N.of_nat (in_doubt_frames s') mod uint32_modulus.
Proof.
  intros H Hwf H0.
  assert (Hpre : bf_counted 0 s).
  { split; [exact Hwf|]. rewrite H0. reflexivity. }
  revert H Hpre. change (bf_counted 0 s -> bf_counted (in_doubt_count v) s')
    with ((fun s => bf_counted 0 s) s ->
          (fun v s' => bf_counted (in_doubt_count v) s') v s').
  generalize s v s'. 
  change (hoare (bf_counted 0) (analysis_pass e fuel master v0)
                (fun v s' => bf_counted (in_doubt_count v) s')).
  unfold analysis_pass, set_mode.
  eapply hoare_bind; [cnt_pool|intros ?; cbv beta].
  eapply hoare_bind; [cnt_pool|intros ?; cbv beta].
  destruct (N.eqb master lsn_null); [cnt_ret|].
  eapply hoare_bind; [cnt_pool|intros c; cbv beta].
  destruct (log_scan (the_log e) master) as [|[lsn r] rest];
    [apply hoare_fatal|].
  destruct (negb (kind_eqb (r_type r) t_chkpt_begin)); [apply hoare_fatal|].
  apply (hoare_bind _ (fun v' => bf_counted (in_doubt_count v'))).
  { apply (analysis_scan_counted e master (lsn_advance c 1) rest
             (set_commit_lsn (lsn_advance c 1)
                (Avars lsn_null lsn_null lsn_null 0 (commit_lsn v0) (heap v0)
                       lsn_null false 0))). }
  intros v1.
  destruct (N.eqb lsn_null (redo_lsn v1)); [apply hoare_fatal|].
  destruct (N.eqb lsn_null (undo_lsn v1)); [apply hoare_fatal|].
  apply (hoare_bind _ (fun lv => bf_counted (in_doubt_count (snd lv)))).
  { destruct (negb (N.eqb 0 (in_doubt_count _))).
    - eapply hoare_weaken; [apply mount_chase_counted| |auto].
      intros s1 Hs1.
      repeat match goal with
             | |- context [if ?b then _ else _] => destruct b
             end; exact Hs1.
    - apply hoare_ret. intros s1 Hs1. cbn [snd].
      repeat match goal with
             | |- context [if ?b then _ else _] => destruct b
             end; exact Hs1. }
  intros lv.
  eapply hoare_bind; [cnt_pool|intros ?; cbv beta].
  apply analysis_finish_counted.
Qed.

(** X4. When Log Analysis returns, the [in_doubt_count] it hands back is the
    number of in_doubt frames in the buffer pool (as a 32-bit counter), if
    the pool held no in_doubt frame when it started. *)
Theorem analysis_pass_counts_in_doubt_frames e fuel master v0 s v s' :
  analysis_pass e fuel master v0 s = Ok (v, s') ->
  bf_wf s ->
  in_doubt_frames s = 0%nat ->
  bf_wf s'
  /\ in_doubt_count v = N.of_nat (in_doubt_frames s') mod uint32_modulus.
Proof. apply analysis_pass_counted. Qed.

Lemma analysis_pass_counts_in_doubt_frames_witness :
  exists v s',
    analysis_pass (mk_env false log_interleaved) 100 500 avars_init
                  (sm_start false 700) = Ok (v, s')
    /\ in_doubt_count v = 2
    /\ bf_wf s'
    /\ in_doubt_count v = N.of_nat (in_doubt_frames s') mod uint32_modulus.
Proof.
  eexists _, _. split; [vm_compute; reflexivity|].
  split; [reflexivity|].
  apply (analysis_pass_counts_in_doubt_frames
           (mk_env false log_interleaved) 100 500 avars_init
           (sm_start false 700)).
  - vm_compute. reflexivity.
  - apply bf_wfb_spec. vm_compute. reflexivity.
  - vm_compute. reflexivity.
Defined.

(** ** Log driven REDO and the in_doubt frames *)

Lemma pres_cb_modify_same f idx :
  (forall cb, cb_in_doubt (f cb) = cb_in_doubt cb) ->
  pres in_doubt_frames (cb_modify f idx).
Proof.
  intros Hf. unfold cb_modify. apply pres_modify. intros s.
  unfold in_doubt_frames. sm_proj. apply count_in_doubt_alter_same, Hf.
Qed.

Ltac frames_go :=
  repeat first
    [ assumption
    | apply pres_ret | apply pres_gets | apply pres_fatal | apply pres_diverge
    | apply pres_bind; [|intros ?]
    | apply pres_cb_modify_same; intros ?;
      repeat match goal with
             | |- context [if ?b then _ else _] => destruct b
             end; reflexivity
    | apply pres_modify; intros; reflexivity
    | match goal with
      | |- pres _ (when ?b _) => destruct b; unfold when
      | |- pres _ (if ?b then _ else _) => destruct b
      | |- pres _ (match ?x with _ => _ end) => destruct x
      end ].

Ltac frames_prim :=
  unfold load_for_redo, lookup_in_doubt, is_in_doubt, is_dirty, is_used,
    cb_flag, page_lsn_of, xct_look_up, coerce, call, emit.

Lemma hoare_frames {A} n dc (c : M A) :
  pres in_doubt_frames c -> hoare (redo_inv n dc) c (fun _ => redo_inv n dc).
Proof.
  intros Hc s a s' Hr Hp. unfold redo_inv in *. rewrite (Hc s a s' Hr). exact Hp.
Qed.

Lemma in_doubt_to_dirty_frames idx s u s' :
  in_doubt_to_dirty idx s = Ok (u, s') ->
  from_option cb_in_doubt false (cbs s !! idx) = true ->
  S (in_doubt_frames s') = in_doubt_frames s.
Proof.
  unfold in_doubt_to_dirty, cb_modify, emit. intros H Hd. mrun_in H.
  injection H as H. subst s'. unfold in_doubt_frames. sm_proj.
  pose proof (count_in_doubt_alter (with_flags false true true) (cbs s) idx)
    as Hcnt.
  destruct (cbs s !! idx) as [cb|]; [|discriminate Hd].
  simpl in Hd, Hcnt. rewrite Hd in Hcnt. simpl in Hcnt. lia.
Qed.

Lemma redo_page_compare_inv e r lsn end_lsn idx virgin n dc :
  N.of_nat n < uint32_modulus ->
  hoare (redo_inv n dc) (redo_page_compare e r lsn end_lsn idx virgin dc)
        (fun res => redo_inv n (snd res)).
Proof.
  intros Hn. unfold redo_page_compare.
  eapply hoare_bind; [apply hoare_frames; frames_prim; frames_go|].
  intros page_lsn. cbv beta.
  eapply hoare_bind; [apply hoare_frames; frames_prim; frames_go|].
  intros redone. cbv beta.
  intros s res s' H Hinv.
  unfold is_in_doubt, cb_flag in H. mrun_in H.
  destruct (redone && _) eqn:Hrd.
  - apply andb_true_iff in Hrd. destruct Hrd as [_ Hd].
    apply bind_inv_Ok in H. destruct H as (u & s1 & Hdirty & H).
    apply ret_inv_Ok in H. destruct H as [Hres Hs]. subst res s'. cbn [snd].
    apply in_doubt_to_dirty_frames in Hdirty.
    2:{ destruct (cbs s !! idx); [exact Hd|discriminate Hd]. }
    unfold redo_inv in *. unfold u32_incr.
    assert (Hdc : dc + 1 < uint32_modulus) by lia.
    rewrite N.mod_small by exact Hdc. lia.
  - apply ret_inv_Ok in H. destruct H as [Hres Hs]. subst res s'. exact Hinv.
Qed.

Lemma redo_log_with_pid_inv e r lsn end_lsn pid n dc :
  N.of_nat n < uint32_modulus ->
  hoare (redo_inv n dc) (_redo_log_with_pid e r lsn end_lsn pid dc)
        (fun res => redo_inv n (snd res)).
Proof.
  intros Hn. unfold _redo_log_with_pid.
  eapply hoare_bind; [apply hoare_frames; frames_prim; frames_go|].
  intros idx. cbv beta.
  destruct (negb (N.eqb 0 idx)).
  2:{ destruct (negb (is_page_deallocate r)); [apply hoare_fatal|].
      apply hoare_ret. auto. }
  destruct (negb (latch_ok e idx)); [apply hoare_fatal|].
  eapply hoare_bind; [apply hoare_frames; frames_prim; frames_go|].
  intros in_doubt. cbv beta.
  eapply hoare_bind; [apply hoare_frames; frames_prim; frames_go|].
  intros dirty. cbv beta.
  destruct (in_doubt || dirty).
  - eapply hoare_bind; [apply hoare_frames; frames_prim; frames_go|].
    intros corrupted. cbv beta.
    eapply hoare_bind; [apply hoare_frames; frames_prim; frames_go|].
    intros ?. cbv beta.
    eapply hoare_bind; [apply hoare_frames; frames_prim; frames_go|].
    intros ?. cbv beta.
    eapply hoare_bind; [apply hoare_frames; frames_prim; frames_go|].
    intros ?. cbv beta.
    apply redo_page_compare_inv, Hn.
  - destruct (is_page_allocate r); [apply hoare_ret; auto|].
    destruct (is_page_deallocate r); [apply hoare_fatal|].
    eapply hoare_bind; [apply hoare_frames; frames_prim; frames_go|].
    intros used. cbv beta.
    destruct used; [apply hoare_fatal|apply hoare_ret; auto].
Qed.

Lemma redo_scan_inv e serial end_lsn l n :
  N.of_nat n < uint32_modulus ->
  forall dc,
    hoare (redo_inv n dc) (redo_scan e serial end_lsn l dc)
          (fun dc' => redo_inv n dc').
Proof.
  intros Hn. induction l as [|[lsn r] l IH]; intros dc; simpl.
  - apply hoare_ret. auto.
  - destruct (_ && _); [apply hoare_ret; auto|].
    destruct (negb (valid_header r lsn)); [apply hoare_fatal|].
    apply (hoare_bind _ (fun dc' => redo_inv n dc')); [|intros dc'; apply IH].
    destruct (r_is_redo r); [|apply hoare_ret; auto].
    destruct (null_pid r).
    + eapply hoare_bind.
      * apply hoare_frames.
        apply pres_redo_no_page with (okev := fun _ => true);
          intros; reflexivity.
      * intros ?. cbv beta. apply hoare_ret. auto.
    + eapply hoare_bind; [apply redo_log_with_pid_inv, Hn|].
      intros res. cbv beta.
      destruct (r_is_multi_page r); [|apply hoare_ret; auto].
      eapply hoare_bind; [apply redo_log_with_pid_inv, Hn|].
      intros res2. cbv beta. apply hoare_ret. auto.
Qed.

Lemma count_in_doubt_zero c :
  count_in_doubt c = 0%nat ->
  forall idx cb, c !! idx = Some cb -> cb_in_doubt cb = false.
Proof.
  unfold count_in_doubt. intros H idx cb Hcb.
  apply map_size_empty_inv in H.
  destruct (cb_in_doubt cb) eqn:Hd; [|reflexivity]. exfalso.
  eapply (map_filter_empty_not_lookup _ c idx cb); eauto.
Qed.

Lemma redo_log_pass_in_doubt_zero e redo_lsn end_logscan_lsn idc s u s' :
  redo_log_pass e redo_lsn end_logscan_lsn idc s = Ok (u, s') ->
  idc = N.of_nat (in_doubt_frames s) ->
  idc < uint32_modulus ->
  in_doubt_frames s' = 0%nat.
Proof.
  intros H Hidc Hlt.
  unfold redo_log_pass, emit in H. mrun_in H.
  destruct (N.eqb_spec 0 idc) as [E|E].
  - injection H as H. subst s'. unfold in_doubt_frames in *. sm_proj. lia.
  - destruct (negb (use_redo_log_recovery e)); [discriminate H|].
    apply bind_inv_Ok in H. destruct H as (dc & s1 & Hscan & H).
    destruct (N.eqb_spec idc dc) as [Edc|Edc]; cbn [negb] in H;
      [|discriminate H].
    apply ret_inv_Ok in H. destruct H as [_ ->].
    assert (Hn : N.of_nat (in_doubt_frames s) < uint32_modulus)
      by (subst idc; exact Hlt).
    pose proof (redo_scan_inv e _ _ _ (in_doubt_frames s) Hn 0 _ _ _ Hscan)
      as Hinv.
    assert (Hpre : redo_inv (in_doubt_frames s) 0
                     (add_event (EvFunc f_redo_pass) s))
      by (unfold redo_inv, in_doubt_frames; sm_proj; simpl; lia).
    specialize (Hinv Hpre). unfold redo_inv in Hinv.
    subst dc idc. rewrite Nat2N.id in Hinv. lia.
Qed.

(** X5. Log driven REDO entered with the number of in_doubt frames as
    [in_doubt_count]: when it returns, no frame of the buffer pool is
    in_doubt. *)
Theorem redo_log_pass_leaves_no_in_doubt_frame
    e redo_lsn end_logscan_lsn idc s u s' :
  redo_log_pass e redo_lsn end_logscan_lsn idc s = Ok (u, s') ->
  idc = N.of_nat (in_doubt_frames s) ->
  idc < uint32_modulus ->
  in_doubt_frames s' = 0%nat
  /\ forall idx cb, cbs s' !! idx = Some cb -> cb_in_doubt cb = false.
Proof.
  intros H Hidc Hlt.
  pose proof (redo_log_pass_in_doubt_zero _ _ _ _ _ _ _ H Hidc Hlt) as H0.
  split; [exact H0|]. apply count_in_doubt_zero, H0.
Qed.

Lemma redo_log_pass_leaves_no_in_doubt_frame_witness :
  let e := mk_env true log_interleaved in
  let s := sm_two_doomed in
  in_doubt_frames s = 2%nat
  /\ exists s',
       redo_log_pass e 500 700 2 s = Ok (tt, s')
       /\ in_doubt_frames s' = 0%nat
       /\ forall idx cb, cbs s' !! idx = Some cb -> cb_in_doubt cb = false.
Proof.
  intros e s. split; [vm_compute; reflexivity|].
  eexists. split; [vm_compute; reflexivity|].
  apply (redo_log_pass_leaves_no_in_doubt_frame e 500 700 2 s tt).
  - vm_compute. reflexivity.
  - vm_compute. reflexivity.
  - reflexivity.
Defined.

(** ** Transaction driven UNDO and the other transactions *)

Lemma rollback_loop_tab_step e fuel tid save :
  forall s a s',
    rollback_loop e fuel tid save s = Ok (a, s') ->
    tab_step tid (xct_tab s) (xct_tab s').
Proof.
  induction fuel as [|fuel IH]; intros s a s' H; simpl in H; mrun_in H.
  - destruct (_ || _); [|discriminate H].
    apply ret_inv_Ok in H. destruct H as [_ ->]. apply tab_step_refl.
  - destruct (_ || _).
    { apply ret_inv_Ok in H. destruct H as [_ ->]. apply tab_step_refl. }
    destruct (log_fetch _ _) as [r|]; [|discriminate H].
    unfold call, emit, set_undo_nxt, xct_modify in H. mrun_in H.
    apply IH in H. sm_proj_in H.
    eapply tab_step_trans; [|exact H]. apply tab_step_alter. reflexivity.
Qed.

Lemma abort_tab_step e fuel tid s a s' :
  abort e fuel tid s = Ok (a, s') -> tab_step tid (xct_tab s) (xct_tab s').
Proof.
  unfold abort, coerce, call, emit, change_state, xct_modify. intros H.
  mrun_in H.
  destruct (rc_ok e (EvAbort tid)); [|discriminate H].
  cbv iota in H. mrun_in H.
  apply bind_inv_Ok in H. destruct H as (u & s1 & Hr & H).
  apply rollback_loop_tab_step in Hr. sm_proj_in Hr.
  mrun_in H. injection H as H. subst s'. sm_proj.
  eapply tab_step_trans; [exact Hr|]. apply tab_step_alter. reflexivity.
Qed.

Lemma look_up_In tid t x : look_up tid t = Some x -> In x t /\ x_tid x = tid.
Proof.
  unfold look_up. intros H. apply find_some in H.
  destruct H as [Hin Heq]. apply N.eqb_eq in Heq. auto.
Qed.

Lemma look_up_NoDup t x :
  NoDup (List.map x_tid t) -> In x t -> look_up (x_tid x) t = Some x.
Proof.
  unfold look_up. induction t as [|y t IH]; simpl; [tauto|].
  intros Hnd Hin. apply NoDup_cons in Hnd. destruct Hnd as [Hy Hnd].
  destruct Hin as [->|Hin].
  - rewrite N.eqb_refl. reflexivity.
  - destruct (N.eqb_spec (x_tid y) (x_tid x)) as [E|E]; [|apply IH; assumption].
    exfalso. apply Hy. rewrite E. apply list_elem_of_In, in_map, Hin.
Qed.

(** What the walk does to the table: a transaction of another tid than
    those of the doomed active transactions with an [undo_nxt] is found as
    before; and a doomed active transaction with an [undo_nxt] that is not
    a system transaction is no longer found. *)
Lemma undo_txn_walk_table e fuel t :
  forall s u s',
    undo_txn_walk e fuel t s = Ok (u, s') ->
    (forall tid,
        (forall x, In x t -> doomed_active x = true ->
                   x_undo_nxt x <> lsn_null -> x_tid x <> tid) ->
        look_up tid (xct_tab s') = look_up tid (xct_tab s))
    /\ (NoDup (List.map x_tid t) ->
        NoDup (List.map x_tid (xct_tab s)) ->
        (NoDup (List.map x_tid (xct_tab s'))
         /\ forall x, In x t -> doomed_active x = true ->
                      x_undo_nxt x <> lsn_null -> x_is_sys_xct x = false ->
                      look_up (x_tid x) (xct_tab s') = None)).
Proof.
  induction t as [|curr t IH]; intros s u s' H; cbn [undo_txn_walk] in H.
  - apply ret_inv_Ok in H. destruct H as [_ ->].
    split; [reflexivity|]. intros _ Hnd. split; [exact Hnd|]. intros x [].
  - apply bind_inv_Ok in H. destruct H as (u1 & s1 & Hhd & H).
    destruct (IH _ _ _ H) as [Hother Hgone]. clear IH.
    assert (Hstep :
      (forall tid,
          (doomed_active curr = true -> x_undo_nxt curr <> lsn_null ->
           x_tid curr <> tid) ->
          look_up tid (xct_tab s1) = look_up tid (xct_tab s))
      /\ (NoDup (List.map x_tid (xct_tab s)) ->
          NoDup (List.map x_tid (xct_tab s1))
          /\ (doomed_active curr = true -> x_undo_nxt curr <> lsn_null ->
              x_is_sys_xct curr = false ->
              look_up (x_tid curr) (xct_tab s1) = None))).
    { destruct (doomed_active curr) eqn:Hda.
      2:{ apply ret_inv_Ok in Hhd. destruct Hhd as [_ ->].
          split; [reflexivity|]. intros Hnd. split; [exact Hnd|discriminate]. }
      destruct (N.eqb_spec lsn_null (x_undo_nxt curr)) as [E|E];
        cbn [negb] in Hhd.
      { apply ret_inv_Ok in Hhd. destruct Hhd as [_ ->].
        split; [reflexivity|]. intros Hnd. split; [exact Hnd|].
        intros _ Hn. congruence. }
      destruct (x_is_sys_xct curr) eqn:Hsys.
      - unfold set_undo_nxt, xct_modify in Hhd. apply modify_inv_Ok in Hhd.
        subst s1. sm_proj.
        pose proof (tab_step_alter (with_undo_nxt lsn_null) (x_tid curr)
                      (xct_tab s) ltac:(reflexivity)) as [Hmap Hlook].
        split.
        + intros tid Hne. apply Hlook. intros ->. apply (Hne eq_refl); congruence.
        + intros Hnd. rewrite Hmap. split; [exact Hnd|discriminate].
      - apply bind_inv_Ok in Hhd. destruct Hhd as (u2 & s2 & Hab & Hd).
        apply abort_tab_step in Hab. destruct Hab as [Hmap Hlook].
        unfold destroy_xct, emit in Hd. mrun_in Hd. injection Hd as Hd.
        subst s1. sm_proj. split.
        + intros tid Hne.
          assert (Hne' : tid <> x_tid curr)
            by (intros ->; apply (Hne eq_refl); congruence).
          rewrite look_up_remove_ne by exact Hne'. apply Hlook, Hne'.
        + intros Hnd. split.
          * apply NoDup_remove. rewrite Hmap. exact Hnd.
          * intros _ _ _. apply look_up_remove_eq. rewrite Hmap. exact Hnd. }
    destruct Hstep as [Hother1 Hgone1]. split.
    + intros tid Hne. rewrite Hother.
      * apply Hother1. intros Hda Hn. apply Hne; [left; reflexivity|assumption..].
      * intros x Hx. apply Hne. right. exact Hx.
    + intros Hndt Hnd. apply NoDup_cons in Hndt. destruct Hndt as [Hcurr Hndt].
      destruct (Hgone1 Hnd) as [Hnd1 Hc1].
      destruct (Hgone Hndt Hnd1) as [Hnd' Hrest].
      split; [exact Hnd'|].
      intros x [<-|Hx] Hda Hn Hsys.
      * rewrite Hother; [apply Hc1; assumption|].
        intros y Hy _ _ Heq. apply Hcurr. rewrite <- Heq.
        apply list_elem_of_In, in_map, Hy.
      * apply Hrest; assumption.
Qed.

Lemma undo_txn_pass_table e fuel s u s' :
  _undo_txn_pass e fuel s = Ok (u, s') ->
  NoDup (List.map x_tid (xct_tab s)) ->
  (forall x, In x (xct_tab s) -> doomed_active x = true ->
             x_undo_nxt x <> lsn_null -> x_is_sys_xct x = false ->
             look_up (x_tid x) (xct_tab s') = None)
  /\ (forall x, In x (xct_tab s) -> doomed_active x = false ->
                look_up (x_tid x) (xct_tab s') = Some x)
  /\ (xct_tab s <> [] ->
      commit_lsn_global s' = lsn_null /\ last (trace s') = Some EvFlushAll)
  /\ (xct_tab s = [] -> s' = s).
Proof.
  intros H Hnd. unfold _undo_txn_pass, num_active_xcts in H. mrun_in H.
  destruct (xct_tab s) as [|x0 t0] eqn:Ht.
  { simpl in H. apply ret_inv_Ok in H. destruct H as [_ ->].
    rewrite Ht. repeat split; try tauto; intros x []. }
  rewrite <- Ht in *.
  assert (Hlen : N.eqb 0 (N.of_nat (length (xct_tab s))) = false)
    by (rewrite Ht; reflexivity).
  rewrite Hlen in H. unfold call, coerce, emit in H. mrun_in H.
  apply bind_inv_Ok in H. destruct H as (u1 & s1 & Hw & H).
  mrun_in H. destruct (rc_ok e EvFlushAll); [|discriminate H].
  cbv iota in H. mrun_in H. injection H as H. subst s'. sm_proj.
  apply undo_txn_walk_table in Hw. sm_proj_in Hw. destruct Hw as [Hother Hgone].
  destruct (Hgone Hnd Hnd) as [_ Hg].
  split; [exact Hg|]. split; [|split].
  - intros x Hx Hda. rewrite Hother.
    + apply look_up_NoDup; assumption.
    + intros y Hy Hyda _ Heq.
      assert (y = x); [|congruence].
      pose proof (look_up_NoDup _ _ Hnd Hx) as H1.
      pose proof (look_up_NoDup _ _ Hnd Hy) as H2.
      rewrite Heq in H2. congruence.
  - intros _. split; [reflexivity|]. apply last_snoc.
  - rewrite Ht. discriminate.
Qed.

(** X6. When transaction driven UNDO returns: the doomed active transactions
    that had records to undo (and are not system transactions) are gone from
    the table; a transaction that is not a doomed active one (one that
    started after the system was opened) is in the table as it was; and
    unless the table was empty, the log was flushed last and the global
    [commit_lsn] is null. With an empty table nothing is done. *)
Theorem undo_txn_pass_spares_other_transactions e fuel s u s' :
  _undo_txn_pass e fuel s = Ok (u, s') ->
  NoDup (List.map x_tid (xct_tab s)) ->
  (forall x, In x (xct_tab s) -> doomed_active x = true ->
             x_undo_nxt x <> lsn_null -> x_is_sys_xct x = false ->
             look_up (x_tid x) (xct_tab s') = None)
  /\ (forall x, In x (xct_tab s) -> doomed_active x = false ->
                look_up (x_tid x) (xct_tab s') = Some x)
  /\ (xct_tab s <> [] ->
      commit_lsn_global s' = lsn_null /\ last (trace s') = Some EvFlushAll)
  /\ (xct_tab s = [] -> s' = s).
Proof. apply undo_txn_pass_table. Qed.

Lemma undo_txn_pass_spares_other_transactions_witness :
  let e := mk_env false log_interleaved in
  let s := sm_open in
  List.map x_tid (xct_tab s) = [8; 7]
  /\ exists s',
       _undo_txn_pass e 100 s = Ok (tt, s')
       /\ (forall x, In x (xct_tab s) -> doomed_active x = true ->
                     x_undo_nxt x <> lsn_null -> x_is_sys_xct x = false ->
                     look_up (x_tid x) (xct_tab s') = None)
       /\ (forall x, In x (xct_tab s) -> doomed_active x = false ->
                     look_up (x_tid x) (xct_tab s') = Some x)
       /\ (xct_tab s <> [] ->
           commit_lsn_global s' = lsn_null
           /\ last (trace s') = Some EvFlushAll)
       /\ (xct_tab s = [] -> s' = s).
Proof.
  intros e s. split; [vm_compute; reflexivity|].
  eexists. split; [vm_compute; reflexivity|].
  apply (undo_txn_pass_spares_other_transactions e 100 s tt).
  - vm_compute. reflexivity.
  - apply (bool_decide_unpack _). vm_compute. exact I.
Defined.

(** ** Page driven REDO *)

Ltac cb_simpl_in H :=
  cbn [fmap option_fmap option_map cb_page_lsn cb_in_doubt cb_dirty cb_used
       cb_rec_lsn cb_pid_vol cb_store_num cb_pid_shpid
       with_page_lsn with_pid with_flags with_rec_lsn
       negb andb orb default from_option id fst snd] in H.

Lemma redo_page_frame_in_doubt ce i root s r s' cb :
  redo_page_frame ce i root s = Ok (r, s') ->
  cbs s !! i = Some cb -> cb_in_doubt cb = true ->
  hashtable s !! cb_key cb = Some i -> i <> 0 ->
  beside_frames s' = beside_frames s
  /\ (forall j, j <> i -> cbs s' !! j = cbs s !! j)
  /\ frame_redone (Some cb) (cbs s' !! i).
Proof.
  intros H Hcb Hd Hk Hi0. unfold redo_page_frame in H.
  destruct (latch_ok (c_env ce) i) eqn:Hlatch; [|discriminate H].
  cbn [negb] in H. mrun_in H. rewrite Hcb, Hd in H.
  unfold lookup_in_doubt in H. mrun_in H.
  unfold cb_key in Hk. rewrite Hk in H. cbn [default id] in H.
  destruct (N.eqb_spec 0 i) as [E|_]; [congruence|].
  unfold load_for_redo, coerce, when, page_lsn_of, in_doubt_to_dirty,
    cb_modify, emit in H.
  mrun_in H.
  destruct (disk_read (c_env ce) (cb_pid_vol cb) (cb_pid_shpid cb));
    mrun_in H; try discriminate H.
  all: destruct (rc_ok (c_env ce) (EvFix i)); mrun_in H; try discriminate H.
  all: cbn [fst snd orb] in H; mrun_in H.
  all: rewrite ?lookup_alter_eq, ?Hcb in H; cb_simpl_in H.
  all: match type of H with
       | context [negb (N.eqb ?a ?b)] => destruct (negb (N.eqb a b))
       end; mrun_in H.
  all: destruct (spr_result (c_env ce) i (dependency_lsn ce i)) as [l|];
    mrun_in H; try discriminate H.
  all: injection H as _ <-.
  all: split; [reflexivity|]; split;
    [intros j Hj; sm_proj; rewrite !lookup_alter_ne by congruence; reflexivity|].
  all: sm_proj; rewrite !lookup_alter_eq, Hcb; simpl; rewrite Hd.
  all: eexists; split; [reflexivity|]; simpl.
  all: repeat split; try reflexivity.
  all: destruct (N.ltb_spec l (cb_rec_lsn cb)); simpl; lia.
Qed.

Lemma frame_redone_wf s s' i :
  bf_wf s ->
  hashtable s' = hashtable s ->
  (forall j, j <> i -> cbs s' !! j = cbs s !! j) ->
  frame_redone (cbs s !! i) (cbs s' !! i) ->
  bf_wf s'.
Proof.
  intros [Hwf1 Hwf2] Hh Hother Hi. unfold frame_redone in Hi. split.
  - intros k j Hk. rewrite Hh in Hk.
    destruct (Hwf1 _ _ Hk) as (Hj0 & cb & Hcb & Hu & Hkey).
    split; [exact Hj0|].
    destruct (decide (j = i)) as [->|Hne].
    + rewrite Hcb in Hi. destruct (cb_in_doubt cb).
      * destruct Hi as (cb' & Hcb' & _ & _ & Hu' & _ & _ & Hv & _ & Hp).
        exists cb'. repeat split; try assumption.
        unfold cb_key in *. rewrite Hv, Hp. exact Hkey.
      * exists cb. rewrite Hi. auto.
    + exists cb. rewrite Hother by exact Hne. auto.
  - intros j cb' Hj Hd. rewrite Hh.
    destruct (decide (j = i)) as [->|Hne].
    + destruct (cbs s !! i) as [cb|] eqn:Hcb.
      * destruct (cb_in_doubt cb) eqn:Hd0.
        -- destruct Hi as (cb'' & Hcb'' & Hnd & _). congruence.
        -- rewrite Hi in Hj. injection Hj as <-. congruence.
      * congruence.
    + rewrite Hother in Hj by exact Hne. eapply Hwf2; eauto.
Qed.

Lemma redo_page_frame_spec ce i root s r s' :
  redo_page_frame ce i root s = Ok (r, s') ->
  bf_wf s ->
  latch_ok (c_env ce) i = true
  /\ beside_frames s' = beside_frames s
  /\ (forall j, j <> i -> cbs s' !! j = cbs s !! j)
  /\ frame_redone (cbs s !! i) (cbs s' !! i)
  /\ bf_wf s'.
Proof.
  intros H Hwf.
  assert (Hlatch : latch_ok (c_env ce) i = true).
  { unfold redo_page_frame in H.
    destruct (latch_ok (c_env ce) i); [reflexivity|discriminate H]. }
  split; [exact Hlatch|].
  assert (Hmain : beside_frames s' = beside_frames s
                  /\ (forall j, j <> i -> cbs s' !! j = cbs s !! j)
                  /\ frame_redone (cbs s !! i) (cbs s' !! i)).
  { destruct (cbs s !! i) as [cb|] eqn:Hcb.
    - destruct (cb_in_doubt cb) eqn:Hd.
      + destruct Hwf as [Hwf1 Hwf2].
        pose proof (Hwf2 _ _ Hcb Hd) as Hk.
        destruct (Hwf1 _ _ Hk) as [Hi0 _].
        eapply redo_page_frame_in_doubt; eassumption.
      + unfold redo_page_frame in H. rewrite Hlatch in H. cbn [negb] in H.
        mrun_in H. rewrite Hcb, Hd in H.
        apply ret_inv_Ok in H. destruct H as [_ ->].
        unfold frame_redone. rewrite Hd. auto.
    - unfold redo_page_frame in H. rewrite Hlatch in H. cbn [negb] in H.
      mrun_in H. rewrite Hcb in H.
      apply ret_inv_Ok in H. destruct H as [_ ->]. simpl. auto. }
  destruct Hmain as (Hb & Ho & Hf).
  split; [exact Hb|]. split; [exact Ho|]. split; [exact Hf|].
  eapply frame_redone_wf; [exact Hwf| |exact Ho|exact Hf].
  unfold beside_frames in Hb. congruence.
Qed.

Lemma frame_redone_id o : 
  match o with Some cb => cb_in_doubt cb = false | None => True end ->
  frame_redone o o.
Proof.
  destruct o as [cb|]; simpl; [|reflexivity]. intros ->. reflexivity.
Qed.

Lemma redo_page_loop_spec ce n :
  forall i root s u s',
    redo_page_loop ce n i root s = Ok (u, s') ->
    bf_wf s ->
    bf_wf s'
    /\ beside_frames s' = beside_frames s
    /\ (forall j, i <= j < i + N.of_nat n ->
                  latch_ok (c_env ce) j = true
                  /\ frame_redone (cbs s !! j) (cbs s' !! j))
    /\ (forall j, ~ (i <= j < i + N.of_nat n) -> cbs s' !! j = cbs s !! j).
Proof.
  induction n as [|n IH]; intros i root s u s' H Hwf; simpl in H.
  - apply ret_inv_Ok in H. destruct H as [_ ->].
    split; [exact Hwf|]. split; [reflexivity|]. split.
    + intros j Hj. lia.
    + reflexivity.
  - apply bind_inv_Ok in H. destruct H as (root' & s1 & Hf & H).
    apply redo_page_frame_spec in Hf; [|exact Hwf].
    destruct Hf as (Hlatch & Hb1 & Ho1 & Hf1 & Hwf1).
    destruct (IH _ _ _ _ _ H Hwf1) as (Hwf' & Hb & Hin & Hout).
    split; [exact Hwf'|]. split; [congruence|]. split.
    + intros j Hj. destruct (N.eq_dec j i) as [->|Hne].
      * split; [exact Hlatch|]. rewrite Hout by lia. exact Hf1.
      * destruct (Hin j) as [Hl Hr]; [lia|]. split; [exact Hl|].
        rewrite <- (Ho1 j Hne). exact Hr.
    + intros j Hj. rewrite Hout by lia. apply Ho1. lia.
Qed.

Lemma redo_page_pass_spec ce s u s' :
  _redo_page_pass ce s = Ok (u, s') ->
  g_in_doubt_count ce <> 0 ->
  bf_wf s ->
  bf_wf s'
  /\ beside_frames s' = beside_frames s
  /\ (forall j, 1 <= j < block_cnt (c_env ce) ->
                latch_ok (c_env ce) j = true
                /\ frame_redone (cbs s !! j) (cbs s' !! j))
  /\ (forall j, ~ (1 <= j < block_cnt (c_env ce)) ->
                cbs s' !! j = cbs s !! j).
Proof.
  intros H Hidc Hwf. unfold _redo_page_pass in H.
  destruct (N.eqb_spec 0 (g_in_doubt_count ce)) as [E|_]; [congruence|].
  unfold call, emit in H. mrun_in H.
  apply redo_page_loop_spec in H; [|exact Hwf].
  destruct H as (Hwf' & Hb & Hin & Hout).
  split; [exact Hwf'|]. split; [exact Hb|]. split.
  - intros j Hj. apply Hin. lia.
  - intros j Hj. apply Hout. lia.
Qed.

Lemma frame_redone_not_in_doubt o cb' :
  frame_redone o (Some cb') -> cb_in_doubt cb' = false.
Proof.
  unfold frame_redone. destruct o as [cb|]; [|discriminate].
  destruct (cb_in_doubt cb) eqn:Hd.
  - intros (cb'' & [= <-] & Hnd & _). exact Hnd.
  - intros [= <-]. exact Hd.
Qed.

(** X7. Page driven REDO on a buffer pool whose hash table and control
    blocks agree, when [in_doubt_count] is not zero. When it returns, every
    frame from 1 to [block_cnt - 1] could be latched and none of them is
    in_doubt; a frame that was in_doubt holds the same page, is dirty and in
    use, and its [rec_lsn] is not above the LSN of the page nor above what
    it was; every other frame is as it was. The hash table, the transaction
    table and the operating mode are as they were, and the hash table and
    the control blocks still agree. *)
Theorem redo_page_pass_recovers_in_doubt_frames ce s u s' :
  _redo_page_pass ce s = Ok (u, s') ->
  g_in_doubt_count ce <> 0 ->
  bf_wf s ->
  bf_wf s'
  /\ beside_frames s' = beside_frames s
  /\ (forall j, 1 <= j < block_cnt (c_env ce) ->
                latch_ok (c_env ce) j = true
                /\ frame_redone (cbs s !! j) (cbs s' !! j)
                /\ from_option cb_in_doubt false (cbs s' !! j) = false)
  /\ (forall j, ~ (1 <= j < block_cnt (c_env ce)) ->
                cbs s' !! j = cbs s !! j).
Proof.
  intros H Hidc Hwf.
  destruct (redo_page_pass_spec ce s u s' H Hidc Hwf) as (Hwf' & Hb & Hin & Hout).
  split; [exact Hwf'|]. split; [exact Hb|]. split; [|exact Hout].
  intros j Hj. destruct (Hin j Hj) as [Hl Hf]. split; [exact Hl|].
  split; [exact Hf|].
  destruct (cbs s' !! j) as [cb'|]; [|reflexivity]. simpl.
  eapply frame_redone_not_in_doubt, Hf.
Qed.

Lemma redo_page_pass_recovers_in_doubt_frames_witness :
  let ce := mk_cenv (mk_env false log_interleaved) true 2 500 in
  let s := sm_open in
  in_doubt_frames s = 2%nat
  /\ exists s',
       _redo_page_pass ce s = Ok (tt, s')
       /\ bf_wf s'
       /\ beside_frames s' = beside_frames s
       /\ (forall j, 1 <= j < block_cnt (c_env ce) ->
                     latch_ok (c_env ce) j = true
                     /\ frame_redone (cbs s !! j) (cbs s' !! j)
                     /\ from_option cb_in_doubt false (cbs s' !! j) = false)
       /\ (forall j, ~ (1 <= j < block_cnt (c_env ce)) ->
                     cbs s' !! j = cbs s !! j).
Proof.
  intros ce s. split; [vm_compute; reflexivity|].
  eexists. split; [vm_compute; reflexivity|].
  apply (redo_page_pass_recovers_in_doubt_frames ce s tt).
  - vm_compute. reflexivity.
  - discriminate.
  - apply bf_wfb_spec. vm_compute. reflexivity.
Defined.

Lemma redo_page_frame_total ce i root s :
  bf_wf s ->
  latch_ok (c_env ce) i = true ->
  (forall vol page, disk_read (c_env ce) vol page <> LoadError) ->
  (forall ev, rc_ok (c_env ce) ev = true) ->
  (forall idx l, is_Some (spr_result (c_env ce) idx l)) ->
  exists r s', redo_page_frame ce i root s = Ok (r, s').
Proof.
  intros [Hwf1 Hwf2] Hlatch Hdisk Hrc Hspr. unfold redo_page_frame.
  rewrite Hlatch. cbn [negb]. mrun.
  destruct (cbs s !! i) as [cb|] eqn:Hcb; [|eauto].
  destruct (cb_in_doubt cb) eqn:Hd; [|eauto].
  pose proof (Hwf2 _ _ Hcb Hd) as Hk. destruct (Hwf1 _ _ Hk) as [Hi0 _].
  unfold lookup_in_doubt. mrun. unfold cb_key in Hk. rewrite Hk.
  cbn [default id]. destruct (N.eqb_spec 0 i) as [E|_]; [congruence|].
  unfold load_for_redo, coerce, when, page_lsn_of, in_doubt_to_dirty,
    cb_modify, emit.
  mrun. rewrite Hrc.
  specialize (Hdisk (cb_pid_vol cb) (cb_pid_shpid cb)).
  destruct (disk_read (c_env ce) (cb_pid_vol cb) (cb_pid_shpid cb));
    try contradiction; mrun.
  all: cbn [fst snd orb]; mrun.
  all: match goal with
       | |- context [negb (N.eqb ?a ?b)] => destruct (negb (N.eqb a b))
       end; mrun.
  all: destruct (Hspr i (dependency_lsn ce i)) as [l ->]; mrun; eauto.
Qed.

Lemma redo_page_loop_total ce n :
  (forall vol page, disk_read (c_env ce) vol page <> LoadError) ->
  (forall ev, rc_ok (c_env ce) ev = true) ->
  (forall idx l, is_Some (spr_result (c_env ce) idx l)) ->
  forall i root s,
    bf_wf s ->
    (forall j, i <= j < i + N.of_nat n -> latch_ok (c_env ce) j = true) ->
    exists s', redo_page_loop ce n i root s = Ok (tt, s').
Proof.
  intros Hdisk Hrc Hspr.
  induction n as [|n IH]; intros i root s Hwf Hlatch; simpl.
  - eauto.
  - destruct (redo_page_frame_total ce i root s Hwf) as (r & s1 & Hf); auto.
    { apply Hlatch. lia. }
    rewrite (bind_Ok _ _ _ _ _ Hf).
    apply redo_page_frame_spec in Hf; [|exact Hwf].
    destruct Hf as (_ & _ & _ & _ & Hwf1).
    apply IH; [exact Hwf1|]. intros j Hj. apply Hlatch. lia.
Qed.

(** X8. Page driven REDO returns when every frame from 1 to [block_cnt - 1]
    can be latched, no read of a page fails with an error other than a bad
    checksum, fixing a page and single page recovery succeed, and the hash
    table and the control blocks agree. *)
Theorem redo_page_pass_returns ce s :
  bf_wf s ->
  (forall j, 1 <= j < block_cnt (c_env ce) -> latch_ok (c_env ce) j = true) ->
  (forall vol page, disk_read (c_env ce) vol page <> LoadError) ->
  (forall ev, rc_ok (c_env ce) ev = true) ->
  (forall idx l, is_Some (spr_result (c_env ce) idx l)) ->
  exists s', _redo_page_pass ce s = Ok (tt, s').
Proof.
  intros Hwf Hlatch Hdisk Hrc Hspr. unfold _redo_page_pass.
  destruct (N.eqb 0 (g_in_doubt_count ce)); [eauto|].
  unfold call, emit. mrun.
  apply redo_page_loop_total; auto.
  intros j Hj. apply Hlatch. lia.
Qed.

Lemma redo_page_pass_returns_witness :
  exists s',
    _redo_page_pass (mk_cenv (mk_env false log_interleaved) true 2 500)
                    sm_open = Ok (tt, s').
Proof.
  apply (redo_page_pass_returns
           (mk_cenv (mk_env false log_interleaved) true 2 500) sm_open).
  - apply bf_wfb_spec. vm_compute. reflexivity.
  - intros j _. reflexivity.
  - intros vol page. discriminate.
  - intros ev. reflexivity.
  - intros idx l. exists l. reflexivity.
Defined.

(** ** Reverse UNDO, whatever the log *)

Lemma rollback_tab_step e fuel tid save s a s' :
  rollback e fuel tid save s = Ok (a, s') ->
  tab_step tid (xct_tab s) (xct_tab s').
Proof.
  unfold rollback, coerce, emit. intros H. mrun_in H.
  destruct (rc_ok e (EvRollback tid save)); [|discriminate H].
  cbv iota in H. mrun_in H.
  apply rollback_loop_tab_step in H. exact H.
Qed.

Lemma undo_loop_table e fuel :
  forall h s h' s',
    undo_loop e fuel h s = Ok (h', s') ->
    h' ≡ₚ h
    /\ List.map x_tid (xct_tab s') = List.map x_tid (xct_tab s)
    /\ (forall tid, ~ In tid h ->
                    look_up tid (xct_tab s') = look_up tid (xct_tab s)).
Proof.
  induction fuel as [|fuel IH]; intros h s h' s' H.
  - simpl in H. mrun_in H. destruct h as [|xd h]; [discriminate H|].
    destruct (negb _); [discriminate H|].
    apply ret_inv_Ok in H. destruct H as [-> ->]. auto.
  - rewrite undo_loop_S in H. mrun_in H.
    destruct h as [|xd h]; [discriminate H|].
    destruct (negb _).
    2:{ apply ret_inv_Ok in H. destruct H as [-> ->]. auto. }
    cbv zeta in H.
    assert (Hstep : exists s1,
               tab_step xd (xct_tab s) (xct_tab s1)
               /\ undo_loop e fuel (ReplacedFirst (xct_tab s1) (xd :: h)) s1
                  = Ok (h', s')).
    { destruct (_ && _).
      - unfold set_undo_nxt, xct_modify in H. mrun_in H.
        exists (set_xct_tab (xct_alter (with_undo_nxt lsn_null) xd (xct_tab s)) s).
        split; [|exact H]. sm_proj.
        apply tab_step_alter. reflexivity.
      - apply bind_inv_Ok in H. destruct H as (u & s1 & Hr & H).
        mrun_in H. exists s1. split; [|exact H].
        eapply rollback_tab_step, Hr. }
    destruct Hstep as (s1 & [Hmap Hlook] & Hrest).
    apply IH in Hrest. destruct Hrest as (Hp & Hmap' & Hframe).
    pose proof (heap_insert_perm (xct_tab s1) xd h) as Hperm.
    change (heap_insert (xct_tab s1) xd h)
      with (ReplacedFirst (xct_tab s1) (xd :: h)) in Hperm.
    split; [rewrite Hp; exact Hperm|]. split; [congruence|].
    intros tid Hnin. rewrite Hframe.
    + apply Hlook. intros ->. apply Hnin. left. reflexivity.
    + intros Hin. apply Hnin. apply (Permutation_in _ Hperm), Hin.
Qed.

Lemma undo_drain_table e fuel h :
  forall s u s',
    undo_drain e fuel h s = Ok (u, s') ->
    NoDup (List.map x_tid (xct_tab s)) ->
    NoDup (List.map x_tid (xct_tab s'))
    /\ (forall x, In x h -> look_up x (xct_tab s') = None)
    /\ (forall x, ~ In x h -> look_up x (xct_tab s') = look_up x (xct_tab s)).
Proof.
  induction h as [|xd h IH]; intros s u s' H Hnd; simpl in H.
  - apply ret_inv_Ok in H. destruct H as [_ ->].
    split; [exact Hnd|]. split; [intros x []|auto].
  - apply bind_inv_Ok in H. destruct H as (u1 & s1 & Hab & H).
    apply abort_tab_step in Hab. destruct Hab as [Hmap Hlook].
    unfold destroy_xct, emit in H. mrun_in H.
    apply IH in H; [|sm_proj; apply NoDup_remove; rewrite Hmap; exact Hnd].
    sm_proj_in H. destruct H as (Hnd' & Hgone & Hframe).
    split; [exact Hnd'|]. split.
    + intros x Hx. destruct (in_dec N.eq_dec x h) as [Hin|Hnin];
        [apply Hgone, Hin|].
      destruct Hx as [<-|Hx]; [|contradiction].
      rewrite Hframe by exact Hnin.
      apply look_up_remove_eq. rewrite Hmap. exact Hnd.
    + intros x Hnin.
      rewrite Hframe by (intros Hin; apply Hnin; right; exact Hin).
      assert (Hne : x <> xd) by (intros ->; apply Hnin; left; reflexivity).
      rewrite look_up_remove_ne by exact Hne. apply Hlook, Hne.
Qed.

Lemma undo_reverse_pass_table e fuel heap c u s a s' :
  undo_reverse_pass e fuel heap c u s = Ok (a, s') ->
  NoDup (List.map x_tid (xct_tab s)) ->
  (forall x, In x (undo_heap e heap (xct_tab s)) ->
             look_up x (xct_tab s') = None)
  /\ (forall x, ~ In x (undo_heap e heap (xct_tab s)) ->
                look_up x (xct_tab s') = look_up x (xct_tab s))
  /\ (undo_heap e heap (xct_tab s) <> [] -> last (trace s') = Some EvFlushAll).
Proof.
  intros H Hnd.
  assert (Hrun : undo_reverse_pass e fuel heap c u s
                 = (let h := undo_heap e heap (xct_tab s) in
                    if Nat.eqb (length h) 0 then ret tt
                    else
                      call e EvLogComment ;;;
                      h' <- (if Nat.ltb 1 (length h)
                             then undo_loop e fuel h else ret h) ;;
                      undo_drain e fuel h' ;;;
                      coerce e EvFlushAll)
                     (add_event (EvFunc f_undo_pass) s)).
  { unfold undo_reverse_pass, undo_heap, emit. mrun.
    destruct (negb (use_serial_recovery e) && use_undo_reverse_recovery e);
      mrun; reflexivity. }
  rewrite Hrun in H. clear Hrun. cbv zeta in H.
  set (h := undo_heap e heap (xct_tab s)) in *.
  destruct h as [|xd h0] eqn:Hh.
  { simpl in H. apply ret_inv_Ok in H. destruct H as [_ ->].
    split; [intros x []|]. split; [reflexivity|congruence]. }
  rewrite <- Hh in *.
  assert (Hlen0 : Nat.eqb (length h) 0 = false) by (rewrite Hh; reflexivity).
  rewrite Hlen0 in H. unfold call, emit in H. mrun_in H.
  apply bind_inv_Ok in H. destruct H as (h' & s1 & Hloop & H).
  apply bind_inv_Ok in H. destruct H as (u1 & s2 & Hdrain & H).
  assert (Hl : h' ≡ₚ h
               /\ List.map x_tid (xct_tab s1) = List.map x_tid (xct_tab s)
               /\ (forall tid, ~ In tid h ->
                     look_up tid (xct_tab s1) = look_up tid (xct_tab s))).
  { destruct (Nat.ltb 1 (length h)).
    - apply undo_loop_table in Hloop. exact Hloop.
    - apply ret_inv_Ok in Hloop. destruct Hloop as [-> ->]. auto. }
  destruct Hl as (Hp & Hmap & Hframe).
  apply undo_drain_table in Hdrain; [|rewrite Hmap; exact Hnd].
  destruct Hdrain as (_ & Hgone & Hframe2).
  unfold coerce, emit in H. mrun_in H.
  destruct (rc_ok e EvFlushAll); [|discriminate H].
  cbv iota in H. mrun_in H. injection H as _ H. subst s'. sm_proj.
  split; [|split].
  - intros x Hx. apply Hgone.
    apply (Permutation_in _ (Permutation_sym Hp)), Hx.
  - intros x Hnin. rewrite Hframe2.
    + apply Hframe, Hnin.
    + intros Hin. apply Hnin. apply (Permutation_in _ Hp), Hin.
  - intros _. apply last_snoc.
Qed.

(** X9. When reverse UNDO returns on a table of distinct tids, whatever the
    log: the transactions of its heap are no longer in the table, every
    other transaction is in the table as it was, and when the heap was not
    empty the flush of the log is the last thing that happened. *)
Theorem undo_reverse_pass_destroys_heap_transactions e fuel heap c u s a s' :
  undo_reverse_pass e fuel heap c u s = Ok (a, s') ->
  NoDup (List.map x_tid (xct_tab s)) ->
  (forall tid, In tid (undo_heap e heap (xct_tab s)) ->
               look_up tid (xct_tab s') = None)
  /\ (forall tid, ~ In tid (undo_heap e heap (xct_tab s)) ->
                  look_up tid (xct_tab s') = look_up tid (xct_tab s))
  /\ (undo_heap e heap (xct_tab s) <> [] ->
      last (trace s') = Some EvFlushAll).
Proof. apply undo_reverse_pass_table. Qed.

Lemma undo_reverse_pass_destroys_heap_transactions_witness :
  let e := mk_env false log_interleaved in
  let s := sm_open in
  undo_heap e [] (xct_tab s) = [8; 7]
  /\ exists s',
       undo_reverse_pass e 100 [] 700 500 s = Ok (tt, s')
       /\ (forall tid, In tid (undo_heap e [] (xct_tab s)) ->
                       look_up tid (xct_tab s') = None)
       /\ (forall tid, ~ In tid (undo_heap e [] (xct_tab s)) ->
                       look_up tid (xct_tab s') = look_up tid (xct_tab s))
       /\ (undo_heap e [] (xct_tab s) <> [] ->
           last (trace s') = Some EvFlushAll).
Proof.
  intros e s. split; [vm_compute; reflexivity|].
  eexists. split; [vm_compute; reflexivity|].
  apply (undo_reverse_pass_destroys_heap_transactions e 100 [] 700 500 s tt).
  - vm_compute. reflexivity.
  - apply (bool_decide_unpack _). vm_compute. exact I.
Defined.

(** ** The restart thread *)

Lemma cbind_inv_COk {A B} (c : CM A) (k : A -> CM B) s b s2 :
  cbind c k s = COk (b, s2) ->
  exists a s1, c s = COk (a, s1) /\ k a s1 = COk (b, s2).
Proof.
  unfold cbind. destruct (c s) as [[a s1]| |]; try discriminate. eauto.
Qed.

Lemma lift_inv_COk {A} (c : M A) s x : lift c s = COk x -> c s = Ok x.
Proof. unfold lift. destruct (c s); try discriminate. congruence. Qed.

Lemma synch_take_spec e s u s' :
  call e EvSynchTake s = Ok (u, s') ->
  trace s' = trace s ++ [EvSynchTake]
  /\ xct_tab s' = xct_tab s /\ cbs s' = cbs s /\ hashtable s' = hashtable s
  /\ operating_mode s' = operating_mode s
  /\ swizzling_enabled s' = swizzling_enabled s
  /\ commit_lsn_global s' = commit_lsn_global s.
Proof.
  unfold call, emit. intros H. mrun_in H. injection H as _ H. subst s'.
  repeat split.
Qed.

Lemma Heapify_In t h x : In x (Heapify t h) <-> In x h.
Proof.
  split; apply Permutation_in; [|symmetry]; apply Heapify_perm.
Qed.

Lemma undo_concurrent_spec ce fuel s u s' :
  undo_concurrent ce fuel s = COk (u, s') ->
  NoDup (List.map x_tid (xct_tab s)) ->
  use_serial_recovery (c_env ce) = false
  /\ (forall x, In x (xct_tab s) -> doomed_active x = true ->
                x_undo_nxt x <> lsn_null -> x_is_sys_xct x = false ->
                look_up (x_tid x) (xct_tab s') = None)
  /\ (forall x, In x (xct_tab s) -> doomed_active x = false ->
                look_up (x_tid x) (xct_tab s') = Some x)
  /\ last (trace s') = Some EvSynchTake.
Proof.
  intros H Hnd. unfold undo_concurrent in H.
  destruct (use_serial_recovery (c_env ce)) eqn:Hser; [discriminate H|].
  split; [reflexivity|].
  apply cbind_inv_COk in H. destruct H as (u1 & s1 & Hpass & Hck).
  apply lift_inv_COk, synch_take_spec in Hck.
  destruct Hck as (Htr & Htab & _).
  rewrite Htab, Htr. rewrite last_snoc.
  assert (Hgoal :
    (forall x, In x (xct_tab s) -> doomed_active x = true ->
               x_undo_nxt x <> lsn_null -> x_is_sys_xct x = false ->
               look_up (x_tid x) (xct_tab s1) = None)
    /\ (forall x, In x (xct_tab s) -> doomed_active x = false ->
                  look_up (x_tid x) (xct_tab s1) = Some x));
    [|destruct Hgoal; auto].
  destruct (_ || _); [|discriminate Hpass].
  destruct (use_undo_reverse_recovery (c_env ce)) eqn:Hrev.
  - apply lift_inv_COk in Hpass. mrun_in Hpass.
    apply undo_reverse_pass_table in Hpass; [|exact Hnd].
    destruct Hpass as (Hgone & Hframe & _).
    unfold undo_heap in Hgone, Hframe. rewrite Hser, Hrev in Hgone, Hframe.
    cbn [negb andb app] in Hgone, Hframe.
    split.
    + intros x Hx Hda _ _. apply Hgone, Heapify_In, in_map, filter_In. auto.
    + intros x Hx Hda. rewrite Hframe; [apply look_up_NoDup; assumption|].
      intros Hin. apply Heapify_In, in_map_iff in Hin.
      destruct Hin as (y & Heq & Hy). apply filter_In in Hy.
      destruct Hy as [Hy Hyda].
      assert (y = x); [|congruence].
      pose proof (look_up_NoDup _ _ Hnd Hx) as H1.
      pose proof (look_up_NoDup _ _ Hnd Hy) as H2.
      rewrite Heq in H2. congruence.
  - destruct (use_undo_txn_recovery (c_env ce)); [|discriminate Hpass].
    apply lift_inv_COk in Hpass.
    destruct (undo_txn_pass_table _ _ _ _ _ Hpass Hnd) as (Hg & Hk & _).
    auto.
Qed.

Lemma redo_concurrent_spec ce s u s' :
  redo_concurrent ce s = COk (u, s') ->
  use_redo_log_recovery (c_env ce) = true \/ use_redo_page_recovery ce = true ->
  bf_wf s ->
  g_in_doubt_count ce = N.of_nat (in_doubt_frames s) ->
  g_in_doubt_count ce < uint32_modulus ->
  (forall j cb, cbs s !! j = Some cb -> cb_in_doubt cb = true ->
                1 <= j < block_cnt (c_env ce)) ->
  use_serial_recovery (c_env ce) = false
  /\ (forall j cb, cbs s' !! j = Some cb -> cb_in_doubt cb = false)
  /\ xct_tab s' = xct_tab s
  /\ hashtable s' = hashtable s
  /\ operating_mode s' = operating_mode s
  /\ last (trace s') = Some EvSynchTake.
Proof.
  intros H Hpol Hwf Hidc Hlt Hrange. unfold redo_concurrent in H.
  destruct (use_serial_recovery (c_env ce)) eqn:Hser; [discriminate H|].
  split; [reflexivity|].
  apply cbind_inv_COk in H. destruct H as (u1 & s1 & Hpass & Hck).
  apply lift_inv_COk, synch_take_spec in Hck.
  destruct Hck as (Htr & Htab & Hcbs & Hhash & Hmode & _).
  rewrite Htab, Hcbs, Hhash, Hmode, Htr, last_snoc.
  assert (Hgoal :
    (forall j cb, cbs s1 !! j = Some cb -> cb_in_doubt cb = false)
    /\ xct_tab s1 = xct_tab s /\ hashtable s1 = hashtable s
    /\ operating_mode s1 = operating_mode s);
    [|destruct Hgoal as (? & ? & ? & ?); auto].
  assert (Hzero : g_in_doubt_count ce = 0 ->
                  forall j cb, cbs s !! j = Some cb -> cb_in_doubt cb = false).
  { intros H0. apply count_in_doubt_zero. unfold in_doubt_frames in Hidc. lia. }
  destruct (use_redo_log_recovery (c_env ce)) eqn:Hlog.
  - apply lift_inv_COk in Hpass.
    destruct (N.eqb_spec 0 (g_in_doubt_count ce)) as [E|E]; cbn [negb when] in Hpass.
    + apply ret_inv_Ok in Hpass. destruct Hpass as [_ ->].
      split; [apply Hzero; congruence|auto].
    + mrun_in Hpass.
      pose proof (redo_log_pass_in_doubt_zero _ _ _ _ _ _ _ Hpass Hidc Hlt) as H0.
      assert (Hpres : pres (fun s => (hashtable s, operating_mode s))
                        (redo_log_pass (c_env ce) (g_redo_lsn ce) (curr_lsn s)
                                       (g_in_doubt_count ce)))
        by (apply pres_redo_log_pass_gen; intros; reflexivity).
      specialize (Hpres _ _ _ Hpass). injection Hpres as Hh Hm.
      destruct (redo_log_pass_keeps_table _ _ _ _ _ _ _ Hpass) as [Ht _].
      split; [apply count_in_doubt_zero, H0|auto].
  - destruct Hpol as [Hl|Hpage]; [discriminate Hl|]. rewrite Hpage in Hpass.
    apply lift_inv_COk in Hpass.
    destruct (N.eq_dec (g_in_doubt_count ce) 0) as [E|E].
    + unfold _redo_page_pass in Hpass. rewrite E in Hpass. simpl in Hpass.
      apply ret_inv_Ok in Hpass. destruct Hpass as [_ ->].
      split; [apply Hzero; exact E|auto].
    + destruct (redo_page_pass_spec ce s u1 s1 Hpass E Hwf)
        as (_ & Hb & Hin & Hout).
      unfold beside_frames in Hb. injection Hb as Hh Ht _ _ Hm _ _.
      split; [|auto].
      intros j cb Hj.
      destruct (decide (1 <= j < block_cnt (c_env ce))) as [Hr|Hr].
      * destruct (Hin j Hr) as [_ Hf]. rewrite Hj in Hf.
        eapply frame_redone_not_in_doubt, Hf.
      * rewrite (Hout j Hr) in Hj.
        destruct (cb_in_doubt cb) eqn:Hd; [|reflexivity].
        exfalso. apply Hr. eapply Hrange; eassumption.
Qed.

(** X10. When [undo_concurrent] returns, the policy is not the serial one
    and a synchronous checkpoint was taken last. Of the transactions of a
    table with distinct tids, the doomed active ones with records to undo
    (system transactions apart) are gone, and one that is not a doomed
    active transaction is in the table as it was. *)
Theorem undo_concurrent_removes_doomed_transactions ce fuel s u s' :
  undo_concurrent ce fuel s = COk (u, s') ->
  NoDup (List.map x_tid (xct_tab s)) ->
  use_serial_recovery (c_env ce) = false
  /\ (forall x, In x (xct_tab s) -> doomed_active x = true ->
                x_undo_nxt x <> lsn_null -> x_is_sys_xct x = false ->
                look_up (x_tid x) (xct_tab s') = None)
  /\ (forall x, In x (xct_tab s) -> doomed_active x = false ->
                look_up (x_tid x) (xct_tab s') = Some x)
  /\ last (trace s') = Some EvSynchTake.
Proof. apply undo_concurrent_spec. Qed.

Lemma undo_concurrent_removes_doomed_transactions_witness :
  let ce := mk_cenv (mk_env false log_interleaved) false 2 500 in
  let s := sm_open in
  List.map x_tid (xct_tab s) = [8; 7]
  /\ exists s',
       undo_concurrent ce 100 s = COk (tt, s')
       /\ use_serial_recovery (c_env ce) = false
       /\ (forall x, In x (xct_tab s) -> doomed_active x = true ->
                     x_undo_nxt x <> lsn_null -> x_is_sys_xct x = false ->
                     look_up (x_tid x) (xct_tab s') = None)
       /\ (forall x, In x (xct_tab s) -> doomed_active x = false ->
                     look_up (x_tid x) (xct_tab s') = Some x)
       /\ last (trace s') = Some EvSynchTake.
Proof.
  intros ce s. split; [vm_compute; reflexivity|].
  eexists. split; [vm_compute; reflexivity|].
  apply (undo_concurrent_removes_doomed_transactions ce 100 s tt).
  - vm_compute. reflexivity.
  - apply (bool_decide_unpack _). vm_compute. exact I.
Defined.

(** X11. When [redo_concurrent] returns under the log driven or the page
    driven policy, entered with the number of in_doubt frames in
    [smlevel_0::in_doubt_count] and a buffer pool whose hash table and
    control blocks agree and whose in_doubt frames are frames 1 to
    [block_cnt - 1]: the policy is not the serial one, no frame is in_doubt
    any more, the transaction table, the hash table and the operating mode
    are as they were, and a synchronous checkpoint was taken last. *)
Theorem redo_concurrent_leaves_no_in_doubt_frame ce s u s' :
  redo_concurrent ce s = COk (u, s') ->
  use_redo_log_recovery (c_env ce) = true \/ use_redo_page_recovery ce = true ->
  bf_wf s ->
  g_in_doubt_count ce = N.of_nat (in_doubt_frames s) ->
  g_in_doubt_count ce < uint32_modulus ->
  (forall j cb, cbs s !! j = Some cb -> cb_in_doubt cb = true ->
                1 <= j < block_cnt (c_env ce)) ->
  use_serial_recovery (c_env ce) = false
  /\ (forall j cb, cbs s' !! j = Some cb -> cb_in_doubt cb = false)
  /\ xct_tab s' = xct_tab s
  /\ hashtable s' = hashtable s
  /\ operating_mode s' = operating_mode s
  /\ last (trace s') = Some EvSynchTake.
Proof. apply redo_concurrent_spec. Qed.

Lemma redo_concurrent_leaves_no_in_doubt_frame_witness :
  let ce := mk_cenv (mk_env false log_interleaved) false 2 500 in
  let s := sm_open in
  in_doubt_frames s = 2%nat
  /\ exists s',
       redo_concurrent ce s = COk (tt, s')
       /\ use_serial_recovery (c_env ce) = false
       /\ (forall j cb, cbs s' !! j = Some cb -> cb_in_doubt cb = false)
       /\ xct_tab s' = xct_tab s
       /\ hashtable s' = hashtable s
       /\ operating_mode s' = operating_mode s
       /\ last (trace s') = Some EvSynchTake.
Proof.
  intros ce s. split; [vm_compute; reflexivity|].
  eexists. split; [vm_compute; reflexivity|].
  apply (redo_concurrent_leaves_no_in_doubt_frame ce s tt).
  - vm_compute. reflexivity.
  - left. reflexivity.
  - apply bf_wfb_spec. vm_compute. reflexivity.
  - vm_compute. reflexivity.
  - reflexivity.
  - apply in_doubt_within_spec. vm_compute. reflexivity.
Defined.

(** X12. When the restart thread returns, under the log driven or the page
    driven REDO policy and entered as [redo_concurrent] expects with a table
    of distinct tids: the thread is no longer working; REDO ran first and
    left no frame in_doubt and the transaction table alone; UNDO ran on that
    state, the doomed active transactions with records to undo (system
    transactions apart) are gone and a transaction that is not a doomed
    active one is in the table as it was; a synchronous checkpoint was taken
    last. *)
Theorem run_redoes_then_undoes ce fuel s working s' :
  run ce fuel s = COk (working, s') ->
  use_redo_log_recovery (c_env ce) = true \/ use_redo_page_recovery ce = true ->
  bf_wf s ->
  g_in_doubt_count ce = N.of_nat (in_doubt_frames s) ->
  g_in_doubt_count ce < uint32_modulus ->
  (forall j cb, cbs s !! j = Some cb -> cb_in_doubt cb = true ->
                1 <= j < block_cnt (c_env ce)) ->
  NoDup (List.map x_tid (xct_tab s)) ->
  working = false
  /\ exists s1,
       redo_concurrent ce s = COk (tt, s1)
       /\ undo_concurrent ce fuel s1 = COk (tt, s')
       /\ (forall j cb, cbs s1 !! j = Some cb -> cb_in_doubt cb = false)
       /\ xct_tab s1 = xct_tab s
       /\ (forall x, In x (xct_tab s) -> doomed_active x = true ->
                     x_undo_nxt x <> lsn_null -> x_is_sys_xct x = false ->
                     look_up (x_tid x) (xct_tab s') = None)
       /\ (forall x, In x (xct_tab s) -> doomed_active x = false ->
                     look_up (x_tid x) (xct_tab s') = Some x)
       /\ last (trace s') = Some EvSynchTake.
Proof.
  intros H Hpol Hwf Hidc Hlt Hrange Hnd. unfold run in H.
  apply cbind_inv_COk in H. destruct H as ([] & s1 & Hredo & H).
  apply cbind_inv_COk in H. destruct H as ([] & s2 & Hundo & H).
  injection H as <- <-. split; [reflexivity|]. exists s1.
  destruct (redo_concurrent_spec _ _ _ _ Hredo Hpol Hwf Hidc Hlt Hrange)
    as (_ & Hclean & Htab & _).
  rewrite <- Htab in Hnd.
  destruct (undo_concurrent_spec _ _ _ _ _ Hundo Hnd) as (_ & Hgone & Hkeep & Hlast).
  rewrite Htab in Hgone, Hkeep.
  repeat split; assumption.
Qed.

Lemma run_redoes_then_undoes_witness :
  let ce := mk_cenv (mk_env false log_interleaved) false 2 500 in
  let s := sm_open in
  exists s',
    run ce 100 s = COk (false, s')
    /\ xct_tab s' = []
    /\ false = false
    /\ exists s1,
         redo_concurrent ce s = COk (tt, s1)
         /\ undo_concurrent ce 100 s1 = COk (tt, s')
         /\ (forall j cb, cbs s1 !! j = Some cb -> cb_in_doubt cb = false)
         /\ xct_tab s1 = xct_tab s
         /\ (forall x, In x (xct_tab s) -> doomed_active x = true ->
                       x_undo_nxt x <> lsn_null -> x_is_sys_xct x = false ->
                       look_up (x_tid x) (xct_tab s') = None)
         /\ (forall x, In x (xct_tab s) -> doomed_active x = false ->
                       look_up (x_tid x) (xct_tab s') = Some x)
         /\ last (trace s') = Some EvSynchTake.
Proof.
  intros ce s. eexists. split; [vm_compute; reflexivity|].
  split; [reflexivity|].
  apply (run_redoes_then_undoes ce 100 s false).
  - vm_compute. reflexivity.
  - left. reflexivity.
  - apply bf_wfb_spec. vm_compute. reflexivity.
  - vm_compute. reflexivity.
  - reflexivity.
  - apply in_doubt_within_spec. vm_compute. reflexivity.
  - apply (bool_decide_unpack _). vm_compute. exact I.
Defined.

(** ** Where REDO and UNDO start *)

Lemma mount_chase_lsns e fuel l v s l' v' s' :
  mount_chase e fuel l v s = Ok ((l', v'), s') ->
  redo_lsn v' = redo_lsn v /\ undo_lsn v' = undo_lsn v
  /\ in_doubt_count v' = in_doubt_count v
  /\ (l' = lsn_null \/ l' <= redo_lsn v').
Proof.
  revert l v s. induction fuel as [|fuel IH]; intros l v s H; simpl in H.
  - destruct (N.eqb_spec l lsn_null) as [E|E]; cbn [negb andb] in H.
    + apply ret_inv_Ok in H. destruct H as [H _]. simplify_eq. auto.
    + destruct (N.ltb_spec (redo_lsn v) l); [discriminate H|].
      apply ret_inv_Ok in H. destruct H as [H _]. simplify_eq. auto.
  - destruct (N.eqb_spec l lsn_null) as [E|E]; cbn [negb andb] in H.
    { apply ret_inv_Ok in H. destruct H as [H _]. simplify_eq. auto. }
    destruct (N.ltb_spec (redo_lsn v) l).
    + destruct (log_fetch (the_log e) l) as [copy|]; [|discriminate H].
      apply bind_inv_Ok in H. destruct H as (v1 & s1 & Hv & H).
      apply IH in H.
      assert (Hv1 : redo_lsn v1 = redo_lsn v /\ undo_lsn v1 = undo_lsn v
                    /\ in_doubt_count v1 = in_doubt_count v).
      { destruct (kind_eqb (r_type copy) t_dismount_vol);
          apply bind_inv_Ok in Hv; destruct Hv as (u & s2 & _ & Hv);
          apply ret_inv_Ok in Hv; destruct Hv as [-> _]; repeat split. }
      destruct Hv1 as (<- & <- & <-). exact H.
    + apply ret_inv_Ok in H. destruct H as [H _]. simplify_eq. auto.
Qed.

Lemma analysis_sweep_lsns e t v s t' v' s' :
  analysis_sweep e t v s = Ok ((t', v'), s') ->
  redo_lsn v' = redo_lsn v /\ undo_lsn v' = undo_lsn v
  /\ in_doubt_count v' = in_doubt_count v
  /\ last_mount_lsn s' = last_mount_lsn s.
Proof.
  revert v s t' v' s'.
  induction t as [|xd t IH]; intros v s t' v' s' H; simpl in H.
  - apply ret_inv_Ok in H. destruct H as [H ->]. simplify_eq. auto.
  - destruct (bool_decide (x_state xd = xct_active)).
    + apply bind_inv_Ok in H. destruct H as ([t1 v1] & s1 & Hsw & H).
      apply ret_inv_Ok in H. destruct H as [H ->]. cbn [fst snd] in H.
      simplify_eq. apply IH in Hsw. destruct Hsw as (-> & -> & -> & ->).
      destruct (N.ltb _ _), (use_serial_recovery e); auto.
    + destruct (bool_decide (x_state xd = xct_ended)); [|discriminate H].
      apply bind_inv_Ok in H. destruct H as (u & s1 & Hem & H).
      apply IH in H. destruct H as (-> & -> & -> & ->).
      unfold emit in Hem. apply modify_inv_Ok in Hem. subst s1. auto.
Qed.

Lemma analysis_finish_lsns e max_lsn v s v' s' :
  analysis_finish e max_lsn v s = Ok (v', s') ->
  redo_lsn v' = redo_lsn v /\ undo_lsn v' = undo_lsn v
  /\ in_doubt_count v' = in_doubt_count v
  /\ last_mount_lsn s' = last_mount_lsn s.
Proof.
  intros H. unfold analysis_finish in H.
  apply bind_inv_Ok in H. destruct H as (t & s2 & Hg & H).
  apply gets_inv_Ok in Hg. destruct Hg as [-> ->].
  apply bind_inv_Ok in H. destruct H as ([t' v2] & s2 & Hsw & H).
  apply analysis_sweep_lsns in Hsw. destruct Hsw as (<- & <- & <- & <-).
  apply bind_inv_Ok in H. destruct H as (u & s3 & Hm & H).
  apply modify_inv_Ok in Hm. subst s3.
  destruct (use_concurrent_lock_recovery e); [discriminate H|].
  apply ret_inv_Ok in H. destruct H as [Hv Hs]. subst v' s'. cbn [fst snd].
  sm_proj.
  destruct (use_serial_recovery e);
    repeat match goal with |- context [if ?b then _ else _] => destruct b end;
    auto.
Qed.

Lemma clamp_to_master master v :
  master <> lsn_null -> redo_lsn v <> lsn_null -> undo_lsn v <> lsn_null ->
  let va := if N.ltb master (redo_lsn v) then set_redo_lsn master v else v in
  let vb := if N.ltb master (undo_lsn va) then set_undo_lsn master va else va in
  redo_lsn vb <> lsn_null /\ redo_lsn vb <= master
  /\ undo_lsn vb <> lsn_null /\ undo_lsn vb <= master
  /\ in_doubt_count vb = in_doubt_count v.
Proof.
  unfold lsn_null. intros Hm Hr Hu.
  destruct (N.ltb_spec master (redo_lsn v)); cbn zeta;
    [change (undo_lsn (set_redo_lsn master v)) with (undo_lsn v)|];
    destruct (N.ltb_spec master (undo_lsn v)); simpl in *;
    repeat split; lia.
Qed.

(** X13. When [analysis_pass] returns for a master checkpoint that is not
    null, the LSNs at which REDO and UNDO start are not null and not beyond
    the master checkpoint, and the recorded LSN of the last mount is null or
    not beyond the start of REDO when a page is in_doubt. For a null master
    checkpoint there is no log to analyse: the start LSNs are null, no page
    is counted in_doubt, and nothing but the operating mode and the trace
    changes. *)
Theorem analysis_pass_start_lsns e fuel master v0 s v s' :
  analysis_pass e fuel master v0 s = Ok (v, s') ->
  (master <> lsn_null ->
     redo_lsn v <> lsn_null /\ redo_lsn v <= master
     /\ undo_lsn v <> lsn_null /\ undo_lsn v <= master
     /\ (in_doubt_count v <> 0 ->
         last_mount_lsn s' = lsn_null \/ last_mount_lsn s' <= redo_lsn v))
  /\ (master = lsn_null ->
        redo_lsn v = lsn_null /\ undo_lsn v = lsn_null
        /\ in_doubt_count v = 0
        /\ commit_lsn v = commit_lsn v0 /\ heap v = heap v0
        /\ s' = add_event (EvMode t_in_analysis)
                  (set_operating_mode t_in_analysis
                     (add_event (EvFunc f_analysis_pass) s))).
Proof.
  unfold analysis_pass, set_mode, emit. intros H. mrun_in H.
  destruct (N.eqb_spec master lsn_null) as [E|E].
  { apply ret_inv_Ok in H. destruct H as [Hv Hs]. subst v s'.
    split; [intros Hm; contradiction|]. intros _. repeat split. }
  split; [intros _|intros Hm; contradiction]. mrun_in H.
  destruct (log_scan (the_log e) master) as [|[lsn r] rest]; [discriminate H|].
  destruct (negb (kind_eqb (r_type r) t_chkpt_begin)); [discriminate H|].
  apply bind_inv_Ok in H. destruct H as (v1 & s1 & _ & H).
  destruct (N.eqb_spec lsn_null (redo_lsn v1)) as [|Hr]; [discriminate H|].
  destruct (N.eqb_spec lsn_null (undo_lsn v1)) as [|Hu]; [discriminate H|].
  apply bind_inv_Ok in H. destruct H as ([l2 v2] & s2 & Hch & H).
  apply bind_inv_Ok in H. destruct H as (u & s3 & Hm & H).
  apply modify_inv_Ok in Hm. subst s3.
  apply analysis_finish_lsns in H. destruct H as (-> & -> & -> & ->).
  cbn [fst snd] in *. sm_proj.
  assert (Hvb := clamp_to_master master v1 E (not_eq_sym Hr) (not_eq_sym Hu)).
  cbn zeta in Hvb.
  set (vb := if N.ltb master (undo_lsn _) then _ else _) in *.
  destruct Hvb as (Hr1 & Hr2 & Hu1 & Hu2 & Hc).
  destruct (N.eqb_spec 0 (in_doubt_count vb)) as [E0|E0]; cbn [negb] in Hch.
  - apply ret_inv_Ok in Hch. destruct Hch as [Hch _]. simplify_eq.
    repeat split; try assumption. intros Hn. congruence.
  - apply mount_chase_lsns in Hch. destruct Hch as (-> & -> & -> & Hl).
    repeat split; try assumption. intros _. exact Hl.
Qed.

Lemma analysis_pass_start_lsns_witness :
  let e := mk_env false log_interleaved in
  let s := sm_start false 700 in
  exists v s',
    analysis_pass e 100 500 avars_init s = Ok (v, s')
    /\ redo_lsn v = 500
    /\ (500 <> lsn_null ->
          redo_lsn v <> lsn_null /\ redo_lsn v <= 500
          /\ undo_lsn v <> lsn_null /\ undo_lsn v <= 500
          /\ (in_doubt_count v <> 0 ->
              last_mount_lsn s' = lsn_null \/ last_mount_lsn s' <= redo_lsn v))
    /\ (500 = lsn_null ->
          redo_lsn v = lsn_null /\ undo_lsn v = lsn_null
          /\ in_doubt_count v = 0
          /\ commit_lsn v = commit_lsn avars_init /\ heap v = heap avars_init
          /\ s' = add_event (EvMode t_in_analysis)
                    (set_operating_mode t_in_analysis
                       (add_event (EvFunc f_analysis_pass) s))).
Proof.
  intros e s. eexists _, _. split; [vm_compute; reflexivity|].
  split; [reflexivity|].
  apply (analysis_pass_start_lsns e 100 500 avars_init s).
  vm_compute. reflexivity.
Defined.

(** ** Transaction ids *)

Lemma hoare_tids {A} (c : M A) :
  pres tab_proj c -> hoare tids_ok c (fun _ => tids_ok).
Proof.
  intros Hc s a s' Hr Hok. specialize (Hc s a s' Hr). unfold tab_proj in Hc.
  injection Hc as Ht Hn. unfold tids_ok, tids in *. rewrite Ht, Hn. exact Hok.
Qed.

Lemma look_up_None_inv tid t :
  look_up tid t = None -> ~ In tid (List.map x_tid t).
Proof.
  unfold look_up. intros H Hin. apply in_map_iff in Hin.
  destruct Hin as (x & Hx & Hin).
  eapply find_none in H; [|exact Hin]. apply N.eqb_neq in H. contradiction.
Qed.

Lemma xct_alter_tids f tid t :
  (forall x, x_tid (f x) = x_tid x) ->
  List.map x_tid (xct_alter f tid t) = List.map x_tid t.
Proof. intros Hf. apply (tab_step_alter f tid t Hf). Qed.

Lemma xct_modify_tids f tid :
  (forall x, x_tid (f x) = x_tid x) ->
  hoare tids_ok (xct_modify f tid) (fun _ => tids_ok).
Proof.
  intros Hf s a s' H Hok. unfold xct_modify in H.
  apply modify_inv_Ok in H. subst s'. unfold tids_ok, tids in *. sm_proj.
  rewrite xct_alter_tids by exact Hf. exact Hok.
Qed.

Lemma tids_ok_new tid x s :
  x_tid x = tid -> ~ In tid (tids s) -> tid <= nxt_tid s -> tids_ok s ->
  tids_ok (set_xct_tab (x :: xct_tab s) s).
Proof.
  intros Hx Hnin Hle [Hnd Hall]. unfold tids_ok, tids in *. sm_proj. simpl.
  rewrite Hx. split.
  - apply NoDup_cons. split; [rewrite list_elem_of_In; exact Hnin|exact Hnd].
  - apply Forall_cons. split; assumption.
Qed.

Lemma tids_ok_nxt n s :
  nxt_tid s <= n -> tids_ok s -> tids_ok (set_nxt_tid n s).
Proof.
  intros Hle [Hnd Hall]. unfold tids_ok, tids in *. sm_proj.
  split; [exact Hnd|]. eapply Forall_impl; [exact Hall|].
  intros t Ht. simpl in *. lia.
Qed.

Ltac tab_go :=
  repeat first
    [ assumption
    | apply pres_ret | apply pres_gets | apply pres_fatal | apply pres_diverge
    | apply pres_bind; [|intros ?]
    | apply pres_modify; intros; reflexivity
    | apply pres_forM_; intros ?
    | match goal with
      | |- pres _ (when ?b _) => destruct b; unfold when
      | |- pres _ (if ?b then _ else _) => destruct b
      | |- pres _ (match ?x with _ => _ end) => destruct x
      end ].

Ltac tids_frame :=
  apply hoare_tids;
  first [ apply pres_mark_in_doubt; intros; reflexivity
        | apply pres_clear_page_in_doubt; intros; reflexivity
        | apply pres_chkpt_bf_entries; intros; reflexivity
        | unfold xct_look_up, coerce, call, emit, xd_state; tab_go ].

Ltac tids_ret := apply hoare_ret; intros ? Hs; exact Hs.

Ltac tids_alter :=
  first [ apply xct_modify_tids; intros; reflexivity
        | unfold change_state, set_last_lsn, set_first_lsn, set_undo_nxt;
          apply xct_modify_tids; intros; reflexivity ].

Lemma analysis_ssx_tids e lsn r v :
  hoare tids_ok (analysis_ssx e lsn r v) (fun _ => tids_ok).
Proof.
  unfold analysis_ssx.
  apply (hoare_bind _ (fun tid s => tids_ok s /\ ~ In tid (tids s)
                                     /\ tid <= nxt_tid s)).
  { intros s a s' H Hok. unfold nxt_tid_atomic_incr in H.
    mrun_in H. injection H as <- <-. sm_proj.
    split; [apply tids_ok_nxt; [lia|exact Hok]|].
    split; [|lia].
    unfold tids. sm_proj. intros Hin. destruct Hok as [_ Hall].
    rewrite Forall_forall in Hall. apply list_elem_of_In, Hall in Hin. lia. }
  intros tid. cbv beta.
  apply (hoare_bind _ (fun _ => tids_ok)).
  { intros s a s' H (Hok & Hnin & Hle). unfold new_xct in H.
    apply modify_inv_Ok in H. subst s'.
    eapply tids_ok_new; [reflexivity|eassumption..]. }
  intros _.
  eapply hoare_bind; [tids_alter|intros ?; cbv beta].
  eapply hoare_bind; [tids_frame|intros ?; cbv beta].
  apply (hoare_bind _ (fun _ => tids_ok)).
  - destruct (is_page_allocate r || is_page_deallocate r); [tids_frame|].
    destruct (negb (is_skip r)); [|tids_ret].
    destruct (negb (null_pid r)); [|apply hoare_fatal].
    eapply hoare_bind; [tids_frame|intros v1; cbv beta].
    destruct (r_is_multi_page r); [tids_frame|tids_ret].
  - intros v'. eapply hoare_bind; [tids_alter|intros ?; cbv beta]. tids_ret.
Qed.

Lemma analysis_attach_tids max_lsn lsn r :
  hoare tids_ok (analysis_attach max_lsn lsn r) (fun _ => tids_ok).
Proof.
  unfold analysis_attach.
  destruct (negb (N.eqb (r_tid r) tid_null)); [|tids_ret].
  intros s a s' H Hok. unfold xct_look_up in H. mrun_in H.
  destruct (look_up (r_tid r) (xct_tab s)) as [x|] eqn:Hl.
  - assert (Hh : hoare tids_ok
                    (set_last_lsn (r_tid r) lsn ;;; ret (Some (r_tid r)))
                    (fun _ => tids_ok)).
    { eapply hoare_bind; [tids_alter|intros ?; cbv beta]. tids_ret. }
    exact (Hh s a s' H Hok).
  - destruct (_ && _); [|apply ret_inv_Ok in H; destruct H as [_ ->]; exact Hok].
    apply bind_inv_Ok in H. destruct H as (u1 & s1 & Hn & H).
    apply bind_inv_Ok in H. destruct H as (u2 & s2 & Hy & H).
    unfold new_xct in Hn. apply modify_inv_Ok in Hn.
    unfold update_youngest_tid in Hy. apply modify_inv_Ok in Hy.
    assert (Hok2 : tids_ok s2).
    { subst s2 s1. sm_proj.
      set (x := Xct (r_tid r) xct_active lsn lsn_null (r_xid_prev r)
                    false false true).
      assert (Hok1 : tids_ok (set_nxt_tid (N.max (nxt_tid s) (r_tid r)) s))
        by (apply tids_ok_nxt; [lia|exact Hok]).
      apply (tids_ok_new (r_tid r) x) in Hok1; [exact Hok1|reflexivity| |].
      - unfold tids. sm_proj. apply look_up_None_inv, Hl.
      - sm_proj. lia. }
    assert (Hh : hoare tids_ok
                    (set_last_lsn (r_tid r) lsn ;;;
                     set_first_lsn (r_tid r) max_lsn ;;; ret (Some (r_tid r)))
                    (fun _ => tids_ok)).
    { eapply hoare_bind; [tids_alter|intros ?; cbv beta].
      eapply hoare_bind; [tids_alter|intros ?; cbv beta]. tids_ret. }
    exact (Hh s2 a s' H Hok2).
Qed.

Lemma chkpt_xct_entry_tids x y :
  xrec_tid x <= y ->
  hoare (fun s => tids_ok s /\ y <= nxt_tid s) (chkpt_xct_entry x)
        (fun _ s => tids_ok s /\ y <= nxt_tid s).
Proof.
  intros Hle s a s' H [Hok Hy]. unfold chkpt_xct_entry, xct_look_up in H.
  mrun_in H.
  destruct (look_up (xrec_tid x) (xct_tab s)) as [x0|] eqn:Hl;
    [apply ret_inv_Ok in H; destruct H as [_ ->]; auto|].
  destruct (negb _);
    [|apply ret_inv_Ok in H; destruct H as [_ ->]; auto].
  unfold new_xct, set_first_lsn, xct_modify in H. mrun_in H.
  injection H as _ <-. sm_proj. split; [|exact Hy].
  unfold tids_ok, tids. sm_proj. cbn [xct_alter x_tid].
  rewrite N.eqb_refl. cbn [List.map x_tid with_first_lsn].
  destruct Hok as [Hnd Hall]. split.
  - apply NoDup_cons. split; [|exact Hnd].
    rewrite list_elem_of_In. apply look_up_None_inv, Hl.
  - apply Forall_cons. split; [lia|exact Hall].
Qed.

Lemma analysis_end_xct_tids e tid st :
  hoare tids_ok (analysis_end_xct e tid st) (fun _ => tids_ok).
Proof.
  unfold analysis_end_xct.
  apply (hoare_bind _ (fun _ => tids_ok)); [|intros ?; cbv beta].
  - destruct (_ || _); unfold when; [tids_frame|tids_ret].
  - destruct (negb _); unfold when; [tids_alter|tids_ret].
Qed.

Lemma analysis_update_tids e lsn r xd v :
  hoare tids_ok (analysis_update e lsn r xd v) (fun _ => tids_ok).
Proof.
  unfold analysis_update.
  assert (Hxd : forall l, hoare tids_ok (xd_set_undo_nxt xd l) (fun _ => tids_ok)).
  { intros l. unfold xd_set_undo_nxt. destruct xd; [tids_alter|apply hoare_fatal]. }
  apply (hoare_bind _ (fun _ => tids_ok)).
  - destruct (is_page_update r).
    + apply (hoare_bind _ (fun _ => tids_ok)); [|intros ?; cbv beta].
      { destruct (r_is_undo r); unfold when; [apply Hxd|tids_ret]. }
      apply (hoare_bind _ (fun _ => tids_ok)); [|intros ?; cbv beta].
      { destruct (r_is_redo r); [tids_ret|apply hoare_fatal]. }
      destruct (is_page_allocate r || is_page_deallocate r); tids_frame.
    + destruct (r_is_cpsn r).
      * apply (hoare_bind _ (fun _ => tids_ok)); [|intros ?; cbv beta].
        { destruct (r_is_undo r); [apply hoare_fatal|apply Hxd]. }
        destruct (r_is_redo r); [tids_frame|tids_ret].
      * destruct (negb (kind_eqb (r_type r) t_store_operation));
          [apply hoare_fatal|tids_ret].
  - intros v'. apply (hoare_bind _ (fun _ => tids_ok)); [|intros ?; cbv beta; tids_ret].
    destruct (negb (N.eqb (r_tid r) tid_null)); [|tids_ret].
    eapply hoare_bind; [tids_frame|intros o; cbv beta].
    destruct o as [x|]; [|tids_ret].
    destruct (N.ltb lsn (x_first_lsn x)); unfold when; [tids_alter|tids_ret].
Qed.

Lemma chkpt_xct_tab_tids y l :
  Forall (fun x => xrec_tid x <= y) l ->
  hoare (fun s => tids_ok s /\ y <= nxt_tid s) (forM_ l chkpt_xct_entry)
        (fun _ s => tids_ok s /\ y <= nxt_tid s).
Proof.
  induction l as [|x l IH]; intros Hall; simpl.
  - apply hoare_ret. auto.
  - apply Forall_cons in Hall. destruct Hall as [Hx Hall].
    eapply hoare_bind; [apply chkpt_xct_entry_tids, Hx|].
    intros ?. cbv beta. apply IH, Hall.
Qed.

Ltac tids_auto :=
  repeat first
    [ tids_ret
    | apply hoare_fatal
    | apply analysis_update_tids
    | apply analysis_end_xct_tids
    | solve [tids_alter]
    | solve [tids_frame]
    | apply hoare_forM_; intros ?
    | apply (hoare_bind _ (fun _ => tids_ok)); [|intros ?; cbv beta]
    | match goal with
      | |- hoare _ (when ?b _) _ => destruct b; unfold when
      | |- hoare _ (if ?b then _ else _) _ => destruct b
      | |- hoare _ (match ?x with _ => _ end) _ => destruct x
      | |- hoare _ (let '(_, _) := ?x in _) _ => destruct x
      end ].

Lemma chkpt_xct_tab_step r (v : avars) :
  Forall (fun x => xrec_tid x <= r_xct_youngest r) (r_xct_tab r) ->
  hoare tids_ok
        (update_youngest_tid (r_xct_youngest r) ;;;
         forM_ (r_xct_tab r) chkpt_xct_entry ;;;
         ret v)
        (fun _ => tids_ok).
Proof.
  intros Hyoung.
  apply (hoare_bind _ (fun _ s => tids_ok s /\ r_xct_youngest r <= nxt_tid s)).
  { intros s a s' H Hok. unfold update_youngest_tid in H.
    apply modify_inv_Ok in H. subst s'. sm_proj.
    split; [apply tids_ok_nxt; [lia|exact Hok]|lia]. }
  intros ?. cbv beta.
  apply (hoare_bind _ (fun _ s => tids_ok s /\ r_xct_youngest r <= nxt_tid s)).
  { apply chkpt_xct_tab_tids, Hyoung. }
  intros ?. cbv beta. apply hoare_ret. intros s [Hs _]. exact Hs.
Qed.

Lemma analysis_dispatch_tids e master lsn r xd v :
  (kind_eqb (r_type r) t_chkpt_xct_tab = true ->
   Forall (fun x => xrec_tid x <= r_xct_youngest r) (r_xct_tab r)) ->
  hoare tids_ok (analysis_dispatch e master lsn r xd v) (fun _ => tids_ok).
Proof.
  intros Hyoung. unfold analysis_dispatch.
  destruct (r_type r) eqn:Hty.
  all: try match goal with
           | H : r_type _ = t_chkpt_xct_tab |- _ =>
               destruct (N.eqb (num_chkpt_end_handled v) 0); [|tids_ret];
               apply chkpt_xct_tab_step, Hyoung; reflexivity
           end.
  all: tids_auto.
Qed.

Lemma analysis_step_tids e master max_lsn lsn r v :
  (kind_eqb (r_type r) t_chkpt_xct_tab = true ->
   Forall (fun x => xrec_tid x <= r_xct_youngest r) (r_xct_tab r)) ->
  hoare tids_ok (analysis_step e master max_lsn lsn r v) (fun _ => tids_ok).
Proof.
  intros Hyoung. unfold analysis_step.
  destruct (negb (N.eqb lsn (r_lsn_ck r))); [apply hoare_fatal|].
  destruct (r_is_single_sys_xct r); [apply analysis_ssx_tids|].
  apply (hoare_bind _ (fun _ => tids_ok)); [apply analysis_attach_tids|].
  intros xd. apply analysis_dispatch_tids, Hyoung.
Qed.

Lemma chkpt_youngest_ok_In log lsn r :
  chkpt_youngest_ok log = true -> In (lsn, r) log ->
  kind_eqb (r_type r) t_chkpt_xct_tab = true ->
  Forall (fun x => xrec_tid x <= r_xct_youngest r) (r_xct_tab r).
Proof.
  unfold chkpt_youngest_ok. intros H Hin Hk.
  rewrite forallb_forall in H. specialize (H _ Hin). cbn [snd] in H.
  rewrite Hk in H. cbn [negb orb] in H.
  apply Forall_forall. intros x Hx. rewrite forallb_forall in H.
  apply N.leb_le, H, list_elem_of_In, Hx.
Qed.

Lemma analysis_scan_tids e master max_lsn l :
  chkpt_youngest_ok l = true ->
  forall v, hoare tids_ok (analysis_scan e master max_lsn l v)
                  (fun _ => tids_ok).
Proof.
  induction l as [|[lsn r] l IH]; intros Hl v; simpl.
  - tids_ret.
  - simpl in Hl. apply andb_prop in Hl. destruct Hl as [Hr Hl].
    apply (hoare_bind _ (fun _ => tids_ok)); [|intros v'; apply IH, Hl].
    apply analysis_step_tids. intros Hk. cbn [snd] in Hr.
    rewrite Hk in Hr. cbn [negb orb] in Hr.
    apply Forall_forall. intros x Hx. rewrite forallb_forall in Hr.
    apply N.leb_le, Hr, list_elem_of_In, Hx.
Qed.

Lemma log_scan_suffix log start :
  exists l, log = l ++ log_scan log start.
Proof.
  induction log as [|[lsn r] log IH]; simpl; [exists []; reflexivity|].
  destruct (N.ltb lsn start).
  - destruct IH as [l Hl]. exists ((lsn, r) :: l). simpl. congruence.
  - exists []. reflexivity.
Qed.

Lemma chkpt_youngest_ok_app l1 l2 :
  chkpt_youngest_ok (l1 ++ l2) = true -> chkpt_youngest_ok l2 = true.
Proof.
  unfold chkpt_youngest_ok. rewrite forallb_app. intros H.
  apply andb_prop in H. tauto.
Qed.

Lemma doomed_tids_incl t y :
  In y (List.map x_tid (doomed t)) -> In y (List.map x_tid t).
Proof.
  unfold doomed. rewrite !in_map_iff. intros (x & Hx & Hin).
  apply filter_In in Hin. exists x. tauto.
Qed.

Lemma doomed_tids_NoDup t :
  NoDup (List.map x_tid t) -> NoDup (List.map x_tid (doomed t)).
Proof.
  induction t as [|x t IH]; simpl; [auto|].
  intros Hnd. apply NoDup_cons in Hnd. destruct Hnd as [Hx Hnd].
  unfold doomed. simpl. fold (doomed t).
  destruct (bool_decide (x_state x = xct_active)); [|apply IH, Hnd].
  simpl. apply NoDup_cons. split; [|apply IH, Hnd].
  rewrite list_elem_of_In in *. intros Hin. apply Hx, doomed_tids_incl, Hin.
Qed.

Lemma analysis_finish_tids e max_lsn v :
  hoare tids_ok (analysis_finish e max_lsn v) (fun _ => tids_ok).
Proof.
  intros s v' s' H [Hnd Hall]. unfold analysis_finish in H.
  apply bind_inv_Ok in H. destruct H as (t & s2 & Hg & H).
  apply gets_inv_Ok in Hg. destruct Hg as [-> ->].
  apply bind_inv_Ok in H. destruct H as ([t' v2] & s2 & Hsw & H).
  apply bind_inv_Ok in H. destruct H as (u & s3 & Hm & H).
  apply modify_inv_Ok in Hm.
  destruct (use_concurrent_lock_recovery e); [discriminate H|].
  apply ret_inv_Ok in H. destruct H as [_ ->].
  assert (Hp : tab_proj s2 = tab_proj s).
  { eapply (pres_analysis_sweep tab_proj) with (okev := fun _ => true);
      [..|exact Hsw]; intros; reflexivity. }
  unfold tab_proj in Hp. injection Hp as _ Hn.
  apply analysis_sweep_spec in Hsw. destruct Hsw as [Ht' _].
  cbn [fst] in Hm. subst s3 t'. unfold tids_ok, tids in *. sm_proj.
  rewrite List.map_map. cbn [x_tid with_first_lsn].
  change (List.map (fun x => x_tid x) (doomed (xct_tab s)))
    with (List.map x_tid (doomed (xct_tab s))).
  split; [apply doomed_tids_NoDup, Hnd|].
  rewrite Hn. apply Forall_forall. intros y Hy.
  rewrite Forall_forall in Hall. apply Hall.
  rewrite list_elem_of_In in *. apply doomed_tids_incl, Hy.
Qed.

Lemma analysis_pass_tids e fuel master v0 :
  chkpt_youngest_ok (the_log e) = true ->
  hoare tids_ok (analysis_pass e fuel master v0) (fun _ => tids_ok).
Proof.
  intros Hlog. unfold analysis_pass.
  apply (hoare_bind _ (fun _ => tids_ok)); [tids_frame|intros ?; cbv beta].
  apply (hoare_bind _ (fun _ => tids_ok));
    [apply hoare_tids; unfold set_mode, emit; tab_go|intros ?; cbv beta].
  destruct (N.eqb master lsn_null); [tids_ret|].
  apply (hoare_bind _ (fun _ => tids_ok)); [tids_frame|intros c; cbv beta].
  destruct (log_scan_suffix (the_log e) master) as [pre Hpre].
  destruct (log_scan (the_log e) master) as [|[lsn r] rest];
    [apply hoare_fatal|].
  destruct (negb (kind_eqb (r_type r) t_chkpt_begin)); [apply hoare_fatal|].
  assert (Hrest : chkpt_youngest_ok rest = true).
  { rewrite Hpre in Hlog. apply chkpt_youngest_ok_app in Hlog.
    apply (chkpt_youngest_ok_app [(lsn, r)] rest), Hlog. }
  apply (hoare_bind _ (fun _ => tids_ok)); [apply analysis_scan_tids, Hrest|].
  intros v1. cbv beta.
  destruct (N.eqb lsn_null (redo_lsn v1)); [apply hoare_fatal|].
  destruct (N.eqb lsn_null (undo_lsn v1)); [apply hoare_fatal|].
  apply (hoare_bind _ (fun _ => tids_ok)).
  { destruct (negb (N.eqb 0 (in_doubt_count _))); [|tids_ret].
    apply hoare_tids.
    apply pres_mount_chase with (okev := fun _ => true); intros; reflexivity. }
  intros lv. cbv beta.
  apply (hoare_bind _ (fun _ => tids_ok)); [tids_frame|intros ?; cbv beta].
  apply analysis_finish_tids.
Qed.

(** X14. When Log Analysis returns, on a log whose checkpoint transaction
    tables list no transaction younger than the youngest one they record: if
    the ids of the transactions in the table were distinct and not above the
    youngest id handed out, they still are, although single-log system
    transactions take fresh ids during the scan. *)
Theorem analysis_pass_keeps_tids_distinct e fuel master v0 s v s' :
  analysis_pass e fuel master v0 s = Ok (v, s') ->
  chkpt_youngest_ok (the_log e) = true ->
  NoDup (tids s) ->
  Forall (fun t => t <= nxt_tid s) (tids s) ->
  NoDup (tids s') /\ Forall (fun t => t <= nxt_tid s') (tids s').
Proof.
  intros H Hlog Hnd Hall.
  exact (analysis_pass_tids e fuel master v0 Hlog s v s' H (conj Hnd Hall)).
Qed.

Lemma analysis_pass_keeps_tids_distinct_witness :
  let e := mk_env true log_interleaved in
  exists v s',
    analysis_pass e 100 500 avars_init (sm_start false 700) = Ok (v, s')
    /\ tids s' = [8; 7]
    /\ NoDup (tids s') /\ Forall (fun t => t <= nxt_tid s') (tids s').
Proof.
  intros e. eexists _, _. split; [vm_compute; reflexivity|].
  split; [reflexivity|].
  eapply (analysis_pass_keeps_tids_distinct e 100 500 avars_init
            (sm_start false 700)).
  - vm_compute. reflexivity.
  - reflexivity.
  - apply NoDup_nil. exact I.
  - apply Forall_nil. exact I.
Defined.







(** ** Serial recovery and the in_doubt pages *)

Lemma pres_cb_modify_frames f idx : pres frames_of (cb_modify f idx).
Proof.
  unfold cb_modify. apply pres_modify. intros s. unfold frames_of. sm_proj.
  apply dom_alter_L.
Qed.

Ltac dom_go_with tac :=
  repeat first
    [ assumption
    | tac
    | apply pres_ret | apply pres_gets | apply pres_fatal | apply pres_diverge
    | apply pres_bind; [|intros ?]
    | apply pres_cb_modify_frames
    | apply pres_modify; intros; reflexivity
    | match goal with
      | |- pres _ (when ?b _) => destruct b; unfold when
      | |- pres _ (if ?b then _ else _) => destruct b
      | |- pres _ (match ?x with _ => _ end) => destruct x
      end ].
Ltac dom_go := dom_go_with fail.

Ltac dom_prim :=
  unfold in_doubt_to_dirty, load_for_redo, lookup_in_doubt, is_in_doubt,
    is_dirty, is_used, cb_flag, page_lsn_of, xct_look_up, coerce, call, emit,
    set_mode, set_swizzling_enabled.

Lemma pres_frames_redo_log_with_pid e r lsn end_lsn pid dc :
  pres frames_of (_redo_log_with_pid e r lsn end_lsn pid dc).
Proof. unfold _redo_log_with_pid, redo_page_compare. dom_prim. dom_go. Qed.

Lemma pres_frames_redo_scan e serial end_lsn l dc :
  pres frames_of (redo_scan e serial end_lsn l dc).
Proof.
  revert dc. induction l as [|[lsn r] l IH]; intros dc; simpl.
  - apply pres_ret.
  - pose proof (pres_frames_redo_log_with_pid e) as H1.
    assert (H2 : pres frames_of (redo_no_page e lsn r))
      by (apply pres_redo_no_page with (okev := fun _ => true);
          intros; reflexivity).
    dom_go_with ltac:(first [apply IH | apply H1]).
Qed.

Lemma pres_frames_redo_log_pass e redo_lsn end_lsn idc :
  pres frames_of (redo_log_pass e redo_lsn end_lsn idc).
Proof.
  unfold redo_log_pass. pose proof (pres_frames_redo_scan e) as H.
  dom_prim. dom_go_with ltac:(apply H).
Qed.

Lemma in_doubt_frames_le s : (in_doubt_frames s <= size (frames_of s))%nat.
Proof.
  unfold in_doubt_frames, count_in_doubt, frames_of.
  rewrite size_dom. apply map_subseteq_size, map_filter_subseteq.
Qed.

Lemma pres_cbs_set_mode m : pres cbs (set_mode m).
Proof. unfold set_mode, emit. dom_go. Qed.

Lemma pres_cbs_set_swizzling_enabled e b : pres cbs (set_swizzling_enabled e b).
Proof. dom_prim. dom_go. Qed.

Lemma pres_frames_cbs {A} (c : M A) : pres cbs c -> pres frames_of c.
Proof. intros H s a s' Hr. unfold frames_of. rewrite (H s a s' Hr). reflexivity. Qed.

Lemma recover_serial_in_doubt_zero e fuel master s v s' :
  recover e fuel master s = Ok (v, s') ->
  use_serial_recovery e = true ->
  bf_wf s ->
  in_doubt_frames s = 0%nat ->
  N.of_nat (size (cbs s')) < uint32_modulus ->
  in_doubt_frames s' = 0%nat.
Proof.
  intros H Hser Hwf Hz Hsize. unfold recover in H.
  binv H as u0 s0 H0. unfold emit in H0. apply modify_inv_Ok in H0.
  binv H as m s0' Hm. apply gets_inv_Ok in Hm. destruct Hm as [-> ->].
  destruct (negb _); [discriminate H|].
  binv H as org s0' Hm. apply gets_inv_Ok in Hm. destruct Hm as [-> ->].
  binv H as u1 s1 H1.
  binv H as v1 sa Ha.
  binv H as xc sa' Hx. apply gets_inv_Ok in Hx. destruct Hx as [-> ->].
  binv H as u2 s2 H2.
  rewrite Hser in H. cbn [negb] in H.
  binv H as cl s2' Hc. apply gets_inv_Ok in Hc. destruct Hc as [-> ->].
  binv H as u3 s3 H3.
  binv H as u4 s4 H4.
  binv H as u5 s5 H5.
  binv H as u6 s6 H6.
  binv H as u7 s7 H7.
  apply ret_inv_Ok in H. destruct H as [-> Hs]. subst s7.
  (* up to Log Analysis the buffer pool is as it was *)
  assert (Hp1 : pool s1 = pool s).
  { assert (Hp : pool s1 = pool s0).
    { apply when_inv in H1. destruct H1 as [[_ H1]|[_ ->]]; [|reflexivity].
      revert H1. apply (pres_bind pool).
      - apply pres_coerce; intros; reflexivity.
      - intros _. apply pres_modify. reflexivity. }
    rewrite Hp. subst s0. reflexivity. }
  unfold pool in Hp1. injection Hp1 as Hh1 Hc1.
  assert (Hwf1 : bf_wf s1).
  { destruct (bf_counted_pool 0 s s1 Hh1 Hc1) as [Hw _]; [|exact Hw].
    split; [exact Hwf|]. rewrite Hz. reflexivity. }
  assert (Hz1 : in_doubt_frames s1 = 0%nat).
  { unfold in_doubt_frames. rewrite Hc1. exact Hz. }
  destruct (analysis_pass_counted _ _ _ _ _ _ _ Ha Hwf1 Hz1) as [_ Hcount].
  (* after Log Analysis no frame comes or goes *)
  assert (Hc2 : cbs s2 = cbs sa)
    by (apply (pres_call cbs) in H2; [exact H2|intros; reflexivity..]).
  assert (Hc3 : cbs s3 = cbs s2) by (apply pres_cbs_set_mode in H3; exact H3).
  assert (Hc5 : cbs s5 = cbs s4) by (apply pres_cbs_set_mode in H5; exact H5).
  assert (Hc6 : cbs s6 = cbs s5).
  { apply when_inv in H6. destruct H6 as [[_ H6]|[_ ->]]; [|reflexivity].
    binv H6 as u8 s8 H8.
    apply (pres_undo_reverse_pass_gen cbs) in H8; [|intros; reflexivity..].
    apply (pres_call cbs) in H6; [|intros; reflexivity..].
    congruence. }
  assert (Hc7 : cbs s' = cbs s6).
  { apply when_inv in H7. destruct H7 as [[_ H7]|[_ ->]]; [|reflexivity].
    apply pres_cbs_set_swizzling_enabled in H7. exact H7. }
  assert (Hf4 : frames_of s4 = frames_of s3).
  { apply when_inv in H4. destruct H4 as [[_ H4]|[_ ->]]; [|reflexivity].
    binv H4 as u8 s8 H8.
    apply pres_frames_redo_log_pass in H8.
    apply (pres_coerce frames_of) in H4; [|intros; reflexivity..].
    congruence. }
  assert (Hbound : N.of_nat (in_doubt_frames sa) < uint32_modulus).
  { pose proof (in_doubt_frames_le sa) as Hle.
    assert (Hfr : frames_of s' = frames_of sa).
    { unfold frames_of at 1. rewrite Hc7, Hc6, Hc5.
      fold (frames_of s4). rewrite Hf4. unfold frames_of.
      rewrite Hc3, Hc2. reflexivity. }
    rewrite <- Hfr in Hle. unfold frames_of in Hle. rewrite size_dom in Hle.
    lia. }
  rewrite N.mod_small in Hcount by exact Hbound.
  unfold in_doubt_frames at 1. rewrite Hc7, Hc6, Hc5.
  fold (in_doubt_frames s4).
  assert (Hf3 : in_doubt_frames s3 = in_doubt_frames sa)
    by (unfold in_doubt_frames; rewrite Hc3, Hc2; reflexivity).
  apply when_inv in H4. destruct H4 as [[Hnz H4]|[Hnz ->]].
  - binv H4 as u8 s8 H8.
    apply (pres_coerce cbs) in H4; [|intros; reflexivity..].
    unfold in_doubt_frames. rewrite H4. fold (in_doubt_frames s8).
    eapply redo_log_pass_in_doubt_zero; [exact H8| |].
    + rewrite Hf3. exact Hcount.
    + rewrite Hcount. exact Hbound.
  - apply negb_false_iff, N.eqb_eq in Hnz. rewrite Hf3. lia.
Qed.

(** X16. Serial recovery that starts on a buffer pool with no in_doubt
    frame, whose hash table and control blocks agree, returns with no
    in_doubt frame: every page Log Analysis marked in_doubt was turned into
    a dirty page by REDO. The buffer pool holds fewer frames than a 32-bit
    counter can count. *)
Theorem recover_serial_leaves_no_in_doubt_frame e fuel master s v s' :
  recover e fuel master s = Ok (v, s') ->
  use_serial_recovery e = true ->
  bf_wf s ->
  in_doubt_frames s = 0%nat ->
  N.of_nat (size (cbs s')) < uint32_modulus ->
  in_doubt_frames s' = 0%nat
  /\ forall idx cb, cbs s' !! idx = Some cb -> cb_in_doubt cb = false.
Proof.
  intros H Hser Hwf Hz Hsize.
  pose proof (recover_serial_in_doubt_zero _ _ _ _ _ _ H Hser Hwf Hz Hsize)
    as H0.
  split; [exact H0|]. apply count_in_doubt_zero, H0.
Qed.

Lemma recover_serial_leaves_no_in_doubt_frame_witness :
  let e := mk_env true log_interleaved in
  let s := sm_start true 700 in
  exists v s',
    recover e 100 500 s = Ok (v, s')
    /\ in_doubt_count v = 2
    /\ in_doubt_frames s' = 0%nat
    /\ forall idx cb, cbs s' !! idx = Some cb -> cb_in_doubt cb = false.
Proof.
  intros e s. eexists _, _. split; [vm_compute; reflexivity|].
  split; [reflexivity|].
  eapply (recover_serial_leaves_no_in_doubt_frame e 100 500 s).
  - vm_compute. reflexivity.
  - reflexivity.
  - apply bf_wfb_spec. vm_compute. reflexivity.
  - vm_compute. reflexivity.
  - vm_compute. reflexivity.
Defined.

(** ** Block arithmetic of the log buffer *)

Open Scope Z_scope.

Lemma long_of_in z : long_min <= z <= long_max -> long_of z = Some z.
Proof.
  intros H. unfold long_of.
  destruct (Z.leb_spec long_min z); [|lia].
  destruct (Z.leb_spec z long_max); [|lia]. reflexivity.
Qed.

Lemma quot_mul_bounds offset block_size :
  0 < block_size ->
  let r := Z.quot offset block_size * block_size in
  Z.rem r block_size = 0
  /\ (0 <= offset -> r <= offset < r + block_size /\ 0 <= r)
  /\ (offset <= 0 -> offset <= r < offset + block_size /\ r <= 0).
Proof.
  intros Hb r. subst r.
  pose proof (Z.quot_rem' offset block_size) as Hqr.
  split; [apply Z.rem_mul; lia|].
  split; intros Ho.
  - pose proof (Z.rem_bound_pos offset block_size Ho Hb).
    assert (0 <= Z.quot offset block_size) by (apply Z.quot_pos; lia).
    nia.
  - assert (- block_size < Z.rem offset block_size <= 0).
    { pose proof (Z.rem_bound_pos (- offset) block_size ltac:(lia) Hb) as H.
      rewrite Z.rem_opp_l in H by lia. lia. }
    assert (Z.quot offset block_size <= 0).
    { rewrite <- (Z.opp_involutive offset), Z.quot_opp_l by lia.
      assert (0 <= Z.quot (- offset) block_size) by (apply Z.quot_pos; lia).
      lia. }
    nia.
Qed.

Lemma quot_in_long offset block_size :
  0 < block_size ->
  long_min <= offset <= long_max ->
  long_min <= Z.quot offset block_size <= long_max.
Proof.
  intros Hb Ho.
  destruct (quot_mul_bounds offset block_size Hb) as (_ & Hp & Hn).
  destruct (Z.le_ge_cases 0 offset) as [H|H].
  - assert (0 <= Z.quot offset block_size) by (apply Z.quot_pos; lia).
    specialize (Hp H). unfold long_min, long_max in *. nia.
  - assert (Z.quot offset block_size <= 0).
    { rewrite <- (Z.opp_involutive offset), Z.quot_opp_l by lia.
      assert (0 <= Z.quot (- offset) block_size) by (apply Z.quot_pos; lia).
      lia. }
    specialize (Hn H). unfold long_min, long_max in *. nia.
Qed.

Lemma floor_value offset block_size :
  0 < block_size ->
  long_min <= offset <= long_max ->
  _floor offset block_size = Some (Z.quot offset block_size * block_size).
Proof.
  intros Hb Ho. unfold _floor.
  destruct (Z.eqb_spec block_size 0); [lia|].
  rewrite long_of_in by (apply quot_in_long; assumption).
  apply long_of_in.
  destruct (quot_mul_bounds offset block_size Hb) as (_ & Hp & Hn).
  unfold long_min, long_max in *.
  destruct (Z.le_ge_cases 0 offset) as [H|H];
    [specialize (Hp H)|specialize (Hn H)]; lia.
Qed.

(** X17. For a [long] offset and a positive block size, [_floor] returns a
    multiple of the block size less than one block away from the offset: the
    largest one not above an offset that is not negative, but the smallest
    one not below a negative offset, since the division truncates towards
    zero. *)
Theorem floor_rounds_towards_zero offset block_size :
  0 < block_size ->
  long_min <= offset <= long_max ->
  exists r,
    _floor offset block_size = Some r
    /\ Z.rem r block_size = 0
    /\ (0 <= offset -> r <= offset < r + block_size)
    /\ (offset <= 0 -> offset <= r < offset + block_size).
Proof.
  intros Hb Ho. eexists. split; [apply floor_value; assumption|].
  destruct (quot_mul_bounds offset block_size Hb) as (Hr & Hp & Hn).
  split; [exact Hr|]. split; intros H; [apply Hp|apply Hn]; exact H.
Qed.

Lemma floor_rounds_towards_zero_witness :
  _floor (-5) 4 = Some (-4)
  /\ exists r,
       _floor (-5) 4 = Some r
       /\ Z.rem r 4 = 0
       /\ (0 <= -5 -> r <= -5 < r + 4)
       /\ (-5 <= 0 -> -5 <= r < -5 + 4).
Proof.
  split; [reflexivity|].
  apply (floor_rounds_towards_zero (-5) 4).
  - lia.
  - unfold long_min, long_max. lia.
Defined.

(** X18. For an offset that is not negative and a positive block size whose
    sum is a [long], [_ceil] returns the smallest multiple of the block size
    not below the offset; it is the offset exactly when the offset is a
    multiple, and then it is what [_floor] returns. *)
Theorem ceil_rounds_up offset block_size :
  0 <= offset ->
  0 < block_size ->
  offset + block_size <= long_max ->
  exists r,
    _ceil offset block_size = Some r
    /\ Z.rem r block_size = 0
    /\ offset <= r < offset + block_size
    /\ (r = offset <-> Z.rem offset block_size = 0)
    /\ (_floor offset block_size = Some r <-> Z.rem offset block_size = 0).
Proof.
  intros Ho Hb Hmax. unfold _ceil.
  assert (Hlm : long_min < 0) by reflexivity.
  rewrite !long_of_in by lia.
  rewrite !floor_value by lia.
  clear Hlm Hmax.
  eexists. split; [reflexivity|].
  destruct (quot_mul_bounds (offset + block_size - 1) block_size Hb)
    as (Hr & Hp & _).
  destruct (quot_mul_bounds offset block_size Hb) as (Hr0 & Hp0 & _).
  specialize (Hp ltac:(lia)). specialize (Hp0 Ho).
  set (r := Z.quot (offset + block_size - 1) block_size * block_size) in *.
  set (r0 := Z.quot offset block_size * block_size) in *.
  pose proof (Z.quot_rem' offset block_size) as Hqr. fold r0 in Hqr.
  assert (Hr0' : r0 = block_size * Z.quot offset block_size) by (subst r0; lia).
  pose proof (Z.rem_bound_pos offset block_size Ho Hb) as Hrem.
  assert (Hmul : exists k, r = k * block_size) by (eexists; reflexivity).
  assert (Hmul0 : exists k, r0 = k * block_size) by (eexists; reflexivity).
  destruct Hmul as [k Hk]. destruct Hmul0 as [k0 Hk0].
  split; [exact Hr|].
  assert (Hcases : (Z.rem offset block_size = 0 /\ r = offset /\ r0 = offset)
                   \/ (Z.rem offset block_size <> 0 /\ r <> offset /\ r0 <> r)).
  { destruct (Z.eq_dec (Z.rem offset block_size) 0) as [E|E].
    - left. split; [exact E|]. split; [|lia].
      assert (k = k0); [nia|subst k; lia].
    - right. split; [exact E|]. split.
      + intros Heq. apply E. rewrite <- Heq. exact Hr.
      + intros Heq. nia. }
  split; [|split].
  - destruct Hcases as [(E & E1 & E2)|(E & E1 & E2)]; [lia|].
    split; [lia|]. nia.
  - destruct Hcases as [(E & E1 & E2)|(E & E1 & E2)]; tauto.
  - destruct Hcases as [(E & E1 & E2)|(E & E1 & E2)].
    + split; [tauto|]. intros _. congruence.
    + split; [|tauto]. intros Heq. injection Heq as Heq. contradiction.
Qed.

Lemma ceil_rounds_up_witness :
  _ceil 4097 4096 = Some 8192
  /\ exists r,
       _ceil 4097 4096 = Some r
       /\ Z.rem r 4096 = 0
       /\ 4097 <= r < 4097 + 4096
       /\ (r = 4097 <-> Z.rem 4097 4096 = 0)
       /\ (_floor 4097 4096 = Some r <-> Z.rem 4097 4096 = 0).
Proof.
  split; [reflexivity|].
  apply (ceil_rounds_up 4097 4096).
  - lia.
  - lia.
  - unfold long_max. lia.
Defined.

Close Scope Z_scope.
